(* ===== verification/_CoqProject ===== *)
-Q . S2P
Prelude.v
StringFacts.v
Hash.v
PrefixIndex.v
Float32.v
Proto.v
KvPool.v
Scheduler.v
Sampling.v
Cluster.v
AgentKv.v
Config.v
Routing.v
Admission.v
KvStore.v
KvSpec.v
Dispatch.v
Text.v
BTree.v
Json.v
Prompt.v
OpenAi.v
Layers.v
Llama.v
BatchSpec.v
Pipeline.v
PipelineSpec.v
KvTransport.v
Spawn.v
EngineServer.v
EngineLink.v
Launch.v
Supervisor.v
Auth.v
Usage.v
KeyFile.v
Recipe.v
Install.v
Stream.v
AgentGrpc.v
Embed.v
Telemetry.v
Federate.v
Metrics.v
Health.v
Scaling.v
Ctl.v
Operator.v
Chat.v
Carbon.v
RouterMain.v
EndToEnd.v
