(* ===== verification/Prelude.v ===== *)
(** * Cognitora inference: a verification development

    Cognitora is a distributed LLM serving system in Rust: a router takes
    OpenAI-style requests and picks a GPU node for each ([cgn-router]), an agent
    on every node supervises an engine ([cgn-agent]), a native engine decodes
    with continuous batching, alone or cut into a pipeline of layer ranges
    ([cgn-infer]), and a per-node daemon keeps KV blocks in RAM and on disk and
    exchanges them with its peers ([cgn-kvcached], [cgn-kv]). Paths below are
    under [src/rust/libraries] and [src/rust/services].

    ** How a request flows through the files

    A request passes authentication, the rate limiter and its budget ([Auth],
    [Usage]), is admitted ([Admission]), its prompt is cut into chunks and
    chain-hashed ([Hash]), the digests are looked up in the index of who holds
    what ([PrefixIndex]), the nodes known from etcd or gossip ([Cluster]) are
    filtered and scored ([Routing], over [Float32] and [Config]), and it is
    dispatched with retries ([Dispatch]). The tokens that come back are buffered
    or streamed, possibly after a cascade of cheaper models, and charged
    ([Stream]). On the node the agent has started the engine from its
    configuration ([Spawn], [Launch], [Supervisor]); the engine reserves KV blocks
    ([KvPool]), schedules prefill and decode steps ([Scheduler]) of a model
    ([Llama]) that may be split over machines ([Layers], [Pipeline]) and draws
    tokens ([Sampling]); the agent reports its epoch and confirmed claims back
    through etcd ([AgentKv]), with its heartbeats ([Telemetry], [Health]); the
    operator scales and renders what the cluster runs ([Scaling], [Operator]). Blocks that are stored go through [KvStore] and
    between nodes through [KvTransport].

    ** Files

    - [Prelude]: this file; [result] and its bind, machine integers, [chunks].
      [StringFacts], [Text] (strings as code points, UTF-8), [BTree] (iteration in
      key order) and [Json] ([serde_json]'s values and the decoders that
      [Deserialize] derives) hold what several components use of libraries.
    - [Proto]: the messages of [src/proto] that a generation passes through.
    - [Hash]: [cgn-core/src/hash.rs], [prefix_salt] of
      [cgn-router/src/routing/selector.rs], the block hashes of
      [cgn-infer/src/kv/mod.rs]. BLAKE3 is the class [Blake3]; [toy_blake3] is an
      instance for the examples.
    - [PrefixIndex]: [cgn-core/src/prefix.rs], every method of [PrefixIndex].
    - [Float32]: Rust's [f32] and [f64] as the Standard Library's [SpecFloat].
    - [KvPool]: [PrefixCache] and [KvPool] of [cgn-infer/src/kv/mod.rs].
    - [Scheduler]: [cgn-infer/src/scheduler/mod.rs], one definition per method of
      [Scheduler]; the model is the class [BatchModel], the trait of
      [runtime/mod.rs], and the sampler a class.
    - [Sampling]: [cgn-infer/src/sampling/mod.rs] and [sampling_params] of
      [server/types.rs].
    - [Layers]: layer ranges of [cgn-infer/src/model/llama.rs]; [Llama]: the rest
      of that file and the runtimes of [runtime/mod.rs]; [BatchSpec]: batching
      against one sequence alone. The tensor library and the GGUF reader are the
      classes [Candle] and [Gguf]; what batching needs of tensors, that rows do
      not mix, is [CandleRows], with [ToyCandle] as an instance.
    - [Pipeline]: [cgn-infer/src/pipeline/mod.rs], worker and coordinator;
      [PipelineSpec]: the pipeline against the whole model.
    - [Cluster]: [cgn-router/src/cluster]: the node registry, the cache-state
      tracker, the handlers of the etcd watcher ([watch_event]) and the gossip tick.
    - [AgentKv]: [cgn-agent/src/kv_cache_state.rs] and [publish_kv_confirmed] of
      [health.rs].
    - [Spawn]: [cgn-agent/src/engine/spawn.rs]; [Launch]: the command line of
      [cgn-infer/src/main.rs] against it; [Supervisor]:
      [cgn-agent/src/supervisor.rs] over the class [Os], the operating system as a
      function of the log of what the agent has done.
    - [OpenAi]: [cgn-agent/src/engine/openai_http.rs], requests to the engine and
      its event stream; [EngineServer]: [cgn-infer/src/server] and [generate] of
      [engine.rs], the other end; [EngineLink]: the two together.
    - [Prompt]: [cgn-router/src/routing/prompt.rs] and [tokenize.rs]; [Chat]:
      [cgn-router/src/gateway/chat.rs] with the requests of [types.rs];
      [AgentGrpc]: [cgn-agent/src/grpc.rs] and [kvcached.rs]; [EndToEnd]: a chat
      request from the gateway to the engine's server.
    - [Telemetry]: [cgn-agent/src/telemetry.rs] and the GPU readings of
      [health.rs]; [Health]: the rest of [health.rs], [health] of [grpc.rs], and the
      decoding of a node's record by the router.
    - [Scaling]: [cgn-router/src/autoscaler.rs], and [autoscaler.rs], [planner.rs]
      and [controllers/routing_policy.rs] of [cgn-operator]; [Operator]:
      [cgn-k8s/src/crds.rs], [cgn-operator/src/render.rs] and the other controllers.
    - [Embed]: [cgn-router/src/gateway/embed.rs] and [routing/grpc.rs].
    - [Config]: [cgn-core/src/config.rs] and [error.rs].
    - [Routing]: [cgn-router/src/routing/score.rs], [selector.rs], and the
      in-flight counts of [state.rs].
    - [Admission]: [cgn-router/src/admission.rs].
    - [KvStore]: [cgn-kv] ([block.rs], [tier.rs], [ssd.rs], [index.rs]) and
      [cgn-kvcached/src/tiers.rs]; [KvSpec]: its contract and properties;
      [KvTransport]: [cgn-kvcached/src/transport.rs] and [grpc.rs].
    - [Dispatch]: [cgn-router/src/gateway/generate.rs] to the first token, with
      [deadline.rs], [disagg.rs], [federation.rs] and [connect_agent]; [Stream]:
      from the first token to the response, with [cascade.rs], [carbon/mod.rs],
      [gateway/sse.rs] and [serve] of [gateway/chat.rs].
    - [Auth]: [cgn-auth], [build_auth_state] of [cgn-router/src/gateway/mod.rs]
      and the choice of the bucket in [cgn-ratelimit/src/lib.rs]; [Usage]:
      [cgn-router/src/usage.rs] and [gateway/authz.rs], and the order of the
      layers of a request; [KeyFile]: [cgn-ctl/src/key.rs], the file [Auth] reads.
    - [Carbon]: [cgn-router/src/carbon], the providers and the poller behind the
      gate that [Chat] passes.
    - [Ctl]: [cluster.rs], [model.rs] and [etcd.rs] of [cgn-ctl/src], against the
      etcd that [Scaling] and [Cluster] read; [Recipe]: [recipe.rs] there;
      [Install]: [install.rs], [install/single_node.rs] and [bench.rs] there, and
      [cgn-helm].
    - [RouterMain]: [cgn-router/src/main.rs], the start of [state.rs], and the
      watcher of [cluster/watcher.rs] over its connections.
    - [Metrics]: [cgn-router/src/cluster_metrics.rs], [list] of
      [gateway/models.rs], [cgn-power] and [cgn-metrics/src/power.rs]; [Federate]:
      [cgn-metrics/src/scraper.rs].

    ** How the code is rendered

    A shared object behind a lock or in a DashMap is a record or a [gmap], a
    method is a function from state to state and result, and a critical section
    is one step. Where steps of different tasks interleave, the interleaving is
    explicit: traces of actions in [Admission], [KvSpec] and [Routing], the
    reachability relation of [Cluster], the step function of [Scheduler], starts
    and ends of requests in [Usage]. What the code cannot control is an argument:
    clocks, the iteration order of hash maps (classes [DashIter], [RamIter], of
    which only that they list the elements once is assumed), failing disk, index
    and file calls ([Faults], [FsFaults]), failing etcd calls, the outcomes of
    dialing and RPCs ([Env]), what a network delivers ([Delivery]), the answers of
    the operating system ([Os]). A panic of the source is [None]. Unsigned
    integers are [Z]; operations that wrap or saturate write it out ([add_u32],
    [add_u64], [sub_u64], [sat_sub]). Interfaces are classes: [Blake3] and
    [Sha256] for hashing, [BatchModel] for the engine's model, [Candle] for
    tensors, [BlockIndex] with its laws for the store's index, discharged by
    [DashIndex] (dev builds) and [RocksIndex] (keys of 36 bytes), [Bincode],
    [SerdeJson], [Wire] and [UsageFormat] for encodings, [Jwt] for tokens,
    [Reqwest] and [AxumSse] for HTTP. [SerdeJsonPrint] adds that parsing gives
    back what was printed; [ToyJson] is an instance with its laws.

    ** Properties

    - Engine model: batched decoding is decoding alone and caches keep their shape
      ([batched_decode_equiv], [batched_typed]); a pipeline of layer ranges is the
      whole model ([pipeline_refines]); as lemmas, activations survive the wire and
      ranges tile the model.
    - Engine scheduling: the scheduler's safety invariant ([scheduler_safe]), the
      protocol each client sees ([response_protocol]), token limits ([token_limits]),
      As lemmas: what a drawn token satisfies ([sample_correct]), preemption ends
      and is enough ([ensure_room_correct]), pool accounting ([pool_accounting]), a
      preempted sequence forgets what it generated ([preempted_context_lost]), prefix
      reuse, incremental emission, a prompt larger than the pool is never
      answered, a request that makes the sampler panic.
    - From the client to the engine and back: what a chat request asks for is what
      the engine's server reads ([chat_request_reaches_engine]); the adapter's
      tokens are a function of the bytes it is sent ([adapter_stream_correct]), and
      the adapter reads what the server streams ([engine_stream_read]); an engine
      that fails before its first token costs the client nothing
      ([engine_failure_retry]).
    - KV store: refinement of a map under arbitrary failures
      ([stored_blocks_kept]); as lemmas termination of eviction
      ([evict_pass_bounded]), byte accounting, agreement of index and contents, colliding file
      names, a restart. Transport: transfers ([transfer_correct]); as lemmas the
      round trip of frames, that QUIC fails closed and that blocks put at another
      layer are out of reach.
    - Prefixes: the incremental overlap walk is the longest held prefix
      ([longest_prefix_overlap_correct]), what each update changes
      ([prefix_updates_exact]), digests identify prefixes
      ([digest_identifies_prefix]) and, as a lemma, separate tenants
      ([tenant_digests_disjoint]), both under no collision among the messages
      hashed.
      A follow-up finds its conversation ([follow_up_overlap]).
    - Router: a dispatched request tries at most three distinct nodes and leaves no
      count behind ([open_correct]); the slot invariant over all interleavings and
      service of waiters ([admission_invariant], [release_serves]); the pick is
      eligible and the best ([pick_correct], [pick_is_argmax]); as lemmas, session
      affinity ([rendezvous_stable]), reconciliation ([reconcile_correct]) and
      gossip.
    - Cluster: the registry follows etcd over connections that break, but for what
      it missed ([registry_follows_etcd]), what a heartbeat says is what the router
      knows ([heartbeat_reaches_router]), what an engine's metrics page says is what the
      heartbeat says ([engine_load_read]), the agent's claims
      ([confirmed_claims_exact]); draining by hints ([scaling_loop_settles]), sizing
      of pools ([planner_tick_correct]), the rendered objects
      ([rendered_cluster_wired]); as lemmas, what a reconcile reports and that the
      shipped schemas do not fit what the operator reads.
    - Gateway: what a request has passed ([gate_correct]), what embeddings cost and
      leave behind ([embeddings_settled]), budgets survive restarts
      ([usage_survives_restart], a lemma), streamed and buffered answers agree
      ([stream_matches_buffered]), the carbon gate
      ([carbon_gate_exact]); as lemmas, the cascade ([cascade_correct]), that
      buckets cannot be chosen ([bucket_unspoofable]), how far a budget can be
      overshot ([budget_overshoot_bounded]), the listing of models
      ([models_listed]) and the routing service over gRPC ([grpc_forward_correct]).
    - Operations: the commands on key files change the accepted keys as they say
      ([key_commands_exact]); a cordon set by hand holds ([manual_cordon_holds]),
      the documents of models are a store by name and their listing tells drift
      ([model_commands_exact]), recipes are listed once each and start
      ([recipes_listed]), what is written for a single node reads back as it was
      meant ([single_node_config_read]); as lemmas, federated pages ([federation_correct]) and that
      the cluster gauges are an image of the registry ([gauges_mirror_registry]).
    - Agent: command lines ([render_argv_correct]), no process is lost
      ([no_process_lost]), waits end ([waits_end]); as a lemma, pipelines fit the
      engine's command line ([pipeline_group_agrees]).

    ** Fuel

    [chunks] uses the length of the slice ([chunks_fuel_enough]); [admit_loop]
    the length of the wait queue and [ensure_room_loop] one more than the number
    of running sequences, each turn taking one away; [release_loop] one more than
    the turns and parked requests together ([release_loop_spec]); [evict]
    of [AgentKv] the number of published keys; [spill_loop] one more than the
    number of resident blocks, and [spill_while] is the loop without fuel
    ([evict_pass_bounded]);
    the polling loops of [Supervisor] a turn per tenth of a second of the timeout
    ([poll_fuel]) and [LMCACHE_FUEL] seconds, enough because a sleep takes at
    least its time ([waits_end]); [dec] twenty digits, those of a [u64]; [ls_loop]
    the number of folders ([ls_loop_total]); the reader of [Install] the length of
    its text ([toml_fuel]).

    ** Not modelled

    The router's other axum handlers and counters, logs, TLS, NVML, the kernels of
    the tensor library, tokenizers, the controller runtime of kube, the helm
    binary, gossip membership (the crate behind it), the certificate command of the
    command line tool, and the bodies of third-party crates. The
    registry does not change during one dispatch in [Dispatch]; the store's
    operations do not overlap in [KvSpec]; a stream is the list of its items in
    [Stream]; nothing else writes etcd between the two ticks of [Scaling]'s
    end-to-end theorem. *)

From Corelib Require Export ssreflect.
From stdpp Require Export prelude gmap strings list sorting.

(** ** Scope and notations *)

Declare Scope cgn_scope.
Delimit Scope cgn_scope with cgn.
Open Scope cgn_scope.
#[global] Open Scope general_if_scope.
#[export] Set Warnings "-clear-no-such-hyp".

(** Rust's [Result<T, E>]. *)
Inductive result (T E : Type) : Type :=
| Ok (t : T)
| Err (e : E).
Arguments Ok {T E} t.
Arguments Err {T E} e.

(** Rust's [?] operator. *)
Definition result_bind {T U E : Type} (r : result T E) (f : T -> result U E) : result U E :=
  match r with
  | Ok t => f t
  | Err e => Err e
  end.

Notation "'let?' x := r 'in' k" := (result_bind r (fun x => k))
  (at level 10, x pattern, r at level 100, k at level 200) : cgn_scope.

(** ** Machine integers

    A Rust unsigned integer is a [Z] in range; each operation below writes out
    what the source's operator does at the edge of its width. *)

Definition u32_max : Z := 2 ^ 32 - 1.
Definition u64_max : Z := 2 ^ 64 - 1.
Definition is_u32 (z : Z) : Prop := (0 <= z <= u32_max)%Z.
Definition is_u64 (z : Z) : Prop := (0 <= z <= u64_max)%Z.

(** [a.saturating_sub(b)] on an unsigned type. *)
Definition sat_sub (a b : Z) : Z := Z.max 0 (a - b).
(** [a.saturating_mul(b)] and [a.saturating_add(b)] on [u32]. *)
Definition sat_mul_u32 (a b : Z) : Z := Z.min u32_max (a * b).
(** [a + b] on [u32] and [u64] as compiled without overflow checks. *)
Definition add_u32 (a b : Z) : Z := (a + b) mod 2 ^ 32.
Definition add_u64 (a b : Z) : Z := (a + b) mod 2 ^ 64.
(** [fetch_sub] on an [AtomicU64] wraps. *)
Definition sub_u64 (a b : Z) : Z := (a - b) mod 2 ^ 64.

Lemma add_u32_small a b : (0 <= a)%Z -> (0 <= b)%Z -> (a + b <= u32_max)%Z -> add_u32 a b = (a + b)%Z.
Proof. rw /add_u32 /u32_max => ???. rw Z.mod_small //. lia. Qed.

Lemma add_u64_small a b : (0 <= a)%Z -> (0 <= b)%Z -> (a + b <= u64_max)%Z -> add_u64 a b = (a + b)%Z.
Proof. rw /add_u64 /u64_max => ???. rw Z.mod_small //. lia. Qed.

(** ** Slices *)

(** [slice.chunks(n)]: consecutive chunks of [n] elements, the last one
    possibly shorter. The fuel is the slice's length, which is enough for every
    [n > 0] because each chunk consumes at least one element. *)
Fixpoint chunks_fuel {A} (fuel n : nat) (l : list A) : list (list A) :=
  match fuel, l with
  | _, [] => []
  | O, _ => []
  | S fuel', _ => take n l :: chunks_fuel fuel' n (drop n l)
  end.
Definition chunks {A} (n : nat) (l : list A) : list (list A) := chunks_fuel (length l) n l.

Section chunks.
Context {A : Type} (n : nat).
Implicit Types l : list A.

Lemma chunks_fuel_enough l f1 f2 :
  0 < n -> length l <= f1 -> length l <= f2 -> chunks_fuel f1 n l = chunks_fuel f2 n l.
Proof.
  intros Hn. revert l f2. induction f1 as [|f1 IH]; intros [|a l] [|f2] H1 H2; simpl in *; try lia; auto.
  f_equal. apply IH; rw length_drop /=; lia.
Qed.

Lemma chunks_nil : chunks n ([] : list A) = [].
Proof. done. Qed.

Lemma chunks_cons l : 0 < n -> l <> [] -> chunks n l = take n l :: chunks n (drop n l).
Proof.
  intros Hn Hl. destruct l as [|a l]; [done|].
  rw /chunks /=. f_equal. apply chunks_fuel_enough; auto; rw length_drop /=; lia.
Qed.

(** The [i]-th chunk is the slice's window at [i * n]. *)
Lemma chunks_lookup l i :
  0 < n ->
  chunks n l !! i = if decide (i * n < length l) then Some (take n (drop (i * n) l)) else None.
Proof.
  intros Hn. revert l. induction i as [|i IH]; intros l.
  - destruct l as [|a l]; [done|]. rw chunks_cons //=.
  - destruct (decide (l = [])) as [->|Hl].
    { rw chunks_nil lookup_nil. case_decide; simpl in *; [lia|done]. }
    rw chunks_cons //= IH drop_drop length_drop.
    repeat case_decide; try lia; try done.
Qed.

Lemma length_chunks_lt l i : 0 < n -> i < length (chunks n l) <-> i * n < length l.
Proof.
  intros Hn. rw -lookup_lt_is_Some chunks_lookup //.
  case_decide; split; intros; try done; try lia.
Qed.

Lemma concat_chunks l : 0 < n -> concat (chunks n l) = l.
Proof.
  intros Hn. remember (length l) as k eqn:Hk. revert l Hk.
  induction (lt_wf k) as [k _ IH]. intros l ->.
  destruct (decide (l = [])) as [->|Hl]; [done|].
  rw chunks_cons //=. rw (IH (length (drop n l))) //; last apply take_drop.
  rw length_drop. destruct l; simpl in *; [done|lia].
Qed.
End chunks.

(** ** Automation *)

(** A decidable proposition about concrete data, decided by evaluation. *)
Ltac compute_dec := apply (bool_decide_unpack _); vm_compute; exact I.

(** A member of the empty list. *)
Ltac in_nil := match goal with Hin : _ ∈ [] |- _ => by apply not_elem_of_nil in Hin end.

(** The invariants of the components: each file adds its preservation lemmas. *)
Create HintDb cgn.

(** ** Lists and maps *)

Lemma foldl_ind {A B} (P : A -> Prop) (g : A -> B -> A) l :
  (forall s x, x ∈ l -> P s -> P (g s x)) -> forall s, P s -> P (foldl g s l).
Proof.
  induction l as [|x l IH]; intros Hg s HP; [done|]. cbn. apply IH; [intros; apply Hg; set_solver|]. apply Hg; set_solver.
Qed.

Lemma elem_of_bool_filter {A} (f : A -> bool) l x : x ∈ List.filter f l <-> x ∈ l /\ f x = true.
Proof. by rw !list_elem_of_In filter_In. Qed.

Lemma elem_of_fmap_filter {A B} (f : A -> B) (P : A -> Prop) `{forall x, Decision (P x)} (l : list A) y :
  y ∈ f <$> filter P l -> y ∈ f <$> l.
Proof. rw !list_elem_of_fmap. setoid_rewrite list_elem_of_filter. naive_solver. Qed.

Lemma NoDup_fmap_filter {A B} (f : A -> B) (P : A -> Prop) `{forall x, Decision (P x)} (l : list A) :
  NoDup (f <$> l) -> NoDup (f <$> filter P l).
Proof.
  induction l as [|a l IH]; [done|]. rw fmap_cons filter_cons => /NoDup_cons [Hin Hnd].
  case_decide; [|by apply IH]. rw fmap_cons. apply NoDup_cons. split; [|by apply IH].
  contradict Hin. by eapply elem_of_fmap_filter.
Qed.

(** Length of the longest common prefix. *)
Fixpoint lcp {A} `{EqDecision A} (l1 l2 : list A) : nat :=
  match l1, l2 with
  | x :: l1', y :: l2' => if decide (x = y) then S (lcp l1' l2') else 0
  | _, _ => 0
  end.

Section lcp.
Context {A : Type} `{EqDecision A}.
Implicit Types l : list A.

Lemma lcp_le l1 l2 : lcp l1 l2 <= length l1 /\ lcp l1 l2 <= length l2.
Proof.
  revert l2. induction l1 as [|x l1 IH]; intros [|y l2]; simpl; try lia.
  case_decide; [|lia]. destruct (IH l2). lia.
Qed.

Lemma lcp_take l1 l2 : take (lcp l1 l2) l1 = take (lcp l1 l2) l2.
Proof.
  revert l2. induction l1 as [|x l1 IH]; intros [|y l2]; simpl; auto.
  case_decide; [|done]. subst. by rw /= IH.
Qed.

Lemma lcp_max l1 l2 k :
  k <= length l1 -> k <= length l2 -> take k l1 = take k l2 -> k <= lcp l1 l2.
Proof.
  revert l2 k. induction l1 as [|x l1 IH]; intros [|y l2] [|k]; simpl; try lia.
  intros ?? [= -> Ht]. rw decide_True //. apply IH in Ht; lia.
Qed.
End lcp.

Lemma take_lookup_eq {A} (l1 l2 : list A) k :
  (forall i, i < k -> l1 !! i = l2 !! i) -> take k l1 = take k l2.
Proof.
  intros Hl. apply list_eq. intros i. destruct (decide (i < k)).
  - rw !lookup_take_lt //. auto.
  - rw !lookup_take_ge //; lia.
Qed.

Lemma lookup_take_eq {A} (l1 l2 : list A) k i :
  take k l1 = take k l2 -> i < k -> l1 !! i = l2 !! i.
Proof. intros Ht Hi. rw -(lookup_take_lt l1 k) // Ht lookup_take_lt //. Qed.

Lemma StronglySorted_sublist {A} (R : relation A) (l1 l2 : list A) :
  l1 `sublist_of` l2 -> StronglySorted R l2 -> StronglySorted R l1.
Proof.
  induction 1 as [|x l1 l2 Hsub IH|x l1 l2 Hsub IH]; [done| |].
  - intros [Hss Hall]%StronglySorted_inv. constructor; [by apply IH|].
    rw Forall_forall => y Hy. rw Forall_forall in Hall. apply Hall. by eapply elem_of_submseteq, sublist_submseteq.
  - intros [Hss _]%StronglySorted_inv. by apply IH.
Qed.

Lemma elem_of_delete_NoDup {A} (l : list A) i x y :
  NoDup l -> l !! i = Some x -> y ∈ delete i l <-> y ∈ l /\ y <> x.
Proof.
  intros Hnd Hi. pose proof (delete_Permutation l i x Hi) as Hp. rw Hp in Hnd.
  apply NoDup_cons in Hnd as [Hx Hnd]. rw {2}Hp elem_of_cons. split; [|naive_solver].
  intros Hy. split; [by right|]. by intros ->.
Qed.

Lemma delete_insert_eq {A} (i : nat) (x : A) (l : list A) : delete i (<[i := x]> l) = delete i l.
Proof. revert i. induction l as [|y l IH]; intros [|i]; simpl; [done..|]. f_equal. apply IH. Qed.
