(* ===== verification/StringFacts.v ===== *)
(** * Strings

    Rust's [String] as a byte string: its bytes, concatenation, and the order
    of its bytes. *)

From Stdlib Require Import Ascii.
From S2P Require Import Prelude.

(** [str::is_empty]. *)
Definition is_empty (s : string) : bool := String.eqb s "".

(** [str::as_bytes]: a Rust string is its UTF-8 bytes. *)
Definition as_bytes (s : string) : list Z :=
  (fun a => Z.of_N (Ascii.N_of_ascii a)) <$> String.list_ascii_of_string s.

Lemma string_app_cons (x : ascii) (a b : string) : String x a +:+ b = String x (a +:+ b).
Proof. done. Qed.

Lemma string_app_assoc (a b c : string) : a +:+ (b +:+ c) = (a +:+ b) +:+ c.
Proof. induction a as [|x a IH]; [done|]. by rw !string_app_cons IH. Qed.

Lemma string_app_nil_r (a : string) : a +:+ "" = a.
Proof. induction a as [|x a IH]; [done|]. by rw string_app_cons IH. Qed.

Lemma as_bytes_cons a s : as_bytes (String a s) = Z.of_N (N_of_ascii a) :: as_bytes s.
Proof. done. Qed.

Lemma as_bytes_inj s1 s2 : as_bytes s1 = as_bytes s2 -> s1 = s2.
Proof.
  rw /as_bytes => Heq.
  rw -(String.string_of_list_ascii_of_string s1) -(String.string_of_list_ascii_of_string s2).
  f_equal. move: Heq. apply list_fmap_eq_inj.
  intros a b Hab. rw -(Ascii.ascii_N_embedding a) -(Ascii.ascii_N_embedding b). f_equal. lia.
Qed.

Lemma as_bytes_app s1 s2 : as_bytes (s1 +:+ s2) = as_bytes s1 ++ as_bytes s2.
Proof.
  rw /as_bytes -fmap_app. f_equal. induction s1 as [|a s1 IH]; [done|].
  change (a :: String.list_ascii_of_string (s1 +:+ s2) = a :: (String.list_ascii_of_string s1 ++ String.list_ascii_of_string s2)).
  by rw IH.
Qed.

(** ** The order of strings *)

Lemma compare_refl s : String.compare s s = Eq.
Proof. pose proof (String.compare_antisym s s) as E. by destruct (String.compare s s). Qed.

Lemma compare_gt_lt a b : String.compare a b = Gt -> String.compare b a = Lt.
Proof. rw String.compare_antisym. by destruct (String.compare b a). Qed.

Lemma compare_lt_trans a b c : String.compare a b = Lt -> String.compare b c = Lt -> String.compare a c = Lt.
Proof.
  revert b c. induction a as [|x a IH]; intros [|y b] [|z c]; cbn; try done. rw /Ascii.compare.
  destruct (N.compare_spec (N_of_ascii x) (N_of_ascii y)) as [E1|E1|E1]; try done;
    destruct (N.compare_spec (N_of_ascii y) (N_of_ascii z)) as [E2|E2|E2]; try done.
  - rw E1 E2 N.compare_refl. apply IH.
  - rw E1. intros _ _. by rw (proj2 (N.compare_lt_iff _ _) E2).
  - rw -E2. intros _ _. by rw (proj2 (N.compare_lt_iff _ _) E1).
  - intros _ _. by rw (proj2 (N.compare_lt_iff _ _) (N.lt_trans _ _ _ E1 E2)).
Qed.
