(* ===== verification/Hash.v ===== *)
(** * Prefix hashing

    [cgn-core/src/hash.rs] (the router's prefix digests), the block hashes of
    [cgn-infer/src/kv/mod.rs] and the router's digest salt
    ([routing/selector.rs], [prefix_salt]). BLAKE3 is a third-party crate: it is
    the class [Blake3], a function from messages to 32-byte digests, and the
    theorems that need collision resistance ask for it only on the messages the
    two compared computations hash. *)

From S2P Require Import Prelude StringFacts.

(** ** BLAKE3 *)

(** [Hasher::new().update(m1)...update(mk).finalize()] depends only on the
    concatenation of the updates and yields 32 bytes. *)
Class Blake3 := {
  blake3 : list Z -> list Z;
  blake3_length : forall m, length (blake3 m) = 32;
}.

(** No two of the messages [ms] share a digest. *)
Definition collision_free `{Blake3} (ms : list (list Z)) : Prop :=
  forall x y, x ∈ ms -> y ∈ ms -> blake3 x = blake3 y -> x = y.

(** ** Bytes *)

(** [u32::to_le_bytes]. *)
Definition to_le_bytes (t : Z) : list Z :=
  [Z.land t 255; Z.land (Z.shiftr t 8) 255; Z.land (Z.shiftr t 16) 255; Z.land (Z.shiftr t 24) 255].

Definition tokens_bytes (tokens : list Z) : list Z := concat (to_le_bytes <$> tokens).

Definition zero_digest : list Z := replicate 32 0%Z.

(** ** [cgn-core/src/hash.rs] *)

Definition TOKENS_PER_CHUNK : nat := 32.

Definition domain_v1 : list Z := as_bytes "cognitora.v1" ++ [0%Z].
Definition domain_seq_v1 : list Z := as_bytes "cognitora.seq.v1" ++ [0%Z].

Section hash.
Context `{Blake3}.

(** The message [hash_chunk] feeds to the hasher. *)
Definition chunk_message (model : string) (tokens : list Z) : list Z :=
  domain_v1 ++ as_bytes model ++ [0%Z] ++ tokens_bytes tokens.

Definition hash_chunk (model : string) (tokens : list Z) : list Z :=
  blake3 (chunk_message model tokens).

(** The message [hash_seq_chunk] feeds to the hasher. *)
Definition seq_message (model : string) (parent tokens : list Z) : list Z :=
  domain_seq_v1 ++ as_bytes model ++ [0%Z] ++ parent ++ tokens_bytes tokens.

Definition hash_seq_chunk (model : string) (parent tokens : list Z) : list Z :=
  blake3 (seq_message model parent tokens).

Definition hash_chunks (model : string) (tokens : list Z) : list (list Z) :=
  match tokens with
  | [] => []
  | _ => hash_chunk model <$> chunks TOKENS_PER_CHUNK tokens
  end.

(** The loop of [hash_seq_chunks]: [parent] is the previous digest. *)
Fixpoint hash_seq_loop (model : string) (parent : list Z) (cs : list (list Z)) : list (list Z) :=
  match cs with
  | [] => []
  | chunk :: cs' =>
      let d := hash_seq_chunk model parent chunk in
      d :: hash_seq_loop model d cs'
  end.

Definition hash_seq_chunks (model : string) (tokens : list Z) : list (list Z) :=
  match tokens with
  | [] => []
  | _ => hash_seq_loop model zero_digest (chunks TOKENS_PER_CHUNK tokens)
  end.

(** The messages hashed by [hash_seq_chunks], in order. *)
Fixpoint seq_messages_loop (model : string) (parent : list Z) (cs : list (list Z)) : list (list Z) :=
  match cs with
  | [] => []
  | chunk :: cs' =>
      seq_message model parent chunk ::
      seq_messages_loop model (hash_seq_chunk model parent chunk) cs'
  end.

Definition seq_messages (model : string) (tokens : list Z) : list (list Z) :=
  seq_messages_loop model zero_digest (chunks TOKENS_PER_CHUNK tokens).

End hash.

(** [short] of [hash.rs] and [hash_short] of [cgn-kv/src/lib.rs]: the first
    eight bytes in lowercase hex, two digits to a byte. *)
Definition hex_digit (d : Z) : Ascii.ascii :=
  nth (Z.to_nat d) (String.list_ascii_of_string "0123456789abcdef") Ascii.zero.

(** [format!("{b:02x}")] of every byte. *)
Definition hex_of_bytes (d : list Z) : list Ascii.ascii :=
  concat ((fun b => [hex_digit (Z.shiftr b 4); hex_digit (Z.land b 15)]) <$> d).

Definition short (digest : list Z) : string := String.string_of_list_ascii (hex_of_bytes (take 8 digest)).

(** [prefix_salt] of [routing/selector.rs]; [isolation] is
    [state.cfg.router.kv_tenant_isolation]. *)
Definition NUL : string := String (Ascii.ascii_of_nat 0) "".

Definition prefix_salt (isolation : bool) (model tenant : string) : string :=
  if (String.eqb tenant "") || negb isolation then model
  else (model +:+ NUL +:+ tenant).

(** ** [cgn-infer/src/kv/mod.rs]: block hashes *)

Definition BLOCK_TOKENS : nat := 16.

(** [slice.chunks_exact(n)] drops the short tail. *)
Definition chunks_exact {A} (n : nat) (l : list A) : list (list A) :=
  filter (fun c => length c = n) (chunks n l).

Section block_hash.
Context `{Blake3}.

Definition block_message (parent : option (list Z)) (tokens : list Z) : list Z :=
  default [] parent ++ tokens_bytes tokens.

Definition hash_block (parent : option (list Z)) (tokens : list Z) : list Z :=
  blake3 (block_message parent tokens).

Fixpoint block_hashes_loop (parent : option (list Z)) (cs : list (list Z)) : list (list Z) :=
  match cs with
  | [] => []
  | chunk :: cs' =>
      let h := hash_block parent chunk in
      h :: block_hashes_loop (Some h) cs'
  end.

Definition block_hashes (tokens : list Z) : list (list Z) :=
  block_hashes_loop None (chunks_exact BLOCK_TOKENS tokens).

Fixpoint block_messages_loop (parent : option (list Z)) (cs : list (list Z)) : list (list Z) :=
  match cs with
  | [] => []
  | chunk :: cs' =>
      block_message parent chunk :: block_messages_loop (Some (hash_block parent chunk)) cs'
  end.

Definition block_messages (tokens : list Z) : list (list Z) :=
  block_messages_loop None (chunks_exact BLOCK_TOKENS tokens).

End block_hash.

(** ** Facts about bytes *)

Lemma length_hex_of_bytes d : length (hex_of_bytes d) = 2 * length d.
Proof. rw /hex_of_bytes. induction d as [|b d IH]; [done|]. rw fmap_cons /= IH. lia. Qed.

Lemma to_le_bytes_inj t1 t2 : is_u32 t1 -> is_u32 t2 -> to_le_bytes t1 = to_le_bytes t2 -> t1 = t2.
Proof.
  rw /is_u32 /u32_max /to_le_bytes => H1 H2 [].
  change 255%Z with (Z.ones 8). rw !Z.land_ones // !Z.shiftr_div_pow2 //.
  intros. Z.to_euclidean_division_equations. lia.
Qed.

Lemma tokens_bytes_inj ts1 ts2 :
  Forall is_u32 ts1 -> Forall is_u32 ts2 -> tokens_bytes ts1 = tokens_bytes ts2 -> ts1 = ts2.
Proof.
  intros H1. revert ts2. induction H1 as [|t1 ts1 Ht1 H1 IH]; intros ts2 H2 Heq.
  - by destruct H2.
  - destruct H2 as [|t2 ts2 Ht2 H2]; [done|].
    rw /tokens_bytes !fmap_cons in Heq. cbn [concat] in Heq.
    apply app_inj_1 in Heq as [Ht Hts]; [|done].
    f_equal; [by apply to_le_bytes_inj|by apply IH].
Qed.

Lemma length_tokens_bytes ts : length (tokens_bytes ts) = 4 * length ts.
Proof. rw /tokens_bytes. induction ts as [|t ts IH]; [done|]. rw fmap_cons /= IH. lia. Qed.

(** A NUL-free string is delimited by the first NUL. *)
Definition nul_free (s : string) : Prop := 0%Z ∉ as_bytes s.

Lemma split_at_nul (x1 x2 y1 y2 : list Z) :
  0%Z ∉ x1 -> 0%Z ∉ x2 -> x1 ++ 0%Z :: y1 = x2 ++ 0%Z :: y2 -> x1 = x2 /\ y1 = y2.
Proof.
  revert x2. induction x1 as [|a x1 IH]; intros [|b x2]; rw ?not_elem_of_cons; intros ?? Heq;
    simplify_eq/=; try tauto.
  destruct (IH x2) as [-> ->]; tauto.
Qed.

(** ** Chained digests

    The router's and the engine's hashes are the same chain over different
    messages: a digest becomes the parent of the next chunk. *)

Section chain.
Context `{Blake3} {P : Type} (msg : P -> list Z -> list Z) (next : list Z -> P).

Fixpoint chain (p : P) (cs : list (list Z)) : list (list Z) :=
  match cs with
  | [] => []
  | c :: cs' => blake3 (msg p c) :: chain (next (blake3 (msg p c))) cs'
  end.

Fixpoint chain_messages (p : P) (cs : list (list Z)) : list (list Z) :=
  match cs with
  | [] => []
  | c :: cs' => msg p c :: chain_messages (next (blake3 (msg p c))) cs'
  end.

Lemma chain_digests p cs : chain p cs = blake3 <$> chain_messages p cs.
Proof. revert p. induction cs as [|c cs IH]; intros p; [done|]. by rw /= IH. Qed.

Lemma length_chain p cs : length (chain p cs) = length cs.
Proof. revert p. induction cs as [|c cs IH]; intros p; simpl; auto. Qed.

(** Chains over equal leading chunks agree there. *)
Lemma chain_take p cs k : take k (chain p cs) = chain p (take k cs).
Proof. revert p k. induction cs as [|c cs IH]; intros p [|k]; simpl; f_equal; auto. Qed.

(** The parent used for chunk [i]. *)
Definition chain_parent (p : P) (cs : list (list Z)) (i : nat) : option P :=
  match i with
  | O => Some p
  | S i' => next <$> chain p cs !! i'
  end.

Lemma chain_lookup p cs i d :
  chain p cs !! i = Some d ->
  exists q c, chain_parent p cs i = Some q /\ cs !! i = Some c /\
    d = blake3 (msg q c) /\ msg q c ∈ chain_messages p cs.
Proof.
  revert p i. induction cs as [|c cs IH]; intros p i Hm; [done|].
  destruct i as [|i]; simplify_eq/=; [exists p, c; by repeat split; [..|left]|].
  apply IH in Hm as (q & c' & Hq & Hc & -> & Hin). exists q, c'.
  split; [destruct i; simplify_eq/=; auto|]. split; [done|]. split; [done|by right].
Qed.

Context (wfp : P -> Prop) (wfc : list Z -> Prop).
Hypothesis next_wf : forall m, wfp (next (blake3 m)).
Hypothesis next_inj : forall d e, next d = next e -> d = e.
Hypothesis msg_inj : forall p q c d,
  wfp p -> wfp q -> wfc c -> wfc d -> msg p c = msg q d -> p = q /\ c = d.

Lemma chain_parent_wf p cs i q : wfp p -> chain_parent p cs i = Some q -> wfp q.
Proof.
  intros Hp. destruct i as [|i]; simpl; [by intros [= <-]|].
  rw chain_digests list_lookup_fmap. destruct (chain_messages p cs !! i); [|done].
  intros [= <-]. auto.
Qed.

(** Equal digests in collision-free chains come from equal parents and chunks. *)
Lemma chain_lookup_inj p cs1 cs2 i j d :
  wfp p -> Forall wfc cs1 -> Forall wfc cs2 ->
  collision_free (chain_messages p cs1 ++ chain_messages p cs2) ->
  chain p cs1 !! i = Some d -> chain p cs2 !! j = Some d ->
  exists q c, chain_parent p cs1 i = Some q /\ chain_parent p cs2 j = Some q /\
    cs1 !! i = Some c /\ cs2 !! j = Some c.
Proof.
  intros Hp Hw1 Hw2 Hcf (q1 & c1 & Hq1 & Hc1 & -> & Hin1)%chain_lookup
    (q2 & c2 & Hq2 & Hc2 & Hd & Hin2)%chain_lookup.
  apply Hcf in Hd; [|apply elem_of_app; auto..].
  apply msg_inj in Hd as [<- <-]; [|by apply (chain_parent_wf p cs1 i)|by apply (chain_parent_wf p cs2 j)
    |by eapply (Forall_lookup_1 wfc cs1)|by eapply (Forall_lookup_1 wfc cs2)].
  by exists q1, c1.
Qed.

(** Two chains from the same root that share a digest share the position and
    every chunk up to it. *)
Lemma chain_inj p cs1 cs2 i j d :
  wfp p -> Forall wfc cs1 -> Forall wfc cs2 ->
  collision_free (chain_messages p cs1 ++ chain_messages p cs2) ->
  (forall e, e ∈ chain p cs1 ++ chain p cs2 -> next e <> p) ->
  chain p cs1 !! i = Some d -> chain p cs2 !! j = Some d ->
  i = j /\ take (S i) cs1 = take (S j) cs2.
Proof.
  intros Hp Hw1 Hw2 Hcf Hroot. revert j d. induction i as [|i IH]; intros j d Hd1 Hd2;
    pose proof (chain_lookup_inj _ _ _ _ _ _ Hp Hw1 Hw2 Hcf Hd1 Hd2) as (q & c & Hq1 & Hq2 & Hc1 & Hc2);
    destruct j as [|j]; simplify_eq/=.
  - split; [done|]. by rw (take_S_r cs1 _ c) // (take_S_r cs2 _ c).
  - apply fmap_Some in Hq2 as (e & He & Heq). exfalso. apply (Hroot e); [|done].
    apply elem_of_app; right. by eapply list_elem_of_lookup_2.
  - apply fmap_Some in Hq1 as (e & He & Heq). exfalso. apply (Hroot e); [|done].
    apply elem_of_app; left. by eapply list_elem_of_lookup_2.
  - apply fmap_Some in Hq1 as (e1 & He1 & ->). apply fmap_Some in Hq2 as (e2 & He2 & <-%next_inj).
    destruct (IH j e1) as [-> Htake]; [done..|].
    split; [done|]. by rw (take_S_r cs1 _ c) // (take_S_r cs2 _ c) // Htake.
Qed.
End chain.

(** ** Chunks as windows *)

(** The first [k] chunks are the first [k * n] elements. *)
Lemma concat_take_chunks {A} n k (l : list A) : 0 < n -> concat (take k (chunks n l)) = take (k * n) l.
Proof.
  intros Hn. revert l. induction k as [|k IH]; intros l; [done|].
  destruct (decide (l = [])) as [->|Hl]; [by rw chunks_nil /= take_nil|].
  rw chunks_cons //= IH. by rw -take_take_drop.
Qed.

(** ** The router's chain *)

Section seq_chain.
Context `{Blake3}.

Lemma hash_seq_loop_chain model p cs :
  hash_seq_loop model p cs = chain (seq_message model) id p cs.
Proof. revert p. induction cs as [|c cs IH]; intros p; [done|]. simpl. by rw IH. Qed.

Lemma seq_messages_chain model p cs :
  seq_messages_loop model p cs = chain_messages (seq_message model) id p cs.
Proof. revert p. induction cs as [|c cs IH]; intros p; [done|]. simpl. by rw IH. Qed.

Lemma hash_seq_chunks_chain model tokens :
  hash_seq_chunks model tokens = chain (seq_message model) id zero_digest (chunks TOKENS_PER_CHUNK tokens).
Proof. rw /hash_seq_chunks. destruct tokens; [done|]. by rw hash_seq_loop_chain. Qed.

Lemma seq_message_inj model p q c d :
  length p = 32 -> length q = 32 -> Forall is_u32 c -> Forall is_u32 d ->
  seq_message model p c = seq_message model q d -> p = q /\ c = d.
Proof.
  rw /seq_message => Hp Hq Hc Hd Heq.
  do 3 apply app_inv_head in Heq. apply app_inj_1 in Heq as [-> Heq]; [|congruence].
  split; [done|]. by apply tokens_bytes_inj.
Qed.

Lemma chunks_Forall {A} (Q : A -> Prop) n l : 0 < n -> Forall Q l -> Forall (Forall Q) (chunks n l).
Proof.
  intros Hn Hl. apply Forall_lookup_2. intros i c. rw chunks_lookup //.
  case_decide; [|done]. intros [= <-]. by apply Forall_take, Forall_drop.
Qed.

Lemma hash_seq_chunks_inj model t1 t2 i j d :
  Forall is_u32 t1 -> Forall is_u32 t2 ->
  collision_free (seq_messages model t1 ++ seq_messages model t2) ->
  zero_digest ∉ hash_seq_chunks model t1 ++ hash_seq_chunks model t2 ->
  hash_seq_chunks model t1 !! i = Some d -> hash_seq_chunks model t2 !! j = Some d ->
  i = j /\ take (S i * TOKENS_PER_CHUNK) t1 = take (S j * TOKENS_PER_CHUNK) t2.
Proof.
  rw !hash_seq_chunks_chain /seq_messages !seq_messages_chain => H1 H2 Hcf Hz Hd1 Hd2.
  assert (0 < TOKENS_PER_CHUNK) as Hn by (cbv; lia).
  destruct (chain_inj (seq_message model) id (fun p => length p = 32) (Forall is_u32)
    (blake3_length) (fun _ _ => id) (seq_message_inj model) zero_digest
    (chunks TOKENS_PER_CHUNK t1) (chunks TOKENS_PER_CHUNK t2) i j d) as [Hij Ht]; auto using chunks_Forall.
  { intros e He Heq. cbn in Heq. by subst e. }
  split; [done|]. by rw -!concat_take_chunks // Ht.
Qed.

Lemma hash_seq_chunks_take model t1 t2 k :
  take (k * TOKENS_PER_CHUNK) t1 = take (k * TOKENS_PER_CHUNK) t2 ->
  k * TOKENS_PER_CHUNK <= length t1 -> k * TOKENS_PER_CHUNK <= length t2 ->
  take k (hash_seq_chunks model t1) = take k (hash_seq_chunks model t2).
Proof.
  intros Ht H1 H2. rw !hash_seq_chunks_chain !chain_take. f_equal.
  apply list_eq. intros i. assert (0 < TOKENS_PER_CHUNK) as Hn by (cbv; lia).
  destruct (decide (i < k)) as [Hi|Hi]; [|by rw !lookup_take_ge //; lia].
  rw !lookup_take // !chunks_lookup //.
  assert (i * TOKENS_PER_CHUNK + TOKENS_PER_CHUNK <= k * TOKENS_PER_CHUNK) as Hle
    by (rw -Nat.mul_succ_l; apply Nat.mul_le_mono_r; lia).
  rw !decide_True; try lia. f_equal.
  apply (f_equal (fun l => take TOKENS_PER_CHUNK (drop (i * TOKENS_PER_CHUNK) l))) in Ht.
  rw !skipn_firstn_comm !take_take in Ht. rw !Nat.min_l in Ht; lia || done.
Qed.

Lemma seq_message_salt_inj m1 m2 t1 t2 p q c d :
  nul_free m1 -> nul_free m2 -> nul_free t1 -> nul_free t2 ->
  seq_message (m1 +:+ NUL +:+ t1) p c = seq_message (m2 +:+ NUL +:+ t2) q d -> m1 = m2 /\ t1 = t2.
Proof.
  rw /seq_message => Hm1 Hm2 Ht1 Ht2 Heq. apply app_inv_head in Heq.
  rw !as_bytes_app -!app_assoc in Heq.
  apply split_at_nul in Heq as [Hm Heq]; [|done..]. cbn [app] in Heq.
  apply split_at_nul in Heq as [Ht _]; [|done..].
  split; by apply as_bytes_inj.
Qed.

(** Digests of chains whose messages are all different are all different. *)
Lemma hash_seq_chunks_disjoint s1 s2 k1 k2 :
  collision_free (seq_messages s1 k1 ++ seq_messages s2 k2) ->
  (forall p q c d, seq_message s1 p c <> seq_message s2 q d) ->
  forall d, d ∈ hash_seq_chunks s1 k1 -> d ∉ hash_seq_chunks s2 k2.
Proof.
  rw !hash_seq_chunks_chain /seq_messages !seq_messages_chain => Hcf Hne d.
  intros [i Hi]%list_elem_of_lookup [j Hj]%list_elem_of_lookup.
  apply chain_lookup in Hi as (p & c & _ & _ & -> & Hin1).
  apply chain_lookup in Hj as (q & e & _ & _ & Hd & Hin2).
  eapply Hne, Hcf, Hd; apply elem_of_app; [by left|by right].
Qed.
End seq_chain.

(** ** The engine's chain *)

Section block_chain.
Context `{Blake3}.

Definition block_parent_wf (p : option (list Z)) : Prop :=
  match p with None => True | Some d => length d = 32 end.
Definition block_chunk_wf (c : list Z) : Prop := length c = BLOCK_TOKENS /\ Forall is_u32 c.

Lemma block_hashes_chain tokens :
  block_hashes tokens = chain block_message Some None (chunks_exact BLOCK_TOKENS tokens).
Proof.
  rw /block_hashes. generalize (@None (list Z)).
  induction (chunks_exact _ _) as [|c cs IH]; intros p; [done|]. simpl. by rw IH.
Qed.

Lemma block_messages_chain tokens :
  block_messages tokens = chain_messages block_message Some None (chunks_exact BLOCK_TOKENS tokens).
Proof.
  rw /block_messages. generalize (@None (list Z)).
  induction (chunks_exact _ _) as [|c cs IH]; intros p; [done|]. simpl. by rw IH.
Qed.

Lemma block_message_inj p q c d :
  block_parent_wf p -> block_parent_wf q -> block_chunk_wf c -> block_chunk_wf d ->
  block_message p c = block_message q d -> p = q /\ c = d.
Proof.
  rw /block_message => Hp Hq [Hlc Hc] [Hld Hd] Heq.
  assert (length (default [] p) = length (default [] q)) as Hlen.
  { apply (f_equal length) in Heq. rw !length_app !length_tokens_bytes Hlc Hld in Heq. lia. }
  apply app_inj_1 in Heq as [Heq Ht]; [|done].
  split; [|by apply tokens_bytes_inj].
  destruct p, q; simplify_eq/=; auto; congruence.
Qed.

Lemma chunks_exact_wf tokens : Forall is_u32 tokens -> Forall block_chunk_wf (chunks_exact BLOCK_TOKENS tokens).
Proof.
  intros Ht. apply Forall_forall. intros c [Hc Hin]%list_elem_of_filter. split; [done|].
  pose proof (chunks_Forall is_u32 BLOCK_TOKENS tokens ltac:(cbv; lia) Ht) as Hall.
  rw Forall_forall in Hall. auto.
Qed.

Lemma chunks_exact_short {A} n (l : list A) : 0 < n -> ~ n <= length l -> chunks_exact n l = [].
Proof.
  intros Hn Hl. rw /chunks_exact. destruct (decide (l = [])) as [->|Hne]; [done|].
  rw chunks_cons // (drop_ge l n); [lia|]. rw filter_cons_False //. rw length_take. lia.
Qed.

Lemma chunks_exact_cons {A} n (l : list A) :
  0 < n -> n <= length l -> chunks_exact n l = take n l :: chunks_exact n (drop n l).
Proof.
  intros Hn Hl. rw /chunks_exact chunks_cons //; [by intros ->; simpl in *; lia|].
  rw filter_cons_True //. rw length_take. lia.
Qed.

(** The complete chunks are the leading windows. *)
Lemma chunks_exact_lookup {A} n (l : list A) i :
  0 < n ->
  chunks_exact n l !! i = if decide (S i * n <= length l) then Some (take n (drop (i * n) l)) else None.
Proof.
  intros Hn. revert l. induction i as [|i IH]; intros l;
    (destruct (decide (n <= length l)) as [Hle|Hle];
      [|rw decide_False ?chunks_exact_short //=; lia]); rw chunks_exact_cons //.
  - rw decide_True //=; lia.
  - rw /= (IH (drop n l)) length_drop drop_drop. repeat case_decide; try lia; done.
Qed.

Lemma block_hashes_inj t1 t2 i d :
  Forall is_u32 t1 -> Forall is_u32 t2 ->
  collision_free (block_messages t1 ++ block_messages t2) ->
  block_hashes t1 !! i = Some d -> block_hashes t2 !! i = Some d ->
  take (S i) (chunks_exact BLOCK_TOKENS t1) = take (S i) (chunks_exact BLOCK_TOKENS t2).
Proof.
  rw !block_hashes_chain !block_messages_chain => H1 H2 Hcf Hd1 Hd2.
  refine (proj2 (chain_inj block_message Some block_parent_wf block_chunk_wf blake3_length _
    block_message_inj None _ _ i i d I _ _ Hcf _ Hd1 Hd2));
    [by intros ?? [= ->]|by apply chunks_exact_wf..|done].
Qed.
End block_chain.

(** ** Properties *)

(** A concrete 32-element digest used by the witnesses. *)
Definition toy_blake3 : Blake3.
Proof.
  refine {| blake3 m := foldl (fun h b => h * 257 + b + 1)%Z 0%Z m :: replicate 31 1%Z |}.
  done.
Defined.

Lemma collision_free_check `{Blake3} ms :
  forallb (fun x => forallb (fun y => bool_decide (blake3 x = blake3 y -> x = y)) ms) ms = true ->
  collision_free ms.
Proof.
  intros Hall x y Hx%list_elem_of_In Hy%list_elem_of_In.
  rw forallb_forall in Hall. apply Hall in Hx. rw forallb_forall in Hx. apply Hx in Hy.
  by apply bool_decide_eq_true in Hy.
Qed.

(** C7. A sequence-chained digest identifies the whole token prefix it ends:
    when BLAKE3 has no collision among the messages the two chains hash and no
    digest is the all-zero root, digests that are equal anywhere in two chains
    sit at the same position and come from the same tokens; and token sequences
    that agree on their first [k] full chunks have the same first [k] digests. *)
Theorem digest_identifies_prefix `{Blake3} model t1 t2 :
  Forall is_u32 t1 -> Forall is_u32 t2 ->
  collision_free (seq_messages model t1 ++ seq_messages model t2) ->
  zero_digest ∉ hash_seq_chunks model t1 ++ hash_seq_chunks model t2 ->
  (forall i j d,
    hash_seq_chunks model t1 !! i = Some d -> hash_seq_chunks model t2 !! j = Some d ->
    i = j /\ take (S i * TOKENS_PER_CHUNK) t1 = take (S j * TOKENS_PER_CHUNK) t2) /\
  (forall k,
    k * TOKENS_PER_CHUNK <= length t1 -> k * TOKENS_PER_CHUNK <= length t2 ->
    take (k * TOKENS_PER_CHUNK) t1 = take (k * TOKENS_PER_CHUNK) t2 ->
    take k (hash_seq_chunks model t1) = take k (hash_seq_chunks model t2)).
Proof.
  intros H1 H2 Hcf Hz. split.
  - intros i j d. by apply hash_seq_chunks_inj.
  - intros k Hk1 Hk2 Ht. by apply hash_seq_chunks_take.
Qed.

Definition tokens_ab (b : Z) : list Z := replicate 32 7%Z ++ [b].

Lemma digest_identifies_prefix_witness :
  take 1 (@hash_seq_chunks toy_blake3 "llama" (tokens_ab 1)) =
  take 1 (@hash_seq_chunks toy_blake3 "llama" (tokens_ab 2)).
Proof.
  apply (@digest_identifies_prefix toy_blake3 "llama" (tokens_ab 1) (tokens_ab 2));
    [repeat constructor; done|repeat constructor; done| |by apply (bool_decide_unpack _); vm_compute
    |by vm_compute; lia|by vm_compute; lia|done].
  apply collision_free_check. by vm_compute.
Defined.

(** KV isolation between tenants: under [kv_tenant_isolation], requests of
    two different tenants (or of the same tenant for two models) never share a
    prefix digest, whatever their prompts, as long as BLAKE3 has no collision
    among the messages hashed; names are NUL-free and tenants non-empty. *)
Lemma tenant_digests_disjoint `{Blake3} m1 m2 t1 t2 k1 k2 :
  nul_free m1 -> nul_free m2 -> nul_free t1 -> nul_free t2 ->
  t1 <> "" -> t2 <> "" -> (m1, t1) <> (m2, t2) ->
  let s1 := prefix_salt true m1 t1 in
  let s2 := prefix_salt true m2 t2 in
  collision_free (seq_messages s1 k1 ++ seq_messages s2 k2) ->
  forall d, d ∈ hash_seq_chunks s1 k1 -> d ∉ hash_seq_chunks s2 k2.
Proof.
  intros Hm1 Hm2 Ht1 Ht2 Hne1 Hne2 Hne. rw /prefix_salt.
  rw (proj2 (String.eqb_neq t1 "") Hne1) (proj2 (String.eqb_neq t2 "") Hne2) /=.
  intros Hcf. apply hash_seq_chunks_disjoint; [done|].
  intros p q c d [-> ->]%seq_message_salt_inj; done.
Qed.

Lemma tenant_digests_disjoint_witness :
  Forall (fun d => d ∉ @hash_seq_chunks toy_blake3 (prefix_salt true "llama" "umbrella") [1; 2; 3]%Z)
    (@hash_seq_chunks toy_blake3 (prefix_salt true "llama" "acme") [1; 2; 3]%Z).
Proof.
  apply Forall_forall.
  apply (@tenant_digests_disjoint toy_blake3 "llama" "llama" "acme" "umbrella");
    [by apply (bool_decide_unpack _); vm_compute..|done|done|done|].
  apply collision_free_check. by vm_compute.
Defined.
