(* ===== verification/PrefixIndex.v ===== *)
(** * The prefix index

    [cgn-core/src/prefix.rs]: which nodes hold which prefix digest, and for how
    long a claim is believed. The concurrent map is a [gmap]; every method is
    one atomic step that takes the value [now] it reads from the clock, in
    nanoseconds ([Instant]s and [Duration]s are [Z]). *)

From S2P Require Import Prelude.

(** ** Data *)

Record NodeEntry := mkNodeEntry { ne_node_id : string; ne_last_seen : Z }.

#[export] Instance NodeEntry_eq_dec : EqDecision NodeEntry.
Proof. solve_decision. Defined.

Record PrefixIndex := mkPrefixIndex {
  ix_inner : gmap (list Z) (list NodeEntry);
  ix_ttl : Z;
}.

(** [Instant::duration_since] saturates at zero. *)
Definition duration_since (now earlier : Z) : Z := Z.max 0 (now - earlier).

(** ** Operations *)

Definition PrefixIndex_new (ttl : Z) : PrefixIndex := mkPrefixIndex ∅ ttl.

(** [v.iter_mut().find(|e| e.node_id == node_id)] then [e.last_seen = now], or
    a push at the end when nobody matches. *)
Fixpoint touch_or_push (node_id : string) (now : Z) (v : list NodeEntry) : list NodeEntry :=
  match v with
  | [] => [mkNodeEntry node_id now]
  | e :: v' =>
      if decide (ne_node_id e = node_id) then mkNodeEntry (ne_node_id e) now :: v'
      else e :: touch_or_push node_id now v'
  end.

Definition PrefixIndex_insert (ix : PrefixIndex) (now : Z) (digest : list Z) (node_id : string) : PrefixIndex :=
  mkPrefixIndex
    (<[digest := touch_or_push node_id now (default [] (ix_inner ix !! digest))]> (ix_inner ix))
    (ix_ttl ix).

(** Each insertion of the loop reads the clock again: [clock i] is the reading
    of the [i]-th one. *)
Fixpoint PrefixIndex_insert_many (ix : PrefixIndex) (clock : nat -> Z) (digests : list (list Z)) (node_id : string)
    : PrefixIndex :=
  match digests with
  | [] => ix
  | d :: ds => PrefixIndex_insert_many (PrefixIndex_insert ix (clock 0) d node_id) (fun i => clock (S i)) ds node_id
  end.

Definition PrefixIndex_forget_claim (ix : PrefixIndex) (digest : list Z) (node_id : string) : PrefixIndex :=
  let inner1 :=
    match ix_inner ix !! digest with
    | Some v => <[digest := filter (fun n => ne_node_id n <> node_id) v]> (ix_inner ix)
    | None => ix_inner ix
    end in
  let inner2 :=
    match inner1 !! digest with
    | Some [] => delete digest inner1
    | _ => inner1
    end in
  mkPrefixIndex inner2 (ix_ttl ix).

(** [self.inner.retain(|_, v| !v.read().is_empty())]. *)
Definition purge_empty (m : gmap (list Z) (list NodeEntry)) : gmap (list Z) (list NodeEntry) :=
  filter (fun kv : list Z * list NodeEntry => kv.2 <> []) m.

(** Retain, in every list, the entries satisfying [keep], then purge. *)
Definition retain_entries (keep : NodeEntry -> Prop) `{forall e, Decision (keep e)} (ix : PrefixIndex)
    : PrefixIndex :=
  mkPrefixIndex (purge_empty ((fun v : list NodeEntry => filter keep v) <$> ix_inner ix)) (ix_ttl ix).

Definition PrefixIndex_forget_node (ix : PrefixIndex) (node_id : string) : PrefixIndex :=
  retain_entries (fun n => ne_node_id n <> node_id) ix.

Definition PrefixIndex_forget_node_stale (ix : PrefixIndex) (now : Z) (node_id : string) (older_than : Z) : PrefixIndex :=
  retain_entries
    (fun n => ne_node_id n <> node_id \/ (duration_since now (ne_last_seen n) < older_than)%Z) ix.

(** [now.duration_since(n.last_seen) < self.ttl]. *)
Definition claim_live (ix : PrefixIndex) (now : Z) (n : NodeEntry) : Prop :=
  (duration_since now (ne_last_seen n) < ix_ttl ix)%Z.

#[export] Instance claim_live_dec ix now n : Decision (claim_live ix now n).
Proof. unfold claim_live. apply _. Defined.

Definition PrefixIndex_gc (ix : PrefixIndex) (now : Z) : PrefixIndex := retain_entries (claim_live ix now) ix.

Definition PrefixIndex_lookup (ix : PrefixIndex) (now : Z) (digest : list Z) : list string :=
  match ix_inner ix !! digest with
  | None => []
  | Some g => ne_node_id <$> filter (claim_live ix now) g
  end.

(** [*out.entry(id).or_insert(0) += 1]. *)
Definition bump (out : gmap string nat) (id : string) : gmap string nat :=
  <[id := S (default 0 (out !! id))]> out.

Definition PrefixIndex_overlap (ix : PrefixIndex) (now : Z) (digests : list (list Z)) : gmap string nat :=
  foldl (fun out d => foldl bump out (PrefixIndex_lookup ix now d)) ∅ digests.

(** [for n in &active { out.insert(n.clone(), v); }]. *)
Definition insert_all (active : gset string) (v : nat) (out : gmap string nat) : gmap string nat :=
  gset_to_gmap v active ∪ out.

(** The loop over [digests[1..]]; [i] is the index of its head. *)
Fixpoint overlap_walk (ix : PrefixIndex) (now : Z) (i : nat) (ds : list (list Z))
    (active : gset string) (out : gmap string nat) : gmap string nat :=
  match ds with
  | [] => out
  | d :: ds' =>
      if decide (active = ∅) then out
      else
        let holders : gset string := list_to_set (PrefixIndex_lookup ix now d) in
        let active' := filter (fun n => n ∈ holders) active in
        overlap_walk ix now (S i) ds' active' (insert_all active' (i + 1) out)
  end.

Definition PrefixIndex_longest_prefix_overlap (ix : PrefixIndex) (now : Z) (digests : list (list Z)) : gmap string nat :=
  match digests with
  | [] => ∅
  | d0 :: ds =>
      match ix_inner ix !! d0 with
      | None => ∅
      | Some _ =>
          let active : gset string := list_to_set (PrefixIndex_lookup ix now d0) in
          overlap_walk ix now 1 ds active (insert_all active 1 ∅)
      end
  end.

Definition PrefixIndex_len (ix : PrefixIndex) : nat := size (ix_inner ix).
Definition PrefixIndex_is_empty (ix : PrefixIndex) : bool := bool_decide (ix_inner ix = ∅).

(** ** Specification *)

(** Every digest in the map is claimed by somebody, and by nobody twice. *)
Definition prefix_wf (ix : PrefixIndex) : Prop :=
  map_Forall (fun _ es => es <> [] /\ NoDup (ne_node_id <$> es)) (ix_inner ix).

(** The reference definition of the walk: how many leading digests [n] holds. *)
Fixpoint held_prefix (ix : PrefixIndex) (now : Z) (n : string) (ds : list (list Z)) : nat :=
  match ds with
  | [] => 0
  | d :: ds' => if decide (n ∈ PrefixIndex_lookup ix now d) then S (held_prefix ix now n ds') else 0
  end.

Definition held_count (ix : PrefixIndex) (now : Z) (n : string) (ds : list (list Z)) : nat :=
  length (filter (fun d => n ∈ PrefixIndex_lookup ix now d) ds).

Definition nonzero (k : nat) : option nat := match k with 0 => None | _ => Some k end.

(** ** The claims on one digest

    Every method acts on each digest's list of claims alone. *)

Definition claims (ix : PrefixIndex) (d : list Z) : list NodeEntry := default [] (ix_inner ix !! d).

Lemma lookup_claims ix now d :
  PrefixIndex_lookup ix now d = ne_node_id <$> filter (claim_live ix now) (claims ix d).
Proof. rw /PrefixIndex_lookup /claims. by destruct (ix_inner ix !! d). Qed.

Lemma elem_of_lookup ix now d n :
  n ∈ PrefixIndex_lookup ix now d <-> exists e, e ∈ claims ix d /\ ne_node_id e = n /\ claim_live ix now e.
Proof.
  rw lookup_claims list_elem_of_fmap. setoid_rewrite list_elem_of_filter. naive_solver.
Qed.

Lemma retain_inner keep `{forall e, Decision (keep e)} ix d :
  ix_inner (retain_entries keep ix) !! d =
  match filter keep (claims ix d) with [] => None | es => Some es end.
Proof.
  rw /retain_entries /purge_empty /claims /= map_lookup_filter lookup_fmap.
  destruct (ix_inner ix !! d) as [es|]; [|done]. simpl. by destruct (filter keep es).
Qed.

Lemma claims_retain keep `{forall e, Decision (keep e)} ix d :
  claims (retain_entries keep ix) d = filter keep (claims ix d).
Proof. rw {1}/claims retain_inner. by destruct (filter keep (claims ix d)). Qed.

Lemma claims_insert ix now d n d' :
  claims (PrefixIndex_insert ix now d n) d' =
  if decide (d = d') then touch_or_push n now (claims ix d) else claims ix d'.
Proof. rw /claims /PrefixIndex_insert /= lookup_insert. by case_decide; subst. Qed.

Lemma forget_claim_inner ix d n d' :
  ix_inner (PrefixIndex_forget_claim ix d n) !! d' =
  if decide (d = d')
  then match filter (fun e => ne_node_id e <> n) (claims ix d) with [] => None | es => Some es end
  else ix_inner ix !! d'.
Proof.
  rw /PrefixIndex_forget_claim /claims /=.
  destruct (ix_inner ix !! d) as [es|] eqn:E; simpl; rw ?lookup_insert_eq ?E;
    [destruct (filter _ es) eqn:Ef|];
    rw ?lookup_delete ?lookup_insert; repeat case_decide; subst; naive_solver.
Qed.

Lemma touch_or_push_ids n now es :
  ne_node_id <$> touch_or_push n now es =
  if decide (n ∈ ne_node_id <$> es) then ne_node_id <$> es else (ne_node_id <$> es) ++ [n].
Proof.
  induction es as [|e es IH]; [done|]. simpl. destruct (decide (ne_node_id e = n)) as [He|He].
  - subst. rw !fmap_cons decide_True //. apply elem_of_cons. by left.
  - rw !fmap_cons IH. destruct (decide (n ∈ ne_node_id <$> es)) as [Hin|Hin].
    + rw decide_True //. apply elem_of_cons. by right.
    + rw decide_False //. by intros [->|?]%elem_of_cons.
Qed.

Lemma touch_or_push_elem n now es e :
  e ∈ touch_or_push n now es -> e = mkNodeEntry n now \/ (e ∈ es).
Proof.
  induction es as [|e' es IH]; simpl; [by intros ->%list_elem_of_singleton; left|].
  case_decide as He; intros [->|Hin]%elem_of_cons; subst; auto; [right; by right|right; by left|].
  destruct (IH Hin); auto. right; by right.
Qed.

Lemma touch_or_push_new n now es : mkNodeEntry n now ∈ touch_or_push n now es.
Proof. induction es as [|e es IH]; simpl; [by left|]. case_decide; [subst; by left|by right]. Qed.

Lemma touch_or_push_other n now es e :
  ne_node_id e <> n -> e ∈ touch_or_push n now es <-> e ∈ es.
Proof.
  intros He. induction es as [|e' es IH]; simpl.
  - rw list_elem_of_singleton. split; [by intros ->|by intros ?%elem_of_nil].
  - case_decide; rw !elem_of_cons; [|by rw IH]. subst. split; intros [->|?]; auto; done.
Qed.

(** ** The invariant *)

Lemma wf_iff ix :
  prefix_wf ix <-> forall d, (is_Some (ix_inner ix !! d) -> claims ix d <> []) /\ NoDup (ne_node_id <$> claims ix d).
Proof.
  rw /prefix_wf /claims. split.
  - intros Hwf d. destruct (ix_inner ix !! d) as [es|] eqn:E; simpl.
    + by destruct (Hwf d es E).
    + split; [by intros []|constructor].
  - intros Hall d es E. destruct (Hall d) as [Hne Hnd]. rw E in Hne Hnd. simpl in *. eauto.
Qed.

Lemma wf_new ttl : prefix_wf (PrefixIndex_new ttl).
Proof. apply map_Forall_empty. Qed.

Lemma wf_retain keep `{forall e, Decision (keep e)} ix : prefix_wf ix -> prefix_wf (retain_entries keep ix).
Proof.
  rw !wf_iff => Hwf d. rw claims_retain. split; [|by apply NoDup_fmap_filter, Hwf].
  rw retain_inner. destruct (filter keep (claims ix d)); [by intros []|done].
Qed.

Lemma wf_insert ix now d n : prefix_wf ix -> prefix_wf (PrefixIndex_insert ix now d n).
Proof.
  rw !wf_iff => Hwf d'. destruct (Hwf d') as [Hne Hnd]. rw claims_insert. case_decide; subst.
  - split; [intros _ Heq; by pose proof (touch_or_push_new n now (claims ix d')) as Hin; rw Heq in Hin; inversion Hin|].
    rw touch_or_push_ids. case_decide; [done|]. apply NoDup_app. split; [done|]. split; [set_solver|].
    apply NoDup_singleton.
  - split; [|done]. by rw /PrefixIndex_insert /= lookup_insert_ne.
Qed.

Lemma wf_forget_claim ix d n : prefix_wf ix -> prefix_wf (PrefixIndex_forget_claim ix d n).
Proof.
  rw !wf_iff => Hwf d'. rw /claims forget_claim_inner. case_decide; subst; [|by apply Hwf].
  destruct (Hwf d') as [_ Hnd]. apply (NoDup_fmap_filter _ (fun e => ne_node_id e <> n)) in Hnd.
  destruct (filter _ (claims ix d')) eqn:Ef; [split; [by intros []|constructor]|done].
Qed.

Lemma NoDup_lookup ix now d : prefix_wf ix -> NoDup (PrefixIndex_lookup ix now d).
Proof. rw wf_iff lookup_claims => Hwf. by apply NoDup_fmap_filter, Hwf. Qed.

(** ** The walk *)

Lemma insert_all_lookup active v out n :
  insert_all active v out !! n = if decide (n ∈ active) then Some v else out !! n.
Proof.
  rw /insert_all lookup_union lookup_gset_to_gmap. case_decide.
  - by rw option_guard_True // union_Some_l.
  - by rw option_guard_False // (left_id_L None union).
Qed.

Lemma overlap_walk_spec ix now ds : forall i active out n,
  overlap_walk ix now i ds active out !! n =
  if decide (n ∈ active /\ held_prefix ix now n ds <> 0) then Some (i + held_prefix ix now n ds) else out !! n.
Proof.
  induction ds as [|d ds IH]; intros i active out n; simpl.
  - by rw decide_False //; intros [_ []].
  - destruct (decide (active = ∅)) as [->|Hact].
    { repeat case_decide; set_solver. }
    set (active' := filter _ active).
    assert (n ∈ active' <-> n ∈ PrefixIndex_lookup ix now d /\ n ∈ active) as Hf
      by (rw elem_of_filter elem_of_list_to_set //).
    rw IH insert_all_lookup. clearbody active'.
    repeat case_decide; destruct (held_prefix ix now n ds); try naive_solver; f_equal; lia.
Qed.

Lemma longest_prefix_overlap_held ix now ds n :
  PrefixIndex_longest_prefix_overlap ix now ds !! n = nonzero (held_prefix ix now n ds).
Proof.
  destruct ds as [|d ds]; [done|]. simpl.
  destruct (ix_inner ix !! d) as [es|] eqn:E.
  - set (active := list_to_set (PrefixIndex_lookup ix now d) : gset string).
    assert (n ∈ active <-> n ∈ PrefixIndex_lookup ix now d) as Hf by (rw elem_of_list_to_set //).
    rw overlap_walk_spec insert_all_lookup lookup_empty. clearbody active.
    repeat case_decide; try naive_solver. destruct (held_prefix ix now n ds); naive_solver.
  - rw decide_False //. rw /PrefixIndex_lookup E. apply not_elem_of_nil.
Qed.

(** ** Counting *)

Lemma foldl_bump_lookup l : forall out n,
  foldl bump out l !! n =
  match length (filter (fun x => x = n) l) with
  | 0 => out !! n
  | c => Some (default 0 (out !! n) + c)
  end.
Proof.
  induction l as [|x l IH]; intros out n; [done|]. simpl. rw IH /bump filter_cons.
  destruct (decide (x = n)) as [->|Hne]; simpl.
  - rw lookup_insert_eq /=. destruct (length (filter _ l)); f_equal; lia.
  - by rw lookup_insert_ne.
Qed.

Lemma filter_eq_NoDup (l : list string) n :
  NoDup l -> length (filter (fun x => x = n) l) = if decide (n ∈ l) then 1 else 0.
Proof.
  induction 1 as [|x l Hx Hnd IH]; [done|]. rw filter_cons.
  destruct (decide (x = n)) as [->|Hne]; simpl; rw IH.
  - by rw (decide_False _ _ Hx) decide_True //; left.
  - do 2 case_decide; set_solver.
Qed.

Lemma overlap_fold_lookup ix now ds : prefix_wf ix -> forall out n,
  foldl (fun out d => foldl bump out (PrefixIndex_lookup ix now d)) out ds !! n =
  match held_count ix now n ds with
  | 0 => out !! n
  | c => Some (default 0 (out !! n) + c)
  end.
Proof.
  intros Hwf. rw /held_count. induction ds as [|d ds IH]; intros out n; [done|].
  simpl. rw IH foldl_bump_lookup filter_eq_NoDup; [by apply NoDup_lookup|]. rw filter_cons.
  destruct (decide (n ∈ PrefixIndex_lookup ix now d)); simpl; [|done].
  destruct (length (filter _ ds)); simpl; f_equal; lia.
Qed.

Lemma held_prefix_count ix now n ds : held_prefix ix now n ds <= held_count ix now n ds <= length ds.
Proof.
  rw /held_count. induction ds as [|d ds IH]; simpl; [lia|]. rw filter_cons.
  case_decide; simpl; lia.
Qed.

Lemma held_prefix_iff ix now n ds k :
  held_prefix ix now n ds = k <->
  (forall i, i < k -> exists d, ds !! i = Some d /\ n ∈ PrefixIndex_lookup ix now d) /\
  ~ (exists d, ds !! k = Some d /\ n ∈ PrefixIndex_lookup ix now d).
Proof.
  revert k. induction ds as [|d ds IH]; intros k; simpl.
  - split; [intros <-; split; [lia|naive_solver]|].
    intros [Hall _]. destruct k; [done|]. destruct (Hall 0) as (? & ? & _); [lia|done].
  - destruct (decide (n ∈ PrefixIndex_lookup ix now d)) as [Hin|Hin].
    + destruct k as [|k]; [split; [done|intros [_ []]; by exists d]|].
      rw Nat.succ_inj_wd IH /=. split; intros [Hall Hno]; (split; [|done]).
      * intros [|i] Hi; [by exists d|]. apply Hall. lia.
      * intros i Hi. apply (Hall (S i)). lia.
    + split; [intros <-; split; [lia|naive_solver]|].
      intros [Hall _]. destruct k; [done|]. destruct (Hall 0) as (? & ? & ?); [lia|naive_solver].
Qed.

(** ** The clock *)

Lemma claim_live_mono ix now now' e :
  (now <= now')%Z -> claim_live ix now' e -> claim_live ix now e.
Proof. rw /claim_live /duration_since. lia. Qed.

Lemma filter_filter_sub {A} (P Q : A -> Prop) `{forall x, Decision (P x), forall x, Decision (Q x)} (l : list A) :
  (forall x, P x -> Q x) -> filter P (filter Q l) = filter P l.
Proof.
  intros HPQ. induction l as [|x l IH]; [done|]. rw !filter_cons.
  repeat case_decide; rw ?filter_cons ?IH; repeat case_decide; naive_solver.
Qed.

Lemma lookup_gc ix now now' d :
  (now <= now')%Z -> PrefixIndex_lookup (PrefixIndex_gc ix now) now' d = PrefixIndex_lookup ix now' d.
Proof.
  intros Hle. rw !lookup_claims claims_retain. f_equal.
  apply filter_filter_sub. intros e. by apply claim_live_mono.
Qed.

Lemma held_prefix_ext ix ix' now n ds :
  (forall d, PrefixIndex_lookup ix now d = PrefixIndex_lookup ix' now d) ->
  held_prefix ix now n ds = held_prefix ix' now n ds.
Proof. intros Heq. induction ds as [|d ds IH]; simpl; rw ?IH ?Heq //. Qed.

(** ** What each update does to the readers *)

Lemma elem_of_lookup_retain keep `{forall e, Decision (keep e)} ix now d n :
  n ∈ PrefixIndex_lookup (retain_entries keep ix) now d <->
  exists e, e ∈ claims ix d /\ ne_node_id e = n /\ claim_live ix now e /\ keep e.
Proof. rw elem_of_lookup claims_retain. setoid_rewrite list_elem_of_filter. naive_solver. Qed.

Lemma touch_or_push_same n now es e :
  NoDup (ne_node_id <$> es) -> e ∈ touch_or_push n now es -> ne_node_id e = n -> ne_last_seen e = now.
Proof.
  induction es as [|e' es IH]; cbn [touch_or_push]; [by intros _ ->%list_elem_of_singleton|].
  rw fmap_cons => /NoDup_cons [Hni Hnd]. case_decide as He; intros [->|Hin]%elem_of_cons Hid; simpl; auto; [|done].
  contradict Hni. rw He -Hid. by apply list_elem_of_fmap_2.
Qed.

Lemma elem_of_lookup_insert ix t d n now d' n' :
  prefix_wf ix ->
  n' ∈ PrefixIndex_lookup (PrefixIndex_insert ix t d n) now d' <->
  if decide (d = d' /\ n = n') then (duration_since now t < ix_ttl ix)%Z
  else n' ∈ PrefixIndex_lookup ix now d'.
Proof.
  rw wf_iff => Hwf. rw !elem_of_lookup claims_insert.
  destruct (decide (d = d')) as [<-|Hd]; [|rw decide_False; [naive_solver|by rw elem_of_lookup]].
  destruct (decide (n = n')) as [<-|Hn].
  - rw decide_True //. split.
    + intros (e & Hin & Hid & Hlive). eapply touch_or_push_same in Hin; [|apply Hwf|done]. by subst.
    + intros Hlt. exists (mkNodeEntry n t). split; [apply touch_or_push_new|done].
  - rw decide_False; [naive_solver|]. rw elem_of_lookup. split; intros (e & Hin & Hid & Hl); exists e;
      (split; [|done]); eapply touch_or_push_other; eauto; congruence.
Qed.

Lemma elem_of_lookup_forget_claim ix d n now d' n' :
  n' ∈ PrefixIndex_lookup (PrefixIndex_forget_claim ix d n) now d' <->
  ~ (d = d' /\ n = n') /\ n' ∈ PrefixIndex_lookup ix now d'.
Proof.
  rw !elem_of_lookup {1}/claims forget_claim_inner.
  destruct (decide (d = d')) as [<-|Hd]; [|by change (default [] (ix_inner ix !! d')) with (claims ix d'); naive_solver].
  assert (default [] (match filter (fun e => ne_node_id e <> n) (claims ix d) with [] => None | es => Some es end)
    = filter (fun e => ne_node_id e <> n) (claims ix d)) as -> by (by destruct (filter _ _)).
  setoid_rewrite list_elem_of_filter. rw /claim_live. naive_solver.
Qed.

(** ** Reachable indexes *)

Inductive prefix_op :=
| OpInsert (now : Z) (d : list Z) (n : string)
| OpInsertMany (clock : nat -> Z) (ds : list (list Z)) (n : string)
| OpForgetClaim (d : list Z) (n : string)
| OpForgetNode (n : string)
| OpForgetNodeStale (now : Z) (n : string) (older_than : Z)
| OpGc (now : Z).

Definition apply_op (ix : PrefixIndex) (op : prefix_op) : PrefixIndex :=
  match op with
  | OpInsert now d n => PrefixIndex_insert ix now d n
  | OpInsertMany clock ds n => PrefixIndex_insert_many ix clock ds n
  | OpForgetClaim d n => PrefixIndex_forget_claim ix d n
  | OpForgetNode n => PrefixIndex_forget_node ix n
  | OpForgetNodeStale now n age => PrefixIndex_forget_node_stale ix now n age
  | OpGc now => PrefixIndex_gc ix now
  end.

Lemma wf_insert_many ds n : forall ix clock, prefix_wf ix -> prefix_wf (PrefixIndex_insert_many ix clock ds n).
Proof. induction ds as [|d ds IH]; simpl; auto using wf_insert. Qed.

#[export] Hint Resolve wf_new wf_insert wf_insert_many wf_forget_claim wf_retain : cgn.

Lemma wf_apply_op ix op : prefix_wf ix -> prefix_wf (apply_op ix op).
Proof.
  destruct op; simpl; rw /PrefixIndex_forget_node /PrefixIndex_forget_node_stale /PrefixIndex_gc;
    auto with cgn.
Qed.

Lemma wf_reachable ttl ops : prefix_wf (foldl apply_op (PrefixIndex_new ttl) ops).
Proof.
  generalize (wf_new ttl). generalize (PrefixIndex_new ttl).
  induction ops as [|op ops IH]; simpl; auto using wf_apply_op.
Qed.

(** ** Properties *)

(** C6. [longest_prefix_overlap] reports exactly the length of the longest
    contiguous prefix of the digests that a node holds: [k] is reported for [n]
    iff [k > 0], [n] holds a live claim on each of the first [k] digests, and
    not on the next one (or there is none). *)
Theorem longest_prefix_overlap_correct ix now ds n k :
  PrefixIndex_longest_prefix_overlap ix now ds !! n = Some k <->
  0 < k /\
  (forall i, i < k -> exists d, ds !! i = Some d /\ n ∈ PrefixIndex_lookup ix now d) /\
  ~ (exists d, ds !! k = Some d /\ n ∈ PrefixIndex_lookup ix now d).
Proof.
  rw longest_prefix_overlap_held -held_prefix_iff. destruct (held_prefix ix now n ds); simpl.
  - split; [done|lia].
  - split; [by intros [= <-]; split; [lia|]|by intros [_ ->]].
Qed.

(** In every index reachable from an empty one by any sequence of updates,
    no digest is kept without claims and no node claims a digest twice, so
    [overlap] counts each held digest once, and a node's contiguous overlap
    never exceeds its content overlap. *)
Lemma overlap_counts_digests ttl ops now ds n :
  let ix := foldl apply_op (PrefixIndex_new ttl) ops in
  prefix_wf ix /\
  PrefixIndex_overlap ix now ds !! n = nonzero (held_count ix now n ds) /\
  default 0 (PrefixIndex_longest_prefix_overlap ix now ds !! n) <=
  default 0 (PrefixIndex_overlap ix now ds !! n) <= length ds.
Proof.
  intros ix. pose proof (wf_reachable ttl ops) as Hwf. fold ix in Hwf.
  assert (PrefixIndex_overlap ix now ds !! n = nonzero (held_count ix now n ds)) as Ho.
  { rw /PrefixIndex_overlap overlap_fold_lookup // lookup_empty. by destruct (held_count _ _ _ _). }
  split; [done|]. split; [done|]. rw Ho longest_prefix_overlap_held.
  pose proof (held_prefix_count ix now n ds).
  destruct (held_prefix ix now n ds), (held_count ix now n ds); simpl in *; lia.
Qed.


Definition example_index : PrefixIndex :=
  PrefixIndex_insert (PrefixIndex_insert (PrefixIndex_new 60) 0 [1%Z] "a") 5 [1%Z] "b".


(** Garbage collection is invisible: collecting at [now] changes no
    later [lookup] and no later [longest_prefix_overlap]. *)
Lemma gc_invisible ix now now' :
  (now <= now')%Z ->
  (forall d, PrefixIndex_lookup (PrefixIndex_gc ix now) now' d = PrefixIndex_lookup ix now' d) /\
  (forall ds, PrefixIndex_longest_prefix_overlap (PrefixIndex_gc ix now) now' ds =
              PrefixIndex_longest_prefix_overlap ix now' ds).
Proof.
  intros Hle. split; [by intros d; apply lookup_gc|]. intros ds. apply map_eq. intros n.
  rw !longest_prefix_overlap_held. f_equal. apply held_prefix_ext. intros d. by apply lookup_gc.
Qed.

Lemma gc_invisible_witness :
  PrefixIndex_lookup (PrefixIndex_gc example_index 62) 62 [1%Z] = ["b"].
Proof.
  destruct (gc_invisible example_index 62 62) as [Hl _]; [done|]. rw Hl. by vm_compute.
Defined.
