(* ===== verification/Float32.v ===== *)
(** * IEEE-754 arithmetic

    Rust's [f32] and [f64] as the standard library's executable specification
    of binary floating point ([SpecFloat]) at precision 24 and 53, with
    round-to-nearest-even. All NaNs are one value. The order lemmas are what
    the router's comparisons and clamps need. *)

From Corelib Require Export SpecFloat.
From S2P Require Import Prelude.

Abbreviation f32 := spec_float.
Abbreviation f64 := spec_float.

(** ** Operations *)

Definition f32_add : f32 -> f32 -> f32 := SFadd 24 128.
Definition f32_sub : f32 -> f32 -> f32 := SFsub 24 128.
Definition f32_mul : f32 -> f32 -> f32 := SFmul 24 128.
Definition f32_div : f32 -> f32 -> f32 := SFdiv 24 128.
Definition f64_mul : f64 -> f64 -> f64 := SFmul 53 1024.

(** [x as f32] and [x as f64] for an integer [x]. *)
Definition f32_of_Z (z : Z) : f32 := binary_normalize 24 128 z 0 false.
Definition f64_of_Z (z : Z) : f64 := binary_normalize 53 1024 z 0 false.

(** [x as f64] for an [f32]: exact. *)
Definition f64_of_f32 (x : f32) : f64 :=
  match x with
  | S754_finite s m e => binary_normalize 53 1024 (if s then Z.neg m else Z.pos m) e s
  | _ => x
  end.

(** [x as u64] for a float: truncates, saturates, and maps NaN to zero. *)
Definition u64_of_float (x : spec_float) : Z :=
  match x with
  | S754_finite false m e => Z.min u64_max (Z.shiftl (Z.pos m) e)
  | S754_infinity false => u64_max
  | _ => 0
  end.

(** The literal [n / d], correctly rounded. *)
Definition f32_lit (n d : Z) : f32 := f32_div (f32_of_Z n) (f32_of_Z d).

Definition f32_zero : f32 := S754_zero false.
Definition f32_one : f32 := Eval vm_compute in f32_of_Z 1.

(** [a < b], [a <= b], [a >= b]: false when either is NaN. *)
Definition f32_lt (a b : f32) : bool := SFltb a b.
Definition f32_le (a b : f32) : bool := SFleb a b.
Definition f32_ge (a b : f32) : bool := SFleb b a.

(** [f32::max]: the other operand when one is NaN. *)
Definition f32_max (a b : f32) : f32 :=
  match a, b with
  | S754_nan, _ => b
  | _, S754_nan => a
  | _, _ => if f32_lt a b then b else a
  end.

(** [f32::clamp]. *)
Definition f32_clamp (x lo hi : f32) : f32 :=
  let x := if f32_lt x lo then lo else x in
  if f32_lt hi x then hi else x.

(** [f32::abs]. *)
Definition f32_abs (x : f32) : f32 := SFabs x.

(** [x as f32] for an [f64]. *)
Definition f32_of_f64 (x : f64) : f32 :=
  match x with S754_finite s m e => binary_normalize 24 128 (if s then Z.neg m else Z.pos m) e s | _ => x end.

Definition is_finite (x : spec_float) : bool := match x with S754_infinity _ | S754_nan => false | _ => true end.

(** The floats an [f32] can be: the mantissa and exponent of [S754_finite] are
    canonical. *)
Definition f32_valid (x : f32) : Prop := valid_binary 24 128 x = true.

Definition is_nan (x : spec_float) : bool := match x with S754_nan => true | _ => false end.

(** ** Order *)

(** A non-NaN float's place in the order, compared lexicographically. *)
Definition fkey (x : spec_float) : Z * Z * Z :=
  match x with
  | S754_infinity s => (if s then -2 else 2, 0, 0)%Z
  | S754_finite s m e => if s then (-1, - e, - Z.pos m)%Z else (1, e, Z.pos m)%Z
  | _ => (0, 0, 0)%Z
  end.

Definition key_lt (a b : Z * Z * Z) : Prop :=
  let '(a1, a2, a3) := a in let '(b1, b2, b3) := b in
  (a1 < b1 \/ (a1 = b1 /\ (a2 < b2 \/ (a2 = b2 /\ a3 < b3))))%Z.

Lemma compare_key x y : is_nan x = false -> is_nan y = false ->
  match SFcompare x y with
  | Some Lt => key_lt (fkey x) (fkey y)
  | Some Eq => fkey x = fkey y
  | Some Gt => key_lt (fkey y) (fkey x)
  | None => False
  end.
Proof.
  destruct x as [sx|sx| |sx mx ex], y as [sy|sy| |sy my ey]; simpl; try done;
    try (destruct sx); try (destruct sy); rw /key_lt /=; try lia; try done.
  all: intros _ _; destruct (Z.compare_spec ex ey); simpl; try lia.
  all: change (Pos.compare_cont Eq mx my) with (Pos.compare mx my);
    destruct (Pos.compare_spec mx my); simpl; try (subst; lia || done).
Qed.

Lemma f32_lt_key x y : is_nan x = false -> is_nan y = false -> f32_lt x y = true <-> key_lt (fkey x) (fkey y).
Proof.
  intros Hx Hy. pose proof (compare_key x y Hx Hy) as Hc. rw /f32_lt /SFltb.
  destruct (SFcompare x y) as [[]|]; [| | |done]; revert Hc;
    destruct (fkey x) as [[??]?], (fkey y) as [[??]?]; rw /key_lt; intros; split; intros; simplify_eq; try done; lia.
Qed.

Lemma f32_le_key x y : is_nan x = false -> is_nan y = false -> f32_le x y = true <-> ~ key_lt (fkey y) (fkey x).
Proof.
  intros Hx Hy. pose proof (compare_key x y Hx Hy) as Hc. rw /f32_le /SFleb.
  destruct (SFcompare x y) as [[]|]; [| | |done]; revert Hc;
    destruct (fkey x) as [[??]?], (fkey y) as [[??]?]; rw /key_lt; intros; split; intros; simplify_eq; try done; lia.
Qed.

Lemma f32_lt_nan x y : f32_lt x y = true -> is_nan x = false /\ is_nan y = false.
Proof. by destruct x, y. Qed.

Lemma f32_le_nan x y : f32_le x y = true -> is_nan x = false /\ is_nan y = false.
Proof. by destruct x, y. Qed.

Ltac fkeys := repeat match goal with |- context [fkey ?x] => destruct (fkey x) as [[? ?] ?] end; rw /key_lt.

Lemma f32_le_refl x : is_nan x = false -> f32_le x x = true.
Proof. intros Hx. apply f32_le_key; auto. fkeys. lia. Qed.

Lemma f32_le_trans x y z : f32_le x y = true -> f32_le y z = true -> f32_le x z = true.
Proof.
  intros H1 H2. destruct (f32_le_nan _ _ H1) as [Hx Hy]. destruct (f32_le_nan _ _ H2) as [_ Hz].
  move: H1 H2. rw !f32_le_key //. fkeys. lia.
Qed.

Lemma f32_lt_le x y : f32_lt x y = true -> f32_le x y = true.
Proof.
  intros H1. destruct (f32_lt_nan _ _ H1) as [Hx Hy]. move: H1. rw f32_lt_key // f32_le_key //. fkeys. lia.
Qed.

Lemma f32_lt_nlt x y : is_nan x = false -> is_nan y = false -> f32_lt x y = false <-> f32_le y x = true.
Proof.
  intros Hx Hy. rw f32_le_key // -f32_lt_key //. destruct (f32_lt x y); naive_solver.
Qed.

(** A clamped non-NaN value lies between the bounds. *)
Lemma f32_clamp_bounds x lo hi :
  is_nan x = false -> f32_le lo hi = true ->
  f32_le lo (f32_clamp x lo hi) = true /\ f32_le (f32_clamp x lo hi) hi = true.
Proof.
  intros Hx Hle. destruct (f32_le_nan _ _ Hle) as [Hlo Hhi]. rw /f32_clamp.
  set (x' := if f32_lt x lo then lo else x).
  assert (is_nan x' = false /\ f32_le lo x' = true) as [Hx' Hlox'].
  { subst x'. destruct (f32_lt x lo) eqn:E; [by auto using f32_le_refl|]. split; [done|]. by apply f32_lt_nlt. }
  destruct (f32_lt hi x') eqn:E; [by auto using f32_le_refl|]. split; [done|]. by apply f32_lt_nlt.
Qed.

Lemma f32_clamp_nan x lo hi : is_nan lo = false -> is_nan hi = false ->
  is_nan (f32_clamp x lo hi) = is_nan x.
Proof.
  intros Hlo Hhi. rw /f32_clamp. destruct x as [s|s| |s m e]; repeat case_match; simplify_eq/=; auto;
    by destruct lo, hi.
Qed.

(** ** Double precision *)

Definition f64_div : f64 -> f64 -> f64 := SFdiv 53 1024.
Definition f64_sub : f64 -> f64 -> f64 := SFsub 53 1024.
Definition f64_add : f64 -> f64 -> f64 := SFadd 53 1024.
Definition f64_lit (n d : Z) : f64 := f64_div (f64_of_Z n) (f64_of_Z d).
Definition f64_zero : f64 := S754_zero false.

Lemma u64_of_float_range x : (0 <= u64_of_float x)%Z.
Proof.
  destruct x as [?|[]| |[] m e]; cbn; rw /u64_max; try lia. apply Z.min_glb; [lia|]. apply Z.shiftl_nonneg. lia.
Qed.

(** ** Rounding and small integers *)

(** [f32::round]: to the nearest integer, halves away from zero. *)
Definition f32_round (x : f32) : f32 :=
  match x with
  | S754_finite s m e =>
      if (0 <=? e)%Z then x
      else
        let n := Z.shiftr (Z.pos m + 2 ^ (- e - 1)) (- e) in
        binary_normalize 24 128 (if s then - n else n)%Z 0 s
  | _ => x
  end.

(** [x as i8]: truncates, saturates, and maps NaN to zero. *)
Definition i8_of_f32 (x : f32) : Z :=
  match x with
  | S754_finite s m e =>
      let n := Z.shiftl (Z.pos m) e in
      (if s then Z.max (-128) (- n) else Z.min 127 n)%Z
  | S754_infinity s => if s then (-128)%Z else 127%Z
  | _ => 0%Z
  end.

Lemma i8_of_f32_range x : (-128 <= i8_of_f32 x <= 127)%Z.
Proof.
  destruct x as [?|[]| |[] m e]; cbn; try lia;
    assert (0 <= Z.shiftl (Z.pos m) e)%Z by (apply Z.shiftl_nonneg; lia); lia.
Qed.

(** ** Widening and narrowing *)

Lemma iter_pos_nat {A} (f : A -> A) n x : SpecFloat.iter_pos f n x = Nat.iter (Pos.to_nat n) f x.
Proof.
  revert x. induction n as [n IH|n IH|]; intros x; cbn [SpecFloat.iter_pos]; [| |done]; rw !IH -Nat.iter_add.
  - rw -Nat.iter_succ_r. f_equal. lia.
  - f_equal. lia.
Qed.

Lemma pos_iter_nat {A} (f : A -> A) n x : Pos.iter f x n = Nat.iter (Pos.to_nat n) f x.
Proof. by rw Pos2Nat.inj_iter. Qed.

Lemma digits_iter m n : Z.pos (digits2_pos (Nat.iter n xO m)) = (Z.pos (digits2_pos m) + Z.of_nat n)%Z.
Proof.
  induction n as [|n IH]; [cbn; lia|]. change (Nat.iter (S n) xO m) with (xO (Nat.iter n xO m)). cbn [digits2_pos]. lia.
Qed.

Abbreviation exact m := {| shr_m := m; shr_r := false; shr_s := false |}.

(** Shifting back what was shifted loses nothing. *)
Lemma shr_shift m k : SpecFloat.iter_pos shr_1 k (exact (Z.pos (Pos.iter xO m k))) = exact (Z.pos m).
Proof.
  rw iter_pos_nat pos_iter_nat. induction (Pos.to_nat k) as [|n IH]; [done|]. rw Nat.iter_succ_r. exact IH.
Qed.

(** A mantissa that needs no rounding is kept. *)
Lemma round_exact prec emax s m e e' k :
  (fexp prec emax (Z.pos (digits2_pos m) + e) = e)%Z -> (e <= emax - prec)%Z -> (e' + Z.of_nat k = e)%Z ->
  binary_round_aux prec emax s (Z.pos (Nat.iter k xO m)) e' loc_Exact = S754_finite s m e.
Proof.
  intros Hf He Hk. rw /binary_round_aux /shr_fexp. cbn [shr_record_of_loc Zdigits2].
  replace (Z.pos (digits2_pos (Nat.iter k xO m)) + e')%Z with (Z.pos (digits2_pos m) + e)%Z by (rw digits_iter; lia).
  rw Hf. replace (e - e')%Z with (Z.of_nat k) by lia.
  assert (Hs : shr (exact (Z.pos (Nat.iter k xO m))) e' (Z.of_nat k) = (exact (Z.pos m), e)).
  { destruct k as [|k]; [by rw -Hk /= Z.add_0_r|]. rw -Hk.
    pose proof (shr_shift m (Pos.of_succ_nat k)) as Hp. rw pos_iter_nat SuccNat2Pos.id_succ in Hp.
    exact (f_equal (fun r => (r, (e' + Z.of_nat (S k))%Z)) Hp). }
  rw Hs. cbn [loc_of_shr_record round_nearest_even shr_m shr_record_of_loc Zdigits2].
  rw Hf Z.sub_diag. cbn [shr shr_m]. by rw (proj2 (Z.leb_le e _) He).
Qed.

(** An [f32] widened to an [f64] and narrowed again is itself. *)
Lemma f32_of_f64_of_f32 x : f32_valid x -> f32_of_f64 (f64_of_f32 x) = x.
Proof.
  rw /f32_valid. destruct x as [s|s| |s m e]; try done. cbn [valid_binary]. rw /bounded /canonical_mantissa.
  intros [Hc%Z.eqb_eq He%Z.leb_le]%andb_true_iff.
  set (e' := fexp 53 1024 (Z.pos (digits2_pos m) + e)).
  assert (Hd : (0 < Z.pos (digits2_pos m))%Z) by lia.
  assert (He' : (e' <= e)%Z) by (rw /fexp /emin in Hc; rw /e' /fexp /emin; lia).
  assert (Hw : f64_of_f32 (S754_finite s m e) = S754_finite s (Nat.iter (Z.to_nat (e - e')) xO m) e').
  { rw /f64_of_f32 /binary_normalize. assert (Hb : forall b, binary_round 53 1024 b m e = S754_finite b (Nat.iter (Z.to_nat (e - e')) xO m) e'); [|by destruct s; rw Hb].
    intros b. rw /binary_round /shl_align -/e'.
    assert (Ha : (match (e' - e)%Z with Z.neg d => (Pos.iter xO m d, e') | _ => (m, e) end) = (Nat.iter (Z.to_nat (e - e')) xO m, e')).
    { destruct (e' - e)%Z as [|d|d] eqn:E; [|lia|]; [replace (e - e')%Z with 0%Z by lia; cbn; f_equal; lia|].
      rw pos_iter_nat. do 2 f_equal. lia. }
    rw Ha. apply (round_exact _ _ b (Nat.iter (Z.to_nat (e - e')) xO m) e' e' 0); [|lia|lia].
    replace (Z.pos (digits2_pos (Nat.iter (Z.to_nat (e - e')) xO m)) + e')%Z with (Z.pos (digits2_pos m) + e)%Z by (rw digits_iter; lia).
    done. }
  rw Hw /f32_of_f64 /binary_normalize.
  assert (Hb : forall b, binary_round 24 128 b (Nat.iter (Z.to_nat (e - e')) xO m) e' = S754_finite b m e); [|by destruct s; rw Hb].
  intros b. rw /binary_round /shl_align. cbn [Zdigits2].
  replace (Z.pos (digits2_pos (Nat.iter (Z.to_nat (e - e')) xO m)) + e')%Z with (Z.pos (digits2_pos m) + e)%Z by (rw digits_iter; lia).
  rw Hc. replace (match (e - e')%Z with Z.neg d => _ | _ => _ end) with (Nat.iter (Z.to_nat (e - e')) xO m, e')
    by (destruct (e - e')%Z eqn:E; [done|done|lia]).
  apply round_exact; [done|done|lia].
Qed.
