(* ===== verification/Proto.v ===== *)
(** * Messages of the wire protocol

    The [cognitora.v1] messages that the gateway, the agent and the engine
    adapter exchange, as records. Text is a byte string in UTF-8. *)

From S2P Require Import Prelude Float32.

Record Token := mkToken {
  t_id : string;
  t_text : string;
  t_finish : string;
  t_logprob : f32;
  t_tool_calls_json : string;
  t_logprobs_json : string;
  t_prompt_tokens : Z;
  t_completion_tokens : Z;
}.

(** A gRPC status: code and message. *)
Record Status := mkStatus { st_code : Z; st_message : string }.

Record Message := mkMessage {
  m_role : string;
  m_content : string;
  m_name : string;
  m_content_json : string;
  m_tool_calls_json : string;
  m_tool_call_id : string;
}.

Record SamplingParams := mkSampling {
  sp_temperature : f32;
  sp_top_p : f32;
  sp_top_k : Z;
  sp_max_tokens : Z;
  sp_stop : list string;
  sp_logprobs : bool;
  sp_seed : option Z;
  sp_frequency_penalty : f32;
  sp_presence_penalty : f32;
  sp_repetition_penalty : f32;
}.

(** [SamplingParams::default()]: what an absent message decodes to. *)
Definition SamplingParams_default : SamplingParams :=
  mkSampling f32_zero f32_zero 0 0 [] false None f32_zero f32_zero f32_zero.

(** The fields of [GenerateRequest] that the gateway fills. *)
Record GenerateRequest := mkGenerate {
  gq_model : string;
  gq_messages : list Message;
  gq_params : option SamplingParams;
  gq_tenant : string;
  gq_stream : bool;
  gq_cascade : list string;
  gq_traceparent : string;
  gq_tracestate : string;
  gq_deadline_ms : Z;
  gq_extensions_json : string;
  gq_prompt : string;
  gq_session : string;
}.

Record AgentGenerateRequest := mkAgentGenerate {
  aq_id : string;
  aq_model : string;
  aq_messages : list Message;
  aq_params : option SamplingParams;
  aq_prefill_only : bool;
  aq_decode_only : bool;
  aq_blocks : list (list Z);
  aq_traceparent : string;
  aq_tracestate : string;
  aq_extensions_json : string;
  aq_digests : list (list Z);
  aq_prompt : string;
}.

Record EmbedRequest := mkEmbedRequest { eq_model : string; eq_inputs : list string; eq_tenant : string }.
Record EmbedResponse := mkEmbedResponse { ep_embeddings : list (list f32); ep_tokens : Z; ep_model : string }.

(** [KvHandoffSpec] with its direction, and what the store's daemon is asked. *)
Inductive Direction := Direction_Unspecified | Direction_Push | Direction_Pull.
Record KvHandoffSpec := mkHandoff {
  hs_direction : Direction;
  hs_prefix_hash : list Z;
  hs_peer_node_id : string;
  hs_peer_endpoint : string;
  hs_use_rdma : bool;
}.

(** [PushSpec] and [PullSpec]: the peer is the target or the source. *)
Record TransferSpec := mkTransfer { ts_prefix_hash : list Z; ts_node_id : string; ts_endpoint : string; ts_use_rdma : bool }.
