(* ===== verification/KvPool.v ===== *)
(** * KV bookkeeping of the native engine

    [cgn-infer/src/kv/mod.rs]: the chained-hash prefix cache of the sequential
    runtime ([PrefixCache]) and the paged block accounting of the
    continuous-batching scheduler ([KvPool]). A [usize] that counts tokens or
    blocks held in memory is a [nat]. *)

From S2P Require Import Prelude Hash.

(** ** [PrefixCache] *)

Record PrefixCache := mkPrefixCache {
  resident : gmap (list Z) nat;
  cached_tokens : nat;
}.

Record PrefixMatch := mkPrefixMatch { pm_tokens : nat; pm_blocks : nat }.

Definition PrefixCache_new : PrefixCache := mkPrefixCache ∅ 0.

(** The loop of [match_prefix]: [i] is the block index, [blocks] the result so far. *)
Fixpoint match_loop (c : PrefixCache) (i blocks : nat) (hs : list (list Z)) : nat :=
  match hs with
  | [] => blocks
  | h :: hs' => if decide (resident c !! h = Some (i + 1)) then match_loop c (S i) (i + 1) hs' else blocks
  end.

(** The loop of [record]: insert hash [i] with depth [i + 1]. *)
Fixpoint record_loop (i : nat) (hs : list (list Z)) (m : gmap (list Z) nat) : gmap (list Z) nat :=
  match hs with
  | [] => m
  | h :: hs' => record_loop (S i) hs' (<[h := i + 1]> m)
  end.

Section cache.
Context `{Blake3}.

Definition PrefixCache_match_prefix (c : PrefixCache) (prompt : list Z) : PrefixMatch :=
  let blocks := match_loop c 0 0 (block_hashes prompt) in
  mkPrefixMatch (blocks * BLOCK_TOKENS) blocks.

Definition PrefixCache_record (c : PrefixCache) (tokens : list Z) : PrefixCache :=
  mkPrefixCache (record_loop 0 (block_hashes tokens) ∅) (length tokens).

End cache.

Definition PrefixCache_clear (c : PrefixCache) : PrefixCache := mkPrefixCache ∅ 0.

(** ** [KvPool] *)

Record KvPool := mkKvPool {
  total_blocks : nat;
  used_blocks : nat;
  held : gmap nat nat;
}.

Definition KvPool_new (total : nat) : KvPool := mkKvPool total 0 ∅.

(** [tokens.div_ceil(BLOCK_TOKENS)]. *)
Definition blocks_for (tokens : nat) : nat := (tokens + (BLOCK_TOKENS - 1)) / BLOCK_TOKENS.

#[global] Arguments blocks_for : simpl never.

Definition free_blocks (p : KvPool) : nat := total_blocks p - used_blocks p.

Definition held_by (p : KvPool) (seq : nat) : nat := default 0 (held p !! seq).

Definition KvPool_reserve (p : KvPool) (seq tokens : nat) : KvPool * bool :=
  let want := blocks_for tokens in
  let have := held_by p seq in
  if decide (want <= have) then (p, true)
  else
    let extra := want - have in
    if decide (free_blocks p < extra) then (p, false)
    else (mkKvPool (total_blocks p) (used_blocks p + extra) (<[seq := want]> (held p)), true).

Definition KvPool_release (p : KvPool) (seq : nat) : KvPool :=
  match held p !! seq with
  | Some blocks => mkKvPool (total_blocks p) (used_blocks p - blocks) (delete seq (held p))
  | None => p
  end.

(** ** The pool's invariant *)

Definition held_sum (m : gmap nat nat) : nat := map_fold (fun _ b acc => b + acc) 0 m.

(** The blocks counted as used are the ones the sequences hold, and fit. *)
Definition pool_wf (p : KvPool) : Prop := used_blocks p = held_sum (held p) /\ used_blocks p <= total_blocks p.

Lemma held_sum_insert m i b : m !! i = None -> held_sum (<[i := b]> m) = b + held_sum m.
Proof.
  intros Hm. rw /held_sum map_fold_insert_L //. intros j1 j2 z1 z2 y. lia.
Qed.

Lemma held_sum_delete m i b : m !! i = Some b -> held_sum m = b + held_sum (delete i m).
Proof.
  intros Hm. rw -{1}(insert_delete_id m i b) //. apply held_sum_insert, lookup_delete_eq.
Qed.

Lemma held_sum_split m i : held_sum m = default 0 (m !! i) + held_sum (delete i m).
Proof.
  destruct (m !! i) as [b|] eqn:E; simpl; [by apply held_sum_delete|]. by rw delete_id.
Qed.

Lemma held_sum_replace m i b : held_sum (<[i := b]> m) = b + held_sum (delete i m).
Proof. rw -insert_delete_eq held_sum_insert //. apply lookup_delete_eq. Qed.

Lemma held_le_sum m i b : m !! i = Some b -> b <= held_sum m.
Proof. intros Hm. rw (held_sum_delete m i b) //. lia. Qed.

Lemma pool_wf_new total : pool_wf (KvPool_new total).
Proof. split; simpl; [done|lia]. Qed.

Lemma reserve_true p seq tokens p' :
  pool_wf p -> KvPool_reserve p seq tokens = (p', true) ->
  pool_wf p' /\ total_blocks p' = total_blocks p /\ blocks_for tokens <= held_by p' seq /\
  held_by p' seq = Nat.max (blocks_for tokens) (held_by p seq) /\
  (forall seq', seq' <> seq -> held p' !! seq' = held p !! seq').
Proof.
  rw /KvPool_reserve /pool_wf /held_by => [[Hu Ht]]. case_decide as Hw; [intros [= <-]; naive_solver lia|].
  case_decide as Hf; [done|]. intros [= <-]. rw /free_blocks /held_by in Hw Hf. simpl.
  pose proof (held_sum_split (held p) seq). rw held_sum_replace lookup_insert_eq /=.
  repeat split; try lia. intros seq' Hne. by rw lookup_insert_ne.
Qed.

Lemma reserve_false p seq tokens p' :
  KvPool_reserve p seq tokens = (p', false) ->
  p' = p /\ free_blocks p < blocks_for tokens - held_by p seq.
Proof. rw /KvPool_reserve. repeat case_decide; intros [= <-]; done. Qed.

Lemma release_spec p seq :
  pool_wf p ->
  let p' := KvPool_release p seq in
  pool_wf p' /\ total_blocks p' = total_blocks p /\ held p' = delete seq (held p) /\
  used_blocks p = used_blocks p' + held_by p seq.
Proof.
  rw /KvPool_release /pool_wf /held_by => [[Hu Ht]]. destruct (held p !! seq) as [b|] eqn:E; simpl.
  - pose proof (held_sum_delete _ _ _ E). repeat split; lia.
  - rw delete_id //; repeat split; lia.
Qed.

(** ** The prefix cache *)

Lemma chunks_exact_length_le {A} n (l : list A) k :
  0 < n -> k <= length (chunks_exact n l) <-> k * n <= length l.
Proof.
  intros Hn. destruct k as [|k]; [lia|]. rw Nat.le_succ_l -lookup_lt_is_Some chunks_exact_lookup //.
  case_decide; split; intros; done || lia.
Qed.

Lemma take_chunks_exact {A} n (l1 l2 : list A) k :
  0 < n -> k * n <= length l1 -> k * n <= length l2 ->
  take k (chunks_exact n l1) = take k (chunks_exact n l2) <-> take (k * n) l1 = take (k * n) l2.
Proof.
  intros Hn H1 H2. split.
  - revert l1 l2 H1 H2. induction k as [|k IH]; intros l1 l2 H1 H2; [done|].
    rw (chunks_exact_cons n l1) ?(chunks_exact_cons n l2); try lia. rw /= => [= Ht Hr].
    rw -!take_take_drop Ht. f_equal. apply IH; rw ?length_drop; [lia..|done].
  - intros Ht. apply take_lookup_eq. intros i Hi. rw !chunks_exact_lookup //.
    assert (S i * n <= k * n) as Hle by (apply Nat.mul_le_mono_r; lia).
    rw !decide_True; try lia. f_equal.
    apply (f_equal (fun l => take n (drop (i * n) l))) in Ht.
    rw !skipn_firstn_comm !take_take in Ht. rw !Nat.min_l in Ht; simpl in Hle; lia || done.
Qed.

Lemma record_loop_lookup hs : forall i m h,
  NoDup hs ->
  record_loop i hs m !! h =
  match list_find (fun x => x = h) hs with Some (j, _) => Some (i + j + 1) | None => m !! h end.
Proof.
  induction hs as [|x hs IH]; intros i m h; [done|]. intros [Hx Hnd]%NoDup_cons.
  simpl. rw IH //. destruct (decide (x = h)) as [->|Hne]; simpl.
  - assert (list_find (fun y => y = h) hs = None) as ->.
    { apply list_find_None, Forall_forall. by intros y Hy ->. }
    rw lookup_insert_eq. f_equal. lia.
  - destruct (list_find _ hs) as [[j y]|]; simpl; [f_equal; lia|]. by rw lookup_insert_ne.
Qed.

Lemma record_loop_depth hs h i :
  NoDup hs -> record_loop 0 hs ∅ !! h = Some (i + 1) <-> hs !! i = Some h.
Proof.
  intros Hnd. rw record_loop_lookup // lookup_empty. split.
  - destruct (list_find _ hs) as [[j y]|] eqn:E; [|done]. intros [= Hj].
    apply list_find_Some in E as (Hl & -> & _). by replace i with j by lia.
  - intros Hl. destruct (list_find_elem_of (fun x => x = h) hs h) as [[j y] E]; [by eapply list_elem_of_lookup_2|done|].
    rw E. apply list_find_Some in E as (Hl' & -> & _). f_equal.
    by rw (NoDup_lookup hs i j h).
Qed.

Lemma match_loop_lcp c hs : (forall h i, resident c !! h = Some (i + 1) <-> hs !! i = Some h) ->
  forall hs' i, match_loop c i i hs' = i + lcp (drop i hs) hs'.
Proof.
  intros Hres. induction hs' as [|h hs' IH]; intros i; simpl; [by destruct (drop i hs); simpl; lia|].
  destruct (decide (resident c !! h = Some (i + 1))) as [Hh|Hh].
  - apply Hres in Hh. rw (drop_S _ _ _ Hh) /= decide_True // Nat.add_1_r IH. lia.
  - destruct (drop i hs) as [|h' r] eqn:E; simpl; [lia|].
    rw decide_False; [|lia]. intros ->. apply Hh, Hres.
    rw -(Nat.add_0_r i) -lookup_drop E //.
Qed.

Section cache_proofs.
Context `{Blake3}.

Lemma block_hashes_NoDup tokens :
  Forall is_u32 tokens -> collision_free (block_messages tokens) -> NoDup (block_hashes tokens).
Proof.
  intros Ht Hcf. apply NoDup_alt. intros i j d Hi Hj. rw block_hashes_chain in Hi Hj. rw block_messages_chain in Hcf.
  refine (proj1 (chain_inj block_message Some block_parent_wf block_chunk_wf blake3_length _
    block_message_inj None _ _ i j d I _ _ _ _ Hi Hj));
    [by intros ?? [= ->]|by apply chunks_exact_wf..| |done].
  intros x y Hx Hy. apply Hcf; set_solver.
Qed.

Lemma lcp_block_hashes t1 t2 :
  Forall is_u32 t1 -> Forall is_u32 t2 -> collision_free (block_messages t1 ++ block_messages t2) ->
  lcp (block_hashes t1) (block_hashes t2) = lcp (chunks_exact BLOCK_TOKENS t1) (chunks_exact BLOCK_TOKENS t2).
Proof.
  intros H1 H2 Hcf. pose proof (lcp_le (block_hashes t1) (block_hashes t2)) as [Hl1 Hl2].
  assert (forall t, length (block_hashes t) = length (chunks_exact BLOCK_TOKENS t)) as Hlen
    by (intros t; rw block_hashes_chain length_chain //).
  apply Nat.le_antisymm.
  - apply lcp_max; [by rw -Hlen..|].
    destruct (lcp (block_hashes t1) (block_hashes t2)) as [|k] eqn:Ek; [done|].
    destruct (lookup_lt_is_Some_2 (block_hashes t1) k) as [d Hd]; [lia|].
    apply (block_hashes_inj _ _ k d); auto.
    rw -Hd. symmetry. apply (lookup_take_eq _ _ (S k)); [|lia]. rw -Ek. apply lcp_take.
  - destruct (lcp_le (chunks_exact BLOCK_TOKENS t1) (chunks_exact BLOCK_TOKENS t2)).
    apply lcp_max; [by rw Hlen..|]. rw !block_hashes_chain !chain_take. by rw lcp_take.
Qed.
End cache_proofs.

(** ** Properties *)

(** A trace of pool operations; [reserve]'s answer is kept with the state. *)
Inductive pool_op := PoolReserve (seq tokens : nat) | PoolRelease (seq : nat).

Definition pool_apply (p : KvPool) (op : pool_op) : KvPool :=
  match op with
  | PoolReserve seq tokens => (KvPool_reserve p seq tokens).1
  | PoolRelease seq => KvPool_release p seq
  end.

Lemma pool_wf_apply p op : pool_wf p -> pool_wf (pool_apply p op) /\ total_blocks (pool_apply p op) = total_blocks p.
Proof.
  intros Hwf. destruct op as [seq tokens|seq]; simpl.
  - destruct (KvPool_reserve p seq tokens) as [p' []] eqn:E; simpl.
    + apply reserve_true in E; naive_solver.
    + by apply reserve_false in E as [-> _].
  - destruct (release_spec p seq Hwf); naive_solver.
Qed.

Lemma pool_reachable total ops :
  let p := foldl pool_apply (KvPool_new total) ops in pool_wf p /\ total_blocks p = total.
Proof.
  generalize (pool_wf_new total). assert (total_blocks (KvPool_new total) = total) as Ht by done.
  revert Ht. generalize (KvPool_new total). induction ops as [|op ops IH]; intros p Ht Hwf; [done|].
  simpl. destruct (pool_wf_apply p op Hwf) as [Hwf' Ht']. apply IH; congruence.
Qed.

Lemma blocks_for_enough tokens : tokens <= blocks_for tokens * BLOCK_TOKENS < tokens + BLOCK_TOKENS.
Proof.
  rw /blocks_for /BLOCK_TOKENS. pose proof (Nat.div_mod_eq (tokens + 15) 16).
  pose proof (Nat.mod_upper_bound (tokens + 15) 16). simpl (16 - 1). lia. Qed.

(** Paged KV accounting: in every pool reachable by reservations and
    releases, the used blocks are exactly those held and fit the budget; a
    refused reservation changes nothing and happens only when the growth
    exceeds the free blocks; a granted one covers the requested tokens, never
    shrinks the sequence and touches no other; a release returns everything
    the sequence held. *)
Lemma pool_accounting total ops seq tokens :
  let p := foldl pool_apply (KvPool_new total) ops in
  pool_wf p /\ total_blocks p = total /\ free_blocks p + used_blocks p = total /\
  (let (p', ok) := KvPool_reserve p seq tokens in
   if ok then pool_wf p' /\ tokens <= held_by p' seq * BLOCK_TOKENS /\ held_by p seq <= held_by p' seq /\
              (forall s, s <> seq -> held_by p' s = held_by p s)
   else p' = p /\ free_blocks p < blocks_for tokens - held_by p seq) /\
  (let p' := KvPool_release p seq in
   pool_wf p' /\ held_by p' seq = 0 /\ free_blocks p' = free_blocks p + held_by p seq /\
   (forall s, s <> seq -> held_by p' s = held_by p s)).
Proof.
  intros p. destruct (pool_reachable total ops) as [Hwf Ht]. fold p in Hwf, Ht.
  split; [done|]. split; [done|]. split; [rw /free_blocks; destruct Hwf; lia|]. split.
  - destruct (KvPool_reserve p seq tokens) as [p' []] eqn:E; [|by apply reserve_false in E].
    apply reserve_true in E as (Hwf' & _ & Hle & Hmax & Hoth); [|done].
    pose proof (blocks_for_enough tokens). split; [done|]. split; [|split; [lia|]].
    + etrans; [apply (proj1 (blocks_for_enough tokens))|]. by apply Nat.mul_le_mono_r.
    + intros s Hs. by rw /held_by Hoth.
  - destruct (release_spec p seq Hwf) as (Hwf' & Ht' & Hh & Hu). split; [done|].
    rw {1}/held_by Hh lookup_delete_eq. split; [done|]. split.
    + destruct Hwf as [_ Hle]. rw /free_blocks. lia.
    + intros s Hs. by rw /held_by Hh lookup_delete_ne.
Qed.

(** The engine's prefix cache reports exactly the leading blocks of a new
    prompt that were recorded: the reported tokens are a common prefix of the
    prompt and the recorded sequence, and no longer run of whole blocks is
    common (BLAKE3 has no collision among the blocks hashed). *)
Lemma match_prefix_correct `{Blake3} c tokens prompt :
  Forall is_u32 tokens -> Forall is_u32 prompt ->
  collision_free (block_messages tokens ++ block_messages prompt) ->
  let m := PrefixCache_match_prefix (PrefixCache_record c tokens) prompt in
  pm_tokens m = pm_blocks m * BLOCK_TOKENS /\
  pm_tokens m <= length tokens /\ pm_tokens m <= length prompt /\
  take (pm_tokens m) prompt = take (pm_tokens m) tokens /\
  (forall k, k * BLOCK_TOKENS <= length tokens -> k * BLOCK_TOKENS <= length prompt ->
    take (k * BLOCK_TOKENS) prompt = take (k * BLOCK_TOKENS) tokens -> k <= pm_blocks m).
Proof.
  intros Ht Hp Hcf m.
  assert (NoDup (block_hashes tokens)) as Hnd
    by (apply block_hashes_NoDup; [done|]; intros x y Hx Hy; apply Hcf; set_solver).
  assert (0 < BLOCK_TOKENS) as Hn by (cbv; lia).
  assert (pm_blocks m = lcp (chunks_exact BLOCK_TOKENS tokens) (chunks_exact BLOCK_TOKENS prompt)) as Hb.
  { rw -lcp_block_hashes //. change (pm_blocks m) with
      (match_loop (PrefixCache_record c tokens) 0 0 (block_hashes prompt)).
    rw (match_loop_lcp _ (block_hashes tokens)) //. intros h i. by apply record_loop_depth. }
  assert (pm_tokens m = pm_blocks m * BLOCK_TOKENS) as Htok by done. rw Htok Hb.
  destruct (lcp_le (chunks_exact BLOCK_TOKENS tokens) (chunks_exact BLOCK_TOKENS prompt)) as [Hl1 Hl2].
  rw !chunks_exact_length_le // in Hl1 Hl2. repeat split; auto.
  - symmetry. apply take_chunks_exact; auto. apply lcp_take.
  - intros k Hk1 Hk2 Heq. apply lcp_max; [by apply chunks_exact_length_le..|].
    by apply take_chunks_exact.
Qed.

Lemma match_prefix_correct_witness :
  pm_tokens (@PrefixCache_match_prefix toy_blake3
    (@PrefixCache_record toy_blake3 PrefixCache_new (replicate 40 7%Z)) (replicate 20 7%Z ++ [1%Z])) <= 21.
Proof.
  apply (@match_prefix_correct toy_blake3 PrefixCache_new (replicate 40 7%Z) (replicate 20 7%Z ++ [1%Z]));
    [repeat constructor; done|repeat constructor; done|].
  apply collision_free_check. by vm_compute.
Defined.
