(* ===== verification/Scheduler.v ===== *)
(** * The continuous-batching scheduler

    [cgn-infer/src/scheduler/mod.rs], against the [BatchModel] trait of
    [runtime/mod.rs] and the sampler of [sampling/mod.rs], both as classes. An
    indexing panic of the source is the value [None]; a client's channel is its
    entry in the event log, and [gone] are the requests whose receiver was
    dropped. The sampler of the class always returns a token; [Sampling] says
    what it returns and when the source's panics instead. Text is a string of
    UTF-8 bytes, sliced by byte offset. *)

From S2P Require Import Prelude Hash Float32 KvPool.

(** ** Interfaces *)

(** The trait [BatchModel]; [None] is the trait's [Err]. *)
Class BatchModel := {
  bm_state : Type;
  bm_max_batch : nat;
  bm_max_seq_len : nat;
  bm_prefill : bm_state -> nat -> list Z -> nat -> bool -> bm_state * option (option (list f32));
  bm_decode : bm_state -> list (nat * Z) -> bm_state * option (list (list f32));
  bm_drop_seq : bm_state -> nat -> bm_state;
}.

(** [Sampler::new] and [Sampler::sample]; the RNG is part of the state. *)
Class SamplerOps := {
  sm_params : Type;
  sm_state : Type;
  sm_new : sm_params -> sm_state;
  sm_sample : sm_state -> list f32 -> list Z -> sm_state * Z;
}.

(** ** Text *)

Definition str_len (s : string) : nat := String.length s.

(** [text.find(pat)]: the first byte offset at which [pat] occurs. *)
Definition str_find (text pat : string) : option nat := String.index 0 pat text.

(** [text.ends_with('\u{FFFD}')]: the three bytes EF BF BD. *)
Definition fffd : string :=
  String (Ascii.ascii_of_nat 239) (String (Ascii.ascii_of_nat 191) (String (Ascii.ascii_of_nat 189) "")).
Definition ends_with (text suf : string) : bool :=
  (str_len suf <=? str_len text)%nat &&
  String.eqb (String.substring (str_len text - str_len suf) (str_len suf) text) suf.

(** The byte offsets of [text.char_indices()]: those not at a UTF-8
    continuation byte. *)
Definition is_char_start (text : string) (i : nat) : bool :=
  match String.get i text with
  | Some a => negb ((128 <=? Ascii.nat_of_ascii a)%nat && (Ascii.nat_of_ascii a <? 192)%nat)
  | None => false
  end.
Definition char_starts (text : string) : list nat := filter (is_char_start text) (seq 0 (str_len text)).

(** [&text[start..]] at a char boundary. *)
Definition str_from (text : string) (start : nat) : string :=
  String.substring start (str_len text - start) text.

(** [text.is_char_boundary(i)]. *)
Definition is_boundary (text : string) (i : nat) : bool :=
  (i =? 0)%nat || (i =? str_len text)%nat || is_char_start text i.

(** [text.get(a..b)], and [&text[a..b]] where [None] is the panic. *)
Definition str_slice (text : string) (a b : nat) : option string :=
  if (a <=? b)%nat && (b <=? str_len text)%nat && is_boundary text a && is_boundary text b
  then Some (String.substring a (b - a) text) else None.

(** The inner loop of [held_back_len] for one stop string. *)
Definition hold_stop (text stop : string) (safe : nat) : nat :=
  foldl (fun safe start =>
    if String.prefix (str_from text start) stop && (start <? safe)%nat then start else safe)
    safe (char_starts text).

Definition held_back_len (text : string) (stops : list string) : nat :=
  foldl (fun safe stop => hold_stop text stop safe) (str_len text) stops.

(** [stop.iter().filter_map(|s| text.find(s)).min()]. *)
Definition first_stop (text : string) (stops : list string) : option nat :=
  match omap (str_find text) stops with
  | [] => None
  | h :: hs => Some (foldl Nat.min h hs)
  end.

Lemma is_boundary_0 text : is_boundary text 0 = true.
Proof. done. Qed.
Lemma is_boundary_len text : is_boundary text (str_len text) = true.
Proof. by rw /is_boundary Nat.eqb_refl orb_true_r. Qed.

Lemma char_starts_spec text i : i ∈ char_starts text -> i < str_len text /\ is_boundary text i = true.
Proof.
  rw /char_starts list_elem_of_filter elem_of_seq => [[Hc Hi]]. split; [lia|].
  apply Is_true_true in Hc. by rw /is_boundary Hc !orb_true_r.
Qed.

(** What is held back starts at a char boundary, so the cut is one. *)
Lemma held_back_boundary text stops :
  held_back_len text stops <= str_len text /\ is_boundary text (held_back_len text stops) = true.
Proof.
  pose (ok n := n <= str_len text /\ is_boundary text n = true).
  assert (forall stop l safe, (forall i, i ∈ l -> i ∈ char_starts text) -> ok safe ->
    ok (foldl (fun safe start =>
      if String.prefix (str_from text start) stop && (start <? safe)%nat then start else safe) safe l)) as Hone.
  { intros stop l. induction l as [|i l IH]; intros safe Hl Hs; [done|]. cbn. apply IH.
    - intros j Hj. apply Hl. by right.
    - destruct (_ && _); [|done]. destruct (char_starts_spec text i) as [? ?]; [apply Hl; by left|].
      split; [lia|done]. }
  assert (forall safe, ok safe -> ok (foldl (fun safe stop => hold_stop text stop safe) safe stops)) as Hall.
  { induction stops as [|stop stops IH]; intros safe Hs; [done|]. cbn. apply IH, Hone; auto. }
  apply Hall. split; [done|apply is_boundary_len].
Qed.

Lemma str_slice_Some text a b :
  a <= b -> b <= str_len text -> is_boundary text a = true -> is_boundary text b = true ->
  str_slice text a b = Some (String.substring a (b - a) text).
Proof. rw /str_slice => /Nat.leb_le -> /Nat.leb_le -> -> -> //. Qed.

(** ** Data *)

Record SchedulerConfig := mkSchedulerConfig {
  cfg_max_batch : nat;
  cfg_prefill_chunk : nat;
  cfg_kv_pool_tokens : nat;
}.

Definition SchedulerConfig_default : SchedulerConfig := mkSchedulerConfig 8 512 (Z.to_nat (64 * 1024)).

Record StreamEvent := mkStreamEvent {
  ev_delta : string;
  ev_finish_reason : option string;
  ev_prompt_tokens : nat;
  ev_completion_tokens : nat;
}.

Inductive Phase := Prefill (done : nat) | Decode.

#[export] Instance Phase_eq_dec : EqDecision Phase.
Proof. solve_decision. Defined.

Definition is_decode (p : Phase) : bool := match p with Decode => true | Prefill _ => false end.

Section scheduler.
Context `{BatchModel} `{SamplerOps}.

Record Request := mkRequest {
  rq_prompt_tokens : list Z;
  rq_max_tokens : nat;
  rq_stop : list string;
  rq_params : sm_params;
  rq_decode : list Z -> option string; (** [tokenizer.decode(ids, true)] *)
  rq_eos : option Z;
}.

Record Sequence := mkSequence {
  sq_id : nat;
  sq_req : Request;
  sq_phase : Phase;
  sq_tokens : list Z;
  sq_prompt_len : nat;
  sq_generated : list Z;
  sq_sampler : sm_state;
  sq_emitted : nat;
  sq_admitted_at : nat;
}.

Record Scheduler := mkScheduler {
  sc_model : bm_state;
  sc_max_batch : nat;
  sc_prefill_chunk : nat;
  sc_pool : KvPool;
  sc_waiting : list Sequence;
  sc_running : list Sequence;
  sc_next_id : nat;
  sc_tick : nat;
  sc_events : list (nat * StreamEvent);
  sc_gone : gset nat;
}.

(** ** Field updates *)

Definition with_phase (ph : Phase) (s : Sequence) : Sequence :=
  mkSequence (sq_id s) (sq_req s) ph (sq_tokens s) (sq_prompt_len s) (sq_generated s) (sq_sampler s)
    (sq_emitted s) (sq_admitted_at s).
Definition with_sampler (sm : sm_state) (s : Sequence) : Sequence :=
  mkSequence (sq_id s) (sq_req s) (sq_phase s) (sq_tokens s) (sq_prompt_len s) (sq_generated s) sm
    (sq_emitted s) (sq_admitted_at s).
Definition with_token (t : Z) (s : Sequence) : Sequence :=
  mkSequence (sq_id s) (sq_req s) (sq_phase s) (sq_tokens s ++ [t]) (sq_prompt_len s)
    (sq_generated s ++ [t]) (sq_sampler s) (sq_emitted s) (sq_admitted_at s).
Definition with_emitted (n : nat) (s : Sequence) : Sequence :=
  mkSequence (sq_id s) (sq_req s) (sq_phase s) (sq_tokens s) (sq_prompt_len s) (sq_generated s)
    (sq_sampler s) n (sq_admitted_at s).
Definition with_admitted (n : nat) (s : Sequence) : Sequence :=
  mkSequence (sq_id s) (sq_req s) (sq_phase s) (sq_tokens s) (sq_prompt_len s) (sq_generated s)
    (sq_sampler s) (sq_emitted s) n.

Definition set_model (m : bm_state) (s : Scheduler) : Scheduler :=
  mkScheduler m (sc_max_batch s) (sc_prefill_chunk s) (sc_pool s) (sc_waiting s) (sc_running s)
    (sc_next_id s) (sc_tick s) (sc_events s) (sc_gone s).
Definition set_pool (p : KvPool) (s : Scheduler) : Scheduler :=
  mkScheduler (sc_model s) (sc_max_batch s) (sc_prefill_chunk s) p (sc_waiting s) (sc_running s)
    (sc_next_id s) (sc_tick s) (sc_events s) (sc_gone s).
Definition set_queues (w r : list Sequence) (s : Scheduler) : Scheduler :=
  mkScheduler (sc_model s) (sc_max_batch s) (sc_prefill_chunk s) (sc_pool s) w r
    (sc_next_id s) (sc_tick s) (sc_events s) (sc_gone s).
Definition set_running (r : list Sequence) (s : Scheduler) : Scheduler := set_queues (sc_waiting s) r s.
Definition set_counters (next tick : nat) (s : Scheduler) : Scheduler :=
  mkScheduler (sc_model s) (sc_max_batch s) (sc_prefill_chunk s) (sc_pool s) (sc_waiting s) (sc_running s)
    next tick (sc_events s) (sc_gone s).
Definition set_events (ev : list (nat * StreamEvent)) (s : Scheduler) : Scheduler :=
  mkScheduler (sc_model s) (sc_max_batch s) (sc_prefill_chunk s) (sc_pool s) (sc_waiting s) (sc_running s)
    (sc_next_id s) (sc_tick s) ev (sc_gone s).

(** [tx.blocking_send(ev)] on request [id]'s channel: delivered unless the
    receiver is gone. *)
Definition send (id : nat) (ev : StreamEvent) (s : Scheduler) : Scheduler :=
  if decide (id ∈ sc_gone s) then s else set_events (sc_events s ++ [(id, ev)]) s.

(** [Sequence::budget]. *)
Definition budget (max_seq_len : nat) (s : Sequence) : nat :=
  Nat.min (rq_max_tokens (sq_req s)) (max_seq_len - sq_prompt_len s).

(** ** Construction and intake *)

(** [Scheduler::new]; [usize::clamp] panics when the upper bound is below the lower. *)
Definition Scheduler_new (m : bm_state) (cfg : SchedulerConfig) : option Scheduler :=
  if (bm_max_batch <? 1)%nat then None
  else Some (mkScheduler m
    (Nat.min (Nat.max (cfg_max_batch cfg) 1) bm_max_batch)
    (Nat.max (cfg_prefill_chunk cfg) 1)
    (KvPool_new (Nat.max (blocks_for (cfg_kv_pool_tokens cfg)) 1))
    [] [] 1 0 [] ∅).

Definition enqueue (req : Request) (s : Scheduler) : Scheduler :=
  let id := sc_next_id s in
  let s := set_counters (S (sc_next_id s)) (sc_tick s) s in
  let n := length (rq_prompt_tokens req) in
  if bool_decide (rq_prompt_tokens req = []) || (bm_max_seq_len <=? n)%nat
  then send id (mkStreamEvent "" (Some "error") n 0) s
  else set_queues (sc_waiting s ++ [mkSequence id req (Prefill 0) (rq_prompt_tokens req) n [] (sm_new (rq_params req)) 0 0])
    (sc_running s) s.

(** [admit]: the loop pops one waiting sequence per turn, so the length of the
    wait queue is enough fuel. *)
Fixpoint admit_loop (fuel : nat) (s : Scheduler) : Scheduler :=
  match fuel with
  | O => s
  | S fuel' =>
      if (length (sc_running s) <? sc_max_batch s)%nat then
        match sc_waiting s with
        | [] => s
        | seq :: rest =>
            let (pool, ok) := KvPool_reserve (sc_pool s) (sq_id seq) (sq_prompt_len seq + 1) in
            let s := set_pool pool s in
            if ok then
              let tick := S (sc_tick s) in
              let seq := with_admitted tick seq in
              admit_loop fuel' (set_counters (sc_next_id s) tick (set_queues rest (sc_running s ++ [seq]) s))
            else s
        end
      else s
  end.

Definition Scheduler_admit (s : Scheduler) : Scheduler := admit_loop (length (sc_waiting s)) s.

(** ** Retiring and preempting *)

(** [self.pool.release(id); self.model.drop_seq(id)]. *)
Definition drop_kv (id : nat) (s : Scheduler) : Scheduler :=
  let s := set_pool (KvPool_release (sc_pool s) id) s in
  set_model (bm_drop_seq (sc_model s) id) s.

Definition finish_event (seq : Sequence) (delta : string) (reason : option string) : StreamEvent :=
  mkStreamEvent delta reason (sq_prompt_len seq) (length (sq_generated seq)).

Definition finish (idx : nat) (reason : string) (s : Scheduler) : option Scheduler :=
  match sc_running s !! idx with
  | None => None
  | Some seq =>
      let s := drop_kv (sq_id seq) (set_running (delete idx (sc_running s)) s) in
      let last_frame := send (sq_id seq) (finish_event seq "" (Some reason)) in
      if String.eqb reason "length" then
        match rq_decode (sq_req seq) (sq_generated seq) with
        | Some text =>
            if (sq_emitted seq <? str_len text)%nat then
              match str_slice text (sq_emitted seq) (str_len text) with
              | Some delta => Some (last_frame (send (sq_id seq) (finish_event seq delta None) s))
              | None => None
              end
            else Some (last_frame s)
        | None => Some (last_frame s)
        end
      else Some (last_frame s)
  end.

Definition finish_silent (idx : nat) (s : Scheduler) : option Scheduler :=
  match sc_running s !! idx with
  | None => None
  | Some seq => Some (drop_kv (sq_id seq) (set_running (delete idx (sc_running s)) s))
  end.

(** [self.running.iter().position(|s| s.id == id)]. *)
Definition position_of (id : nat) (l : list Sequence) : option nat :=
  fst <$> list_find (fun s => sq_id s = id) l.

Definition preempt (id : nat) (s : Scheduler) : Scheduler :=
  match position_of id (sc_running s) with
  | None => s
  | Some idx =>
      match sc_running s !! idx with
      | None => s
      | Some seq =>
          let s := drop_kv (sq_id seq) (set_running (delete idx (sc_running s)) s) in
          set_queues (with_phase (Prefill 0) seq :: sc_waiting s) (sc_running s) s
      end
  end.

(** ** Tokens *)

(** The tail of [push_token] once the token is appended and decoded to [text]:
    emission, then the budget check. [seq] is [running[idx]]. *)
Definition emit_and_check (idx : nat) (seq : Sequence) (text : string) (s : Scheduler) : option Scheduler :=
  let check (seq : Sequence) (s : Scheduler) :=
    if (budget bm_max_seq_len seq <=? length (sq_generated seq))%nat then finish idx "length" s else Some s in
  if negb (ends_with text fffd) && (sq_emitted seq <? str_len text)%nat then
    let safe_len := held_back_len text (rq_stop (sq_req seq)) in
    if (sq_emitted seq <? safe_len)%nat then
      match str_slice text (sq_emitted seq) safe_len with
      | None => None
      | Some delta =>
          let seq' := with_emitted safe_len seq in
          let s := set_running (<[idx := seq']> (sc_running s)) s in
          if decide (sq_id seq ∈ sc_gone s) then finish_silent idx s
          else check seq' (send (sq_id seq) (finish_event seq' delta None) s)
      end
    else check seq s
  else check seq s.

Definition push_token (idx : nat) (token : Z) (s : Scheduler) : option Scheduler :=
  match sc_running s !! idx with
  | None => None
  | Some seq0 =>
      if decide (Some token = rq_eos (sq_req seq0)) then finish idx "stop" s
      else
        let seq := with_token token seq0 in
        let s := set_running (<[idx := seq]> (sc_running s)) s in
        match rq_decode (sq_req seq) (sq_generated seq) with
        | None => finish idx "error" s
        | Some text =>
            match first_stop text (rq_stop (sq_req seq)) with
            | Some hit =>
                let delta := default "" (str_slice text (sq_emitted seq) hit) in
                let s :=
                  if String.eqb delta "" then s
                  else
                    let seq' := with_emitted hit seq in
                    send (sq_id seq) (finish_event seq' delta None)
                      (set_running (<[idx := seq']> (sc_running s)) s) in
                finish idx "stop" s
            | None => emit_and_check idx seq text s
            end
        end
  end.

(** [seq.sampler.sample(&mut logits, &seq.tokens)] on [running[idx]], then
    [push_token]. *)
Definition sample_and_push (idx : nat) (logits : list f32) (s : Scheduler) : option Scheduler :=
  match sc_running s !! idx with
  | None => None
  | Some seq =>
      let (sm, next) := sm_sample (sq_sampler seq) logits (sq_tokens seq) in
      push_token idx next (set_running (<[idx := with_sampler sm seq]> (sc_running s)) s)
  end.

(** [self.running.iter().position(|s| matches!(s.phase, Phase::Prefill { .. }))]. *)
Definition first_prefill (l : list Sequence) : option (nat * Sequence) :=
  list_find (fun s => is_decode (sq_phase s) = false) l.

Definition prefill_one_chunk (s : Scheduler) : option Scheduler :=
  match first_prefill (sc_running s) with
  | None => Some s
  | Some (idx, seq) =>
      match sq_phase seq with
      | Decode => None
      | Prefill done =>
          let remaining := sq_prompt_len seq - done in
          let take_n := Nat.min remaining (sc_prefill_chunk s) in
          let last_chunk := (take_n =? remaining)%nat in
          if (sq_prompt_len seq <? done)%nat || (length (sq_tokens seq) <? done + take_n)%nat then None
          else
            let chunk := take take_n (drop done (sq_tokens seq)) in
            let (m, r) := bm_prefill (sc_model s) (sq_id seq) chunk done last_chunk in
            let s := set_model m s in
            match r with
            | Some (Some logits) =>
                sample_and_push idx logits (set_running (<[idx := with_phase Decode seq]> (sc_running s)) s)
            | Some None =>
                Some (set_running (<[idx := with_phase (Prefill (done + take_n)) seq]> (sc_running s)) s)
            | None => finish idx "error" s
            end
      end
  end.

(** ** Making room *)

(** [iter.filter(|s| s.id != id).max_by_key(|s| s.admitted_at)]: the last of
    the maxima. *)
Definition youngest_other (id : nat) (l : list Sequence) : option Sequence :=
  foldl (fun best x =>
    match best with
    | None => Some x
    | Some b => if (sq_admitted_at b <=? sq_admitted_at x)%nat then Some x else best
    end) None (filter (fun s => sq_id s <> id) l).

(** [ensure_room]: each turn that does not return preempts one running
    sequence, so one more than the number running is enough fuel. *)
Fixpoint ensure_room_loop (fuel : nat) (id need : nat) (s : Scheduler) : Scheduler * bool :=
  match fuel with
  | O => (s, false)
  | S fuel' =>
      let (pool, ok) := KvPool_reserve (sc_pool s) id need in
      let s := set_pool pool s in
      if ok then (s, true)
      else
        match youngest_other id (sc_running s) with
        | Some v => ensure_room_loop fuel' id need (preempt (sq_id v) s)
        | None => (preempt id s, false)
        end
  end.

Definition ensure_room (id need : nat) (s : Scheduler) : Scheduler * bool :=
  ensure_room_loop (S (length (sc_running s))) id need s.

(** ** Decoding *)

Definition decode_candidates (l : list Sequence) : list (nat * nat) :=
  (fun s => (sq_id s, length (sq_tokens s) + 1)) <$> filter (fun s => is_decode (sq_phase s) = true) l.

Definition is_running (id : nat) (s : Scheduler) : bool := existsb (fun q => (sq_id q =? id)%nat) (sc_running s).

Definition make_room (cands : list (nat * nat)) (s : Scheduler) : Scheduler :=
  foldl (fun s c => if is_running c.1 s then (ensure_room c.1 c.2 s).1 else s) s cands.

(** The batch: index, id and last token of each decoding sequence; an empty
    token list is a panic. *)
Fixpoint decode_batch (i : nat) (l : list Sequence) : option (list (nat * nat * Z)) :=
  match l with
  | [] => Some []
  | q :: l' =>
      match decode_batch (S i) l' with
      | None => None
      | Some b =>
          if is_decode (sq_phase q) then
            match last (sq_tokens q) with
            | Some t => Some ((i, sq_id q, t) :: b)
            | None => None
            end
          else Some b
      end
  end.

(** [for &(idx, _, _) in batch.iter().rev() { self.finish(idx, "error") }]. *)
Definition fail_batch (batch : list (nat * nat * Z)) (s : Scheduler) : option Scheduler :=
  foldl (fun acc b => acc ≫= finish b.1.1 "error") (Some s) (rev batch).

(** [for (&(idx, _, _), logits) in batch.iter().zip(all_logits).rev()]. *)
Definition push_batch (batch : list (nat * nat * Z)) (all_logits : list (list f32)) (s : Scheduler)
    : option Scheduler :=
  foldl (fun acc bl => acc ≫= sample_and_push bl.1.1.1 bl.2) (Some s) (rev (zip batch all_logits)).

Definition decode_step (s : Scheduler) : option Scheduler :=
  match decode_candidates (sc_running s) with
  | [] => Some s
  | cands =>
      let s := make_room cands s in
      match decode_batch 0 (sc_running s) with
      | None => None
      | Some [] => Some s
      | Some batch =>
          let (m, r) := bm_decode (sc_model s) ((fun b : nat * nat * Z => (b.1.2, b.2)) <$> batch) in
          let s := set_model m s in
          match r with
          | None => fail_batch batch s
          | Some all_logits => push_batch batch all_logits s
          end
      end
  end.

Definition step (s : Scheduler) : option Scheduler :=
  prefill_one_chunk (Scheduler_admit s) ≫= decode_step.

(** What slicing the decoded text relies on: once a text without a partial
    character at its end has been decoded, its char boundaries are boundaries of
    every later text of the same request. *)
Definition text_stable (req : Request) : Prop := forall g h a b i,
  rq_decode req g = Some a -> ends_with a fffd = false -> rq_decode req (g ++ h) = Some b ->
  is_boundary a i = true -> is_boundary b i = true.

(** The engine thread: [run] drains submissions, then steps whenever there is
    work (it blocks in [recv] otherwise); a client may disconnect at any time. *)
Inductive sched_step : Scheduler -> Scheduler -> Prop :=
| run_enqueue req s : text_stable req -> sched_step s (enqueue req s)
| run_step s s' : (sc_waiting s <> [] \/ sc_running s <> []) -> step s = Some s' -> sched_step s s'
| client_gone id s :
    sched_step s (mkScheduler (sc_model s) (sc_max_batch s) (sc_prefill_chunk s) (sc_pool s) (sc_waiting s)
      (sc_running s) (sc_next_id s) (sc_tick s) (sc_events s) ({[id]} ∪ sc_gone s)).

End scheduler.

(** ** The event log *)

Definition final (e : StreamEvent) : Prop := is_Some (ev_finish_reason e).

Definition events_of (id : nat) (log : list (nat * StreamEvent)) : list StreamEvent :=
  snd <$> filter (fun e => e.1 = id) log.

Lemma events_of_snoc id id' ev log :
  events_of id (log ++ [(id', ev)]) = if decide (id' = id) then events_of id log ++ [ev] else events_of id log.
Proof.
  rw /events_of filter_app fmap_app filter_cons filter_nil /=.
  case_decide; [done|]. by rw app_nil_r.
Qed.

Section log.
Context `{BatchModel} `{SamplerOps}.
Implicit Types s : Scheduler.

Definition live_ids s : list nat := sq_id <$> (sc_waiting s ++ sc_running s).

(** The response protocol, when the requests [L] are still being served: they
    have seen no final event, nothing follows a final event, and a request that
    is over has had its final event unless its client left. *)
Definition log_ok (L : list nat) s : Prop := forall id,
  ((id ∈ L \/ sc_next_id s <= id) -> Forall (fun e => ~ final e) (events_of id (sc_events s))) /\
  (forall k e, events_of id (sc_events s) !! k = Some e -> final e -> S k = length (events_of id (sc_events s))) /\
  (1 <= id < sc_next_id s -> id ∉ L -> Exists final (events_of id (sc_events s)) \/ id ∈ sc_gone s).

Lemma log_ok_ext L s s' :
  sc_events s = sc_events s' -> sc_next_id s = sc_next_id s' -> sc_gone s = sc_gone s' ->
  log_ok L s -> log_ok L s'.
Proof. rw /log_ok => -> -> ->. done. Qed.

Lemma log_ok_live L L' s : (forall x, x ∈ L <-> x ∈ L') -> log_ok L s -> log_ok L' s.
Proof. rw /log_ok => HL Hl id. specialize (Hl id). by rw -!HL. Qed.

Lemma send_fields id ev s :
  sc_model (send id ev s) = sc_model s /\ sc_pool (send id ev s) = sc_pool s /\
  sc_waiting (send id ev s) = sc_waiting s /\ sc_running (send id ev s) = sc_running s /\
  sc_next_id (send id ev s) = sc_next_id s /\ sc_gone (send id ev s) = sc_gone s /\
  sc_tick (send id ev s) = sc_tick s /\ sc_max_batch (send id ev s) = sc_max_batch s /\
  sc_prefill_chunk (send id ev s) = sc_prefill_chunk s.
Proof. rw /send. by case_decide. Qed.

Lemma log_ok_send L s id ev :
  id ∈ L -> log_ok L s -> ~ final ev -> log_ok L (send id ev s).
Proof.
  intros Hin Hok Hev. rw /send. case_decide as Hg; [done|]. intros x.
  destruct (Hok x) as (H1 & H2 & H3). cbn [set_events sc_events sc_next_id sc_gone]. rw events_of_snoc. destruct (decide (id = x)) as [<-|Hne]; [|done].
  split; [|split; [|done]].
  - intros Hx. apply Forall_app. split; [by auto|]. by constructor.
  - intros k e. rw lookup_snoc_Some => [[[Hk He]|[Hk <-]]] Hf; [|done].
    exfalso. specialize (H1 (or_introl Hin)). rw Forall_lookup in H1. by eapply H1.
Qed.

Lemma log_ok_final L L' s id ev :
  id ∈ L -> (forall x, x ∈ L' <-> x ∈ L /\ x <> id) -> id < sc_next_id s ->
  log_ok L s -> final ev -> log_ok L' (send id ev s).
Proof.
  intros Hin HL Hid Hok Hev x. destruct (Hok x) as (H1 & H2 & H3). rw /send HL.
  case_decide as Hg.
  - split; [naive_solver|]. split; [done|]. intros Hx Hnl.
    destruct (decide (x = id)) as [->|Hne]; [by right|]. naive_solver.
  - cbn [set_events sc_events sc_next_id sc_gone]. rw events_of_snoc. destruct (decide (id = x)) as [<-|Hne]; [|naive_solver].
    split; [naive_solver lia|]. split.
    + intros k e. rw lookup_snoc_Some length_app => [[[Hk He]|[Hk <-]]] Hf; [|simpl; lia].
      exfalso. specialize (H1 (or_introl Hin)). rw Forall_lookup in H1. by eapply H1.
    + intros _ _. left. apply Exists_app. right. by constructor.
Qed.

(** A request whose client is gone may be dropped without a word. *)
Lemma log_ok_drop L L' s id :
  (forall x, x ∈ L' <-> x ∈ L /\ x <> id) -> id ∈ sc_gone s -> log_ok L s -> log_ok L' s.
Proof.
  intros HL Hg Hok x. destruct (Hok x) as (H1 & H2 & H3). rw HL.
  split; [naive_solver|]. split; [done|]. intros Hx Hnl.
  destruct (decide (x = id)) as [->|]; [by right|]. naive_solver.
Qed.
End log.

(** ** The scheduler's invariant *)

Section invariant.
Context `{BatchModel} `{SamplerOps}.
Implicit Types s : Scheduler.
Implicit Types q : Sequence.

(** What was emitted ends at a char boundary of a text decoded earlier. *)
Definition emitted_ok q : Prop :=
  sq_emitted q = 0 \/ exists k a,
    rq_decode (sq_req q) (take k (sq_generated q)) = Some a /\ ends_with a fffd = false /\
    is_boundary a (sq_emitted q) = true.

(** A sequence holds its prompt followed by what it generated, within its
    budget (at least one token is generated before the budget is checked). *)
Definition seq_wf q : Prop :=
  rq_prompt_tokens (sq_req q) <> [] /\
  length (rq_prompt_tokens (sq_req q)) < bm_max_seq_len /\
  sq_prompt_len q = length (rq_prompt_tokens (sq_req q)) /\
  sq_tokens q = rq_prompt_tokens (sq_req q) ++ sq_generated q /\
  length (sq_generated q) <= Nat.max 1 (budget bm_max_seq_len q) /\
  match sq_phase q with Prefill d => d <= sq_prompt_len q | Decode => True end /\
  text_stable (sq_req q) /\ emitted_ok q.

(** Still below its budget: what holds of a sequence between steps. *)
Definition under_budget q : Prop := length (sq_generated q) < Nat.max 1 (budget bm_max_seq_len q).

Record struct_inv s : Prop := {
  si_pool : pool_wf (sc_pool s);
  si_ids : NoDup (live_ids s);
  si_fresh : forall id, id ∈ live_ids s -> 1 <= id < sc_next_id s;
  si_next : 1 <= sc_next_id s;
  si_batch : length (sc_running s) <= sc_max_batch s;
  si_cap : 1 <= sc_max_batch s <= bm_max_batch;
  si_held : forall id, is_Some (held (sc_pool s) !! id) <-> id ∈ sq_id <$> sc_running s;
  si_room : forall q, q ∈ sc_running s -> blocks_for (sq_prompt_len q + 1) <= held_by (sc_pool s) (sq_id q);
  si_wf : Forall seq_wf (sc_waiting s ++ sc_running s);
  si_waiting : Forall (fun q => sq_phase q = Prefill 0) (sc_waiting s);
  si_sorted : StronglySorted lt (sq_admitted_at <$> sc_running s);
  si_tick : Forall (fun t => t <= sc_tick s) (sq_admitted_at <$> sc_running s);
}.

Definition sched_inv s : Prop :=
  struct_inv s /\ log_ok (live_ids s) s /\ Forall under_budget (sc_waiting s ++ sc_running s).

(** Fields an operation on the running set does not touch. *)
Definition same_frame s s' : Prop :=
  sc_waiting s' = sc_waiting s /\ sc_next_id s' = sc_next_id s /\ sc_gone s' = sc_gone s /\
  sc_tick s' = sc_tick s /\ sc_max_batch s' = sc_max_batch s /\ sc_prefill_chunk s' = sc_prefill_chunk s.

Lemma same_frame_refl s : same_frame s s.
Proof. done. Qed.
Lemma same_frame_trans s1 s2 s3 : same_frame s1 s2 -> same_frame s2 s3 -> same_frame s1 s3.
Proof. rw /same_frame. naive_solver congruence. Qed.
Lemma same_frame_send id ev s : same_frame s (send id ev s).
Proof. rw /send. by case_decide. Qed.

Lemma live_ids_running s idx q : sc_running s !! idx = Some q -> sq_id q ∈ live_ids s.
Proof.
  intros Hi. rw /live_ids fmap_app elem_of_app. right. apply list_elem_of_fmap_2.
  by eapply list_elem_of_lookup_2.
Qed.

Lemma struct_inv_ext s s' :
  sc_pool s = sc_pool s' -> sc_waiting s = sc_waiting s' -> sc_running s = sc_running s' ->
  sc_next_id s = sc_next_id s' -> sc_tick s = sc_tick s' -> sc_max_batch s = sc_max_batch s' ->
  struct_inv s -> struct_inv s'.
Proof.
  intros Hp Hw Hr Hn Ht Hb []. split; rw /live_ids -?Hp -?Hw -?Hr -?Hn -?Ht -?Hb //.
Qed.

Lemma struct_inv_send s id ev : struct_inv s -> struct_inv (send id ev s).
Proof. apply struct_inv_ext; symmetry; by apply send_fields. Qed.

(** Replacing a running sequence by one with the same identity. *)
Lemma struct_inv_update s idx q q' :
  sc_running s !! idx = Some q -> sq_id q' = sq_id q -> sq_prompt_len q' = sq_prompt_len q ->
  sq_admitted_at q' = sq_admitted_at q -> seq_wf q' ->
  struct_inv s ->
  struct_inv (set_running (<[idx := q']> (sc_running s)) s) /\
  live_ids (set_running (<[idx := q']> (sc_running s)) s) = live_ids s.
Proof.
  intros Hi Hid Hpl Had Hwf Hs.
  assert (sq_id <$> <[idx := q']> (sc_running s) = sq_id <$> sc_running s) as Hids
    by (rw list_fmap_insert list_insert_id // list_lookup_fmap Hi /= Hid //).
  assert (sq_admitted_at <$> <[idx := q']> (sc_running s) = sq_admitted_at <$> sc_running s) as Hads
    by (rw list_fmap_insert list_insert_id // list_lookup_fmap Hi /= Had //).
  assert (live_ids (set_running (<[idx := q']> (sc_running s)) s) = live_ids s) as Hl
    by (rw /live_ids !fmap_app /= Hids //).
  split; [|done]. destruct Hs. split; rw ?Hl //; cbn [set_running set_queues sc_pool sc_waiting sc_running sc_next_id sc_tick sc_max_batch];
    rw ?Hids ?Hads ?length_insert //.
  - intros x Hx. apply list_elem_of_lookup in Hx as [j Hj].
    destruct (decide (idx = j)) as [<-|Hne].
    + rw list_lookup_insert_eq in Hj; [by eapply lookup_lt_Some|]. simplify_eq. rw Hpl Hid.
      apply si_room0. by eapply list_elem_of_lookup_2.
    + rw list_lookup_insert_ne // in Hj. apply si_room0. by eapply list_elem_of_lookup_2.
  - apply Forall_app in si_wf0 as [Hw Hr]. apply Forall_app. split; [done|]. by apply Forall_insert.
Qed.

(** Retiring a running sequence frees its blocks and its batch slot. *)
Lemma struct_inv_retire s idx q :
  sc_running s !! idx = Some q -> struct_inv s ->
  let s' := drop_kv (sq_id q) (set_running (delete idx (sc_running s)) s) in
  struct_inv s' /\ same_frame s s' /\ sc_running s' = delete idx (sc_running s) /\
  sc_events s' = sc_events s /\
  (forall x, x ∈ live_ids s' <-> x ∈ live_ids s /\ x <> sq_id q).
Proof.
  intros Hi Hs s'. destruct (release_spec (sc_pool s) (sq_id q) (si_pool s Hs)) as (Hpw & _ & Hheld & _).
  assert (NoDup (sq_id <$> sc_running s)) as Hndr.
  { pose proof (si_ids s Hs) as Hnd. rw /live_ids fmap_app in Hnd. by apply NoDup_app in Hnd as (_ & _ & ?). }
  assert (forall x, x ∈ sq_id <$> delete idx (sc_running s) <-> x ∈ sq_id <$> sc_running s /\ x <> sq_id q) as Hrun.
  { intros x. rw list_fmap_delete elem_of_delete_NoDup //. rw list_lookup_fmap Hi //. }
  assert (sq_id q ∈ sq_id <$> sc_running s) as Hqr
    by (apply list_elem_of_fmap_2; by eapply list_elem_of_lookup_2).
  assert (forall x, x ∈ live_ids s' <-> x ∈ live_ids s /\ x <> sq_id q) as Hlive.
  { intros x. pose proof (si_ids s Hs) as Hnd. rw /live_ids fmap_app in Hnd.
    apply NoDup_app in Hnd as (_ & Hdisj & _).
    rw /live_ids !fmap_app !elem_of_app /= Hrun. split; [|naive_solver].
    intros [Hx|Hx]; [|naive_solver]. split; [by left|]. intros ->. by eapply Hdisj. }
  split; [|split; [done|split; [done|split; [done|done]]]].
  assert (live_ids s' `sublist_of` live_ids s) as Hsub.
  { rw /live_ids !fmap_app. apply sublist_app; [done|]. subst s'. cbn. rw list_fmap_delete. apply sublist_delete. }
  destruct Hs. split; cbn.
  - done.
  - by eapply (sublist_NoDup _ _ si_ids0).
  - intros id [Hid _]%Hlive. auto.
  - done.
  - pose proof (delete_Permutation _ _ _ Hi) as Hp. apply Permutation_length in Hp. simpl in Hp. lia.
  - done.
  - intros id. rw Hheld Hrun -si_held0 lookup_delete. case_decide; subst; [|naive_solver].
    split; [by intros []|by intros [_ []]].
  - intros x Hx. assert (sq_id x <> sq_id q) as Hne by (by apply Hrun, list_elem_of_fmap_2).
    rw /held_by Hheld lookup_delete_ne //. apply si_room0.
    by eapply elem_of_submseteq, sublist_submseteq, sublist_delete.
  - apply Forall_app in si_wf0 as [Hw Hr]. apply Forall_app. split; [done|]. by apply Forall_delete.
  - done.
  - rw list_fmap_delete. eapply StronglySorted_sublist; [apply sublist_delete|done].
  - rw list_fmap_delete. by apply Forall_delete.
Qed.

(** ** Retiring *)

(** Slicing the current text at what was emitted does not panic. *)
Lemma emitted_boundary q text :
  seq_wf q -> rq_decode (sq_req q) (sq_generated q) = Some text -> is_boundary text (sq_emitted q) = true.
Proof.
  intros (_ & _ & _ & _ & _ & _ & Hst & He) Hd. destruct He as [->|(k & a & Ha & Hf & Hb)]; [done|].
  eapply (Hst _ (drop k (sq_generated q)) a); eauto. by rw take_drop.
Qed.

(** What retiring [running[idx]] leaves behind. *)
Definition retired idx s s' : Prop :=
  struct_inv s' /\ log_ok (live_ids s') s' /\ same_frame s s' /\ sc_running s' = delete idx (sc_running s).

Lemma finish_inv s idx q reason :
  sc_running s !! idx = Some q -> struct_inv s -> log_ok (live_ids s) s ->
  exists s', finish idx reason s = Some s' /\ retired idx s s'.
Proof.
  intros Hi Hs Hl. rw /finish Hi.
  destruct (struct_inv_retire s idx q Hi Hs) as (Hs' & Hf & Hr & He & Hlive).
  set (s1 := drop_kv (sq_id q) _) in *.
  assert (log_ok (live_ids s) s1) as Hl1.
  { destruct Hf as (_ & Hn & Hg & _). by eapply log_ok_ext, Hl. }
  assert (forall s2 ev, struct_inv s2 -> same_frame s s2 -> sc_running s2 = delete idx (sc_running s) ->
    log_ok (live_ids s) s2 -> final ev -> retired idx s (send (sq_id q) ev s2)) as Hend.
  { intros s2 ev Hs2 Hf2 Hr2 Hl2 Hev.
    assert (live_ids (send (sq_id q) ev s2) = live_ids s1) as Hli.
    { destruct (send_fields (sq_id q) ev s2) as (_ & _ & Hw & Hrr & _). rw /live_ids Hw Hrr Hr2 Hr.
      destruct Hf2 as (-> & _). destruct Hf as (-> & _). done. }
    split; [by apply struct_inv_send|]. split; [|split].
    - rw Hli. eapply log_ok_final; [by eapply live_ids_running| |..|done|done]; [done|].
      destruct Hf2 as (_ & -> & _). by apply (si_fresh s Hs), (live_ids_running s idx).
    - eapply same_frame_trans; [done|]. apply same_frame_send.
    - destruct (send_fields (sq_id q) ev s2) as (_ & _ & _ & -> & _). done. }
  assert (forall ev, ~ final ev -> retired idx s (send (sq_id q) (finish_event q "" (Some reason)) (send (sq_id q) ev s1))) as Hflush.
  { intros ev Hev. apply Hend; [by apply struct_inv_send|eapply same_frame_trans; [done|]; apply same_frame_send
      |by rw (proj1 (proj2 (proj2 (proj2 (send_fields (sq_id q) ev s1))))) |
       |by eexists].
    apply log_ok_send; [by eapply live_ids_running|done|done]. }
  assert (retired idx s (send (sq_id q) (finish_event q "" (Some reason)) s1)) as Hplain
    by (apply Hend; [done|done|done|done|by eexists]).
  destruct (String.eqb _ _); [|by eauto]. destruct (rq_decode _ _) as [text|] eqn:Ed; [|by eauto].
  destruct (Nat.ltb_spec (sq_emitted q) (str_len text)); [|by eauto].
  rw str_slice_Some; [lia|done| |apply is_boundary_len|].
  - eapply emitted_boundary; [|done]. pose proof (si_wf s Hs) as Hwf. apply Forall_app in Hwf as [_ Hwf].
    by eapply (Forall_lookup_1 _ _ _ _ Hwf).
  - eexists. split; [done|]. apply Hflush. by intros [].
Qed.

Lemma finish_silent_inv s idx q :
  sc_running s !! idx = Some q -> struct_inv s -> log_ok (live_ids s) s -> sq_id q ∈ sc_gone s ->
  exists s', finish_silent idx s = Some s' /\ retired idx s s'.
Proof.
  intros Hi Hs Hl Hg. rw /finish_silent Hi. eexists. split; [done|].
  destruct (struct_inv_retire s idx q Hi Hs) as (Hs' & Hf & Hr & He & Hlive).
  split; [done|]. split; [|done]. pose proof Hf as (_ & Hn & Hgo & _).
  eapply log_ok_drop; [done| |by eapply log_ok_ext, Hl]. by rw Hgo.
Qed.

(** ** Tokens *)

Lemma sched_inv_update s idx q q' :
  sc_running s !! idx = Some q -> sq_id q' = sq_id q -> sq_prompt_len q' = sq_prompt_len q ->
  sq_admitted_at q' = sq_admitted_at q -> seq_wf q' -> under_budget q' ->
  sched_inv s -> sched_inv (set_running (<[idx := q']> (sc_running s)) s).
Proof.
  intros Hi Hid Hpl Had Hwf Hub (Hs & Hl & Hb).
  destruct (struct_inv_update s idx q q' Hi Hid Hpl Had Hwf Hs) as [Hs' Hli].
  split; [done|]. split; [by rw Hli; eapply log_ok_ext, Hl|].
  apply Forall_app in Hb as [Hw Hr]. apply Forall_app. split; [done|]. by apply Forall_insert.
Qed.

(** The outcome of a push: the invariant holds and only [running[idx]] moved. *)
Definition pushed idx s s' : Prop :=
  sched_inv s' /\ same_frame s s' /\ take idx (sc_running s') = take idx (sc_running s) /\
  length (sc_running s') <= length (sc_running s).

Lemma retired_pushed idx s0 s s' :
  Forall under_budget (sc_waiting s0) ->
  (forall j q, sc_running s0 !! j = Some q -> j <> idx -> under_budget q) ->
  retired idx s s' -> same_frame s0 s -> take idx (sc_running s) = take idx (sc_running s0) ->
  (forall j, j <> idx -> sc_running s !! j = sc_running s0 !! j) ->
  length (sc_running s) = length (sc_running s0) ->
  pushed idx s0 s'.
Proof.
  intros Hbw Hbr (Hs' & Hl' & Hf & Hr) Hf0 Htake Hlook Hlen.
  pose proof (same_frame_trans _ _ _ Hf0 Hf) as Hf'. split; [|split; [done|split]].
  - split; [done|]. split; [done|]. apply Forall_app. split; [by destruct Hf' as (-> & _)|].
    rw Hr. apply Forall_lookup_2. intros j q Hj.
    destruct (decide (j < idx)).
    + rw list_lookup_delete_lt // in Hj. rw Hlook in Hj; [lia|]. eapply Hbr; [done|lia].
    + rw list_lookup_delete_ge in Hj; [lia|]. rw Hlook in Hj; [lia|]. eapply Hbr; [done|lia].
  - rw Hr -Htake. apply take_lookup_eq. intros j Hj. by rw list_lookup_delete_lt.
  - rw Hr -Hlen. apply sublist_length, sublist_delete.
Qed.

(** Between the start of a push and its end, [running[idx]] is [q] and
    everything else is as in [s0]. *)
Definition touched idx s0 s q : Prop :=
  struct_inv s /\ log_ok (live_ids s) s /\ same_frame s0 s /\
  sc_running s = <[idx := q]> (sc_running s0) /\ idx < length (sc_running s0).

Definition same_seq q q' : Prop :=
  sq_id q' = sq_id q /\ sq_prompt_len q' = sq_prompt_len q /\ sq_admitted_at q' = sq_admitted_at q.

Lemma touched_lookup idx s0 s q : touched idx s0 s q -> sc_running s !! idx = Some q.
Proof. intros (_ & _ & _ & -> & Hlt). by apply list_lookup_insert_eq. Qed.

Lemma touched_start idx s q : sched_inv s -> sc_running s !! idx = Some q -> touched idx s s q.
Proof.
  intros (Hs & Hl & _) Hi. split; [done|]. split; [done|]. split; [done|].
  split; [by rw list_insert_id|by eapply lookup_lt_Some].
Qed.

Lemma touched_update idx s0 s q q' :
  touched idx s0 s q -> same_seq q q' -> seq_wf q' ->
  touched idx s0 (set_running (<[idx := q']> (sc_running s)) s) q'.
Proof.
  intros Ht (Hid & Hpl & Had) Hwf. pose proof (touched_lookup _ _ _ _ Ht) as Hi.
  destruct Ht as (Hs & Hl & Hf & Hr & Hlt).
  destruct (struct_inv_update s idx q q' Hi Hid Hpl Had Hwf Hs) as [Hs' Hli].
  split; [done|]. split; [by rw Hli; eapply log_ok_ext, Hl|]. split; [done|].
  split; [|done]. cbn. by rw Hr list_insert_insert_eq.
Qed.

Lemma touched_send idx s0 s q ev :
  touched idx s0 s q -> ~ final ev -> touched idx s0 (send (sq_id q) ev s) q.
Proof.
  intros Ht Hev. pose proof (touched_lookup _ _ _ _ Ht) as Hi. destruct Ht as (Hs & Hl & Hf & Hr & Hlt).
  destruct (send_fields (sq_id q) ev s) as (_ & _ & Hw & Hrr & _).
  split; [by apply struct_inv_send|]. split; [|split; [|by rw Hrr]].
  - rw /live_ids Hw Hrr. apply log_ok_send; [by eapply live_ids_running|done|done].
  - eapply same_frame_trans; [done|]. apply same_frame_send.
Qed.

Lemma touched_retired idx s0 s q s' :
  sched_inv s0 -> touched idx s0 s q -> retired idx s s' -> pushed idx s0 s'.
Proof.
  intros (_ & _ & Hb) (Hs & Hl & Hf & Hr & Hlt) Hret. apply Forall_app in Hb as [Hbw Hbr].
  eapply retired_pushed; [done| |done|done|..]; rw ?Hr ?length_insert ?take_insert_ge //.
  - intros j x Hj _. by eapply Forall_lookup_1.
  - intros j Hj. by rw list_lookup_insert_ne.
Qed.

Lemma touched_finish idx s0 s q reason :
  sched_inv s0 -> touched idx s0 s q -> exists s', finish idx reason s = Some s' /\ pushed idx s0 s'.
Proof.
  intros Hv Ht. pose proof Ht as (Hs & Hl & _).
  destruct (finish_inv s idx q reason (touched_lookup _ _ _ _ Ht) Hs Hl) as (s' & Hfin & Hret).
  exists s'. split; [done|]. by eapply touched_retired.
Qed.

Lemma touched_silent idx s0 s q :
  sched_inv s0 -> touched idx s0 s q -> sq_id q ∈ sc_gone s ->
  exists s', finish_silent idx s = Some s' /\ pushed idx s0 s'.
Proof.
  intros Hv Ht Hg. pose proof Ht as (Hs & Hl & _).
  destruct (finish_silent_inv s idx q (touched_lookup _ _ _ _ Ht) Hs Hl Hg) as (s' & Hfin & Hret).
  exists s'. split; [done|]. by eapply touched_retired.
Qed.

Lemma touched_keep idx s0 s q :
  sched_inv s0 -> touched idx s0 s q -> under_budget q -> pushed idx s0 s.
Proof.
  intros (_ & _ & Hb) (Hs & Hl & Hf & Hr & Hlt) Hq. apply Forall_app in Hb as [Hbw Hbr].
  split; [|split; [done|rw Hr take_insert_ge // length_insert //]].
  split; [done|]. split; [done|]. apply Forall_app.
  split; [by destruct Hf as (-> & _)|]. rw Hr. by apply Forall_insert.
Qed.

Lemma touched_check idx s0 s q :
  sched_inv s0 -> touched idx s0 s q ->
  exists s', (if (budget bm_max_seq_len q <=? length (sq_generated q))%nat then finish idx "length" s else Some s) = Some s'
    /\ pushed idx s0 s'.
Proof.
  intros Hv Ht. destruct (Nat.leb_spec (budget bm_max_seq_len q) (length (sq_generated q))).
  - by eapply touched_finish.
  - exists s. split; [done|]. eapply touched_keep; [done|done|]. rw /under_budget. lia.
Qed.

Lemma seq_wf_phase ph q :
  seq_wf q -> match ph with Prefill d => d <= sq_prompt_len q | Decode => True end -> seq_wf (with_phase ph q).
Proof. intros (?&?&?&?&?&_&?&?) Hd. by split_and!. Qed.

Lemma seq_wf_token t q : seq_wf q -> under_budget q -> seq_wf (with_token t q).
Proof.
  rw /seq_wf /under_budget /budget /= length_app /= => [[Hne [Hlt [Hpl [Htk [Hg Hph]]]]]] Hb.
  destruct Hph as (Hph & Hst & He). rw Htk app_assoc. split_and!; auto; [lia|].
  destruct He as [He|(k & a & Ha & Hf & Hbd)]; [by left|]. right.
  exists (Nat.min k (length (sq_generated q))), a. rw take_app_le; [lia|]. by rw -take_take firstn_all.
Qed.

Lemma seq_wf_emitted n q text :
  seq_wf q -> rq_decode (sq_req q) (sq_generated q) = Some text -> ends_with text fffd = false ->
  is_boundary text n = true -> seq_wf (with_emitted n q).
Proof.
  intros (?&?&?&?&?&?&?&?) Hd Hf Hb. split_and!; auto. right. exists (length (sq_generated q)), text.
  by rw /= firstn_all.
Qed.

Lemma emit_and_check_inv idx s0 s q text :
  sched_inv s0 -> touched idx s0 s q -> seq_wf q -> rq_decode (sq_req q) (sq_generated q) = Some text ->
  exists s', emit_and_check idx q text s = Some s' /\ pushed idx s0 s'.
Proof.
  intros Hv Ht Hwf Hd. rw /emit_and_check.
  destruct (ends_with text fffd) eqn:Ef; [by apply touched_check|].
  destruct (Nat.ltb_spec (sq_emitted q) (str_len text)); rw ?andb_true_l ?andb_false_r; [|by apply touched_check].
  destruct (Nat.ltb_spec (sq_emitted q) (held_back_len text (rq_stop (sq_req q)))); [|by apply touched_check].
  destruct (held_back_boundary text (rq_stop (sq_req q))) as [Hle Hbd].
  rw str_slice_Some //; [lia|by eapply emitted_boundary|].
  set (q' := with_emitted _ q).
  assert (touched idx s0 (set_running (<[idx := q']> (sc_running s)) s) q') as Ht' 
    by (eapply touched_update; [done|done|by eapply seq_wf_emitted]).
  case_decide as Hg; [by eapply touched_silent|].
  apply touched_check; [done|]. apply (touched_send _ _ _ _ _ Ht'). by intros [].
Qed.

Lemma sched_inv_seq s idx q : sched_inv s -> sc_running s !! idx = Some q -> seq_wf q /\ under_budget q.
Proof.
  intros (Hs & _ & Hb) Hi. pose proof (si_wf s Hs) as Hwf. apply Forall_app in Hb as [_ Hb].
  apply Forall_app in Hwf as [_ Hwf]. split; by eapply Forall_lookup_1.
Qed.

(** [finish] with reason "stop" does not look at what was emitted. *)
Lemma finish_stop_emitted idx n q ev r s :
  idx < length r ->
  finish idx "stop" (send (sq_id q) ev (set_running (<[idx := with_emitted n q]> r) s)) =
  finish idx "stop" (send (sq_id q) ev (set_running (<[idx := q]> r) s)).
Proof.
  intros Hlt. rw /send. cbn. case_decide; rw /finish; cbn; rw !list_lookup_insert_eq // /finish_event /=
    !delete_insert_eq //.
Qed.

Lemma push_token_inv s idx q t :
  sched_inv s -> sc_running s !! idx = Some q ->
  exists s', push_token idx t s = Some s' /\ pushed idx s s'.
Proof.
  intros Hv Hi. rw /push_token Hi. pose proof (touched_start idx s q Hv Hi) as Ht.
  case_decide as Heos; [by eapply touched_finish|].
  destruct (sched_inv_seq s idx q Hv Hi) as [Hwf Hub].
  assert (touched idx s (set_running (<[idx := with_token t q]> (sc_running s)) s) (with_token t q)) as Ht1
    by (by eapply touched_update; [done| |apply seq_wf_token]).
  destruct (rq_decode _ _) as [text|] eqn:Ed; [|by eapply touched_finish].
  destruct (first_stop _ _) as [hit|]; [|by apply emit_and_check_inv; [..|apply seq_wf_token|]].
  destruct (String.eqb _ ""); [by eapply touched_finish|].
  rw (finish_stop_emitted _ _ (with_token t q)); [cbn; rw length_insert; by eapply lookup_lt_Some|].
  eapply touched_finish; [done|]. apply touched_send; [|by intros []].
  eapply touched_update; [done|done|by apply seq_wf_token].
Qed.

Lemma sample_and_push_inv s idx q logits :
  sched_inv s -> sc_running s !! idx = Some q ->
  exists s', sample_and_push idx logits s = Some s' /\ pushed idx s s'.
Proof.
  intros Hv Hi. rw /sample_and_push Hi. destruct (sm_sample _ _ _) as [sm t].
  destruct (sched_inv_seq s idx q Hv Hi) as [Hwf Hub].
  set (s1 := set_running _ s).
  assert (sched_inv s1) as Hv1 by (by eapply sched_inv_update).
  destruct (push_token_inv s1 idx (with_sampler sm q) t Hv1) as (s' & Hp & Hinv & Hf & Htk & Hlen).
  { cbn. apply list_lookup_insert_eq. by eapply lookup_lt_Some. }
  exists s'. split; [done|]. split; [done|]. split; [done|].
  rw Htk. cbn in *. rw take_insert_ge // length_insert // in Hlen |- *.
Qed.

(** ** Prefilling *)

Lemma sched_inv_model s m : sched_inv s -> sched_inv (set_model m s).
Proof.
  intros (Hs & Hl & Hb). split; [by eapply struct_inv_ext, Hs|]. split; [by eapply log_ok_ext, Hl|done].
Qed.

Lemma pushed_of_update idx s s1 s' :
  same_frame s s1 -> length (sc_running s1) = length (sc_running s) ->
  take idx (sc_running s1) = take idx (sc_running s) -> pushed idx s1 s' -> pushed idx s s'.
Proof.
  intros Hf Hlen Ht (Hinv & Hf' & Ht' & Hl'). split; [done|]. split; [by eapply same_frame_trans|].
  split; [by rw Ht'|lia].
Qed.

Lemma prefill_inv s : sched_inv s -> exists s', prefill_one_chunk s = Some s' /\ sched_inv s'.
Proof.
  intros Hv. rw /prefill_one_chunk /first_prefill.
  destruct (list_find _ (sc_running s)) as [[idx q]|] eqn:E; [|by eauto].
  apply list_find_Some in E as (Hi & Hph & _). destruct (sched_inv_seq s idx q Hv Hi) as [Hwf Hub].
  destruct (sq_phase q) as [d|] eqn:Eph; [|done].
  pose proof Hwf as (Hne & Hlt & Hpl & Htk & Hg & Hd & _). rw Eph in Hd.
  destruct (Nat.ltb_spec (sq_prompt_len q) d) as [|_]; [lia|]. rw orb_false_l.
  destruct (Nat.ltb_spec (length (sq_tokens q)) (d + Nat.min (sq_prompt_len q - d) (sc_prefill_chunk s))) as [Hbad|_].
  { rw Htk length_app in Hbad. lia. }
  destruct (bm_prefill _ _ _ _ _) as [m r]. pose proof (sched_inv_model s m Hv) as Hvm.
  destruct r as [[logits|]|].
  - set (s1 := set_running _ (set_model m s)).
    assert (sched_inv s1) as Hv1 by (eapply (sched_inv_update (set_model m s)); try done; by apply seq_wf_phase).
    destruct (sample_and_push_inv s1 idx (with_phase Decode q) logits Hv1) as (s' & Hp & Hinv & _).
    { cbn. apply list_lookup_insert_eq. by eapply lookup_lt_Some. }
    eauto.
  - eexists. split; [done|]. eapply (sched_inv_update (set_model m s)); try done.
    apply seq_wf_phase; [done|]. lia.
  - destruct (touched_finish idx (set_model m s) (set_model m s) q "error" Hvm) as (s' & Hp & Hinv & _); eauto.
    by apply touched_start.
Qed.

(** ** Preemption *)

Lemma position_of_running s idx q :
  struct_inv s -> sc_running s !! idx = Some q -> position_of (sq_id q) (sc_running s) = Some idx.
Proof.
  intros Hs Hi. rw /position_of. pose proof (si_ids s Hs) as Hnd.
  rw /live_ids fmap_app in Hnd. apply NoDup_app in Hnd as (_ & _ & Hnd).
  assert (list_find (fun x => sq_id x = sq_id q) (sc_running s) = Some (idx, q)) as ->; [|done].
  apply list_find_Some. split; [done|]. split; [done|]. intros j x Hj Hlt Hid.
  enough (j = idx) by lia. eapply (NoDup_lookup _ _ _ (sq_id q) Hnd); rw list_lookup_fmap ?Hj ?Hi //= Hid //.
Qed.

Lemma preempt_inv s idx q :
  sched_inv s -> sc_running s !! idx = Some q ->
  let s' := preempt (sq_id q) s in
  sched_inv s' /\ sc_running s' = delete idx (sc_running s) /\
  sc_waiting s' = with_phase (Prefill 0) q :: sc_waiting s /\
  sc_pool s' = KvPool_release (sc_pool s) (sq_id q) /\ sc_max_batch s' = sc_max_batch s.
Proof.
  intros Hv Hi s'. pose proof Hv as (Hs & Hl & Hb). pose proof (sched_inv_seq s idx q Hv Hi) as [Hwf Hub].
  destruct (struct_inv_retire s idx q Hi Hs) as (Hs1 & Hf & Hr & He & Hlive).
  assert (s' = set_queues (with_phase (Prefill 0) q :: sc_waiting s) (delete idx (sc_running s))
    (drop_kv (sq_id q) (set_running (delete idx (sc_running s)) s))) as Heq.
  { subst s'. rw /preempt (position_of_running s idx q Hs Hi) Hi. done. }
  clearbody s'. subst s'. set (s1 := drop_kv _ _) in *. set (s2 := set_queues _ _ s1).
  split; [|done].
  assert (live_ids s2 = sq_id q :: live_ids s1) as Hli2 by done.
  assert (forall x, x ∈ live_ids s2 <-> x ∈ live_ids s) as Hli.
  { intros x. rw Hli2 elem_of_cons Hlive. split; [|by destruct (decide (x = sq_id q)); auto].
    intros [->|[? _]]; [by eapply live_ids_running|done]. }
  apply Forall_app in Hb as [Hbw Hbr]. split; [|split].
  - destruct Hs1. split; auto.
    + rw Hli2. apply NoDup_cons. split; [|done]. by intros [_ []]%Hlive.
    + intros id Hid%Hli. by apply (si_fresh s Hs).
    + apply Forall_cons. split; [|done]. apply seq_wf_phase; [done|]. lia.
    + by constructor.
  - apply (log_ok_live (live_ids s)); [by intros x; symmetry|]. by eapply log_ok_ext, Hl.
  - apply Forall_cons. split; [done|]. apply Forall_app. split; [done|]. by apply Forall_delete.
Qed.

Lemma sched_inv_pool s id p :
  sched_inv s -> id ∈ sq_id <$> sc_running s -> pool_wf p ->
  held_by (sc_pool s) id <= held_by p id -> 0 < held_by p id ->
  (forall x, x <> id -> held p !! x = held (sc_pool s) !! x) ->
  sched_inv (set_pool p s).
Proof.
  intros (Hs & Hl & Hb) Hid Hp Hle Hpos Hoth. split; [|split; [by eapply log_ok_ext, Hl|done]].
  destruct Hs. split; auto; cbn.
  - intros x. destruct (decide (x = id)) as [->|Hne]; [|by rw Hoth].
    split; [done|]. intros _. rw /held_by in Hpos. destruct (held p !! id); [done|simpl in Hpos; lia].
  - intros q Hq. specialize (si_room0 q Hq). destruct (decide (sq_id q = id)) as [Heq|Hne].
    + rw Heq in si_room0 |- *. lia.
    + rw /held_by Hoth //.
Qed.

Lemma blocks_for_pos n : 0 < n -> 0 < blocks_for n.
Proof. pose proof (blocks_for_enough n) as Hn. rw /BLOCK_TOKENS in Hn. lia. Qed.

(** ** Making room *)

Lemma youngest_fold l : forall b,
  exists v, foldl (fun best x =>
      match best with
      | None => Some x
      | Some b => if (sq_admitted_at b <=? sq_admitted_at x)%nat then Some x else best
      end) (Some b) l = Some v /\ (v = b \/ v ∈ l) /\ sq_admitted_at b <= sq_admitted_at v /\
    (forall x, x ∈ l -> sq_admitted_at x <= sq_admitted_at v).
Proof.
  induction l as [|x l IH]; intros b; simpl.
  - exists b. split; [done|]. split; [by left|]. split; [done|]. by intros ? ?%elem_of_nil.
  - destruct (Nat.leb_spec (sq_admitted_at b) (sq_admitted_at x)) as [Hle|Hlt].
    + destruct (IH x) as (v & -> & Hv & Hge & Hall). exists v. split; [done|].
      split; [right; apply elem_of_cons; naive_solver|]. split; [lia|].
      intros y [->|Hy]%elem_of_cons; auto.
    + destruct (IH b) as (v & -> & Hv & Hge & Hall). exists v. split; [done|].
      split; [rw elem_of_cons; naive_solver|]. split; [lia|].
      intros y [->|Hy]%elem_of_cons; auto. lia.
Qed.

(** The preemption victim is a running sequence other than [id], and none was
    admitted after it. *)
Lemma youngest_other_spec id (l : list Sequence) :
  match youngest_other id l with
  | Some v => v ∈ l /\ sq_id v <> id /\
      (forall x, x ∈ l -> sq_id x <> id -> sq_admitted_at x <= sq_admitted_at v)
  | None => forall x, x ∈ l -> sq_id x = id
  end.
Proof.
  rw /youngest_other. destruct (filter (fun z => sq_id z <> id) l) as [|b r] eqn:E; cbn [foldl].
  - intros x Hx. destruct (decide (sq_id x = id)) as [|Hne]; [done|]. exfalso.
    assert (x ∈ filter (fun z => sq_id z <> id) l) as Hin by (by apply list_elem_of_filter).
    rw E in Hin. by apply elem_of_nil in Hin.
  - destruct (youngest_fold r b) as (v & -> & Hv & Hge & Hall).
    assert (v ∈ filter (fun z => sq_id z <> id) l) as Hin
      by (rw E elem_of_cons; destruct Hv as [->|]; auto).
    apply list_elem_of_filter in Hin as [Hne Hin]. split; [done|]. split; [done|].
    intros x Hx Hxne. assert (x ∈ filter (fun z => sq_id z <> id) l) as Hxin by (by apply list_elem_of_filter).
    rw E elem_of_cons in Hxin. destruct Hxin as [->|]; auto.
Qed.

(** When every running sequence is [q], there is only one. *)
Lemma alone_running s idx q :
  struct_inv s -> sc_running s !! idx = Some q -> (forall x, x ∈ sc_running s -> sq_id x = sq_id q) ->
  delete idx (sc_running s) = [].
Proof.
  intros Hs Hi Hall. destruct (delete idx _) as [|x r] eqn:Ed; [done|]. exfalso.
  pose proof (delete_Permutation _ _ _ Hi) as Hperm. rw Ed in Hperm.
  pose proof (si_ids _ Hs) as Hnd. rw /live_ids fmap_app in Hnd.
  apply NoDup_app in Hnd as (_ & _ & Hnd). rw Hperm !fmap_cons !NoDup_cons in Hnd.
  destruct Hnd as [Hnd _]. apply Hnd. rw -(Hall x); [rw Hperm; right; by left|left].
Qed.

(** A pool whose only holder releases its blocks is empty. *)
Lemma release_alone s q :
  struct_inv s -> (forall id, is_Some (delete (sq_id q) (held (sc_pool s)) !! id) -> False) ->
  used_blocks (sc_pool s) = held_by (sc_pool s) (sq_id q).
Proof.
  intros Hs Hnone. destruct (release_spec (sc_pool s) (sq_id q) (si_pool s Hs)) as ([Hsum _] & _ & Hh & Hu).
  assert (delete (sq_id q) (held (sc_pool s)) = ∅) as Hempty
    by (apply map_empty; intros x; rw eq_None_not_Some => Hx; by apply (Hnone x)).
  rw Hh Hempty in Hsum. change (held_sum ∅) with 0 in Hsum. lia.
Qed.

(** [ensure_room] with enough fuel: on success the reservation is in place and
    the sequence still runs; it fails only when the whole pool is too small,
    and then nothing is left running. *)
Definition room_made id need s (r : Scheduler * bool) : Prop :=
  sched_inv r.1 /\ total_blocks (sc_pool r.1) = total_blocks (sc_pool s) /\
  sc_max_batch r.1 = sc_max_batch s /\
  (r.2 = true -> blocks_for need <= held_by (sc_pool r.1) id /\ id ∈ sq_id <$> sc_running r.1) /\
  (r.2 = false -> sc_running r.1 = [] /\ total_blocks (sc_pool s) < blocks_for need).

Lemma room_self s idx q need :
  sched_inv s -> sc_running s !! idx = Some q -> (forall x, x ∈ sc_running s -> sq_id x = sq_id q) ->
  free_blocks (sc_pool s) < blocks_for need - held_by (sc_pool s) (sq_id q) ->
  room_made (sq_id q) need s (preempt (sq_id q) s, false).
Proof.
  intros Hv Hi Hall Hfree. pose proof Hv as (Hs & _ & _).
  destruct (preempt_inv s idx q Hv Hi) as (Hv2 & Hr2 & _ & Hp2 & Hb2).
  destruct (release_spec (sc_pool s) (sq_id q) (si_pool s Hs)) as (_ & Htot & Hh & _).
  rw (alone_running s idx q Hs Hi Hall) in Hr2. rw /room_made /= Hp2. split; [done|]. split; [done|]. split; [done|]. split; [done|].
  intros _. split; [done|]. pose proof (si_held _ (proj1 Hv2)) as Hheld. rw Hr2 Hp2 Hh in Hheld.
  assert (used_blocks (sc_pool s) = held_by (sc_pool s) (sq_id q)) as Hu
    by (apply release_alone; [done|]; intros x Hx%Hheld; by apply elem_of_nil in Hx).
  destruct (si_pool s Hs). rw /free_blocks in Hfree. lia.
Qed.

Lemma ensure_room_loop_spec fuel : forall id need s,
  sched_inv s -> id ∈ sq_id <$> sc_running s -> length (sc_running s) < fuel -> 0 < need ->
  room_made id need s (ensure_room_loop fuel id need s).
Proof.
  induction fuel as [|fuel IH]; intros id need s Hv Hid Hfuel Hneed; [lia|].
  cbn [ensure_room_loop]. destruct (KvPool_reserve (sc_pool s) id need) as [p ok] eqn:E.
  pose proof Hv as (Hs & _ & _). pose proof (si_pool s Hs) as Hpw. destruct ok.
  - apply reserve_true in E as (Hp & Ht & Hle & Hmax & Hoth); [|done].
    pose proof (blocks_for_pos need Hneed). split; [|by repeat split].
    eapply sched_inv_pool; [done|done|done|lia|lia|done].
  - apply reserve_false in E as [-> Hfree].
    assert (set_pool (sc_pool s) s = s) as -> by (by destruct s).
    pose proof (youngest_other_spec id (sc_running s)) as Hy. destruct (youngest_other _ _) as [v|].
    + destruct Hy as (Hin & Hne & _). apply list_elem_of_lookup in Hin as [idx Hi].
      destruct (preempt_inv _ idx v Hv Hi) as (Hv2 & Hr2 & _ & Hp2 & Hb2).
      pose proof (delete_Permutation _ _ _ Hi) as Hperm.
      destruct (IH id need (preempt (sq_id v) s)) as (H1 & H2 & H3 & H4 & H5); auto.
      * rw Hr2. rw Hperm fmap_cons elem_of_cons in Hid. by destruct Hid as [->|].
      * rw Hr2. apply Permutation_length in Hperm. simpl in Hperm. lia.
      * destruct (release_spec (sc_pool s) (sq_id v) Hpw) as (_ & Htot & _).
        rw Hp2 Htot in H2 H5. rw Hb2 in H3. done.
    + apply list_elem_of_fmap in Hid as (q & -> & Hq). apply list_elem_of_lookup in Hq as [idx Hi].
      by eapply room_self.
Qed.

Lemma make_room_inv cands : forall s,
  Forall (fun c : nat * nat => 0 < c.2) cands -> sched_inv s -> sched_inv (make_room cands s).
Proof.
  induction cands as [|[id need] cands IH]; intros s Hpos Hv; [done|].
  apply Forall_cons in Hpos as [Hn Hpos]. cbn. apply IH; [done|].
  destruct (is_running id s) eqn:Er; [|done].
  apply existsb_exists in Er as (q & Hq & Heq%Nat.eqb_eq).
  apply (ensure_room_loop_spec (S (length (sc_running s))) id need s); auto.
  rw -Heq. apply list_elem_of_fmap_2. by apply list_elem_of_In.
Qed.

(** ** The batch *)

(** The batch lists, in increasing index order, positions of the running set
    together with the id found there. *)
Definition batch_ok s (b : list (nat * nat * Z)) : Prop :=
  StronglySorted lt ((fun x => x.1.1) <$> b) /\
  Forall (fun x => exists q, sc_running s !! x.1.1 = Some q /\ sq_id q = x.1.2) b.

Lemma decode_batch_spec l : forall i,
  Forall seq_wf l -> exists b, decode_batch i l = Some b /\
    StronglySorted lt ((fun x => x.1.1) <$> b) /\
    Forall (fun x => i <= x.1.1 /\ exists q, l !! (x.1.1 - i) = Some q /\ sq_id q = x.1.2) b.
Proof.
  induction l as [|q l IH]; intros i Hwf; cbn [decode_batch].
  - exists []. repeat constructor.
  - apply Forall_cons in Hwf as [Hq Hwf]. destruct (IH (S i) Hwf) as (b & -> & Hsort & Hb).
    assert (Forall (fun x => i <= x.1.1 /\ exists r, (q :: l) !! (x.1.1 - i) = Some r /\ sq_id r = x.1.2) b) as Hb'.
    { eapply Forall_impl; [done|]. intros x (Hle & r & Hr & Hid). split; [lia|]. exists r.
      replace (x.1.1 - i) with (S (x.1.1 - S i)) by lia. done. }
    destruct (is_decode _); [|by eauto].
    destruct Hq as (Hne & _ & _ & Htk & _). destruct (last (sq_tokens q)) as [tok|] eqn:El.
    2: { apply last_None in El. rw Htk in El. by apply app_eq_nil in El as [? _]. }
    eexists. split; [done|]. split.
    + cbn. apply SSorted_cons; [done|]. apply Forall_fmap. eapply Forall_impl; [exact Hb|]. cbn. intros x [? _]. lia.
    + apply Forall_cons. split; [|done]. cbn. split; [done|]. exists q. rw Nat.sub_diag. done.
Qed.

Lemma decode_batch_ok s :
  sched_inv s -> exists b, decode_batch 0 (sc_running s) = Some b /\ batch_ok s b.
Proof.
  intros (Hs & _ & _). pose proof (si_wf s Hs) as Hwf. apply Forall_app in Hwf as [_ Hwf].
  destruct (decode_batch_spec (sc_running s) 0 Hwf) as (b & Hd & Hsort & Hb).
  exists b. split; [done|]. split; [done|]. eapply Forall_impl; [done|]. cbn. intros x (_ & q & Hq).
  rw Nat.sub_0_r in Hq. eauto.
Qed.

(** Walking a batch from its last index: an operation that touches nothing
    below its own index leaves the remaining indices valid, so going by index
    is going by id. *)
Lemma descend_fold {X} (idx id : X -> nat) (op : X -> nat -> Scheduler -> option Scheduler) :
  (forall x s q, sched_inv s -> sc_running s !! idx x = Some q ->
    exists s', op x (idx x) s = Some s' /\ pushed (idx x) s s') ->
  forall b s, sched_inv s -> StronglySorted lt (idx <$> b) ->
  Forall (fun x => exists q, sc_running s !! idx x = Some q /\ sq_id q = id x) b ->
  exists s', foldl (fun acc x => acc ≫= op x (idx x)) (Some s) (rev b) = Some s' /\ sched_inv s' /\
    same_frame s s' /\
    foldl (fun acc x => acc ≫= fun s => match position_of (id x) (sc_running s) with
      | Some j => op x j s | None => Some s end) (Some s) (rev b) = Some s'.
Proof.
  intros Hop b. induction b as [|x b IH] using rev_ind; intros s Hv Hsort Hb; [by exists s|].
  rw fmap_app StronglySorted_app in Hsort. destruct Hsort as (Hlt & Hsort & _).
  apply Forall_app in Hb as [Hb Hx]. apply Forall_singleton in Hx as (q & Hq & Hid).
  rw rev_app_distr /= -Hid (position_of_running s (idx x) q (proj1 Hv) Hq).
  destruct (Hop x s q Hv Hq) as (s1 & -> & Hv1 & Hf1 & Htake & _).
  destruct (IH s1) as (s' & Hs' & Hv' & Hf' & Heq); [done|done| |].
  - apply Forall_forall. intros y Hy. rw Forall_forall in Hb. destruct (Hb y Hy) as (r & Hr & Hrid).
    exists r. split; [|done]. rw -Hr. apply (lookup_take_eq _ _ (idx x)); [done|].
    apply Hlt; [by apply list_elem_of_fmap_2|by left].
  - exists s'. split; [done|]. split; [done|]. split; [by eapply same_frame_trans|done].
Qed.

Lemma batch_ok_model s m b : batch_ok s b -> batch_ok (set_model m s) b.
Proof. done. Qed.

Lemma zip_batch_ok s b (L : list (list f32)) :
  batch_ok s b ->
  StronglySorted lt ((fun x : nat * nat * Z * list f32 => x.1.1.1) <$> zip b L) /\
  Forall (fun x : nat * nat * Z * list f32 => exists q, sc_running s !! x.1.1.1 = Some q /\ sq_id q = x.1.1.2) (zip b L).
Proof.
  rw /batch_ok. revert L. induction b as [|x b IH]; intros [|y L] [Hs Hb]; cbn; try by (split; constructor).
  apply StronglySorted_inv in Hs as [Hs Hlt]. apply Forall_cons in Hb as [Hx Hb].
  destruct (IH L (conj Hs Hb)) as [Hs' Hb']. split; [|by constructor].
  apply SSorted_cons; [done|]. apply Forall_fmap. rw !Forall_fmap !Forall_forall in Hlt |- *.
  intros [p l] Hp. apply elem_of_zip_l in Hp. by apply (Hlt p).
Qed.

Lemma finish_pushed s idx q reason :
  sched_inv s -> sc_running s !! idx = Some q -> exists s', finish idx reason s = Some s' /\ pushed idx s s'.
Proof. intros Hv Hi. eapply touched_finish; [done|by apply touched_start]. Qed.

Lemma fail_batch_inv b s :
  sched_inv s -> batch_ok s b -> exists s', fail_batch b s = Some s' /\ sched_inv s' /\ same_frame s s'.
Proof.
  intros Hv [Hsort Hb].
  destruct (descend_fold (fun x : nat * nat * Z => x.1.1) (fun x => x.1.2) (fun _ j => finish j "error"))
    with (b := b) (s := s) as (s' & Hs' & Hv' & Hf & _); auto; [|by eauto].
  intros x s1 q. apply finish_pushed.
Qed.

(** The sampling loop of [decode_step], addressing sequences by id. *)
Definition push_batch_by_id (batch : list (nat * nat * Z)) (all_logits : list (list f32)) s : option Scheduler :=
  foldl (fun acc bl => acc ≫= fun s => match position_of bl.1.1.2 (sc_running s) with
    | Some j => sample_and_push j bl.2 s | None => Some s end) (Some s) (rev (zip batch all_logits)).

Lemma push_batch_inv b L s :
  sched_inv s -> batch_ok s b ->
  exists s', push_batch b L s = Some s' /\ sched_inv s' /\ same_frame s s' /\ push_batch_by_id b L s = Some s'.
Proof.
  intros Hv Hb. destruct (zip_batch_ok s b L Hb) as [Hsort Hz].
  destruct (descend_fold (fun x : nat * nat * Z * list f32 => x.1.1.1) (fun x => x.1.1.2)
    (fun x j => sample_and_push j x.2)) with (b := zip b L) (s := s) as (s' & Hs' & Hv' & Hf & Hid); auto.
  - intros x s1 q. apply sample_and_push_inv.
  - by exists s'.
Qed.

(** ** Whole steps *)

Lemma make_room_candidates s : sched_inv s -> sched_inv (make_room (decode_candidates (sc_running s)) s).
Proof.
  apply make_room_inv. apply Forall_fmap, Forall_true. intros q. simpl. lia.
Qed.

Lemma decode_step_inv s : sched_inv s -> exists s', decode_step s = Some s' /\ sched_inv s'.
Proof.
  intros Hv. rw /decode_step. pose proof (make_room_candidates s Hv) as Hm.
  destruct (decode_candidates _) as [|c cands]; [by eauto|].
  destruct (decode_batch_ok _ Hm) as (b & -> & Hb). destruct b as [|x b]; [by eauto|].
  destruct (bm_decode _ _) as [m r]. pose proof (sched_inv_model _ m Hm) as Hmm. destruct r as [L|].
  - destruct (push_batch_inv (x :: b) L _ Hmm Hb) as (s' & ? & ? & _). by exists s'.
  - destruct (fail_batch_inv (x :: b) _ Hmm Hb) as (s' & ? & ? & _). by exists s'.
Qed.

(** Admitting the head of the queue. *)
Lemma admit_one s q rest p :
  sched_inv s -> sc_waiting s = q :: rest -> length (sc_running s) < sc_max_batch s ->
  KvPool_reserve (sc_pool s) (sq_id q) (sq_prompt_len q + 1) = (p, true) ->
  sched_inv (set_counters (sc_next_id s) (S (sc_tick s))
    (set_queues rest (sc_running s ++ [with_admitted (S (sc_tick s)) q]) (set_pool p s))).
Proof.
  intros (Hs & Hl & Hb) Hw Hlen Hr. set (s' := set_counters _ _ _).
  pose proof Hr as (Hp & Ht & Hle & Hmax & Hoth)%reserve_true; [|by apply si_pool].
  assert (live_ids s' ≡ₚ live_ids s) as Hperm.
  { rw /live_ids Hw !fmap_app /= app_assoc -Permutation_cons_append. done. }
  assert (sq_id q ∉ sq_id <$> sc_running s) as Hnr.
  { pose proof (si_ids s Hs) as Hnd. rw /live_ids fmap_app Hw in Hnd.
    apply NoDup_app in Hnd as (_ & Hd & _). apply Hd. by left. }
  pose proof (blocks_for_pos (sq_prompt_len q + 1)) as Hbp.
  split; [|split].
  - destruct Hs. rw Hw in si_wf0 si_waiting0. apply Forall_cons in si_waiting0 as [_ Hwt]. split; auto.
    + by rw Hperm.
    + intros id. rw Hperm. apply si_fresh0.
    + cbn. rw length_app /=. lia.
    + intros id. cbn. rw fmap_app elem_of_app list_elem_of_singleton /=.
      destruct (decide (id = sq_id q)) as [->|Hne]; [|rw Hoth // si_held0; naive_solver].
      split; [by right|]. intros _. rw /held_by in Hle. destruct (held p !! _); [done|]. simpl in Hle. lia.
    + intros x. cbn. rw elem_of_app list_elem_of_singleton. intros [Hx| ->]; [|done].
      rw /held_by Hoth; [|by apply si_room0]. intros He. apply Hnr. rw -He. by apply list_elem_of_fmap_2.
    + cbn. apply Forall_cons in si_wf0 as [Hq Hwf]. rw app_assoc. apply Forall_app. split; [done|].
      by apply Forall_singleton.
    + cbn. rw fmap_app. apply StronglySorted_app_2; [|done|by repeat constructor].
      intros x y Hx Hy%list_elem_of_singleton. subst y. rw Forall_forall in si_tick0.
      specialize (si_tick0 x Hx). simpl. lia.
    + cbn. rw fmap_app. apply Forall_app. split; [|by constructor].
      eapply Forall_impl; [done|]. cbn. lia.
  - eapply log_ok_live; [|by eapply log_ok_ext, Hl]. intros x. by rw Hperm.
  - cbn. rw Hw in Hb. apply Forall_cons in Hb as [Hq Hb]. rw app_assoc. apply Forall_app. split; [done|].
    by apply Forall_singleton.
Qed.

Lemma set_pool_id s : set_pool (sc_pool s) s = s.
Proof. by destruct s. Qed.

Lemma admit_loop_inv fuel : forall s, sched_inv s -> sched_inv (admit_loop fuel s).
Proof.
  induction fuel as [|fuel IH]; intros s Hv; [done|]. cbn [admit_loop].
  destruct (Nat.ltb_spec (length (sc_running s)) (sc_max_batch s)); [|done].
  destruct (sc_waiting s) as [|q rest] eqn:Hw; [done|].
  destruct (KvPool_reserve _ _ _) as [p ok] eqn:Hr. destruct ok; [by apply IH, (admit_one s q rest p)|].
  apply reserve_false in Hr as [-> _]. by rw set_pool_id.
Qed.

Lemma step_inv s : sched_inv s -> exists s', step s = Some s' /\ sched_inv s'.
Proof.
  intros Hv. destruct (prefill_inv (Scheduler_admit s) (admit_loop_inv _ s Hv)) as (s1 & H1 & Hv1).
  destruct (decode_step_inv s1 Hv1) as (s2 & H2 & Hv2). exists s2. by rw /step H1 /=.
Qed.

(** A request that is refused never joins the live set. *)
Lemma log_ok_refuse s ev :
  1 <= sc_next_id s -> (forall id, id ∈ live_ids s -> id < sc_next_id s) -> log_ok (live_ids s) s -> final ev ->
  log_ok (live_ids s) (send (sc_next_id s) ev (set_counters (S (sc_next_id s)) (sc_tick s) s)).
Proof.
  intros Hn Hfr Hl Hev. apply (log_ok_final (sc_next_id s :: live_ids s) _ _ (sc_next_id s)); [by left| |simpl; lia| |done].
  - intros x. rw elem_of_cons. split; [|naive_solver]. intros Hx. specialize (Hfr x Hx). split; [by right|lia].
  - intros x. destruct (Hl x) as (H1 & H2 & H3). cbn. rw elem_of_cons. split; [|split; [done|]].
    + intros [[->|Hx]|Hx]; apply H1; auto. right. lia.
    + intros Hx Hnl. apply H3; [|naive_solver]. split; [lia|]. destruct (decide (x = sc_next_id s)); [naive_solver|lia].
Qed.

Lemma enqueue_inv req s : text_stable req -> sched_inv s -> sched_inv (enqueue req s).
Proof.
  intros Hst (Hs & Hl & Hb). pose proof (si_fresh s Hs) as Hfr. pose proof (si_next s Hs) as Hnx.
  assert (struct_inv (set_counters (S (sc_next_id s)) (sc_tick s) s)) as Hs'.
  { destruct Hs. split; auto; cbn; [|lia]. intros id Hid. specialize (Hfr id Hid). lia. }
  rw /enqueue. destruct (bool_decide _ || _) eqn:Ebad.
  - destruct (send_fields (sc_next_id s) (mkStreamEvent "" (Some "error") (length (rq_prompt_tokens req)) 0)
      (set_counters (S (sc_next_id s)) (sc_tick s) s)) as (_ & _ & Hw & Hr & _).
    split; [by apply struct_inv_send|]. rw /live_ids Hw Hr. split; [|done].
    apply (log_ok_refuse s); auto; [|by eexists]. intros id Hid. apply Hfr in Hid. lia.
  - apply orb_false_iff in Ebad as [Hne%bool_decide_eq_false Hlen%Nat.leb_gt].
    set (q := mkSequence _ _ _ _ _ _ _ _ _). set (s' := set_queues _ _ _).
    assert (seq_wf q) as Hq.
    { split_and!; cbn; auto; try lia. by rw app_nil_r. by left. }
    assert (live_ids s' ≡ₚ sc_next_id s :: live_ids s) as Hperm.
    { rw /live_ids /= -app_assoc /= !fmap_app /= -Permutation_middle. done. }
    split; [|split].
    + destruct Hs'. split; auto.
      * rw Hperm NoDup_cons. split; [|done]. intros Hin%Hfr. lia.
      * intros id. rw Hperm elem_of_cons /=. intros [->|Hin%Hfr]; lia.
      * cbn. rw -app_assoc. apply Forall_app in si_wf0 as [? ?]. apply Forall_app. split; [done|]. by constructor.
      * cbn. apply Forall_app. split; [done|]. by constructor.
    + intros x. destruct (Hl x) as (H1 & H2 & H3). rw Hperm elem_of_cons /=. split; [|split; [done|]].
      * intros [[->|Hx]|Hx]; apply H1; auto. right. lia.
      * intros Hx Hnl. apply H3; [|naive_solver]. split; [lia|]. destruct (decide (x = sc_next_id s)); [naive_solver|lia].
    + cbn. rw -app_assoc. apply Forall_app in Hb as [? ?]. apply Forall_app. split; [done|]. constructor; [|done].
      rw /under_budget /=. lia.
Qed.

Lemma sched_step_inv s s' : sched_step s s' -> sched_inv s -> sched_inv s'.
Proof.
  intros Hst Hv. destruct Hst as [req s Hr|s s' _ Hs|id s].
  - by apply enqueue_inv.
  - destruct (step_inv s Hv) as (s2 & Hs2 & Hv2). by rw Hs in Hs2; simplify_eq.
  - destruct Hv as (Hs & Hl & Hb). split; [by eapply struct_inv_ext, Hs|]. split; [|done].
    intros x. destruct (Hl x) as (H1 & H2 & H3). split; [done|]. split; [done|]. cbn.
    intros Hx Hnl. destruct (H3 Hx Hnl) as [?|?]; [by left|right; set_solver].
Qed.

Lemma sched_new_inv m cfg s : Scheduler_new m cfg = Some s -> sched_inv s.
Proof.
  rw /Scheduler_new. destruct (Nat.ltb_spec bm_max_batch 1); [done|]. intros [= <-].
  split; [|split; [|by constructor]].
  - split; cbn; try by constructor.
    + apply pool_wf_new.
    + intros id Hid. by apply elem_of_nil in Hid.
    + lia.
    + lia.
    + intros id. rw lookup_empty elem_of_nil. split; [by intros []|done].
    + intros q Hq. by apply elem_of_nil in Hq.
  - intros id. cbn. split; [by intros _; constructor|]. split; [done|]. lia.
Qed.

Lemma reachable_inv m cfg s0 s : Scheduler_new m cfg = Some s0 -> rtc sched_step s0 s -> sched_inv s.
Proof.
  intros Hnew Hrtc. assert (sched_inv s0) as Hv by by eapply sched_new_inv. clear Hnew.
  induction Hrtc; eauto using sched_step_inv.
Qed.

(** Nothing running, nothing held. *)
Lemma idle_used s : struct_inv s -> sc_running s = [] -> used_blocks (sc_pool s) = 0.
Proof.
  intros Hs Hr. destruct (si_pool s Hs) as [-> _]. assert (held (sc_pool s) = ∅) as ->; [|done].
  apply map_empty. intros id. apply eq_None_not_Some. rw (si_held s Hs) Hr. apply not_elem_of_nil.
Qed.

Lemma held_le_total s id : struct_inv s -> held_by (sc_pool s) id <= total_blocks (sc_pool s).
Proof. intros Hs. destruct (si_pool s Hs). pose proof (held_sum_split (held (sc_pool s)) id). rw /held_by. lia. Qed.

(** A head of the queue that the whole pool cannot hold is never admitted. *)
Lemma admit_stuck s q rest :
  struct_inv s -> sc_waiting s = q :: rest -> total_blocks (sc_pool s) < blocks_for (sq_prompt_len q + 1) ->
  Scheduler_admit s = s.
Proof.
  intros Hs Hw Hbig. rw /Scheduler_admit Hw /=. destruct (_ <? _)%nat; [|done]. rw Hw.
  destruct (KvPool_reserve _ _ _) as [p ok] eqn:Hr. destruct ok.
  - pose proof (si_pool s Hs) as Hpw.
    apply reserve_true in Hr as ([Hsum Hle] & Ht & Hheld & _); [|done].
    pose proof (held_sum_split (held p) (sq_id q)). rw /held_by in Hheld. lia.
  - apply reserve_false in Hr as [-> _]. by rw set_pool_id.
Qed.
End invariant.

(** ** What holds of every reachable state *)

Section claims.
Context `{BatchModel} `{SamplerOps}.

Definition reachable (m : bm_state) (cfg : SchedulerConfig) (s : Scheduler) : Prop :=
  exists s0, Scheduler_new m cfg = Some s0 /\ rtc sched_step s0 s.

Lemma reachable_sched_inv m cfg s : reachable m cfg s -> sched_inv s.
Proof. intros (s0 & Hn & Hr). by eapply reachable_inv. Qed.


(** C16. The response protocol: a request still queued or running has been sent
    no final event; a final event is the last event of its request; and every
    accepted id that is no longer served has been sent its final event, unless
    its client disconnected. *)
Theorem response_protocol m cfg s id :
  reachable m cfg s -> 1 <= id < sc_next_id s ->
  let evs := events_of id (sc_events s) in
  (id ∈ live_ids s -> Forall (fun e => ~ final e) evs) /\
  (forall k e, evs !! k = Some e -> final e -> S k = length evs) /\
  (id ∉ live_ids s -> id ∉ sc_gone s -> exists e, last evs = Some e /\ final e).
Proof.
  intros (_ & Hl & _)%reachable_sched_inv Hid evs. destruct (Hl id) as (H1 & H2 & H3).
  split; [by auto|]. split; [done|]. intros Hnl Hng. destruct (H3 Hid Hnl) as [Hex|]; [|done].
  apply Exists_exists in Hex as (e & Hin & Hf). apply list_elem_of_lookup in Hin as [k Hk].
  exists e. split; [|done]. rw last_lookup -(H2 k e Hk Hf) //.
Qed.

(** C25. Token accounting: a live sequence holds its prompt followed by what it
    generated, never more than the context window, and it has generated fewer
    tokens than its budget (a request for zero tokens still gets one). *)
Theorem token_limits m cfg s q :
  reachable m cfg s -> q ∈ sc_waiting s ++ sc_running s ->
  sq_tokens q = rq_prompt_tokens (sq_req q) ++ sq_generated q /\
  length (sq_tokens q) < bm_max_seq_len /\
  length (sq_generated q) < Nat.max 1 (rq_max_tokens (sq_req q)).
Proof.
  intros (Hs & _ & Hb)%reachable_sched_inv Hq. pose proof (si_wf s Hs) as Hwf.
  rw !Forall_forall in Hwf Hb. specialize (Hb q Hq). destruct (Hwf q Hq) as (Hne & Hlt & Hpl & Htk & Hg & _).
  rw /under_budget /budget in Hb. split; [done|]. rw Htk length_app. lia.
Qed.

(** [ensure_room] returns (its loop ends within one turn per running
    sequence), and it succeeds exactly when the pool as a whole can hold the
    request: on success the blocks are reserved and the requester still runs;
    on failure the requester was preempted last, nothing runs and the whole
    pool is free. *)
Lemma ensure_room_correct m cfg s id need :
  reachable m cfg s -> id ∈ sq_id <$> sc_running s -> 0 < need ->
  let (s', ok) := ensure_room id need s in
  (ok = true <-> blocks_for need <= total_blocks (sc_pool s)) /\
  (ok = true -> blocks_for need <= held_by (sc_pool s') id /\ id ∈ sq_id <$> sc_running s') /\
  (ok = false -> sc_running s' = [] /\ used_blocks (sc_pool s') = 0).
Proof.
  intros Hv%reachable_sched_inv Hid Hneed.
  pose proof (ensure_room_loop_spec (S (length (sc_running s))) id need s Hv Hid) as Hr.
  rw /ensure_room. destruct (ensure_room_loop _ _ _ _) as [s' ok].
  destruct Hr as ((Hs' & _) & Htot & _ & Hok & Hko); [lia|done|]. cbn in *.
  pose proof (held_le_total s' id Hs'). split; [|split; [done|]].
  - split; [intros Ht; specialize (Hok Ht); lia|]. intros Hle. destruct ok; [done|]. specialize (Hko eq_refl). lia.
  - intros Hf. destruct (Hko Hf) as [Hrun _]. split; [done|]. by apply idle_used.
Qed.

(** Sampling walks the batch from the back by index while sequences finish
    and are removed under it: this is the same as looking each sequence up by
    id, and no index goes stale. *)
Lemma push_batch_equiv m cfg s batch L :
  reachable m cfg s -> decode_batch 0 (sc_running s) = Some batch ->
  exists s', push_batch batch L s = Some s' /\ push_batch_by_id batch L s = Some s'.
Proof.
  intros Hv%reachable_sched_inv Hd. destruct (decode_batch_ok s Hv) as (b & Hb & Hok). simplify_eq.
  destruct (push_batch_inv batch L s Hv Hok) as (s' & H1 & _ & _ & H2). by exists s'.
Qed.

(** A request whose prompt fits the context window but not the KV pool is
    accepted, is never admitted and stops everything behind it: with nothing
    running, a step leaves the whole state unchanged, so the engine spins. *)
Lemma oversized_prompt_stalls m cfg s q rest :
  reachable m cfg s -> sc_running s = [] -> sc_waiting s = q :: rest ->
  total_blocks (sc_pool s) < blocks_for (length (rq_prompt_tokens (sq_req q)) + 1) ->
  step s = Some s.
Proof.
  intros (Hs & _ & _)%reachable_sched_inv Hrun Hw Hbig. pose proof (si_wf s Hs) as Hwf.
  rw Hw in Hwf. apply Forall_cons in Hwf as [(_ & _ & Hpl & _) _]. rw -Hpl in Hbig.
  rw /step (admit_stuck s q rest) // /prefill_one_chunk Hrun /= /decode_step Hrun //.
Qed.
End claims.

(** ** A recording model

    The KV state of each sequence is the list of tokens it was built from, as
    in the tests' mock; the sampler always picks token 5 and every token
    decodes to one letter. *)
Module Recording.

#[local] Instance recorder : BatchModel := {|
  bm_state := gmap nat (list Z);
  bm_max_batch := 4;
  bm_max_seq_len := 64;
  bm_prefill kv id toks pos want :=
    (<[id := take pos (default [] (kv !! id)) ++ toks]> kv, Some (if want then Some [] else None));
  bm_decode kv batch :=
    (foldl (fun kv b => <[b.1 := default [] (kv !! b.1) ++ [b.2]]> kv) kv batch, Some ((fun _ => []) <$> batch));
  bm_drop_seq kv id := delete id kv;
|}.

#[local] Instance greedy5 : SamplerOps := {|
  sm_params := unit;
  sm_state := unit;
  sm_new _ := tt;
  sm_sample _ _ _ := (tt, 5%Z);
|}.

Fixpoint letters (n : nat) : string :=
  match n with O => "" | S n => String (Ascii.ascii_of_nat 97) (letters n) end.

Definition request (prompt : list Z) (max : nat) : Request :=
  mkRequest prompt max [] tt (fun g => Some (letters (length g))) None.

Lemma letters_len n : str_len (letters n) = n.
Proof. rw /str_len. induction n as [|n IH]; simpl; congruence. Qed.

Lemma letters_start n i : i < n -> is_char_start (letters n) i = true.
Proof.
  rw /is_char_start. revert i. induction n as [|n IH]; intros i Hi; [lia|]. destruct i as [|i]; [done|].
  apply IH. lia.
Qed.

Lemma letters_boundary n i : is_boundary (letters n) i = true <-> i <= n.
Proof.
  split.
  - rw /is_boundary letters_len. destruct (Nat.eqb_spec i 0); [lia|]. destruct (Nat.eqb_spec i n); [lia|].
    rw /is_char_start /=. intros Hg. destruct (decide (i <= n)) as [|Hgt]; [done|]. exfalso. revert Hg.
    assert (String.get i (letters n) = None) as ->; [|done].
    clear -Hgt. revert i Hgt. induction n as [|n IH]; intros [|i] Hi; simpl; try done; try lia. apply IH. lia.
  - intros Hle. rw /is_boundary letters_len. destruct (decide (i = n)) as [->|Hne].
    + by rw Nat.eqb_refl orb_true_r.
    + rw letters_start; [lia|]. by rw !orb_true_r.
Qed.

Lemma request_stable prompt max : text_stable (request prompt max).
Proof.
  intros g h a b i [= <-] _ [= <-] Hb%letters_boundary. apply letters_boundary. rw length_app. lia.
Qed.

Fixpoint run_steps (n : nat) (s : Scheduler) : option Scheduler :=
  match n with
  | O => Some s
  | S n =>
      match sc_waiting s, sc_running s with
      | [], [] => None
      | _, _ => step s ≫= run_steps n
      end
  end.

Lemma run_steps_rtc n : forall s s', run_steps n s = Some s' -> rtc sched_step s s'.
Proof.
  induction n as [|n IH]; intros s s'; cbn [run_steps]; [by intros [= <-]|].
  assert (forall b, (b = true -> sc_waiting s <> [] \/ sc_running s <> []) ->
    (if b then step s ≫= run_steps n else None) = Some s' -> rtc sched_step s s') as Hgo.
  { intros [] Hb; [|done]. intros (s1 & H1 & H2)%bind_Some. eapply rtc_l; [|by apply IH].
    apply run_step; auto. }
  destruct (sc_waiting s) eqn:Hw, (sc_running s) eqn:Hr; [apply (Hgo false)|apply (Hgo true)..]; auto; by left + right.
Qed.

Definition start (cfg : SchedulerConfig) (reqs : list Request) : option Scheduler :=
  (fun s => foldl (fun s r => enqueue r s) s reqs) <$> Scheduler_new (∅ : gmap nat (list Z)) cfg.

Lemma start_reachable cfg reqs n s s' :
  Forall text_stable reqs -> start cfg reqs = Some s -> run_steps n s = Some s' -> reachable (∅ : bm_state) cfg s'.
Proof.
  rw /start => Hst. destruct (Scheduler_new _ _) as [s0|] eqn:Hn; [|done]. intros [= <-] Hrun%run_steps_rtc.
  exists s0. split; [done|]. etrans; [|exact Hrun]. clear Hrun Hn. revert s0.
  induction Hst as [|r reqs Hr Hst IH]; intros s0; [done|]. cbn. eapply rtc_l; [by apply run_enqueue|]. apply IH.
Qed.

Definition cfg2 : SchedulerConfig := mkSchedulerConfig 4 8 32.
Definition two : list Request := [request (replicate 12 1%Z) 10; request (replicate 12 2%Z) 10].

(** Two requests of twelve prompt tokens share a pool of two blocks; after [n]
    steps. *)
Definition after (n : nat) : option Scheduler := start cfg2 two ≫= run_steps n.

Lemma after_reachable n s : after n = Some s -> reachable (∅ : bm_state) cfg2 s.
Proof.
  rw /after. destruct (start cfg2 two) as [s0|] eqn:Hs; [|done]. apply (start_reachable _ two _ s0); [|done].
  repeat constructor; apply request_stable.
Qed.

Lemma after_some n {A} (f : Scheduler -> A) v : f <$> after n = Some v -> exists s, after n = Some s /\ f s = v.
Proof. intros (s & -> & Hs)%fmap_Some. by exists s. Qed.


(** After ten steps request 1 has been answered and has left. *)
Lemma response_protocol_witness :
  exists s e, after 10 = Some s /\ last (events_of 1 (sc_events s)) = Some e /\ final e.
Proof.
  destruct (after_some 10 (fun s => (sc_next_id s, live_ids s, elements (sc_gone s))) (3, [2], []))
    as (s & Hs & Hv); [by vm_compute|]. injection Hv as Hn Hl Hg.
  destruct (proj2 (proj2 (response_protocol _ _ s 1 (after_reachable 10 s Hs) ltac:(lia)))) as (e & He).
  - rw Hl. by apply not_elem_of_cons; split; [|apply not_elem_of_nil].
  - rw -elem_of_elements Hg. apply not_elem_of_nil.
  - exists s, e. exact (conj Hs He).
Defined.

Lemma token_limits_witness :
  exists s q, after 5 = Some s /\ sc_running s = [q] /\ length (sq_tokens q) < 64.
Proof.
  destruct (after_some 5 (fun s => length (sc_running s)) 1) as (s & Hs & Hlen); [by vm_compute|].
  destruct (sc_running s) as [|q [|]] eqn:Hr; [discriminate Hlen| |discriminate Hlen]. exists s, q. split; [exact Hs|]. split; [exact Hr|].
  refine (proj1 (proj2 (token_limits _ _ s q (after_reachable 5 s Hs) _))). rw Hr. apply elem_of_app. right. by left.
Defined.

(** At step 4 both run and the pool is full: making room for a seventeenth
    token of request 1 succeeds, by preempting request 2. *)
Lemma ensure_room_correct_witness :
  exists s, after 4 = Some s /\ (ensure_room 1 17 s).2 = true /\
    blocks_for 17 <= held_by (sc_pool (ensure_room 1 17 s).1) 1.
Proof.
  destruct (after_some 4 (fun s => (sq_id <$> sc_running s, total_blocks (sc_pool s))) ([1; 2], 2))
    as (s & Hs & Hv); [by vm_compute|]. injection Hv as Hr Ht.
  pose proof (ensure_room_correct _ _ s 1 17 (after_reachable 4 s Hs)) as Hc.
  exists s. split; [exact Hs|]. destruct (ensure_room 1 17 s) as [s' ok]. cbn.
  destruct Hc as (Hiff & Hok & _); [rw Hr; by left|lia|].
  assert (ok = true) as E; [apply Hiff; rw Ht; apply Nat.leb_le; reflexivity|]. split; [exact E|]. exact (proj1 (Hok E)).
Defined.

Lemma push_batch_equiv_witness :
  exists s b s', after 4 = Some s /\ decode_batch 0 (sc_running s) = Some b /\ length b = 2 /\
    push_batch b [[]; []] s = Some s' /\ push_batch_by_id b [[]; []] s = Some s'.
Proof.
  destruct (after_some 4 (fun s => length <$> decode_batch 0 (sc_running s)) (Some 2)) as (s & Hs & Hl); [by vm_compute|].
  destruct (decode_batch 0 (sc_running s)) as [b|] eqn:Hb; [|discriminate Hl]. injection Hl as Hl.
  destruct (push_batch_equiv _ _ s b [[]; []] (after_reachable 4 s Hs) Hb) as (s' & Hp & Hi).
  exists s, b, s'. exact (conj Hs (conj Hb (conj Hl (conj Hp Hi)))).
Defined.

(** A prompt of forty tokens, a pool of thirty-two. *)
Definition too_long : list Request := [request (replicate 40 1%Z) 4; request [1%Z] 4].

Lemma oversized_prompt_stalls_witness :
  exists s, start cfg2 too_long = Some s /\ length (sc_waiting s) = 2 /\ step s = Some s.
Proof.
  destruct (start cfg2 too_long) as [s|] eqn:Hs; [|discriminate Hs].
  assert (reachable (∅ : bm_state) cfg2 s) as Hr.
  { apply (start_reachable cfg2 too_long 0 s s); [|exact Hs|reflexivity]. repeat constructor; apply request_stable. }
  exists s. split; [reflexivity|]. injection Hs as <-. split; [reflexivity|].
  eapply (oversized_prompt_stalls _ _ _ _ _ Hr); [reflexivity|reflexivity|]. apply Nat.ltb_lt. vm_compute. reflexivity.
Defined.

(** Preemption loses context. [preempt] keeps the generated tokens and
    resets the phase, but the re-prefill covers the first [prompt_len] tokens
    only: after request 2 has been preempted with two generated tokens and
    re-admitted, it decodes its sixteenth token against a KV state of the twelve
    prompt tokens and one more, while a sequence that was never preempted
    (request 1 at step 4) has all its tokens but the last in the KV state. *)
Lemma preempted_context_lost :
  (exists s q, reachable (∅ : bm_state) cfg2 s /\ sc_running s !! 0 = Some q /\ sq_phase q = Decode /\
    length (sq_tokens q) = 16 /\ sc_model s !! sq_id q = Some (removelast (sq_tokens q))) /\
  (exists s q, reachable (∅ : bm_state) cfg2 s /\ sc_running s !! 0 = Some q /\ sq_phase q = Decode /\
    length (sq_tokens q) = 16 /\ sc_model s !! sq_id q = Some (rq_prompt_tokens (sq_req q) ++ [5%Z])).
Proof.
  pose (look s := (fun q => (sq_phase q, length (sq_tokens q),
    (bool_decide ((sc_model s : gmap nat (list Z)) !! sq_id q = Some (removelast (sq_tokens q))),
     bool_decide ((sc_model s : gmap nat (list Z)) !! sq_id q = Some (rq_prompt_tokens (sq_req q) ++ [5%Z])))))
    <$> sc_running s !! 0).
  split.
  - destruct (after_some 4 look (Some (Decode, 16, (true, false)))) as (s & Hs & Hv); [by vm_compute|].
    apply fmap_Some in Hv as (q & Hq & [= -> -> Hm _]). exists s, q. split; [by apply (after_reachable 4)|].
    clear Hs. split; [done|]. split; [done|]. split; [done|]. symmetry in Hm. by apply bool_decide_eq_true in Hm.
  - destruct (after_some 12 look (Some (Decode, 16, (false, true)))) as (s & Hs & Hv); [by vm_compute|].
    apply fmap_Some in Hv as (q & Hq & [= -> -> _ Hm]). exists s, q. split; [by apply (after_reachable 12)|].
    clear Hs. split; [done|]. split; [done|]. split; [done|]. symmetry in Hm. by apply bool_decide_eq_true in Hm.
Qed.
End Recording.
