(* ===== verification/Sampling.v ===== *)
(** * Sampling

    [cgn-infer/src/sampling/mod.rs] and the [sampling_params] of
    [server/types.rs]: repetition penalty, temperature, top-k, top-p, and the
    draw. The exponential, the order an unstable sort leaves equal logits in and
    the weighted draw of the rand crate are classes; a rejected list of weights
    is the [expect] of the source failing, the value [None]. All NaNs are one
    float here, so their place in the total order is a parameter. *)

From S2P Require Import Prelude Float32.

(** ** Parameters *)

Record SamplingParams := mkParams {
  temperature : f32;
  top_p : f32;
  top_k : nat;
  repetition_penalty : f32;
  repeat_last_n : nat;
  seed : option Z;
}.

Definition SamplingParams_default : SamplingParams := mkParams f32_one f32_one 0 f32_one 64 None.

Definition GREEDY_EPS : f32 := Eval vm_compute in f32_lit 1 10000.
Definition EPSILON : f32 := Eval vm_compute in f32_lit 1 8388608.
Definition MIN_POSITIVE : f32 := S754_finite false 8388608 (-149).

Definition sampling_params (temp topp : option f32) (topk : option nat) (penalty : option f32) (sd : option Z) : SamplingParams :=
  let d := SamplingParams_default in
  mkParams (f32_max (default (temperature d) temp) f32_zero) (f32_clamp (default (top_p d) topp) MIN_POSITIVE f32_one)
    (default (top_k d) topk) (f32_max (default (repetition_penalty d) penalty) f32_zero) (repeat_last_n d) sd.

(** ** [total_cmp] *)

Definition tkey (nan_low : bool) (x : f32) : Z * Z * Z :=
  match x with
  | S754_nan => (if nan_low then -3 else 3, 0, 0)%Z
  | S754_zero s => (0, 0, if s then -1 else 0)%Z
  | _ => fkey x
  end.

Definition total_le (nan_low : bool) (a b : f32) : bool :=
  let '(a1, a2, a3) := tkey nan_low a in
  let '(b1, b2, b3) := tkey nan_low b in
  ((a1 <? b1) || ((a1 =? b1) && ((a2 <? b2) || ((a2 =? b2) && (a3 <=? b3)))))%Z.

(** What the code takes from elsewhere: [f32::exp], the sort, and
    [WeightedIndex] with the generator's state. *)
Class SampleEnv := {
  nan_low : bool;
  f32_exp : f32 -> f32;
  f32_exp_nan : f32_exp S754_nan = S754_nan;
  sort_desc : list (nat * f32) -> list (nat * f32);
  sort_desc_perm : forall l, sort_desc l ≡ₚ l;
  sort_desc_sorted : forall l, StronglySorted (fun a b => total_le nan_low b.2 a.2 = true) (sort_desc l);
  rng_state : Type;
  rng_new : option Z -> rng_state;
  weighted : list f32 -> rng_state -> option (rng_state * nat);
  weighted_index : forall ps st st' i, weighted ps st = Some (st', i) -> i < length ps;
  weighted_invalid : forall ps st, Exists (fun p => f32_ge p f32_zero = false) ps -> weighted ps st = None;
}.

(** ** Logits *)

Definition penalize (penalty l : f32) : f32 := if f32_lt f32_zero l then f32_div l penalty else f32_mul l penalty.

Definition apply_repetition_penalty (logits : list f32) (recent : list Z) (penalty : f32) (last_n : nat) : list f32 :=
  if f32_lt (f32_abs (f32_sub penalty f32_one)) EPSILON || (last_n =? 0)%nat then logits
  else foldl (fun ls tok => alter (penalize penalty) (Z.to_nat tok) ls) logits (drop (length recent - last_n) recent).

Definition enumerate (l : list f32) : list (nat * f32) := imap (fun i x => (i, x)) l.

Section sample.
Context `{SampleEnv}.

(** [max_by] keeps the last of the maxima. *)
Definition later_max (best : option (nat * f32)) (x : nat * f32) : option (nat * f32) :=
  match best with Some b => if total_le nan_low b.2 x.2 then Some x else best | None => Some x end.

Definition argmax (logits : list f32) : nat :=
  match foldl later_max None (enumerate logits) with Some (i, _) => i | None => 0 end.

Definition f32_sum (l : list f32) : f32 := foldl f32_add f32_zero l.

Definition softmax (logits : list f32) : list f32 :=
  let max := foldl f32_max (S754_infinity true) logits in
  let exps := (fun l => f32_exp (f32_sub l max)) <$> logits in
  let sum := f32_sum exps in
  (fun e => f32_div e sum) <$> exps.

(** The loop that finds where the nucleus ends. *)
Fixpoint nucleus (topp cum : f32) (i : nat) (probs : list f32) : option nat :=
  match probs with
  | [] => None
  | p :: probs =>
      let cum := f32_add cum p in
      if f32_ge cum topp then Some (i + 1) else nucleus topp cum (i + 1) probs
  end.

Record Sampler := mkSampler { sm_p : SamplingParams; sm_rng : rng_state }.

Definition Sampler_new (p : SamplingParams) : Sampler := mkSampler p (rng_new (seed p)).

(** The ranked candidates and their weights. *)
Definition ranked_top_k (k : nat) (logits : list f32) : list (nat * f32) :=
  let ranked := sort_desc (enumerate logits) in
  if (0 <? k)%nat && (k <? length ranked)%nat then take k ranked else ranked.

Definition candidates (p : SamplingParams) (logits : list f32) : list (nat * f32) * list f32 :=
  let ranked := ranked_top_k (top_k p) logits in
  let probs := softmax ranked.*2 in
  if f32_lt (top_p p) f32_one then
    let keep := default (length probs) (nucleus (top_p p) f32_zero 0 probs) in
    let probs := take keep probs in
    let sum := f32_sum probs in
    (take keep ranked, (fun q => f32_div q sum) <$> probs)
  else (ranked, probs).

Definition Sampler_sample (s : Sampler) (logits : list f32) (recent : list Z) : option (Sampler * nat) :=
  let p := sm_p s in
  let logits := apply_repetition_penalty logits recent (repetition_penalty p) (repeat_last_n p) in
  if f32_lt (temperature p) GREEDY_EPS then Some (s, argmax logits)
  else
    let logits := (fun l => f32_div l (temperature p)) <$> logits in
    let (ranked, probs) := candidates p logits in
    match weighted probs (sm_rng s) with
    | None => None
    | Some (rng, picked) =>
        match ranked !! picked with
        | Some (i, _) => Some (mkSampler p rng, i)
        | None => None
        end
    end.
End sample.

(** ** The total order *)

Lemma total_le_refl b x : total_le b x x = true.
Proof.
  rw /total_le. destruct (tkey b x) as [[x1 x2] x3]. rw !Z.eqb_refl Z.leb_refl. by rw /= !orb_true_r.
Qed.

Lemma total_le_trans b x y z : total_le b x y = true -> total_le b y z = true -> total_le b x z = true.
Proof.
  rw /total_le. destruct (tkey b x) as [[x1 x2] x3], (tkey b y) as [[y1 y2] y3], (tkey b z) as [[z1 z2] z3].
  rw !orb_true_iff !andb_true_iff !orb_true_iff !andb_true_iff !Z.ltb_lt !Z.eqb_eq !Z.leb_le. lia.
Qed.

Lemma total_le_total b x y : total_le b x y = false -> total_le b y x = true.
Proof.
  rw /total_le. destruct (tkey b x) as [[x1 x2] x3], (tkey b y) as [[y1 y2] y3].
  rw -not_true_iff_false !orb_true_iff !andb_true_iff !orb_true_iff !andb_true_iff !Z.ltb_lt !Z.eqb_eq !Z.leb_le. lia.
Qed.
#[export] Hint Resolve total_le_refl total_le_total : cgn.

(** Above positive infinity there is only a NaN. *)
Lemma total_le_inf b x : total_le b (S754_infinity false) x = true -> x = S754_infinity false \/ x = S754_nan.
Proof. destruct x as [[]|[]| |[] m e]; auto; by destruct b. Qed.

(** ** Facts *)

Section facts.
Context `{SampleEnv}.

Lemma enumerate_lookup l i : enumerate l !! i = (fun x => (i, x)) <$> l !! i.
Proof. apply list_lookup_imap. Qed.

Lemma elem_of_enumerate l i x : (i, x) ∈ enumerate l <-> l !! i = Some x.
Proof.
  rw list_elem_of_lookup. setoid_rewrite enumerate_lookup. split.
  - intros (j & (y & Hy & [= -> ->])%fmap_Some). done.
  - intros Hl. exists i. by rw Hl.
Qed.

Lemma later_max_fold (l : list (nat * f32)) : forall b,
  exists r, foldl later_max (Some b) l = Some r /\
    (forall x, x = b \/ x ∈ l -> total_le nan_low x.2 r.2 = true) /\
    (r = b /\ (forall x, x ∈ l -> total_le nan_low b.2 x.2 = false) \/
     exists k, l !! k = Some r /\ forall j x, k < j -> l !! j = Some x -> total_le nan_low r.2 x.2 = false).
Proof.
  induction l as [|y l IH]; intros b; cbn [foldl later_max].
  - exists b. split; [done|]. split; [intros x [->|Hx]; [apply total_le_refl|in_nil]|]. left. split; [done|]. intros x Hx. in_nil.
  - destruct (total_le nan_low b.2 y.2) eqn:E.
    + destruct (IH y) as (r & -> & Hmax & Hlast). exists r. split; [done|]. split.
      * intros x. rw elem_of_cons. intros [->|[->|Hx]]; auto. eapply total_le_trans; [exact E|]. auto.
      * right. destruct Hlast as [[-> Hlt]|(k & Hk & Hlt)].
        -- exists 0. split; [done|]. intros [|j] x Hj Hx; [lia|]. apply Hlt. by eapply list_elem_of_lookup_2.
        -- exists (S k). split; [done|]. intros [|j] x Hj Hx; [lia|]. apply (Hlt j); [lia|done].
    + destruct (IH b) as (r & -> & Hmax & Hlast). exists r. split; [done|]. split.
      * intros x. rw elem_of_cons. intros [->|[->|Hx]]; auto. eapply total_le_trans; [by apply total_le_total|]. auto.
      * destruct Hlast as [[-> Hlt]|(k & Hk & Hlt)].
        -- left. split; [done|]. intros x. rw elem_of_cons. intros [->|Hx]; auto.
        -- right. exists (S k). split; [done|]. intros [|j] x Hj Hx; [lia|]. apply (Hlt j); [lia|done].
Qed.

(** The last of the greatest logits. *)
Lemma argmax_spec logits : logits <> [] ->
  exists l, logits !! argmax logits = Some l /\
    (forall j x, logits !! j = Some x -> total_le nan_low x l = true) /\
    (forall j x, argmax logits < j -> logits !! j = Some x -> total_le nan_low l x = false).
Proof.
  intros Hne. rw /argmax. destruct (enumerate logits) as [|b l] eqn:E; [by destruct logits|]. cbn [foldl later_max].
  destruct (later_max_fold l b) as ([i x] & -> & Hmax & Hlast).
  assert (Hall : forall j y, logits !! j = Some y -> (j, y) = b \/ (j, y) ∈ l).
  { intros j y Hj. apply elem_of_enumerate in Hj. rw E elem_of_cons in Hj. done. }
  assert (Hat : forall j y, (b :: l) !! j = Some y -> y.1 = j /\ logits !! j = Some y.2).
  { intros j y. rw -E enumerate_lookup. intros (z & Hz & ->)%fmap_Some. done. }
  assert (Hk : exists k, (b :: l) !! k = Some (i, x) /\ forall j y, k < j -> (b :: l) !! j = Some y -> total_le nan_low x y.2 = false).
  { destruct Hlast as [[Heq Hlt]|(k & Hk & Hlt)].
    - exists 0. subst b. split; [done|]. intros [|j] y Hj Hy; [lia|]. apply Hlt. by eapply list_elem_of_lookup_2.
    - exists (S k). split; [done|]. intros [|j] y Hj Hy; [lia|]. apply (Hlt j); [lia|done]. }
  destruct Hk as (k & Hk & Hlt). destruct (Hat k (i, x) Hk) as [Hik Hx]. cbn in Hik, Hx. subst i. exists x. split; [done|]. split.
  - intros j y Hj. by apply (Hmax (j, y)), Hall.
  - intros j y Hj Hy. apply (Hlt j (j, y) Hj). by rw -E enumerate_lookup Hy.
Qed.

Lemma nucleus_spec topp probs : forall cum i k, nucleus topp cum i probs = Some k ->
  i < k <= i + length probs /\ forall j, i + S j < k -> f32_ge (foldl f32_add cum (take (S j) probs)) topp = false.
Proof.
  induction probs as [|p probs IH]; intros cum i k; cbn [nucleus]; [done|]. destruct (f32_ge _ _) eqn:E.
  - intros [= <-]. cbn. split; [lia|]. intros j Hj. lia.
  - intros Hn%IH. destruct Hn as [Hk Hcum]. cbn [length]. split; [lia|]. intros [|j] Hj; [done|].
    cbn [take foldl]. apply Hcum. lia.
Qed.

Lemma nucleus_none topp probs : forall cum i, nucleus topp cum i probs = None ->
  forall j, j < length probs -> f32_ge (foldl f32_add cum (take (S j) probs)) topp = false.
Proof.
  induction probs as [|p probs IH]; intros cum i; cbn [nucleus length]; [intros; lia|]. destruct (f32_ge _ _) eqn:E; [done|].
  intros Hn [|j] Hj; [done|]. cbn [take foldl]. apply (IH _ _ Hn). lia.
Qed.

Lemma length_softmax l : length (softmax l) = length l.
Proof. by rw /softmax !length_fmap. Qed.

(** The candidates are a prefix of the ranking: the first [top_k], and before
    each of them the running sum had not reached [top_p]. *)
Lemma candidates_spec p logits :
  let ranked := sort_desc (enumerate logits) in
  let c := candidates p logits in
  exists n, c.1 = take n ranked /\ length c.2 = length c.1 /\
    (0 < top_k p -> length c.1 <= top_k p) /\
    (f32_lt (top_p p) f32_one = true -> forall i, S i < length c.1 ->
       f32_ge (f32_sum (take (S i) (softmax (ranked_top_k (top_k p) logits).*2))) (top_p p) = false).
Proof.
  cbn zeta. set (ranked := sort_desc (enumerate logits)).
  assert (Hk : exists n, ranked_top_k (top_k p) logits = take n ranked /\ (0 < top_k p -> length (take n ranked) <= top_k p)).
  { rw /ranked_top_k -/ranked. destruct (0 <? top_k p)%nat eqn:E0, (top_k p <? length ranked)%nat eqn:E1; cbn [andb].
    - exists (top_k p). split; [done|]. rw length_take. lia.
    - exists (length ranked). rw firstn_all. apply Nat.ltb_ge in E1. done.
    - exists (length ranked). rw firstn_all. apply Nat.ltb_ge in E0. split; [done|lia].
    - exists (length ranked). rw firstn_all. apply Nat.ltb_ge in E0. split; [done|lia]. }
  destruct Hk as (n & Hn & Hlen). rw /candidates. cbn zeta. set (r := ranked_top_k (top_k p) logits) in *.
  destruct (f32_lt (top_p p) f32_one).
  - set (keep := default _ _). exists (keep `min` n). cbn [fst snd]. rw length_fmap !length_take length_softmax length_fmap.
    split; [by rw Hn take_take|]. split; [done|]. split; [rw Hn; intros Hk; specialize (Hlen Hk); lia|].
    intros _ i Hi. rw /f32_sum. rw /keep in Hi. destruct (nucleus _ _ _ _) as [k|] eqn:E; cbn in Hi.
    + apply nucleus_spec in E as [_ Hcum]. apply Hcum. cbn. lia.
    + apply (nucleus_none _ _ _ _ E). rw length_softmax length_fmap. rw length_softmax length_fmap in Hi. lia.
  - exists n. cbn [fst snd]. rw length_softmax length_fmap Hn. done.
Qed.

Lemma ranked_before logits i x j y :
  sort_desc (enumerate logits) !! i = Some x -> sort_desc (enumerate logits) !! j = Some y -> i < j -> total_le nan_low y.2 x.2 = true.
Proof.
  intros Hi Hj Hij. pose proof (sort_desc_sorted (enumerate logits)) as Hs. set (l := sort_desc _) in *.
  rw -(take_drop (S i) l) in Hs. apply (StronglySorted_app_1_elem_of _ _ _ x y Hs).
  - apply list_elem_of_lookup. exists i. rw lookup_take_lt //; lia.
  - apply list_elem_of_lookup. exists (j - S i). rw lookup_drop. by replace (S i + (j - S i)) with j by lia.
Qed.

Lemma ranked_lookup logits i k x : sort_desc (enumerate logits) !! i = Some (k, x) -> logits !! k = Some x.
Proof. intros Hi%list_elem_of_lookup_2. rw sort_desc_perm in Hi. by apply elem_of_enumerate. Qed.

Lemma enumerate_snd l : (enumerate l).*2 = l.
Proof. apply list_eq. intros i. rw list_lookup_fmap enumerate_lookup. by destruct (l !! i). Qed.

(** No more logits are greater than the one at place [k] than there are places
    before it. *)
Lemma filter_greater logits k i l :
  sort_desc (enumerate logits) !! k = Some (i, l) ->
  length (filter (fun x => total_le nan_low x l = false) logits) <= k.
Proof.
  intros Hk. set (r := sort_desc (enumerate logits)) in *.
  assert (Hp : logits ≡ₚ r.*2) by (rw /r sort_desc_perm enumerate_snd; done).
  rw Hp -{1}(take_drop k r) fmap_app filter_app length_app.
  assert (Hd : filter (fun x => total_le nan_low x l = false) (drop k r).*2 = []).
  { destruct (filter _ (drop k r).*2) as [|x fl] eqn:Ef; [done|]. exfalso.
    assert (Hin : x ∈ filter (fun x => total_le nan_low x l = false) (drop k r).*2) by (rw Ef; apply list_elem_of_here).
    apply list_elem_of_filter in Hin as [Hx Hin]. revert Hin. intros ([j y] & -> & Hy)%list_elem_of_fmap. cbn in Hx.
    apply list_elem_of_lookup in Hy as [n Hn]. rw lookup_drop in Hn. destruct n as [|n].
    - rw Nat.add_0_r Hk in Hn. injection Hn as -> ->. by rw total_le_refl in Hx.
    - assert (Hle : total_le nan_low y l = true) by (apply (ranked_before logits k (i, l) (k + S n) (j, y)); [done|done|lia]).
      by rw Hle in Hx. }
  rw Hd /=. pose proof (length_filter (fun x => total_le nan_low x l = false) (take k r).*2) as Hf.
  rw length_fmap length_take in Hf. lia.
Qed.
End facts.

(** ** A zero penalty *)

Lemma f32_add_nan_l x : f32_add S754_nan x = S754_nan.
Proof. by destruct x. Qed.
Lemma f32_add_nan_r x : f32_add x S754_nan = S754_nan.
Proof. by destruct x. Qed.
Lemma f32_div_nan_r x : f32_div x S754_nan = S754_nan.
Proof. by destruct x. Qed.

Lemma f32_sum_nan l : forall acc, acc = S754_nan \/ S754_nan ∈ l -> foldl f32_add acc l = S754_nan.
Proof.
  induction l as [|x l IH]; intros acc Hn; cbn [foldl]; [destruct Hn as [|Hn]; [done|in_nil]|]. apply IH.
  destruct Hn as [->|Hn]; [left; apply f32_add_nan_l|]. apply elem_of_cons in Hn as [<-|Hn]; [left; apply f32_add_nan_r|by right].
Qed.

Lemma f32_max_inf l : forall acc, acc = S754_infinity false \/ S754_infinity false ∈ l -> foldl f32_max acc l = S754_infinity false.
Proof.
  assert (Hi : forall x, f32_max (S754_infinity false) x = S754_infinity false) by (by intros [[]|[]| |[] m e]).
  assert (Hi' : forall x, f32_max x (S754_infinity false) = S754_infinity false) by (by intros [[]|[]| |[] m e]).
  induction l as [|x l IH]; intros acc Hn; cbn [foldl]; [destruct Hn as [|Hn]; [done|in_nil]|]. apply IH.
  destruct Hn as [->|Hn]; [left; apply Hi|]. apply elem_of_cons in Hn as [<-|Hn]; [left; apply Hi'|by right].
Qed.

(** Dividing a positive logit by zero gives infinity, which stays. *)
Lemma penalize_zero l : f32_lt f32_zero l = true -> penalize f32_zero l = S754_infinity false.
Proof. destruct l as [[]|[]| |[] m e]; done. Qed.

Lemma penalize_fold (toks : list Z) (k : nat) : forall (ls : list f32) (l : f32), ls !! k = Some l -> f32_lt f32_zero l = true ->
  let ls' := foldl (fun ls tok => alter (penalize f32_zero) (Z.to_nat tok) ls) ls toks in
  ls' !! k = Some (S754_infinity false) \/ (ls' !! k = Some l /\ (k ∉ Z.to_nat <$> toks)).
Proof.
  induction toks as [|t toks IH]; intros ls l Hl Hp; cbn [foldl fmap list_fmap]; [right; split; [done|apply not_elem_of_nil]|].
  destruct (decide (Z.to_nat t = k)) as [<-|Hne].
  - left. assert (Ha : alter (penalize f32_zero) (Z.to_nat t) ls !! Z.to_nat t = Some (S754_infinity false)).
    { rw list_lookup_alter_eq Hl /=. by rw penalize_zero. }
    by destruct (IH _ _ Ha eq_refl) as [?|[? _]].
  - assert (Ha : alter (penalize f32_zero) (Z.to_nat t) ls !! k = Some l) by (by rw list_lookup_alter_ne).
    destruct (IH _ _ Ha Hp) as [?|[? Hni]]; [by left|right]. split; [done|]. rw not_elem_of_cons. done.
Qed.

Section panic.
Context `{SampleEnv}.

Lemma softmax_nan l : head l = Some (S754_infinity false) \/ head l = Some S754_nan ->
  forall q, q ∈ softmax l -> q = S754_nan.
Proof.
  intros Hh q. rw /softmax. set (max := foldl f32_max _ l). set (exps := _ <$> l).
  assert (He : S754_nan ∈ exps).
  { destruct l as [|x l]; [by destruct Hh|]. apply elem_of_cons. left. destruct Hh as [[= ->]|[= ->]].
    - rw /max f32_max_inf; [right; apply elem_of_cons; by left|]. by rw f32_exp_nan.
    - change (f32_sub S754_nan max) with S754_nan. by rw f32_exp_nan. }
  intros (e & -> & _)%list_elem_of_fmap. rw /f32_sum (f32_sum_nan exps f32_zero (or_intror He)). apply f32_div_nan_r.
Qed.

Lemma nucleus_nan topp probs : forall cum i, cum = S754_nan \/ (forall q, q ∈ probs -> q = S754_nan) -> nucleus topp cum i probs = None.
Proof.
  induction probs as [|q probs IH]; intros cum i Hn; cbn [nucleus]; [done|].
  assert (f32_add cum q = S754_nan) as ->.
  { destruct Hn as [->|Hn]; [apply f32_add_nan_l|]. rw (Hn q); [apply elem_of_cons; by left|apply f32_add_nan_r]. }
  change (f32_ge S754_nan topp) with (f32_le topp S754_nan). destruct (f32_le topp S754_nan) eqn:E; [by apply f32_le_nan in E as []|].
  apply IH. by left.
Qed.

(** With an infinite logit every weight is a NaN. *)
Lemma candidates_nan p logits k : logits !! k = Some (S754_infinity false) ->
  (candidates p logits).2 <> [] /\ forall q, q ∈ (candidates p logits).2 -> q = S754_nan.
Proof.
  intros Hk. rw /candidates. cbn zeta. set (r := ranked_top_k (top_k p) logits).
  assert (Hr : head r.*2 = Some (S754_infinity false) \/ head r.*2 = Some S754_nan).
  { assert (Hin : (k, S754_infinity false) ∈ sort_desc (enumerate logits)) by (rw sort_desc_perm; by apply elem_of_enumerate).
    apply list_elem_of_lookup in Hin as [j Hj]. destruct (sort_desc (enumerate logits)) as [|x l] eqn:E; [done|].
    assert (Hx : total_le nan_low (S754_infinity false) x.2 = true).
    { destruct j as [|j]; [by injection Hj as ->; apply total_le_refl|].
      apply (ranked_before logits 0 x (S j) (k, S754_infinity false)); [by rw E|by rw E|lia]. }
    assert (Hh : head r.*2 = Some x.2).
    { rw /r /ranked_top_k E. destruct (top_k p) as [|t]; [done|]. by destruct (0 <? S t)%nat, (S t <? length (x :: l))%nat. }
    apply total_le_inf in Hx as [Hx|Hx]; rw Hh Hx; auto. }
  pose proof (softmax_nan _ Hr) as Hs. assert (Hne : softmax r.*2 <> []).
  { intros E%(f_equal length). rw length_softmax in E. by destruct r.*2; [destruct Hr|]. }
  destruct (f32_lt (top_p p) f32_one); [|done]. rw nucleus_nan; [by right|]. cbn [default snd]. rw firstn_all.
  split; [by intros E%fmap_nil_inv|]. intros q (e & -> & _)%list_elem_of_fmap. destruct (softmax r.*2) as [|e0 es] eqn:E; [done|].
  rw /f32_sum f32_sum_nan; [|apply f32_div_nan_r]. right. rw (Hs e0); apply elem_of_cons; by left.
Qed.
End panic.

(** ** Properties *)

Section claims.
Context `{SampleEnv}.

(** What [sample] returns. In greedy mode (temperature below 1e-4) it never
    fails and gives the last of the tokens with the greatest penalised logit.
    Otherwise a returned token has a place [k] in the descending order of the
    penalised, scaled logits such that, with [top_k] set, [k] is below it and
    fewer than [top_k] tokens have a greater logit, and, with [top_p < 1], the
    running sum of probabilities had not reached [top_p] at any place before
    [k]. *)
Lemma sample_correct (s : Sampler) (logits : list f32) (recent : list Z) :
  let p := sm_p s in
  let ls := apply_repetition_penalty logits recent (repetition_penalty p) (repeat_last_n p) in
  let scaled := (fun l => f32_div l (temperature p)) <$> ls in
  if f32_lt (temperature p) GREEDY_EPS then
    exists i, Sampler_sample s logits recent = Some (s, i) /\
      (ls <> [] -> exists l, ls !! i = Some l /\ (forall j x, ls !! j = Some x -> total_le nan_low x l = true) /\
         (forall j x, i < j -> ls !! j = Some x -> total_le nan_low l x = false))
  else
    forall s' i, Sampler_sample s logits recent = Some (s', i) ->
      exists l k, sm_p s' = p /\ scaled !! i = Some l /\ sort_desc (enumerate scaled) !! k = Some (i, l) /\
        (0 < top_k p -> k < top_k p /\ length (filter (fun x => total_le nan_low x l = false) scaled) < top_k p) /\
        (f32_lt (top_p p) f32_one = true -> forall m, 0 < m <= k ->
           f32_ge (f32_sum (take m (softmax (ranked_top_k (top_k p) scaled).*2))) (top_p p) = false).
Proof.
  cbn zeta. rw /Sampler_sample. set (p := sm_p s). set (ls := apply_repetition_penalty _ _ _ _).
  destruct (f32_lt (temperature p) GREEDY_EPS).
  { exists (argmax ls). split; [done|apply argmax_spec]. }
  set (scaled := _ <$> ls). intros s' i. pose proof (candidates_spec p scaled) as (n & Hc & Hlen & Htk & Htp).
  destruct (candidates p scaled) as [ranked probs]. cbn [fst snd] in Hc, Hlen, Htk, Htp.
  destruct (weighted probs (sm_rng s)) as [[rng k]|] eqn:Ew; [|done]. apply weighted_index in Ew as Hk. rw Hlen in Hk.
  destruct (ranked !! k) as [[i' l]|] eqn:Er; [|done]. intros [= <- <-]. rw Hc in Er.
  assert (Hsk : sort_desc (enumerate scaled) !! k = Some (i', l)) by (rw -Er lookup_take_lt //; rw Hc length_take in Hk; lia).
  exists l, k. split; [done|]. split; [by apply ranked_lookup in Hsk|]. split; [done|]. split.
  - intros H0k. specialize (Htk H0k). split; [lia|]. apply (Nat.le_lt_trans _ k); [by apply (filter_greater scaled k i')|lia].
  - intros Hp [|m] Hm; [lia|]. apply Htp; [done|lia].
Qed.

(** A request with [repetition_penalty = 0] brings the engine down: with any
    sampling temperature, as soon as one of the last 64 tokens has a positive
    logit the weights are all NaN and the [expect] on [WeightedIndex] fails. *)
Lemma zero_penalty_panics (m : positive) (e : Z) (topp : option f32) (topk : option nat) (sd : option Z) (rng : rng_state)
  (logits : list f32) (recent : list Z) (tok : Z) (l : f32) (temp := S754_finite false m e)
  (Htemp : f32_lt temp GREEDY_EPS = false) (Hrecent : tok ∈ drop (length recent - 64) recent)
  (Hl : logits !! Z.to_nat tok = Some l) (Hpos : f32_lt f32_zero l = true) :
  Sampler_sample (mkSampler (sampling_params (Some temp) topp topk (Some f32_zero) sd) rng) logits recent = None.
Proof.
  rw /Sampler_sample. cbn [sm_p sm_rng]. set (p := sampling_params _ _ _ _ _).
  change (repetition_penalty p) with f32_zero. change (repeat_last_n p) with 64. change (temperature p) with temp. rw Htemp.
  assert (Hls : apply_repetition_penalty logits recent f32_zero 64 !! Z.to_nat tok = Some (S754_infinity false)).
  { rw /apply_repetition_penalty. change (f32_lt (f32_abs (f32_sub f32_zero f32_one)) EPSILON || (64 =? 0)%nat) with false. cbn iota.
    destruct (penalize_fold (drop (length recent - 64) recent) (Z.to_nat tok) logits l Hl Hpos) as [?|[_ Hni]]; [done|].
    destruct Hni. by apply list_elem_of_fmap_2. }
  set (scaled := _ <$> _). assert (Hs : scaled !! Z.to_nat tok = Some (S754_infinity false)) by (rw /scaled list_lookup_fmap Hls; done).
  destruct (candidates_nan p scaled _ Hs) as [Hne Hnan]. destruct (candidates p scaled) as [ranked probs]. cbn [fst snd] in Hne, Hnan.
  rw weighted_invalid; [|done]. destruct probs as [|q probs]; [done|]. apply Exists_cons. left. by rw (Hnan q (list_elem_of_here _ _)).
Qed.
End claims.

(** ** A concrete environment *)

Module Examples.
Definition rank_ge (a b : nat * f32) : Prop := total_le false b.2 a.2 = true.
#[local] Instance rank_ge_dec a b : Decision (rank_ge a b).
Proof. unfold rank_ge. apply _. Defined.
#[local] Instance rank_ge_trans : Transitive rank_ge.
Proof. intros a b c Hab Hbc. by eapply total_le_trans. Qed.
#[local] Instance rank_ge_total : Total rank_ge.
Proof. intros a b. rw /rank_ge. destruct (total_le false b.2 a.2) eqn:E; [by left|right]. by apply total_le_total. Qed.

(** A step for the exponential; the draw takes the first candidate. *)
Definition step_exp (x : f32) : f32 :=
  match x with S754_nan => S754_nan | S754_infinity true => f32_zero | S754_zero _ => f32_one | _ => f32_lit 1 2 end.

Definition draw_first (ps : list f32) (st : unit) : option (unit * nat) :=
  if existsb (fun p => negb (f32_ge p f32_zero)) ps then None else match ps with [] => None | _ => Some (tt, 0) end.

#[local] Instance toy_env : SampleEnv.
Proof.
  refine {| nan_low := false; f32_exp := step_exp; sort_desc := merge_sort rank_ge; rng_new _ := tt; weighted := draw_first |}.
  - done.
  - apply merge_sort_Permutation.
  - intros l. apply (StronglySorted_merge_sort rank_ge).
  - intros ps st st' i. rw /draw_first. destruct (existsb _ _); [done|]. destruct ps; [done|]. intros [= <- <-]. cbn. lia.
  - intros ps st Hex. rw /draw_first. assert (existsb (fun p => negb (f32_ge p f32_zero)) ps = true) as ->; [|done].
    apply existsb_exists. apply Exists_exists in Hex as (q & Hq & Hneg). exists q. rw -list_elem_of_In Hneg. done.
Defined.

Definition lits (l : list Z) : list f32 := f32_of_Z <$> l.

(** Three logits, top-2: the token drawn has at most one greater logit. *)
Lemma sample_correct_witness :
  exists s' l, Sampler_sample (Sampler_new (sampling_params None None (Some 2) None None)) (lits [1; 5; 3]%Z) [0%Z] = Some (s', 1) /\
    length (filter (fun x => total_le nan_low x l = false) ((fun l => f32_div l f32_one) <$> lits [1; 5; 3]%Z)) < 2.
Proof.
  set (s := Sampler_new _).
  destruct (Sampler_sample s (lits [1; 5; 3]%Z) [0%Z]) as [[s' i]|] eqn:E; [|vm_compute in E; discriminate E].
  assert (Hi : i = 1) by (vm_compute in E; congruence). subst i.
  destruct (sample_correct s (lits [1; 5; 3]%Z) [0%Z] s' 1 E) as (l & k & _ & _ & _ & Htk & _).
  exists s', l. split; [reflexivity|]. destruct Htk as [_ Htk]; [vm_compute; lia|]. exact Htk.
Defined.

Lemma zero_penalty_panics_witness :
  Sampler_sample (mkSampler (sampling_params (Some (S754_finite false 8388608 (-23))) None None (Some f32_zero) None) (rng_new None))
    (lits [1; 5; 3]%Z) [7%Z; 2%Z] = None.
Proof.
  apply (zero_penalty_panics 8388608 (-23) None None None (rng_new None) (lits [1; 5; 3]%Z) [7%Z; 2%Z] 2%Z (f32_of_Z 3)).
  - vm_compute. reflexivity.
  - cbn. rw !elem_of_cons. tauto.
  - reflexivity.
  - vm_compute. reflexivity.
Defined.

(** A token that occurs twice in the window is penalised twice. *)
Lemma repeated_token_penalised_twice :
  apply_repetition_penalty (lits [8; 8]%Z) [0%Z; 1%Z; 0%Z] (f32_of_Z 2) 64 = lits [2; 4]%Z.
Proof. vm_compute. reflexivity. Qed.
End Examples.
