(* ===== verification/Cluster.v ===== *)
(** * Cluster membership: registry, cache-state reconciliation, watchers

    [cgn-router/src/cluster]: [registry.rs], [cache_state.rs], [watcher.rs] and
    [gossip.rs]. The watchers' event handlers are functions of one state; what
    etcd delivers (a key, and a value already through [serde_json]) is the
    event, [None] standing for a key or value that does not decode. Iteration
    over a [DashMap] is in an arbitrary order, the class [DashIter]. *)

From S2P Require Import Prelude Hash PrefixIndex Float32.

(** ** Nodes *)

Inductive NodeRole := RoleUnspecified | RolePrefill | RoleDecode | RoleBoth.

#[export] Instance NodeRole_eq_dec : EqDecision NodeRole.
Proof. solve_decision. Defined.

(** [NodeRole::try_from(i32)]. *)
Definition role_of_i32 (r : Z) : option NodeRole :=
  match r with
  | 0 => Some RoleUnspecified
  | 1 => Some RolePrefill
  | 2 => Some RoleDecode
  | 3 => Some RoleBoth
  | _ => None
  end%Z.

Record NodeEntry := mkNode {
  node_id : string;
  address : string;
  role : Z;
  gpu_index : option Z;
  model : option string;
  queue_depth : Z;
  node_free_blocks : Z;
  node_total_blocks : Z;
  power_watts : f32;
  watt_limit : f32;
  gpu_name : string;
  gpu_vendor : string;
  vram_total_mb : Z;
  cordoned : bool;
  kv_epoch : Z;
  ready : bool;
  draining : bool;
  adapters : list string;
  last_heartbeat : Z;
}.

Definition with_cordon (c : bool) (n : NodeEntry) : NodeEntry :=
  mkNode (node_id n) (address n) (role n) (gpu_index n) (model n) (queue_depth n) (node_free_blocks n)
    (node_total_blocks n) (power_watts n) (watt_limit n) (gpu_name n) (gpu_vendor n) (vram_total_mb n) c
    (kv_epoch n) (ready n) (draining n) (adapters n) (last_heartbeat n).

Definition serves (n : NodeEntry) (m : string) : bool :=
  bool_decide (model n = Some m) || existsb (String.eqb m) (adapters n).

Definition role_enum (n : NodeEntry) : NodeRole := default RoleUnspecified (role_of_i32 (role n)).

(** [last_heartbeat.elapsed() < ttl]. *)
Definition fresh (now ttl : Z) (n : NodeEntry) : bool := (duration_since now (last_heartbeat n) <? ttl)%Z.

(** ** The registry *)

(** The order in which a [DashMap] is iterated. *)
Class DashIter := {
  dash_values : gmap string NodeEntry -> list NodeEntry;
  dash_perm : forall m, dash_values m ≡ₚ (map_to_list m).*2;
}.

Abbreviation NodeRegistry := (gmap string NodeEntry).

Definition NodeRegistry_new : NodeRegistry := ∅.

(** Both arms of [upsert] leave [entry] under its id. *)
Definition NodeRegistry_upsert (r : NodeRegistry) (entry : NodeEntry) : NodeRegistry :=
  match r !! node_id entry with
  | Some _ => alter (fun _ => entry) (node_id entry) r
  | None => <[node_id entry := entry]> r
  end.

Definition NodeRegistry_get (r : NodeRegistry) (id : string) : option NodeEntry := r !! id.

Definition NodeRegistry_forget (r : NodeRegistry) (id : string) : NodeRegistry := delete id r.

Definition NodeRegistry_set_cordon (r : NodeRegistry) (id : string) (c : bool) : NodeRegistry :=
  match r !! id with
  | None => r
  | Some n => if eqb (cordoned n) c then r else <[id := with_cordon c n]> r
  end.

Definition NodeRegistry_len (r : NodeRegistry) : nat := size r.
Definition NodeRegistry_is_empty (r : NodeRegistry) : bool := (size r =? 0)%nat.

Definition NodeRegistry_snapshot `{DashIter} (r : NodeRegistry) : list NodeEntry := dash_values r.

Definition role_match (want : NodeRole) (n : NodeEntry) : bool :=
  bool_decide (want = RoleUnspecified) || bool_decide (role_enum n = want) || bool_decide (role_enum n = RoleBoth).

Definition routable (want : NodeRole) (m : option string) (n : NodeEntry) : bool :=
  if cordoned n || draining n || negb (ready n) then false
  else role_match want n && match m with None => true | Some m => serves n m end.

Definition NodeRegistry_nodes_for `{DashIter} (r : NodeRegistry) (want : NodeRole) (m : option string)
    : list NodeEntry := List.filter (routable want m) (dash_values r).

(** ** Cache-state reconciliation *)

Inductive PruneReason := EpochReset | EvictionBurst | Pressure.

#[export] Instance PruneReason_eq_dec : EqDecision PruneReason.
Proof. solve_decision. Defined.

Record Snapshot := mkSnapshot { sn_kv_epoch : Z; sn_free_blocks : Z; sn_total_blocks : Z }.
Definition Snapshot_default : Snapshot := mkSnapshot 0 0 0.

Abbreviation CacheStateTracker := (gmap string Snapshot).

(** [(free as f32 / total as f32) < 0.05]. *)
Definition under_pressure (n : NodeEntry) : bool :=
  f32_lt (f32_div (f32_of_Z (node_free_blocks n)) (f32_of_Z (node_total_blocks n))) (f32_lit 5 100).

Definition reconcile (t : CacheStateTracker) (prefix : PrefixIndex) (now : Z) (entry : NodeEntry)
    : CacheStateTracker * PrefixIndex * option PruneReason :=
  let had_prev := bool_decide (is_Some (t !! node_id entry)) in
  let prev := default Snapshot_default (t !! node_id entry) in
  let stale age := PrefixIndex_forget_node_stale prefix now (node_id entry) age in
  let '(prefix, reason) :=
    if had_prev && negb (kv_epoch entry =? sn_kv_epoch prev)%Z then
      (PrefixIndex_forget_node prefix (node_id entry), Some EpochReset)
    else if (0 <? node_total_blocks entry)%Z && (0 <? sn_total_blocks prev)%Z then
      let dropped := sat_sub (sn_free_blocks prev) (node_free_blocks entry) in
      let burst_threshold := Z.max (node_total_blocks entry / 10) 32 in
      if (burst_threshold <=? dropped)%Z then (stale (ix_ttl prefix / 4)%Z, Some EvictionBurst)
      else if under_pressure entry then (stale (ix_ttl prefix / 2)%Z, Some Pressure)
      else (prefix, None)
    else if (0 <? node_total_blocks entry)%Z && under_pressure entry then
      (stale (ix_ttl prefix / 2)%Z, Some Pressure)
    else (prefix, None) in
  (<[node_id entry := mkSnapshot (kv_epoch entry) (node_free_blocks entry) (node_total_blocks entry)]> t, prefix, reason).

Definition tracker_forget_node (t : CacheStateTracker) (id : string) : CacheStateTracker := delete id t.

(** ** etcd keys *)

Definition NODES_PREFIX : string := "/cognitora/nodes/".
Definition CORDON_PREFIX : string := "/cognitora/cordon/".
Definition KV_CONFIRMED_PREFIX : string := "/cognitora/kv/".

(** [str::strip_prefix]. *)
Fixpoint strip_prefix (p s : string) : option string :=
  match p, s with
  | EmptyString, _ => Some s
  | String a p, String b s => if decide (a = b) then strip_prefix p s else None
  | String _ _, EmptyString => None
  end.

(** [str::rsplit_once(c)]: around the last occurrence. *)
Fixpoint rsplit_once (c : Ascii.ascii) (s : string) : option (string * string) :=
  match s with
  | EmptyString => None
  | String a s =>
      match rsplit_once c s with
      | Some (l, r) => Some (String a l, r)
      | None => if decide (a = c) then Some (EmptyString, s) else None
      end
  end.

(** A hexadecimal digit of either case. *)
Definition hex_val (a : Ascii.ascii) : option Z :=
  let n := Z.of_N (Ascii.N_of_ascii a) in
  if (48 <=? n)%Z && (n <=? 57)%Z then Some (n - 48)%Z
  else if (97 <=? n)%Z && (n <=? 102)%Z then Some (n - 87)%Z
  else if (65 <=? n)%Z && (n <=? 70)%Z then Some (n - 55)%Z
  else None.

(** [u8::from_str_radix(s, 16)] on two characters; a leading [+] is a sign. *)
Definition u8_from_hex (a b : Ascii.ascii) : option Z :=
  if decide (a = Ascii.ascii_of_nat 43) then hex_val b
  else match hex_val a, hex_val b with
       | Some x, Some y => Some (x * 16 + y)%Z
       | _, _ => None
       end.

Fixpoint hex_bytes (s : list Ascii.ascii) : option (list Z) :=
  match s with
  | a :: b :: s =>
      match u8_from_hex a b, hex_bytes s with
      | Some x, Some xs => Some (x :: xs)
      | _, _ => None
      end
  | _ => Some []
  end.

Definition slash : Ascii.ascii := Ascii.ascii_of_nat 47.

Definition parse_kv_confirmed_key (key : string) : option (string * list Z) :=
  match strip_prefix KV_CONFIRMED_PREFIX key with
  | None => None
  | Some rest =>
      match rsplit_once slash rest with
      | None => None
      | Some (id, hex) =>
          if String.eqb id "" || negb (String.length hex =? 64)%nat then None
          else (fun d => (id, d)) <$> hex_bytes (String.list_ascii_of_string hex)
      end
  end.

(** ** The watchers *)

Record RoutingPolicy := mkPolicy {
  w_kv : f32;
  w_load : f32;
  w_power : f32;
  w_capacity : f32;
  w_session : f32;
}.

Record ClusterState := mkCluster {
  cl_nodes : NodeRegistry;
  cl_prefix : PrefixIndex;
  cl_tracker : CacheStateTracker;
  cl_policy : RoutingPolicy;
}.

Inductive cluster_event :=
| NodePut (now : Z) (value : option NodeEntry)
| NodeDelete (key : option string)
| PolicyPut (value : option RoutingPolicy)
| CordonPut (key : option string)
| CordonDelete (key : option string)
| KvPut (now : Z) (key : option string)
| KvDelete (key : option string)
| GcTick (now : Z).

(** A [Put] on the nodes prefix, live or from the snapshot: reconcile, then
    upsert. *)
Definition on_node_put (now : Z) (entry : NodeEntry) (st : ClusterState) : ClusterState :=
  let '(t, p, _) := reconcile (cl_tracker st) (cl_prefix st) now entry in
  mkCluster (NodeRegistry_upsert (cl_nodes st) entry) p t (cl_policy st).

(** Forgetting a node everywhere. *)
Definition forget_everywhere (id : string) (st : ClusterState) : ClusterState :=
  mkCluster (NodeRegistry_forget (cl_nodes st) id) (PrefixIndex_forget_node (cl_prefix st) id)
    (tracker_forget_node (cl_tracker st) id) (cl_policy st).

Definition set_cordon (id : string) (c : bool) (st : ClusterState) : ClusterState :=
  mkCluster (NodeRegistry_set_cordon (cl_nodes st) id c) (cl_prefix st) (cl_tracker st) (cl_policy st).

Definition set_prefix (p : PrefixIndex) (st : ClusterState) : ClusterState :=
  mkCluster (cl_nodes st) p (cl_tracker st) (cl_policy st).

Definition watch_event (st : ClusterState) (ev : cluster_event) : ClusterState :=
  match ev with
  | NodePut now (Some entry) => on_node_put now entry st
  | NodePut _ None => st
  | NodeDelete key =>
      match key ≫= strip_prefix NODES_PREFIX with
      | Some id => forget_everywhere id st
      | None => st
      end
  | PolicyPut (Some p) => mkCluster (cl_nodes st) (cl_prefix st) (cl_tracker st) p
  | PolicyPut None => st
  | CordonPut key =>
      match key ≫= strip_prefix CORDON_PREFIX with Some id => set_cordon id true st | None => st end
  | CordonDelete key =>
      match key ≫= strip_prefix CORDON_PREFIX with Some id => set_cordon id false st | None => st end
  | KvPut now key =>
      match key ≫= parse_kv_confirmed_key with
      | Some (id, d) => set_prefix (PrefixIndex_insert (cl_prefix st) now d id) st
      | None => st
      end
  | KvDelete key =>
      match key ≫= parse_kv_confirmed_key with
      | Some (id, d) => set_prefix (PrefixIndex_forget_claim (cl_prefix st) d id) st
      | None => st
      end
  | GcTick now => set_prefix (PrefixIndex_gc (cl_prefix st) now) st
  end.

(** The start of [run_etcd_watcher]: a fresh tracker, then the snapshots. *)
Definition run_etcd_snapshot (now : Z) (nodes : list (option NodeEntry)) (policy : option RoutingPolicy)
    (cordons : list (option string)) (st : ClusterState) : ClusterState :=
  let st := mkCluster (cl_nodes st) (cl_prefix st) ∅ (cl_policy st) in
  let st := foldl (fun st v => watch_event st (NodePut now v)) st nodes in
  let st := watch_event st (PolicyPut policy) in
  foldl (fun st k => watch_event st (CordonPut k)) st cordons.

(** One tick of [run_gossip_watcher] on the live records. *)
Definition gossip_sync `{DashIter} (now : Z) (records : list (option NodeEntry)) (st : ClusterState) : ClusterState :=
  let live := node_id <$> omap id records in
  let st := foldl (fun st r => watch_event st (NodePut now r)) st records in
  foldl (fun st n => if decide (node_id n ∈ live) then st else forget_everywhere (node_id n) st)
    st (NodeRegistry_snapshot (cl_nodes st)).

(** ** Registry facts *)

Definition registry_wf (r : NodeRegistry) : Prop := map_Forall (fun id n => node_id n = id) r.

Lemma upsert_insert r e : NodeRegistry_upsert r e = <[node_id e := e]> r.
Proof.
  rw /NodeRegistry_upsert. destruct (r !! node_id e) as [n|] eqn:E; [|done].
  apply map_eq. intros id. destruct (decide (id = node_id e)) as [->|Hne].
  - by rw lookup_alter_eq lookup_insert_eq E.
  - by rw lookup_alter_ne // lookup_insert_ne.
Qed.

Lemma set_cordon_lookup r id c id' :
  NodeRegistry_set_cordon r id c !! id' =
    if decide (id = id') then with_cordon c <$> r !! id' else r !! id'.
Proof.
  rw /NodeRegistry_set_cordon. destruct (decide (id = id')) as [<-|Hne].
  - destruct (r !! id) as [n|] eqn:E; [|by rw E]. destruct (Bool.eqb_spec (cordoned n) c) as [<-|].
    + rw E /=. by destruct n.
    + by rw lookup_insert_eq.
  - destruct (r !! id); [|done]. case_match; [done|]. by rw lookup_insert_ne.
Qed.

Lemma registry_wf_upsert r e : registry_wf r -> registry_wf (NodeRegistry_upsert r e).
Proof. rw upsert_insert => Hr. by apply map_Forall_insert_2. Qed.

Lemma registry_wf_forget r id : registry_wf r -> registry_wf (NodeRegistry_forget r id).
Proof. intros Hr. by apply map_Forall_delete. Qed.

Lemma registry_wf_cordon r id c : registry_wf r -> registry_wf (NodeRegistry_set_cordon r id c).
Proof.
  intros Hr id' n. rw set_cordon_lookup. case_decide; [|by apply Hr].
  intros (n0 & Hn0 & ->)%fmap_Some. exact (Hr id' n0 Hn0).
Qed.

Section iter.
Context `{DashIter}.

Lemma elem_of_snapshot r n : n ∈ NodeRegistry_snapshot r <-> exists id, r !! id = Some n.
Proof.
  rw /NodeRegistry_snapshot dash_perm list_elem_of_fmap. split.
  - intros ([id n'] & -> & Hin). exists id. by apply elem_of_map_to_list.
  - intros (id & Hid). exists (id, n). by rw elem_of_map_to_list.
Qed.

Lemma elem_of_nodes_for r want m n :
  n ∈ NodeRegistry_nodes_for r want m <-> (exists id, r !! id = Some n) /\ routable want m n = true.
Proof.
  rw -elem_of_snapshot /NodeRegistry_nodes_for !list_elem_of_In filter_In -!list_elem_of_In. done.
Qed.
End iter.

#[export] Hint Resolve registry_wf_upsert registry_wf_forget registry_wf_cordon : cgn.

(** ** Reconciliation *)

Lemma elem_of_lookup_forget_node ix n now d n' :
  n' ∈ PrefixIndex_lookup (PrefixIndex_forget_node ix n) now d <-> n <> n' /\ n' ∈ PrefixIndex_lookup ix now d.
Proof. rw elem_of_lookup_retain elem_of_lookup. naive_solver. Qed.

Lemma elem_of_lookup_stale ix t n age now d n' :
  n' ∈ PrefixIndex_lookup (PrefixIndex_forget_node_stale ix t n age) now d <->
  exists e, e ∈ claims ix d /\ ne_node_id e = n' /\ claim_live ix now e /\
    (n = n' -> (duration_since t (ne_last_seen e) < age)%Z).
Proof.
  rw elem_of_lookup_retain. split; intros (e & Hin & Hid & Hl & Hk); exists e;
    (split; [done|split; [done|split; [done|]]]); [naive_solver|].
  subst. destruct (decide (n = ne_node_id e)); naive_solver.
Qed.

(** What a prune of one node's claims leaves: [keep e] says whether claim [e]
    of that node survives. *)
Definition prunes (p p' : PrefixIndex) (n : string) (keep : PrefixIndex.NodeEntry -> Prop) : Prop :=
  forall now d n', n' ∈ PrefixIndex_lookup p' now d <->
    exists e, e ∈ claims p d /\ ne_node_id e = n' /\ claim_live p now e /\ (n = n' -> keep e).

Lemma prunes_none p n : prunes p p n (fun _ => True).
Proof. intros now d n'. rw elem_of_lookup. naive_solver. Qed.
Lemma prunes_all p n : prunes p (PrefixIndex_forget_node p n) n (fun _ => False).
Proof. intros now d n'. rw elem_of_lookup_forget_node elem_of_lookup. naive_solver. Qed.
Lemma prunes_stale p t n age :
  prunes p (PrefixIndex_forget_node_stale p t n age) n (fun e => (duration_since t (ne_last_seen e) < age)%Z).
Proof. intros now d n'. apply elem_of_lookup_stale. Qed.

(** The survival test of each outcome. *)
Definition keeps (p : PrefixIndex) (now : Z) (r : option PruneReason) (e : PrefixIndex.NodeEntry) : Prop :=
  match r with
  | None => True
  | Some EpochReset => False
  | Some EvictionBurst => (duration_since now (ne_last_seen e) < ix_ttl p / 4)%Z
  | Some Pressure => (duration_since now (ne_last_seen e) < ix_ttl p / 2)%Z
  end.

Lemma reconcile_prunes t p now e :
  let '(t', p', r) := reconcile t p now e in
  t' = <[node_id e := mkSnapshot (kv_epoch e) (node_free_blocks e) (node_total_blocks e)]> t /\
  prunes p p' (node_id e) (keeps p now r) /\
  (r = Some EpochReset <-> exists s, t !! node_id e = Some s /\ sn_kv_epoch s <> kv_epoch e).
Proof.
  rw /reconcile. destruct (t !! node_id e) as [s|] eqn:Et.
  - rw bool_decide_true //. change (default Snapshot_default (Some s)) with s.
    destruct (Z.eqb_spec (kv_epoch e) (sn_kv_epoch s)) as [He|Hne]; cbn [negb andb].
    + assert (~ exists s', Some s = Some s' /\ sn_kv_epoch s' <> kv_epoch e) as Hno by naive_solver.
      repeat case_match; simplify_eq/=; (split; [done|]); (split; [|split; [done|intros Hx; by destruct (Hno Hx)]]);
        first [apply prunes_none | apply prunes_stale].
    + split; [done|]. split; [apply prunes_all|]. split; [intros _; exists s; naive_solver|done].
  - rw bool_decide_false; [by intros []|]. cbn [andb].
    assert (~ exists s', @None Snapshot = Some s' /\ sn_kv_epoch s' <> kv_epoch e) as Hno by naive_solver.
    repeat case_match; simplify_eq/=; (split; [done|]); (split; [|split; [done|intros Hx; by destruct (Hno Hx)]]);
      first [apply prunes_none | apply prunes_stale].
Qed.

(** ** Keys *)

Lemma strip_prefix_app p s : strip_prefix p (p +:+ s) = Some s.
Proof. induction p as [|a p IH]; [by destruct s|]. cbn. by rw decide_True. Qed.

Fixpoint has_char (c : Ascii.ascii) (s : string) : Prop :=
  match s with EmptyString => False | String a s => a = c \/ has_char c s end.

Lemma rsplit_none c s : ~ has_char c s -> rsplit_once c s = None.
Proof. induction s as [|a s IH]; [done|]. cbn. intros Hn. rw IH; [tauto|]. rw decide_False //. tauto. Qed.

Lemma rsplit_once_app c l r : ~ has_char c r -> rsplit_once c (l +:+ String c r) = Some (l, r).
Proof.
  intros Hr. induction l as [|a l IH].
  - change ("" +:+ String c r) with (String c r). cbn [rsplit_once]. rw (rsplit_none c r Hr) decide_True //.
  - change (String a l +:+ String c r) with (String a (l +:+ String c r)). cbn [rsplit_once]. by rw IH.
Qed.

Definition kv_confirmed_key (id : string) (d : list Z) : string :=
  KV_CONFIRMED_PREFIX +:+ id +:+ String slash (String.string_of_list_ascii (hex_of_bytes d)).

Definition is_byte (b : Z) : Prop := (0 <= b < 256)%Z.

Lemma hex_byte b : is_byte b ->
  u8_from_hex (hex_digit (Z.shiftr b 4)) (hex_digit (Z.land b 15)) = Some b /\
  hex_digit (Z.shiftr b 4) <> slash /\ hex_digit (Z.land b 15) <> slash.
Proof.
  intros Hb. pose (ok b := bool_decide (u8_from_hex (hex_digit (Z.shiftr b 4)) (hex_digit (Z.land b 15)) = Some b /\
    hex_digit (Z.shiftr b 4) <> slash /\ hex_digit (Z.land b 15) <> slash)).
  assert (forallb (fun n => ok (Z.of_nat n)) (seq 0 256) = true) as Hall by (by vm_compute).
  rw forallb_forall in Hall. specialize (Hall (Z.to_nat b)). rw Z2Nat.id in Hall; [rw /is_byte in Hb; lia|].
  apply bool_decide_eq_true in Hall; [done|]. apply in_seq. rw /is_byte in Hb. lia.
Qed.

Lemma hex_bytes_roundtrip d : Forall is_byte d -> hex_bytes (hex_of_bytes d) = Some d.
Proof.
  induction 1 as [|b d Hb Hd IH]; [done|]. rw /hex_of_bytes fmap_cons /=.
  destruct (hex_byte b Hb) as (-> & _). by rw -/(hex_of_bytes d) IH.
Qed.

Lemma hex_no_slash d : Forall is_byte d -> ~ has_char slash (String.string_of_list_ascii (hex_of_bytes d)).
Proof.
  induction 1 as [|b d Hb Hd IH]; [by intros []|]. rw /hex_of_bytes fmap_cons /=.
  destruct (hex_byte b Hb) as (_ & H1 & H2). rw -/(hex_of_bytes d). tauto.
Qed.

Lemma string_of_list_length l : String.length (String.string_of_list_ascii l) = length l.
Proof. induction l as [|a l IH]; simpl; congruence. Qed.

Lemma parse_kv_key id d :
  id <> "" -> length d = 32 -> Forall is_byte d -> parse_kv_confirmed_key (kv_confirmed_key id d) = Some (id, d).
Proof.
  intros Hid Hlen Hd. rw /parse_kv_confirmed_key /kv_confirmed_key strip_prefix_app rsplit_once_app; [by apply hex_no_slash|].
  apply String.eqb_neq in Hid. rw Hid string_of_list_length length_hex_of_bytes Hlen /=.
  by rw String.list_ascii_of_string_of_list_ascii hex_bytes_roundtrip.
Qed.

(** ** Reachable cluster states *)

Definition cluster_init (ttl : Z) (p : RoutingPolicy) : ClusterState :=
  mkCluster NodeRegistry_new (PrefixIndex_new ttl) ∅ p.

Section watchers.
Context `{DashIter}.

Inductive cluster_step : ClusterState -> ClusterState -> Prop :=
| step_event ev st : cluster_step st (watch_event st ev)
| step_snapshot now nodes policy cordons st : cluster_step st (run_etcd_snapshot now nodes policy cordons st)
| step_gossip now records st : cluster_step st (gossip_sync now records st).

Definition cluster_wf (st : ClusterState) : Prop := registry_wf (cl_nodes st) /\ prefix_wf (cl_prefix st).

Lemma cluster_wf_forget id st : cluster_wf st -> cluster_wf (forget_everywhere id st).
Proof. intros []. split; cbn; [auto with cgn|]. by apply wf_retain. Qed.

Lemma cluster_wf_put now e st : cluster_wf st -> cluster_wf (on_node_put now e st).
Proof.
  intros [Hr Hp]. rw /on_node_put /reconcile. repeat case_match; simplify_eq; split; cbn; auto with cgn;
    by apply wf_retain.
Qed.

Lemma cluster_wf_event st ev : cluster_wf st -> cluster_wf (watch_event st ev).
Proof.
  intros Hw. pose proof Hw as [Hr Hp]. destruct ev as [now [e|]|k|[p|]|k|k|now k|k|now]; cbn [watch_event]; try done.
  - by apply cluster_wf_put.
  - case_match; [by apply cluster_wf_forget|done].
  - case_match; [|done]. split; cbn; auto with cgn.
  - case_match; [|done]. split; cbn; auto with cgn.
  - repeat case_match; try done. split; cbn; auto with cgn.
  - repeat case_match; try done. split; cbn; auto with cgn.
  - split; [done|]. by apply wf_retain.
Qed.

Lemma foldl_wf {A} (f : ClusterState -> A -> ClusterState) l :
  (forall st a, cluster_wf st -> cluster_wf (f st a)) -> forall st, cluster_wf st -> cluster_wf (foldl f st l).
Proof. intros Hf. induction l as [|a l IH]; intros st Hs; cbn; auto. Qed.

Lemma cluster_step_wf st st' : cluster_step st st' -> cluster_wf st -> cluster_wf st'.
Proof.
  intros Hst Hw. destruct Hst as [ev st|now nodes policy cordons st|now records st]; [by apply cluster_wf_event|..].
  - rw /run_etcd_snapshot. apply foldl_wf; [intros; by apply cluster_wf_event|]. apply cluster_wf_event.
    apply foldl_wf; [intros; by apply cluster_wf_event|]. done.
  - rw /gossip_sync. apply foldl_wf; [intros st1 n Hs; case_decide; [done|by apply cluster_wf_forget]|].
    apply foldl_wf; [intros; by apply cluster_wf_event|done].
Qed.

Lemma cluster_reachable_wf ttl p st : rtc cluster_step (cluster_init ttl p) st -> cluster_wf st.
Proof.
  assert (cluster_wf (cluster_init ttl p)) as Hw by (split; [apply map_Forall_empty|apply wf_new]).
  revert Hw. generalize (cluster_init ttl p). intros st0 Hw Hr. induction Hr; eauto using cluster_step_wf.
Qed.

(** ** The gossip tick *)

Definition live_ids_of (records : list (option NodeEntry)) : list string := node_id <$> omap id records.

(** The last record published under [i]. *)
Definition last_record (i : string) (records : list (option NodeEntry)) : option NodeEntry :=
  last (filter (fun n => node_id n = i) (omap id records)).

Lemma last_record_None i records : i ∉ live_ids_of records -> last_record i records = None.
Proof.
  rw /live_ids_of /last_record => Hn. apply last_None.
  destruct (filter _ (omap id records)) as [|n l] eqn:E; [done|]. exfalso. apply Hn.
  assert (n ∈ filter (fun n => node_id n = i) (omap id records)) as Hin by (rw E; by left).
  apply list_elem_of_filter in Hin as [<- Hin]. by apply list_elem_of_fmap_2.
Qed.

Lemma last_record_Some i records : i ∈ live_ids_of records -> is_Some (last_record i records).
Proof.
  rw /live_ids_of /last_record list_elem_of_fmap. intros (n & -> & Hin).
  destruct (last _) eqn:E; [done|]. apply last_None in E.
  assert (n ∈ filter (fun m => node_id m = node_id n) (omap id records)) as Hf by (by apply list_elem_of_filter).
  rw E in Hf. by apply elem_of_nil in Hf.
Qed.

Lemma put_fold_nodes now records : forall st i,
  cl_nodes (foldl (fun st r => watch_event st (NodePut now r)) st records) !! i =
  match last_record i records with Some e => Some e | None => cl_nodes st !! i end.
Proof.
  induction records as [|r records IH] using rev_ind; intros st i; [done|].
  rw foldl_snoc /last_record omap_app filter_app. specialize (IH st i). rw /last_record in IH.
  destruct r as [e|]; [|change (omap id [None]) with (@nil NodeEntry); by rw filter_nil app_nil_r IH].
  change (omap id [Some e]) with [e]. cbn [watch_event]. set (s1 := foldl _ _ _) in *. clearbody s1. rw /on_node_put.
  destruct (reconcile _ _ _ _) as [[t p] reason]. cbn [cl_nodes]. rw upsert_insert filter_cons filter_nil.
  destruct (decide (node_id e = i)) as [<-|Hne].
  - by rw last_snoc lookup_insert_eq.
  - by rw app_nil_r lookup_insert_ne.
Qed.

Lemma forget_fold (live : list string) l : forall st,
  let st' := foldl (fun st n => if decide (node_id n ∈ live) then st else forget_everywhere (node_id n) st) st l in
  (forall i, cl_nodes st' !! i =
     if decide (i ∈ node_id <$> l /\ i ∉ live) then None else cl_nodes st !! i) /\
  (forall now d i, i ∈ PrefixIndex_lookup (cl_prefix st') now d <->
     ~ (i ∈ node_id <$> l /\ i ∉ live) /\ i ∈ PrefixIndex_lookup (cl_prefix st) now d).
Proof.
  induction l as [|n l IH]; intros st; cbn [foldl].
  - split; [intros i; case_decide as Hx; [by destruct Hx as [?%elem_of_nil _]|done]|].
    intros now d i. split; [|naive_solver]. intros Hin. split; [by intros [?%elem_of_nil _]|done].
  - destruct (IH (if decide (node_id n ∈ live) then st else forget_everywhere (node_id n) st)) as [IH1 IH2].
    assert (forall i, i ∈ node_id <$> n :: l <-> i = node_id n \/ i ∈ node_id <$> l) as Hc
      by (intros i; by rw fmap_cons elem_of_cons).
    split.
    + intros i. specialize (Hc i). rw IH1. destruct (decide (node_id n ∈ live)) as [Hl|Hl].
      * repeat case_decide; naive_solver.
      * cbn. rw lookup_delete. repeat case_decide; naive_solver.
    + intros now d i. specialize (Hc i). rw IH2. destruct (decide (node_id n ∈ live)) as [Hl|Hl]; [naive_solver|].
      cbn. rw elem_of_lookup_forget_node. naive_solver.
Qed.
End watchers.

(** ** Properties *)

(** When a node's key is deleted (lease expiry or drain), the registry and
    the tracker forget it and no digest lists it as a holder at any time; every
    other node keeps its entry, its snapshot and its claims. *)
Lemma dead_node_purged st i now d i' :
  let st' := watch_event st (NodeDelete (Some (NODES_PREFIX +:+ i))) in
  (NodeRegistry_get (cl_nodes st') i = None /\ cl_tracker st' !! i = None /\
   i ∉ PrefixIndex_lookup (cl_prefix st') now d) /\
  (i' <> i ->
   NodeRegistry_get (cl_nodes st') i' = NodeRegistry_get (cl_nodes st) i' /\
   cl_tracker st' !! i' = cl_tracker st !! i' /\
   (i' ∈ PrefixIndex_lookup (cl_prefix st') now d <-> i' ∈ PrefixIndex_lookup (cl_prefix st) now d)).
Proof.
  cbn [watch_event mbind option_bind]. rw strip_prefix_app /forget_everywhere /NodeRegistry_get /tracker_forget_node /=.
  rw !elem_of_lookup_forget_node !lookup_delete_eq. split; [naive_solver|].
  intros Hne. rw !lookup_delete_ne //. naive_solver.
Qed.

(** Reconciliation of a heartbeat against the previous one. An epoch
    change, and only an epoch change against a known snapshot, is an epoch reset
    and drops every claim of the node; a burst or pressure drops exactly the
    node's claims older than a quarter or half of the TTL; otherwise nothing is
    dropped. No other node's claim is ever touched and none is added. *)
Lemma reconcile_correct t p now e :
  let '(t', p', r) := reconcile t p now e in
  t' !! node_id e = Some (mkSnapshot (kv_epoch e) (node_free_blocks e) (node_total_blocks e)) /\
  (r = Some EpochReset <-> exists s, t !! node_id e = Some s /\ sn_kv_epoch s <> kv_epoch e) /\
  (forall t0 d n', n' ∈ PrefixIndex_lookup p' t0 d <->
    exists c, c ∈ claims p d /\ ne_node_id c = n' /\ claim_live p t0 c /\ (node_id e = n' -> keeps p now r c)).
Proof.
  pose proof (reconcile_prunes t p now e) as Hr. destruct (reconcile t p now e) as [[t' p'] r].
  destruct Hr as (-> & Hp & Hr). split; [by rw lookup_insert_eq|]. by split.
Qed.

(** One gossip tick makes the registry exactly the live records: a node is
    registered iff some live member published a record for it, with the last
    such record as its entry, and a registered node without a live record loses
    all its prefix claims. *)
Lemma gossip_sync_exact `{DashIter} ttl p st now records i :
  rtc cluster_step (cluster_init ttl p) st ->
  let st' := gossip_sync now records st in
  NodeRegistry_get (cl_nodes st') i = last_record i records /\
  (is_Some (last_record i records) <-> i ∈ live_ids_of records) /\
  (is_Some (cl_nodes st !! i) -> i ∉ live_ids_of records ->
   forall t0 d, i ∉ PrefixIndex_lookup (cl_prefix st') t0 d).
Proof.
  intros Hr st'. set (st1 := foldl (fun st r => watch_event st (NodePut now r)) st records).
  assert (cluster_wf st1) as [Hw _].
  { apply foldl_wf; [intros; by apply cluster_wf_event|]. by eapply cluster_reachable_wf. }
  assert (forall j, cl_nodes st1 !! j = match last_record j records with Some e => Some e | None => cl_nodes st !! j end)
    as Hn by (intros j; apply put_fold_nodes).
  assert (forall j, is_Some (cl_nodes st1 !! j) -> j ∈ node_id <$> NodeRegistry_snapshot (cl_nodes st1)) as Hsnap.
  { intros j [n Hj]. pose proof (Hw j n Hj) as Hid. rw -Hid. apply list_elem_of_fmap_2, elem_of_snapshot. by exists j. }
  destruct (forget_fold (live_ids_of records) (NodeRegistry_snapshot (cl_nodes st1)) st1) as [H1 H2].
  split; [|split].
  - rw /NodeRegistry_get H1 Hn. case_decide as Hd; [by rw last_record_None; [destruct Hd|]|].
    destruct (last_record i records) eqn:E; [done|]. destruct (cl_nodes st !! i) as [n|] eqn:Ei; [|done].
    exfalso. apply Hd. split; [apply Hsnap; by rw Hn E Ei|].
    intros [x Hx]%last_record_Some. by rw E in Hx.
  - split; [|apply last_record_Some]. intros [n Hl]. destruct (decide (i ∈ live_ids_of records)); [done|].
    by rw last_record_None in Hl.
  - intros [n Hi] Hl t0 d Hin. apply H2 in Hin as [Hx _]. apply Hx. split; [|done].
    apply Hsnap. by rw Hn last_record_None // Hi.
Qed.

(** A cordon does not survive the node's next heartbeat. Setting it takes
    the node out of every candidate list, but a heartbeat whose record does not
    carry the flag (agents never publish it) replaces the whole entry, and the
    node is a candidate again although its cordon key is still there. *)
Lemma heartbeat_clears_cordon `{DashIter} st i e e' now want m :
  registry_wf (cl_nodes st) -> cl_nodes st !! i = Some e -> node_id e' = i ->
  cordoned e' = false -> ready e' = true -> draining e' = false ->
  role_match want e' = true -> serves e' m = true ->
  let st1 := watch_event st (CordonPut (Some (CORDON_PREFIX +:+ i))) in
  let st2 := watch_event st1 (NodePut now (Some e')) in
  (forall n, n ∈ NodeRegistry_nodes_for (cl_nodes st1) want (Some m) -> node_id n <> i) /\
  e' ∈ NodeRegistry_nodes_for (cl_nodes st2) want (Some m).
Proof.
  intros Hw He Hid Hc Hr Hd Hro Hs. cbn [watch_event mbind option_bind]. rw strip_prefix_app. split.
  - intros n [[j Hj] Hn]%elem_of_nodes_for Heq. cbn in Hj. pose proof (registry_wf_cordon _ i true Hw j n Hj) as Hk.
    cbn in Hk. rw Heq in Hk. subst j. rw set_cordon_lookup decide_True // He in Hj. injection Hj as <-. done.
  - apply elem_of_nodes_for. split.
    + exists i. rw /on_node_put. destruct (reconcile _ _ _ _) as [[t p] r]. cbn.
      by rw upsert_insert -Hid lookup_insert_eq.
    + by rw /routable Hc Hd Hr /= Hro Hs.
Qed.

(** ** Witnesses *)

Module Examples.

#[local] Instance list_order : DashIter := {| dash_values m := (map_to_list m).*2; dash_perm m := reflexivity _ |}.

Definition node (i : string) (cordon : bool) (epoch : Z) : NodeEntry :=
  mkNode i "http://n:7070" 3 None (Some "llama3") 0 500 1000 f32_zero f32_zero "" "" 0 cordon epoch true false [] 0.

Definition policy0 : RoutingPolicy := mkPolicy f32_zero f32_zero f32_zero f32_zero f32_zero.

Definition st0 : ClusterState := cluster_init 60 policy0.
Definition st1 : ClusterState := watch_event st0 (NodePut 0 (Some (node "a" false 0))).

Lemma gossip_sync_exact_witness :
  NodeRegistry_get (cl_nodes (gossip_sync 5 [Some (node "b" false 0); None] st1)) "a" = None.
Proof.
  assert (rtc cluster_step (cluster_init 60 policy0) st1) as Hr by (apply rtc_once; apply (step_event _ st0)).
  rw (proj1 (gossip_sync_exact 60 policy0 st1 5 [Some (node "b" false 0); None] "a" Hr)). reflexivity.
Defined.

Lemma heartbeat_clears_cordon_witness :
  node "a" false 1 ∈ NodeRegistry_nodes_for
    (cl_nodes (watch_event (watch_event st1 (CordonPut (Some (CORDON_PREFIX +:+ "a")))) (NodePut 5 (Some (node "a" false 1)))))
    RoleBoth (Some "llama3").
Proof.
  apply (heartbeat_clears_cordon st1 "a" (node "a" false 0) (node "a" false 1) 5 RoleBoth "llama3"); try reflexivity.
  apply (registry_wf_upsert NodeRegistry_new). apply map_Forall_empty.
Defined.
End Examples.
