(* ===== verification/AgentKv.v ===== *)
(** * The agent's half of KV-cache tracking

    [cgn-agent/src/kv_cache_state.rs] (the epoch in the heartbeat) and
    [publish_kv_confirmed] of [cgn-agent/src/health.rs] (the lease-bound claims
    in etcd). An etcd call may fail: [put_ok] and [del_ok] say which do. *)

From S2P Require Import Prelude Hash PrefixIndex Float32 Cluster.

(** ** The cache epoch *)

Record EngineStats := mkStats { es_queue_depth : Z; es_free_blocks : Z; es_total_blocks : Z }.

Record KvCacheState := mkKvCacheState {
  kc_epoch : Z;
  was_ready : bool;
  saw_ready : bool;
  last_free : Z;
  last_total : Z;
}.

Definition KvCacheState_default : KvCacheState := mkKvCacheState 0 false false 0 0.

(** [saturating_add(1)] on a u64. *)
Definition KvCacheState_bump (s : KvCacheState) : KvCacheState :=
  mkKvCacheState (Z.min u64_max (kc_epoch s + 1)) (was_ready s) (saw_ready s) (last_free s) (last_total s).

Definition bump_if (b : bool) (s : KvCacheState) : KvCacheState := if b then KvCacheState_bump s else s.

Definition observe (s : KvCacheState) (ready : bool) (stats : EngineStats) : KvCacheState :=
  let s := bump_if (saw_ready s && was_ready s && negb ready) s in
  let s :=
    if ready then
      let s := bump_if (saw_ready s && negb (was_ready s)) s in
      let s :=
        if (0 <? es_total_blocks stats)%Z then
          let s := bump_if ((0 <? last_total s)%Z && negb (es_total_blocks stats =? last_total s)%Z) s in
          let delta := (es_free_blocks stats - last_free s)%Z in
          let jump_threshold := Z.max (es_total_blocks stats / 6) 32 in
          bump_if ((0 <? last_total s)%Z && (0 <? last_free s)%Z && (jump_threshold <=? delta)%Z) s
        else s in
      mkKvCacheState (kc_epoch s) (was_ready s) true (es_free_blocks stats) (es_total_blocks stats)
    else s in
  mkKvCacheState (kc_epoch s) ready (saw_ready s) (last_free s) (last_total s).

(** ** Confirmed claims *)

Definition KV_CONFIRMED_MAX_KEYS : nat := Z.to_nat 4096.

(** What one agent session has published, oldest first, and the keys that are
    in etcd under its lease. *)
Record PublishState := mkPublish { published : list string; in_etcd : gset string }.

Section publish.
Context (node : string) (put_ok del_ok : string -> bool).

(** The loop over the pending digests; [false] is the early [Err]. *)
Fixpoint publish_pending (pending : list (list Z)) (s : PublishState) : PublishState * bool :=
  match pending with
  | [] => (s, true)
  | digest :: pending =>
      if negb (length digest =? 32)%nat then publish_pending pending s
      else
        let key := kv_confirmed_key node digest in
        if decide (key ∈ published s) then publish_pending pending s
        else if put_ok key then
          publish_pending pending (mkPublish (published s ++ [key]) ({[key]} ∪ in_etcd s))
        else (s, false)
  end.

(** The eviction loop pops one key per turn. *)
Fixpoint evict (fuel target : nat) (s : PublishState) : PublishState * bool :=
  match fuel with
  | O => (s, true)
  | S fuel =>
      if (length (published s) <=? target)%nat then (s, true)
      else
        match published s with
        | [] => (s, true)
        | key :: rest =>
            if del_ok key then evict fuel target (mkPublish rest (in_etcd s ∖ {[key]}))
            else (mkPublish rest (in_etcd s), false)
        end
  end.

Definition stats_pressure (stats : EngineStats) : bool :=
  (0 <? es_total_blocks stats)%Z &&
  f32_lt (f32_div (f32_of_Z (es_free_blocks stats)) (f32_of_Z (es_total_blocks stats))) (f32_lit 5 100).

Definition evict_target (stats : EngineStats) (s : PublishState) : nat :=
  if stats_pressure stats then length (published s) / 2 else KV_CONFIRMED_MAX_KEYS.

Definition publish_kv_confirmed (stats : EngineStats) (pending : list (list Z)) (s : PublishState)
    : PublishState * bool :=
  let (s, ok) := publish_pending pending s in
  if ok then evict (length (published s)) (evict_target stats s) s else (s, false).

(** ** Facts *)

Definition publish_inv (s : PublishState) : Prop :=
  NoDup (published s) /\
  Forall (fun k => k ∈ in_etcd s /\ exists d, length d = 32 /\ Forall is_byte d /\ k = kv_confirmed_key node d) (published s).

(** Everything in etcd is tracked (for eviction). *)
Definition tracked (s : PublishState) : Prop := forall k, k ∈ in_etcd s -> k ∈ published s.

Lemma publish_pending_inv pending : forall s,
  Forall (Forall is_byte) pending -> publish_inv s ->
  publish_inv (publish_pending pending s).1 /\ (tracked s -> tracked (publish_pending pending s).1) /\
  published s `prefix_of` published (publish_pending pending s).1 /\
  ((publish_pending pending s).2 = true -> forall d, d ∈ pending -> length d = 32 ->
     kv_confirmed_key node d ∈ published (publish_pending pending s).1).
Proof.
  induction pending as [|d pending IH]; intros s Hb Hi; cbn [publish_pending].
  - split; [done|]. split; [done|]. split; [done|]. intros _ d Hd. by apply elem_of_nil in Hd.
  - apply Forall_cons in Hb as [Hd Hb].
    destruct (Nat.eqb_spec (length d) 32) as [Hlen|Hlen]; cbn [negb].
    2: { destruct (IH s Hb Hi) as (I1 & I2 & I3 & I4). split; [done|]. split; [done|]. split; [done|].
         intros Hok x [->|Hx]%elem_of_cons Hl; [done|]. by apply I4. }
    case_decide as Hin.
    { destruct (IH s Hb Hi) as (I1 & I2 & I3 & I4). split; [done|]. split; [done|]. split; [done|].
      intros Hok x [->|Hx]%elem_of_cons Hl; [by eapply elem_of_prefix|]. by apply I4. }
    destruct (put_ok _); [|done].
    set (s1 := mkPublish _ _).
    assert (publish_inv s1) as Hi1.
    { destruct Hi as [Hnd Hf]. split; cbn.
      - apply NoDup_app. split; [done|]. split; [|by apply NoDup_singleton].
        intros k Hk Hk2%list_elem_of_singleton. by subst.
      - apply Forall_app. split; [|apply Forall_singleton; split; [set_solver|by exists d]].
        eapply Forall_impl; [done|]. cbn. intros k [Hk Hd']. split; [set_solver|done]. }
    destruct (IH s1 Hb Hi1) as (I1 & I2 & I3 & I4). split; [done|]. split; [|split].
    + intros Ht. apply I2. intros k. cbn. rw elem_of_union elem_of_singleton elem_of_app list_elem_of_singleton.
      intros [->|Hk]; [by right|left; by apply Ht].
    + etrans; [|exact I3]. cbn. by apply prefix_app_r.
    + intros Hok x [->|Hx]%elem_of_cons Hl; [|by apply I4]. eapply elem_of_prefix; [|exact I3]. cbn. apply elem_of_app. right. by left.
Qed.

Lemma evict_inv fuel target : forall s,
  publish_inv s -> length (published s) <= fuel ->
  publish_inv (evict fuel target s).1 /\
  ((forall k, del_ok k = true) -> tracked s -> tracked (evict fuel target s).1) /\
  ((evict fuel target s).2 = true -> length (published (evict fuel target s).1) <= target /\
     published (evict fuel target s).1 = drop (length (published s) - target) (published s)).
Proof.
  induction fuel as [|fuel IH]; intros s Hi Hlen; cbn [evict].
  - split; [done|]. split; [done|]. intros _. cbn.
    assert (published s = []) as -> by (apply nil_length_inv; lia). split; [simpl; lia|by rw drop_nil].
  - destruct (Nat.leb_spec (length (published s)) target) as [Hle|Hgt].
    { split; [done|]. split; [done|]. intros _. split; [done|]. replace (_ - _) with 0 by lia. done. }
    destruct (published s) as [|k rest] eqn:Ep; [simpl in Hgt; lia|].
    destruct Hi as [Hnd Hf]. rw Ep in Hnd Hf. apply NoDup_cons in Hnd as [Hk Hnd]. apply Forall_cons in Hf as [_ Hf].
    destruct (del_ok k) eqn:Ed.
    + set (s1 := mkPublish _ _). destruct (IH s1) as (I1 & I2 & I3).
      * split; [done|]. cbn. rw !Forall_forall in Hf |- *. intros x Hin. destruct (Hf x Hin) as [Hx Hd].
        split; [|done]. apply elem_of_difference. split; [done|]. rw elem_of_singleton. by intros ->.
      * simpl in *. lia.
      * split; [done|]. split.
        -- intros Hall Ht. apply I2; [done|]. intros x [Hx Hne]%elem_of_difference. specialize (Ht x Hx).
           rw Ep elem_of_cons in Ht. rw elem_of_singleton in Hne. by destruct Ht.
        -- intros Hok. destruct (I3 Hok) as [Hl Hd]. split; [done|]. rw Hd. change (published s1) with rest. cbn [length].
           replace (S (length rest) - target) with (S (length rest - target)) by (simpl in Hgt; lia). done.
    + cbn. split; [|split; [|done]]; [split; [done|]|].
      * eapply Forall_impl; [done|]. done.
      * intros Hall. by rw Hall in Ed.
Qed.
End publish.

(** ** The rounds of a session *)

Record round := mkRound {
  r_put_ok : string -> bool;
  r_del_ok : string -> bool;
  r_stats : EngineStats;
  r_pending : list (list Z);
}.

Definition publish_round (node : string) (s : PublishState) (r : round) : PublishState :=
  (publish_kv_confirmed node (r_put_ok r) (r_del_ok r) (r_stats r) (r_pending r) s).1.

Definition session (node : string) (rounds : list round) : PublishState :=
  foldl (publish_round node) (mkPublish [] ∅) rounds.

Definition round_bytes (r : round) : Prop := Forall (Forall is_byte) (r_pending r).

Lemma publish_round_inv node s r :
  round_bytes r -> publish_inv node s ->
  publish_inv node (publish_round node s r) /\
  ((forall k, r_del_ok r k = true) -> tracked s -> tracked (publish_round node s r)).
Proof.
  intros Hb Hi. rw /publish_round /publish_kv_confirmed.
  destruct (publish_pending_inv node (r_put_ok r) (r_del_ok r) (r_pending r) s Hb Hi) as (I1 & I2 & _).
  destruct (publish_pending _ _ _ _) as [s1 ok]. destruct ok; [|done].
  destruct (evict_inv node (r_del_ok r) (length (published s1)) (evict_target (r_stats r) s1) s1 I1) as (E1 & E2 & _); auto.
Qed.

Lemma session_inv node rounds :
  Forall round_bytes rounds -> publish_inv node (session node rounds) /\
  (Forall (fun r => forall k, r_del_ok r k = true) rounds -> tracked (session node rounds)).
Proof.
  rw /session. induction rounds as [|r rounds IH] using rev_ind; intros Hb.
  - split; [split; [apply NoDup_nil_2|constructor]|]. intros _ k Hk. set_solver.
  - apply Forall_app in Hb as [Hb Hr]. apply Forall_cons in Hr as [Hr _]. destruct (IH Hb) as [I1 I2].
    rw foldl_snoc. destruct (publish_round_inv node _ r Hr I1) as [J1 J2]. split; [done|].
    intros Ha. apply Forall_app in Ha as [Ha Hd]. apply Forall_cons in Hd as [Hd _]. auto.
Qed.

(** ** The epoch *)

Lemma bump_if_mono b s : (kc_epoch s <= u64_max -> kc_epoch s <= kc_epoch (bump_if b s) <= u64_max)%Z.
Proof. destruct b; cbn; lia. Qed.

Lemma bump_if_fields b s :
  was_ready (bump_if b s) = was_ready s /\ saw_ready (bump_if b s) = saw_ready s /\
  last_free (bump_if b s) = last_free s /\ last_total (bump_if b s) = last_total s.
Proof. by destruct b. Qed.

Lemma observe_mono s ready stats :
  (kc_epoch s <= u64_max)%Z -> (kc_epoch s <= kc_epoch (observe s ready stats) <= u64_max)%Z.
Proof.
  intros Hs. rw /observe. cbn zeta. set (s1 := bump_if (saw_ready s && was_ready s && negb ready) s).
  pose proof (bump_if_mono (saw_ready s && was_ready s && negb ready) s Hs) as H1. fold s1 in H1. clearbody s1.
  destruct ready; cbn [kc_epoch]; [|lia].
  set (s2 := bump_if _ s1). assert (kc_epoch s1 <= kc_epoch s2 <= u64_max)%Z as H2 by (apply bump_if_mono; lia).
  clearbody s2. destruct (0 <? es_total_blocks stats)%Z; [|cbn; lia].
  set (s3 := bump_if _ s2). assert (kc_epoch s2 <= kc_epoch s3 <= u64_max)%Z as H3 by (apply bump_if_mono; lia).
  clearbody s3. match goal with |- context [kc_epoch (bump_if ?b ?s)] => pose proof (bump_if_mono b s) end. lia.
Qed.

(** ** Properties *)


(** An engine restart reaches the router: when a ready engine is seen down
    and then up again, the epoch of each of the two heartbeats is new, and a
    router that reconciles either of them against the earlier snapshot drops
    every claim of that node and of no other. *)
Lemma restart_purges_claims s st1 st2 t p now e snap :
  saw_ready s = true -> was_ready s = true -> (kc_epoch s + 2 <= u64_max)%Z ->
  t !! node_id e = Some snap -> sn_kv_epoch snap = kc_epoch s ->
  let s1 := observe s false st1 in
  let s2 := observe s1 true st2 in
  (kc_epoch s < kc_epoch s1 < kc_epoch s2)%Z /\
  (kv_epoch e = kc_epoch s1 \/ kv_epoch e = kc_epoch s2 ->
   let '(_, p', r) := reconcile t p now e in
   r = Some EpochReset /\
   forall t0 d n, n ∈ PrefixIndex_lookup p' t0 d <-> node_id e <> n /\ n ∈ PrefixIndex_lookup p t0 d).
Proof.
  intros Hsaw Hwas Hmax Ht Hsn s1 s2.
  assert (kc_epoch s1 = kc_epoch s + 1 /\ saw_ready s1 = true /\ was_ready s1 = false)%Z as (He1 & Hs1 & Hw1).
  { subst s1. rw /observe Hsaw Hwas /=. split; [lia|done]. }
  assert (kc_epoch s1 < kc_epoch s2)%Z as He2.
  { subst s2. clearbody s1. rw /observe Hs1 Hw1 /= !Hs1 !Hw1 /=. destruct (0 <? es_total_blocks st2)%Z; cbn; [|lia].
    repeat match goal with |- context [bump_if ?b ?s] => destruct b; cbn end; lia. }
  split; [lia|]. intros Hep. pose proof (reconcile_prunes t p now e) as Hr.
  destruct (reconcile t p now e) as [[t' p'] r]. destruct Hr as (_ & Hp & Hr).
  assert (r = Some EpochReset) as ->. { apply Hr. exists snap. split; [done|]. lia. }
  split; [done|]. intros t0 d n. rw Hp elem_of_lookup. cbn. split.
  - intros (c & Hin & Hid & Hl & Hk). split; [exact Hk|by exists c].
  - intros [Hn (c & Hin & Hid & Hl)]. exists c. by split_and!.
Qed.

(** ** Witnesses *)

Definition example_round : round :=
  mkRound (fun _ => true) (fun _ => true) (mkStats 0 500 1000) [replicate 32 171%Z; replicate 32 171%Z; [1%Z]].

Lemma example_bytes : round_bytes example_round.
Proof. repeat first [apply Forall_cons_2 | apply Forall_nil_2]; rw /is_byte; lia. Qed.


Lemma restart_purges_claims_witness :
  let p := PrefixIndex_insert (PrefixIndex_new 60) 0 [7%Z] "a" in
  "a" ∈ PrefixIndex_lookup p 1 [7%Z] /\
  "a" ∉ PrefixIndex_lookup (reconcile {["a" := mkSnapshot 0 500 1000]} p 1 (Cluster.Examples.node "a" false 1)).1.2 1 [7%Z].
Proof.
  cbn zeta. set (p := PrefixIndex_insert _ _ _ _). split; [vm_compute; left|].
  pose proof (restart_purges_claims (mkKvCacheState 0 true true 500 1000) (mkStats 0 0 0) (mkStats 0 500 1000)
    {["a" := mkSnapshot 0 500 1000]} p 1 (Cluster.Examples.node "a" false 1) (mkSnapshot 0 500 1000)
    eq_refl eq_refl ltac:(done) eq_refl eq_refl) as [_ Hr].
  specialize (Hr (or_introl eq_refl)). destruct (reconcile _ _ _ _) as [[t' p'] r].
  destruct Hr as [_ Hr]. cbn. rw (Hr 1%Z [7%Z] "a"). by intros [].
Defined.
