(* ===== verification/Config.v ===== *)
(** * Configuration

    [cgn-core/src/config.rs]: every section of the TOML document as a record
    with its defaults, and the loading and validation functions. A [Duration] is
    a number of nanoseconds, a path a string. TOML parsing is third-party: a
    file is what reading and parsing it gives. *)

From S2P Require Import Prelude Float32.

(** ** Durations, ports, host *)

Definition millis (n : Z) : Z := (n * 1000000)%Z.
Definition secs (n : Z) : Z := (n * 1000000000)%Z.

Definition GOSSIP_UDP : Z := 7946.
Definition ROUTER_HTTP : Z := 8080.
Definition ROUTER_GRPC : Z := 9090.
Definition ROUTER_ADMIN : Z := 9091.
Definition AGENT_GRPC : Z := 7070.
Definition KV_GRPC : Z := 7071.
Definition KV_QUIC : Z := 7072.
Definition METRICS_HTTP : Z := 9092.
Definition VLLM_HTTP : Z := 8000.
Definition MLX_LM_HTTP : Z := 8090.

(** What [default_node_id] reads: [$HOSTNAME], [/etc/hostname] and the first
    eight digits of a fresh UUID. *)
Record HostEnv := mkHostEnv { env_hostname : option string; etc_hostname : option string; uuid8 : string }.

Definition is_space (a : Ascii.ascii) : bool :=
  let n := Ascii.nat_of_ascii a in ((9 <=? n)%nat && (n <=? 13)%nat) || (n =? 32)%nat.

Fixpoint drop_spaces (l : list Ascii.ascii) : list Ascii.ascii :=
  match l with a :: l' => if is_space a then drop_spaces l' else l | [] => [] end.

(** [str::trim], on ASCII white space. *)
Definition trim (s : string) : string :=
  String.string_of_list_ascii (rev (drop_spaces (rev (drop_spaces (String.list_ascii_of_string s))))).

Definition hostname_or (env : HostEnv) (default : string) : string :=
  match env_hostname env with
  | Some h => if String.eqb h "" then
                match etc_hostname env with
                | Some s => if String.eqb (trim s) "" then default else trim s
                | None => default
                end
              else h
  | None =>
      match etc_hostname env with
      | Some s => if String.eqb (trim s) "" then default else trim s
      | None => default
      end
  end.

Definition default_node_id (env : HostEnv) (role : string) : string :=
  hostname_or env role +:+ "-" +:+ role +:+ "-" +:+ uuid8 env.

(** ** Enumerations *)

Inductive StateBackend := StateBackend_Etcd | StateBackend_Gossip.
#[export] Instance StateBackend_eq_dec : EqDecision StateBackend.
Proof. solve_decision. Defined.

Inductive CarbonProviderKind := CarbonProviderKind_Static | CarbonProviderKind_ElectricityMaps | CarbonProviderKind_WattTime.
#[export] Instance CarbonProviderKind_eq_dec : EqDecision CarbonProviderKind.
Proof. solve_decision. Defined.

Inductive EngineKind := EngineKind_Vllm | EngineKind_Sglang | EngineKind_LlamaCpp | EngineKind_Mlx | EngineKind_TensorrtLlm | EngineKind_CgnInfer | EngineKind_OpenaiCompat.
#[export] Instance EngineKind_eq_dec : EqDecision EngineKind.
Proof. solve_decision. Defined.

Inductive KvOffload := KvOffload_None | KvOffload_Nixl | KvOffload_Lmcache | KvOffload_Hicache | KvOffload_Kvbm | KvOffload_Cgn.
#[export] Instance KvOffload_eq_dec : EqDecision KvOffload.
Proof. solve_decision. Defined.

Inductive LmcacheMode := LmcacheMode_V1 | LmcacheMode_Mp.
#[export] Instance LmcacheMode_eq_dec : EqDecision LmcacheMode.
Proof. solve_decision. Defined.

Inductive LlamaCppMode := LlamaCppMode_PythonServer | LlamaCppMode_Binary.
#[export] Instance LlamaCppMode_eq_dec : EqDecision LlamaCppMode.
Proof. solve_decision. Defined.

Inductive NodeRoleCfg := NodeRoleCfg_Decode | NodeRoleCfg_Prefill | NodeRoleCfg_Both.
#[export] Instance NodeRoleCfg_eq_dec : EqDecision NodeRoleCfg.
Proof. solve_decision. Defined.

Inductive KvTransport := KvTransport_Quic | KvTransport_Rdma.
#[export] Instance KvTransport_eq_dec : EqDecision KvTransport.
Proof. solve_decision. Defined.

Definition LmcacheMode_as_str (m : LmcacheMode) : string :=
  match m with LmcacheMode_V1 => "v1" | LmcacheMode_Mp => "mp" end.

Definition KvOffload_as_str (k : KvOffload) : string :=
  match k with
  | KvOffload_None => "none"
  | KvOffload_Nixl => "nixl"
  | KvOffload_Lmcache => "lmcache"
  | KvOffload_Hicache => "hicache"
  | KvOffload_Kvbm => "kvbm"
  | KvOffload_Cgn => "cgn"
  end.

Definition KvOffload_default : KvOffload := KvOffload_None.
Definition LmcacheMode_default : LmcacheMode := LmcacheMode_V1.
Definition CarbonProviderKind_default : CarbonProviderKind := CarbonProviderKind_Static.

(** ** Sections *)

Record ClusterConfig := mkClusterConfig {
  cc_name : string;
  cc_state_backend : StateBackend;
  cc_etcd_endpoints : list string;
  cc_gossip_seeds : list string;
  cc_gossip_listen : string;
  cc_gossip_advertise : string;
}.

Definition ClusterConfig_default : ClusterConfig :=
  {| cc_name := "cognitora";
     cc_state_backend := StateBackend_Etcd;
     cc_etcd_endpoints := [];
     cc_gossip_seeds := [];
     cc_gossip_listen := "0.0.0.0:7946";
     cc_gossip_advertise := "" |}.

Record ScoreWeights := mkScoreWeights {
  sw_kv : f32;
  sw_load : f32;
  sw_power : f32;
  sw_capacity : f32;
  sw_session : f32;
}.

Definition ScoreWeights_default : ScoreWeights :=
  {| sw_kv := (f32_lit 55 100);
     sw_load := (f32_lit 25 100);
     sw_power := (f32_lit 1 10);
     sw_capacity := (f32_lit 1 10);
     sw_session := (f32_lit 25 100) |}.

Record AdmissionConfig := mkAdmissionConfig {
  adm_max_queue : Z;
  adm_ttft_slo : Z;
  adm_max_concurrent_per_replica : Z;
  adm_wait_queue_per_tenant : Z;
  adm_wait_timeout : Z;
}.

Definition AdmissionConfig_default : AdmissionConfig :=
  {| adm_max_queue := 1024;
     adm_ttft_slo := (millis 800);
     adm_max_concurrent_per_replica := 16;
     adm_wait_queue_per_tenant := 64;
     adm_wait_timeout := (secs 10) |}.

Record RateLimitConfig := mkRateLimitConfig {
  rl_rps : Z;
  rl_burst : Z;
  rl_redis_url : option string;
  rl_trusted_proxies : list string;
}.

Definition RateLimitConfig_default : RateLimitConfig :=
  {| rl_rps := 50;
     rl_burst := 200;
     rl_redis_url := None;
     rl_trusted_proxies := [] |}.

Record CascadeConfig := mkCascadeConfig {
  cas_enabled : bool;
  cas_confidence_threshold : f32;
}.

Definition CascadeConfig_default : CascadeConfig :=
  {| cas_enabled := false;
     cas_confidence_threshold := (f32_lit (-15) 10) |}.

Record DisaggConfig := mkDisaggConfig {
  dis_enabled : bool;
  dis_colocate_below_tokens : Z;
}.

Definition DisaggConfig_default : DisaggConfig :=
  {| dis_enabled := false;
     dis_colocate_below_tokens := 256 |}.

Record FederationConfig := mkFederationConfig {
  fed_enabled : bool;
  fed_peers : list string;
}.

Definition FederationConfig_default : FederationConfig := {| fed_enabled := false; fed_peers := [] |}.

Record AutoscalerConfig := mkAutoscalerConfig {
  asc_enabled : bool;
  asc_idle_util_pct : f32;
  asc_high_watt_threshold : f32;
  asc_deadline_admission : bool;
}.

Definition AutoscalerConfig_default : AutoscalerConfig :=
  {| asc_enabled := false;
     asc_idle_util_pct := (f32_lit 15 1);
     asc_high_watt_threshold := (f32_lit 350 1);
     asc_deadline_admission := false |}.

Record RouterConfig := mkRouterConfig {
  rc_listen_http : string;
  rc_listen_grpc : string;
  rc_listen_admin : string;
  rc_node_id : string;
  rc_score_weights : ScoreWeights;
  rc_admission : AdmissionConfig;
  rc_rate_limit : RateLimitConfig;
  rc_cascade : CascadeConfig;
  rc_disagg : DisaggConfig;
  rc_federation : FederationConfig;
  rc_autoscaler : AutoscalerConfig;
  rc_drain_timeout : Z;
  rc_first_token_timeout : Z;
  rc_max_body_mb : Z;
  rc_kv_tenant_isolation : bool;
}.

Definition RouterConfig_default (env : HostEnv) : RouterConfig :=
  {| rc_listen_http := "0.0.0.0:8080";
     rc_listen_grpc := "0.0.0.0:9090";
     rc_listen_admin := "0.0.0.0:9091";
     rc_node_id := (default_node_id env "router");
     rc_score_weights := ScoreWeights_default;
     rc_admission := AdmissionConfig_default;
     rc_rate_limit := RateLimitConfig_default;
     rc_cascade := CascadeConfig_default;
     rc_disagg := DisaggConfig_default;
     rc_federation := FederationConfig_default;
     rc_autoscaler := AutoscalerConfig_default;
     rc_drain_timeout := (secs 30);
     rc_first_token_timeout := (secs 300);
     rc_max_body_mb := 32;
     rc_kv_tenant_isolation := true |}.

Record CarbonConfig := mkCarbonConfig {
  cb_enabled : bool;
  cb_provider : CarbonProviderKind;
  cb_zone : string;
  cb_api_token : string;
  cb_static_intensity : f64;
  cb_intensity_threshold : f64;
  cb_poll_interval : Z;
}.

Definition CarbonConfig_default : CarbonConfig :=
  {| cb_enabled := false;
     cb_provider := CarbonProviderKind_Static;
     cb_zone := "";
     cb_api_token := "";
     cb_static_intensity := (f64_lit 300 1);
     cb_intensity_threshold := (f64_lit 450 1);
     cb_poll_interval := (secs 300) |}.

Record AgentConfig := mkAgentConfig {
  ag_drain_timeout : Z;
  ag_listen : string;
  ag_role : NodeRoleCfg;
  ag_node_id : string;
  ag_kv_uds : string;
  ag_gpu_index : option Z;
  ag_watt_limit : f32;
  ag_vllm_url : option string;
  ag_vllm_cmd : option (list string);
}.

Definition AgentConfig_default (env : HostEnv) : AgentConfig :=
  {| ag_drain_timeout := (secs 30);
     ag_listen := "0.0.0.0:7070";
     ag_role := NodeRoleCfg_Both;
     ag_node_id := (default_node_id env "agent");
     ag_kv_uds := "/run/cognitora/kv.sock";
     ag_gpu_index := None;
     ag_watt_limit := (f32_lit 0 1);
     ag_vllm_url := None;
     ag_vllm_cmd := None |}.

Record LmcacheEngineConfig := mkLmcacheEngineConfig {
  lm_mode : LmcacheMode;
  lm_host : string;
  lm_port : Z;
  lm_http_port : Z;
  lm_l1_size_gb : Z;
  lm_eviction_policy : string;
  lm_chunk_size : Z;
  lm_spawn_server : bool;
  lm_server_binary : string;
  lm_server_extra_args : list string;
  lm_config_file : string;
  lm_connector_module_path : string;
  lm_isolated_ipc : bool;
  lm_server_urls : string;
  lm_disable_prefix_caching : bool;
  lm_disable_hybrid_kv_cache_manager : bool;
}.

Definition LmcacheEngineConfig_default : LmcacheEngineConfig :=
  {| lm_mode := LmcacheMode_V1;
     lm_host := "localhost";
     lm_port := 5555;
     lm_http_port := 8080;
     lm_l1_size_gb := 20;
     lm_eviction_policy := "LRU";
     lm_chunk_size := 256;
     lm_spawn_server := false;
     lm_server_binary := "lmcache";
     lm_server_extra_args := [];
     lm_config_file := "";
     lm_connector_module_path := "";
     lm_isolated_ipc := false;
     lm_server_urls := "";
     lm_disable_prefix_caching := false;
     lm_disable_hybrid_kv_cache_manager := false |}.

Record VllmEngineConfig := mkVllmEngineConfig {
  vl_binary : string;
  vl_extra_args : list string;
}.

Definition VllmEngineConfig_default : VllmEngineConfig :=
  {| vl_binary := "vllm";
     vl_extra_args := ["--enable-chunked-prefill"] |}.

Record SglangEngineConfig := mkSglangEngineConfig {
  sg_binary : string;
  sg_host : string;
  sg_port : Z;
  sg_context_length : Z;
  sg_mem_fraction_static : f32;
  sg_extra_args : list string;
}.

Definition SglangEngineConfig_default : SglangEngineConfig :=
  {| sg_binary := "python";
     sg_host := "127.0.0.1";
     sg_port := VLLM_HTTP;
     sg_context_length := 4096;
     sg_mem_fraction_static := (f32_lit 85 100);
     sg_extra_args := [] |}.

Record LlamaCppEngineConfig := mkLlamaCppEngineConfig {
  lc_binary : string;
  lc_mode : LlamaCppMode;
  lc_host : string;
  lc_port : Z;
  lc_n_ctx : Z;
  lc_n_threads : Z;
  lc_n_gpu_layers : Z;
  lc_extra_args : list string;
}.

Definition LlamaCppEngineConfig_default : LlamaCppEngineConfig :=
  {| lc_binary := "python";
     lc_mode := LlamaCppMode_PythonServer;
     lc_host := "127.0.0.1";
     lc_port := VLLM_HTTP;
     lc_n_ctx := 4096;
     lc_n_threads := 4;
     lc_n_gpu_layers := 0;
     lc_extra_args := [] |}.

Record MlxLmEngineConfig := mkMlxLmEngineConfig {
  mx_binary : string;
  mx_host : string;
  mx_port : Z;
  mx_extra_args : list string;
}.

Definition MlxLmEngineConfig_default : MlxLmEngineConfig :=
  {| mx_binary := "python3";
     mx_host := "127.0.0.1";
     mx_port := MLX_LM_HTTP;
     mx_extra_args := [] |}.

Record TensorrtLlmEngineConfig := mkTensorrtLlmEngineConfig {
  tr_binary : string;
  tr_host : string;
  tr_port : Z;
  tr_extra_args : list string;
}.

Definition TensorrtLlmEngineConfig_default : TensorrtLlmEngineConfig :=
  {| tr_binary := "trtllm-serve";
     tr_host := "127.0.0.1";
     tr_port := VLLM_HTTP;
     tr_extra_args := [] |}.

Record CgnInferEngineConfig := mkCgnInferEngineConfig {
  ci_binary_path : string;
  ci_host : string;
  ci_port : Z;
  ci_ctx : option Z;
  ci_threads : option Z;
  ci_extra_args : list string;
}.

Definition CgnInferEngineConfig_default : CgnInferEngineConfig :=
  {| ci_binary_path := "cgn-infer";
     ci_host := "127.0.0.1";
     ci_port := VLLM_HTTP;
     ci_ctx := None;
     ci_threads := None;
     ci_extra_args := [] |}.

Record EngineConfig := mkEngineConfig {
  en_kind : EngineKind;
  en_url : string;
  en_kv_offload : KvOffload;
  en_vllm : VllmEngineConfig;
  en_sglang : SglangEngineConfig;
  en_llama_cpp : LlamaCppEngineConfig;
  en_mlx_lm : MlxLmEngineConfig;
  en_tensorrt_llm : TensorrtLlmEngineConfig;
  en_cgn_infer : CgnInferEngineConfig;
  en_lmcache : LmcacheEngineConfig;
}.

Definition EngineConfig_default : EngineConfig :=
  {| en_kind := EngineKind_Vllm;
     en_url := "http://127.0.0.1:8000";
     en_kv_offload := KvOffload_None;
     en_vllm := VllmEngineConfig_default;
     en_sglang := SglangEngineConfig_default;
     en_llama_cpp := LlamaCppEngineConfig_default;
     en_mlx_lm := MlxLmEngineConfig_default;
     en_tensorrt_llm := TensorrtLlmEngineConfig_default;
     en_cgn_infer := CgnInferEngineConfig_default;
     en_lmcache := LmcacheEngineConfig_default |}.

Record KvConfig := mkKvConfig {
  kv_listen : string;
  kv_uds : string;
  kv_ram_gib : Z;
  kv_ssd_dir : string;
  kv_ssd_gib : Z;
  kv_index_dir : string;
  kv_transport : KvTransport;
  kv_quic_listen : string;
  kv_allow_insecure_quic : bool;
  kv_quic_server_name : string;
  kv_block_size_tokens : Z;
  kv_ssd_ttl_secs : Z;
  kv_evict_interval_ms : Z;
  kv_ram_high_watermark : f32;
}.

Definition KvConfig_default : KvConfig :=
  {| kv_listen := "0.0.0.0:7071";
     kv_uds := "/run/cognitora/kv.sock";
     kv_ram_gib := 32;
     kv_ssd_dir := "/var/lib/cognitora/kv";
     kv_ssd_gib := 1024;
     kv_index_dir := "/var/lib/cognitora/index";
     kv_transport := KvTransport_Quic;
     kv_quic_listen := "0.0.0.0:7072";
     kv_allow_insecure_quic := false;
     kv_quic_server_name := "cognitora";
     kv_block_size_tokens := 16;
     kv_ssd_ttl_secs := 86400;
     kv_evict_interval_ms := 1000;
     kv_ram_high_watermark := (f32_lit 9 10) |}.

Record SecurityConfig := mkSecurityConfig {
  sec_ca_file : option string;
  sec_cert_file : option string;
  sec_key_file : option string;
  sec_require_mtls : bool;
}.

Definition SecurityConfig_default : SecurityConfig :=
  {| sec_ca_file := None; sec_cert_file := None; sec_key_file := None; sec_require_mtls := false |}.

Record AuthConfig := mkAuthConfig {
  au_enabled : bool;
  au_oidc_issuer : option string;
  au_oidc_audience : option string;
  au_api_keys_file : option string;
  au_enforce_scopes : bool;
  au_oidc_groups_claim : option string;
  au_oidc_group_scopes : gmap string (list string);
  au_usage_file : option string;
}.

Definition AuthConfig_default : AuthConfig :=
  {| au_enabled := false;
     au_oidc_issuer := None;
     au_oidc_audience := None;
     au_api_keys_file := None;
     au_enforce_scopes := true;
     au_oidc_groups_claim := None;
     au_oidc_group_scopes := ∅;
     au_usage_file := None |}.

Record ScrapeTarget := mkScrapeTarget {
  st_name : string;
  st_url : string;
}.

Record MetricsConfig := mkMetricsConfig {
  me_listen : string;
  me_redfish_url : option string;
  me_redfish_user : option string;
  me_redfish_password : option string;
  me_ipmi_fallback : bool;
  me_scrape_interval : Z;
  me_scrape_targets : list ScrapeTarget;
}.

Definition MetricsConfig_default : MetricsConfig :=
  {| me_listen := "0.0.0.0:9092";
     me_redfish_url := None;
     me_redfish_user := None;
     me_redfish_password := None;
     me_ipmi_fallback := false;
     me_scrape_interval := (secs 15);
     me_scrape_targets := [] |}.

Record PipelineWorkerConfig := mkPipelineWorkerConfig {
  pw_listen : string;
  pw_layers : string;
  pw_endpoint : option string;
  pw_spawn : bool;
}.

Definition PipelineWorkerConfig_default : PipelineWorkerConfig :=
  {| pw_listen := "";
     pw_layers := "";
     pw_endpoint := None;
     pw_spawn := true |}.

Record PipelineTopologyConfig := mkPipelineTopologyConfig {
  pt_coordinator_layers : string;
  pt_workers : list PipelineWorkerConfig;
  pt_activation_encoding : string;
}.

Definition PipelineTopologyConfig_default : PipelineTopologyConfig :=
  {| pt_coordinator_layers := "";
     pt_workers := [];
     pt_activation_encoding := "f16" |}.

Record ModelConfig := mkModelConfig {
  mo_cascade : list string;
  mo_prefill_replicas : Z;
  mo_decode_replicas : Z;
  mo_tp : Z;
  mo_max_model_len : option Z;
  mo_extra_args : list string;
  mo_tokenizer : option string;
  mo_tokenizer_repo : option string;
  mo_lora : gmap string string;
  mo_path : option string;
  mo_pipeline : option PipelineTopologyConfig;
  mo_min_vram_mb : option Z;
  mo_require_gpu : option string;
}.

Definition ModelConfig_default : ModelConfig :=
  {| mo_cascade := [];
     mo_prefill_replicas := 1;
     mo_decode_replicas := 2;
     mo_tp := 1;
     mo_max_model_len := None;
     mo_extra_args := [];
     mo_tokenizer := None;
     mo_tokenizer_repo := None;
     mo_lora := ∅;
     mo_path := None;
     mo_pipeline := None;
     mo_min_vram_mb := None;
     mo_require_gpu := None |}.

Record Config := mkConfig {
  cfg_cluster : ClusterConfig;
  cfg_router : RouterConfig;
  cfg_agent : AgentConfig;
  cfg_engine : EngineConfig;
  cfg_kv : KvConfig;
  cfg_security : SecurityConfig;
  cfg_metrics : MetricsConfig;
  cfg_auth : AuthConfig;
  cfg_carbon : CarbonConfig;
  cfg_models : gmap string ModelConfig;
}.

Definition Config_default (env : HostEnv) : Config :=
  {| cfg_cluster := ClusterConfig_default; cfg_router := RouterConfig_default env;
     cfg_agent := AgentConfig_default env; cfg_engine := EngineConfig_default; cfg_kv := KvConfig_default;
     cfg_security := SecurityConfig_default; cfg_metrics := MetricsConfig_default; cfg_auth := AuthConfig_default;
     cfg_carbon := CarbonConfig_default; cfg_models := ∅ |}.

(** ** Errors

    [cgn-core/src/error.rs]; payloads that only carry a foreign error are left
    out. *)

Inductive Error :=
| Error_Io (addr_in_use : bool)
| Error_Config (msg : string)
| Error_Toml
| Error_Json
| Error_Tls (msg : string)
| Error_Transport
| Error_Status (code : Z)
| Error_Etcd (msg : string)
| Error_Gossip (msg : string)
| Error_InvalidArgument (msg : string)
| Error_NotFound (msg : string)
| Error_Unavailable (msg : string)
| Error_Internal (msg : string)
| Error_Other.

Definition exit_code (e : Error) : Z :=
  match e with
  | Error_Config _ => 3
  | Error_Toml => 3
  | Error_InvalidArgument _ => 2
  | Error_Tls _ => 5
  | Error_Etcd _ => 4
  | Error_Gossip _ => 4
  | Error_Unavailable _ => 4
  | Error_NotFound _ => 4
  | Error_Io true => 7
  | Error_Io false => 8
  | Error_Transport => 4
  | Error_Status _ => 4
  | Error_Json => 3
  | Error_Internal _ | Error_Other => 1
  end.

(** [From<Error> for tonic::Status]: the gRPC code. *)
Definition status_code (e : Error) : Z :=
  match e with
  | Error_InvalidArgument _ => 3
  | Error_NotFound _ => 5
  | Error_Unavailable _ => 14
  | Error_Status c => c
  | _ => 13
  end.

(** ** Validation and loading *)

Definition gossip_enabled (c : ClusterConfig) : bool := bool_decide (cc_state_backend c = StateBackend_Gossip).

Definition gossip_advertise_or_listen (c : ClusterConfig) : string :=
  if String.eqb (cc_gossip_advertise c) "" then cc_gossip_listen c else cc_gossip_advertise c.

Definition weights_sum (w : ScoreWeights) : f32 :=
  f32_add (f32_add (f32_add (sw_kv w) (sw_load w)) (sw_power w)) (sw_capacity w).

(** The message prints the sum; the number is left out. *)
Definition ScoreWeights_validate (w : ScoreWeights) : result unit Error :=
  if f32_lt (f32_lit 1 100) (f32_abs (f32_sub (weights_sum w) f32_one))
  then Err (Error_Config "router.score_weights must sum to 1.0")
  else Ok tt.

Definition CarbonConfig_validate (c : CarbonConfig) : result unit Error :=
  if negb (cb_enabled c) then Ok tt
  else if f32_le (cb_intensity_threshold c) f64_zero
  then Err (Error_Config "[carbon].intensity_threshold must be > 0 when carbon admission is enabled")
  else if (cb_poll_interval c =? 0)%Z
  then Err (Error_Config "[carbon].poll_interval must be > 0 when carbon admission is enabled")
  else
    match cb_provider c with
    | CarbonProviderKind_Static => Ok tt
    | CarbonProviderKind_ElectricityMaps | CarbonProviderKind_WattTime =>
        if String.eqb (cb_zone c) "" then Err (Error_Config "[carbon].zone is required") else Ok tt
    end.

Definition Config_validate (c : Config) : result unit Error :=
  let? _ := ScoreWeights_validate (rc_score_weights (cfg_router c)) in
  let? _ := CarbonConfig_validate (cfg_carbon c) in
  Ok tt.

(** What is at the path: nothing, an unreadable file, or text that TOML parses
    or not. *)
Inductive ConfigFile :=
| FileMissing
| FileUnreadable
| FileText (parsed : option Config).

Definition Config_load (env : HostEnv) (f : ConfigFile) : result Config Error :=
  match f with
  | FileMissing => Ok (Config_default env)
  | FileUnreadable => Err (Error_Io false)
  | FileText None => Err (Error_Config "toml")
  | FileText (Some cfg) => let? _ := Config_validate cfg in Ok cfg
  end.

Definition DEFAULT_CONFIG_PATH : string := "/etc/cognitora/cognitora.toml".

Definition Config_locate (arg env_cgn_config : option string) : string :=
  match arg with
  | Some p => p
  | None => match env_cgn_config with Some e => e | None => DEFAULT_CONFIG_PATH end
  end.

(** ** Properties *)

Lemma Config_validate_ok c :
  Config_validate c = Ok tt <->
  ScoreWeights_validate (rc_score_weights (cfg_router c)) = Ok tt /\ CarbonConfig_validate (cfg_carbon c) = Ok tt.
Proof.
  rw /Config_validate. destruct (ScoreWeights_validate _) as [[]|]; cbn; [|naive_solver].
  destruct (CarbonConfig_validate _) as [[]|]; naive_solver.
Qed.

Lemma ScoreWeights_validate_ok w :
  ScoreWeights_validate w = Ok tt <->
  f32_lt (f32_lit 1 100) (f32_abs (f32_sub (weights_sum w) f32_one)) = false.
Proof. rw /ScoreWeights_validate. by destruct (f32_lt _ _). Qed.

Lemma CarbonConfig_validate_ok c :
  CarbonConfig_validate c = Ok tt <->
  (cb_enabled c = true ->
   f32_le (cb_intensity_threshold c) f64_zero = false /\ cb_poll_interval c <> 0%Z /\
   (cb_provider c <> CarbonProviderKind_Static -> cb_zone c <> "")).
Proof.
  rw /CarbonConfig_validate. destruct (cb_enabled c); cbn; [|done].
  destruct (f32_le _ _); [naive_solver|]. destruct (Z.eqb_spec (cb_poll_interval c) 0); [naive_solver|].
  destruct (cb_provider c); [naive_solver|..]; destruct (String.eqb_spec (cb_zone c) ""); naive_solver.
Qed.

(** What a daemon starts with has been validated: [load] gives the
    defaults when there is no file, and they pass validation on every host; it
    gives an error when the file cannot be read, parsed or validated; otherwise
    it gives the file's configuration, whose carbon section is complete when
    enabled and whose weights do not sum to something more than 0.01 away from
    one. *)
Lemma config_load_validated env f :
  match Config_load env f with
  | Ok c =>
      (f = FileMissing /\ c = Config_default env \/ f = FileText (Some c)) /\
      Config_validate c = Ok tt /\
      f32_lt (f32_lit 1 100) (f32_abs (f32_sub (weights_sum (rc_score_weights (cfg_router c))) f32_one)) = false /\
      (cb_enabled (cfg_carbon c) = true ->
       f32_le (cb_intensity_threshold (cfg_carbon c)) f64_zero = false /\ cb_poll_interval (cfg_carbon c) <> 0%Z /\
       (cb_provider (cfg_carbon c) <> CarbonProviderKind_Static -> cb_zone (cfg_carbon c) <> ""))
  | Err e =>
      f = FileUnreadable \/ f = FileText None \/ exists c, f = FileText (Some c) /\ Config_validate c = Err e
  end.
Proof.
  assert (forall c, Config_validate c = Ok tt ->
    f32_lt (f32_lit 1 100) (f32_abs (f32_sub (weights_sum (rc_score_weights (cfg_router c))) f32_one)) = false /\
    (cb_enabled (cfg_carbon c) = true ->
     f32_le (cb_intensity_threshold (cfg_carbon c)) f64_zero = false /\ cb_poll_interval (cfg_carbon c) <> 0%Z /\
     (cb_provider (cfg_carbon c) <> CarbonProviderKind_Static -> cb_zone (cfg_carbon c) <> ""))) as Hv.
  { intros c [Hw%ScoreWeights_validate_ok Hc]%Config_validate_ok. split; [done|].
    by apply CarbonConfig_validate_ok. }
  assert (Config_validate (Config_default env) = Ok tt) as Hd by (by vm_compute).
  destruct f as [| |[c|]]; cbn [Config_load].
  - split; [left; split; reflexivity|]. split; [exact Hd|exact (Hv _ Hd)].
  - by left.
  - destruct (Config_validate c) as [[]|e] eqn:E; cbn; [|right; right; exists c; by split].
    split; [by right|]. split; [exact E|exact (Hv c E)].
  - by right; left.
Qed.

(** A weight that is not a number passes validation, whatever the others
    are: the comparison against the tolerance is false. *)
Lemma nan_weights_accepted w :
  sw_kv w = S754_nan \/ sw_load w = S754_nan \/ sw_power w = S754_nan \/ sw_capacity w = S754_nan ->
  weights_sum w = S754_nan /\ ScoreWeights_validate w = Ok tt.
Proof.
  intros Hn. assert (weights_sum w = S754_nan) as Hs; [|split; [done|]].
  - rw /weights_sum /f32_add. destruct w as [a b c d s]; cbn in *.
    assert (forall x, SFadd 24 128 S754_nan x = S754_nan) as HL by (by intros []).
    assert (forall x, SFadd 24 128 x S754_nan = S754_nan) as HR by (by intros [| | |]).
    destruct Hn as [->|[->|[->| ->]]]; by rw ?HR ?HL.
  - by rw /ScoreWeights_validate Hs.
Qed.

Lemma nan_weights_accepted_witness :
  ScoreWeights_validate (mkScoreWeights S754_nan f32_one f32_one f32_one f32_zero) = Ok tt.
Proof.
  exact (proj2 (nan_weights_accepted (mkScoreWeights S754_nan f32_one f32_one f32_one f32_zero) (or_introl eq_refl))).
Defined.
