(* ===== verification/Routing.v ===== *)
(** * Node selection

    [cgn-router/src/routing/score.rs] and [routing/selector.rs], with the parts
    of [state.rs] they read: the per-node in-flight counts, [effective_queue],
    [readiness]. Candidates come in the registry's iteration order, BLAKE3 is
    the class of [Hash]. *)

From S2P Require Import Prelude StringFacts Hash PrefixIndex Float32 Cluster Config.

(** ** [score.rs] *)

Record Score := mkScore { s_total : f32; s_kv : f32; s_load : f32; s_power : f32; s_capacity : f32 }.

Definition QUEUE_FULL : f32 := f32_lit 64 1.

Definition score_node (policy : RoutingPolicy) (node : NodeEntry) (queue_depth : Z) (kv_overlap peer_max_power : f32)
    : Score :=
  let load := f32_clamp (f32_sub f32_one (f32_div (f32_of_Z queue_depth) QUEUE_FULL)) f32_zero f32_one in
  let power :=
    if f32_lt f32_zero peer_max_power
    then f32_clamp (f32_sub f32_one (f32_div (power_watts node) peer_max_power)) f32_zero f32_one
    else f32_one in
  let capacity :=
    if (0 <? node_total_blocks node)%Z
    then f32_clamp (f32_div (f32_of_Z (node_free_blocks node)) (f32_of_Z (node_total_blocks node))) f32_zero f32_one
    else f32_zero in
  let total :=
    f32_add (f32_add (f32_add (f32_mul (w_kv policy) kv_overlap) (f32_mul (w_load policy) load))
      (f32_mul (w_power policy) power)) (f32_mul (w_capacity policy) capacity) in
  mkScore total kv_overlap load power capacity.

Definition add_session (w : f32) (s : Score) : Score :=
  mkScore (f32_add (s_total s) w) (s_kv s) (s_load s) (s_power s) (s_capacity s).

(** ** [state.rs] *)

(** The part of [SharedState] that routing reads. *)
Record RouterState := mkRouterState {
  rs_cfg : Config;
  rs_cluster : ClusterState;
  rs_inflight : gmap string Z;
  rs_draining : bool;
}.

Definition node_inflight (st : RouterState) (id : string) : Z := default 0%Z (rs_inflight st !! id).

Definition effective_queue (st : RouterState) (n : NodeEntry) : Z :=
  Z.max (queue_depth n) (node_inflight st (node_id n)).

Definition set_inflight (m : gmap string Z) (st : RouterState) : RouterState :=
  mkRouterState (rs_cfg st) (rs_cluster st) m (rs_draining st).

(** [track_node]: one more on the node's cell. *)
Definition track_node (st : RouterState) (id : string) : RouterState :=
  set_inflight (<[id := add_u32 (node_inflight st id) 1]> (rs_inflight st)) st.

(** [NodeGuard::drop]: [fetch_sub(1)] wraps. *)
Definition drop_guard (st : RouterState) (id : string) : RouterState :=
  set_inflight (<[id := ((node_inflight st id - 1) mod 2 ^ 32)%Z]> (rs_inflight st)) st.

Definition readiness `{DashIter} (st : RouterState) : result unit string :=
  if rs_draining st then Err "draining"
  else
    let discovery := gossip_enabled (cfg_cluster (rs_cfg st)) ||
                     negb (bool_decide (cc_etcd_endpoints (cfg_cluster (rs_cfg st)) = [])) in
    if discovery && bool_decide (NodeRegistry_nodes_for (cl_nodes (rs_cluster st)) RoleUnspecified None = [])
    then Err "no ready nodes"
    else Ok tt.

(** ** [selector.rs] *)

Record RoutingDecision := mkDecision {
  d_node : NodeEntry;
  d_score : Score;
  d_overlap : f32;
  d_n_candidates : nat;
  d_digests : list (list Z);
}.

Record RouteKey := mkRouteKey {
  k_model : string;
  k_salt : string;
  k_session : option string;
  k_token_ids : list Z;
}.

(** [str::to_ascii_lowercase] and [str::contains]. *)
Definition ascii_lower (a : Ascii.ascii) : Ascii.ascii :=
  let n := Ascii.nat_of_ascii a in
  if (65 <=? n)%nat && (n <=? 90)%nat then Ascii.ascii_of_nat (n + 32) else a.
Definition to_ascii_lowercase (s : string) : string :=
  String.string_of_list_ascii (ascii_lower <$> String.list_ascii_of_string s).
Definition str_contains (s pat : string) : bool :=
  match String.index 0 pat s with Some _ => true | None => false end.

Definition vram_ok (mc : ModelConfig) (n : NodeEntry) : bool :=
  match mo_min_vram_mb mc with
  | None => true
  | Some min => (vram_total_mb n =? 0)%Z || (min <=? vram_total_mb n)%Z
  end.

Definition gpu_ok (mc : ModelConfig) (n : NodeEntry) : bool :=
  match mo_require_gpu mc with
  | None => true
  | Some req =>
      let req := to_ascii_lowercase req in
      (String.eqb (gpu_name n) "" && String.eqb (gpu_vendor n) "")
      || str_contains (to_ascii_lowercase (gpu_name n)) req
      || str_contains (to_ascii_lowercase (gpu_vendor n)) req
  end.

Definition capable (st : RouterState) (m : string) (n : NodeEntry) : bool :=
  match cfg_models (rs_cfg st) !! m with
  | None => true
  | Some mc => vram_ok mc n && gpu_ok mc n
  end.

Definition under_cap (n : NodeEntry) : bool :=
  f32_le (watt_limit n) f32_zero || f32_lt (power_watts n) (watt_limit n).

(** The soft cap: only when somebody is under it. *)
Definition prefer_under_cap (l : list NodeEntry) : list NodeEntry :=
  if existsb under_cap l then List.filter under_cap l else l.

Definition excluded (exclude : list string) (n : NodeEntry) : bool := existsb (String.eqb (node_id n)) exclude.

Definition peer_max_power (l : list NodeEntry) : f32 := foldl (fun acc n => f32_max acc (power_watts n)) f32_zero l.

(** Keep [prev] only when [prev.total >= s.total]. *)
Definition keep_best (best : option (NodeEntry * Score * f32)) (x : NodeEntry * Score * f32)
    : option (NodeEntry * Score * f32) :=
  match best with
  | Some b => if f32_ge (s_total b.1.2) (s_total x.1.2) then best else Some x
  | None => Some x
  end.

(** The order on 32-byte hashes. *)
Fixpoint bytes_le (a b : list Z) : bool :=
  match a, b with
  | [], _ => true
  | _ :: _, [] => false
  | x :: a, y :: b => if (x <? y)%Z then true else if (y <? x)%Z then false else bytes_le a b
  end.

Section selector.
Context `{DashIter} `{Blake3}.

Definition affinity (session : string) (n : NodeEntry) : list Z :=
  blake3 (as_bytes session ++ [0%Z] ++ as_bytes (node_id n)).

(** [max_by_key]: the last of the maxima. *)
Definition rendezvous (session : string) (nodes : list NodeEntry) : option NodeEntry :=
  foldl (fun best n =>
    match best with
    | None => Some n
    | Some b => if bytes_le (affinity session b) (affinity session n) then Some n else best
    end) None nodes.

(** The nodes a request may go to, after the filters of [pick_excluding]. *)
Definition eligible_nodes (st : RouterState) (m : string) (role : NodeRole) (exclude : list string) : list NodeEntry :=
  let c := NodeRegistry_nodes_for (cl_nodes (rs_cluster st)) role (Some m) in
  let c := List.filter (fun n => negb (excluded exclude n)) c in
  List.filter (capable st m) c.

Definition candidates_for (st : RouterState) (m : string) (role : NodeRole) (exclude : list string) : list NodeEntry :=
  prefer_under_cap (eligible_nodes st m role exclude).

Definition score_candidate (st : RouterState) (overlaps : gmap string nat) (ndigests : nat) (session_node : option string)
    (pmax : f32) (n : NodeEntry) : NodeEntry * Score * f32 :=
  let policy := cl_policy (rs_cluster st) in
  let chunks := default 0 (overlaps !! node_id n) in
  let overlap :=
    if (ndigests =? 0)%nat then f32_zero
    else f32_div (f32_of_Z (Z.of_nat chunks)) (f32_of_Z (Z.of_nat ndigests)) in
  let s := score_node policy n (effective_queue st n) overlap pmax in
  let s := if bool_decide (session_node = Some (node_id n)) then add_session (w_session policy) s else s in
  (n, s, overlap).

(** How [pick_excluding] scores each of its candidates. *)
Definition scorer (st : RouterState) (now : Z) (key : RouteKey) (candidates : list NodeEntry)
    : NodeEntry -> NodeEntry * Score * f32 :=
  let digests := hash_seq_chunks (k_salt key) (k_token_ids key) in
  let overlaps :=
    match digests with
    | [] => ∅
    | _ => PrefixIndex_longest_prefix_overlap (cl_prefix (rs_cluster st)) now digests
    end in
  let pmax := peer_max_power candidates in
  let session_node := node_id <$> (k_session key ≫= fun s => rendezvous s candidates) in
  score_candidate st overlaps (length digests) session_node pmax.

Definition pick_excluding (st : RouterState) (now : Z) (key : RouteKey) (role : NodeRole) (exclude : list string)
    : result RoutingDecision Error :=
  let candidates := candidates_for st (k_model key) role exclude in
  match candidates with
  | [] => Err (Error_Unavailable "no live node")
  | _ =>
      let digests := hash_seq_chunks (k_salt key) (k_token_ids key) in
      let scored := scorer st now key candidates <$> candidates in
      match foldl keep_best None scored with
      | Some (node, s, overlap) => Ok (mkDecision node s overlap (length candidates) digests)
      | None => Err (Error_Internal "non-empty candidates")
      end
  end.

Definition pick (st : RouterState) (now : Z) (key : RouteKey) (role : NodeRole) : result RoutingDecision Error :=
  pick_excluding st now key role [].

(** The decode candidates of [pick_pair]. *)
Definition decode_candidates_for (st : RouterState) (m : string) (role : NodeRole) (exclude : list string) (prefill : string)
    : list NodeEntry :=
  let c := NodeRegistry_nodes_for (cl_nodes (rs_cluster st)) role (Some m) in
  let c := List.filter (fun n => negb (String.eqb (node_id n) prefill) && negb (excluded exclude n)) c in
  prefer_under_cap c.

Definition pick_pair (st : RouterState) (now : Z) (key : RouteKey) (prefill_role decode_role : NodeRole)
    (exclude : list string) : result (RoutingDecision * RoutingDecision) Error :=
  let? prefill := pick_excluding st now key prefill_role exclude in
  let distinct := decode_candidates_for st (k_model key) decode_role exclude (node_id (d_node prefill)) in
  match distinct with
  | [] => Ok (prefill, prefill)
  | _ =>
      let pmax := peer_max_power distinct in
      let scored := (fun n => (n, score_node (cl_policy (rs_cluster st)) n (effective_queue st n) f32_zero pmax, f32_zero))
                      <$> distinct in
      match foldl keep_best None scored with
      | Some (node, s, _) => Ok (prefill, mkDecision node s f32_zero (length distinct) (d_digests prefill))
      | None => Err (Error_Internal "non-empty distinct")
      end
  end.
End selector.

(** ** Facts about the argmax *)

Definition total_of (x : NodeEntry * Score * f32) : f32 := s_total x.1.2.

Lemma keep_best_fold l : forall b,
  exists r, foldl keep_best (Some b) l = Some r /\ (r = b \/ r ∈ l) /\
    ((forall x, x = b \/ x ∈ l -> is_nan (total_of x) = false) ->
     forall x, x = b \/ x ∈ l -> f32_ge (total_of r) (total_of x) = true).
Proof.
  induction l as [|y l IH]; intros b; cbn [foldl].
  - exists b. split; [done|]. split; [by left|]. intros Hn x Hx. destruct Hx as [->|Hx]; [|by apply elem_of_nil in Hx].
    apply f32_le_refl, Hn. by left.
  - cbn [keep_best]. fold (total_of b) (total_of y). destruct (f32_ge (total_of b) (total_of y)) eqn:E.
    + destruct (IH b) as (r & -> & Hr & Hmax). exists r. split; [done|]. split; [rw elem_of_cons; naive_solver|].
      intros Hn. assert (forall x, x = b \/ x ∈ l -> is_nan (total_of x) = false) as Hn'
        by (intros x Hx; apply Hn; rw elem_of_cons; naive_solver).
      intros x. rw elem_of_cons. intros [->|[->|Hx]]; [apply Hmax; auto| |apply Hmax; auto].
      eapply f32_le_trans; [exact E|]. apply Hmax; auto.
    + destruct (IH y) as (r & -> & Hr & Hmax). exists r. split; [done|]. split; [rw elem_of_cons; naive_solver|].
      intros Hn. assert (forall x, x = y \/ x ∈ l -> is_nan (total_of x) = false) as Hn'
        by (intros x Hx; apply Hn; rw elem_of_cons; naive_solver).
      intros x. rw elem_of_cons. intros [->|[->|Hx]]; [|apply Hmax; auto|apply Hmax; auto].
      eapply f32_le_trans; [|apply (Hmax Hn' y); auto].
      apply f32_lt_le. destruct (f32_lt (total_of b) (total_of y)) eqn:Elt; [done|].
      apply f32_lt_nlt in Elt; [|apply Hn; by left|apply Hn; rw elem_of_cons; auto].
      change (f32_ge (total_of b) (total_of y) = true) in Elt. by rw E in Elt.
Qed.

Lemma keep_best_spec l : l <> [] ->
  exists r, foldl keep_best None l = Some r /\ r ∈ l /\
    ((forall x, x ∈ l -> is_nan (total_of x) = false) -> forall x, x ∈ l -> f32_ge (total_of r) (total_of x) = true).
Proof.
  destruct l as [|b l]; [done|]. intros _. destruct (keep_best_fold l b) as (r & Hr & Hin & Hmax).
  exists r. split; [done|]. split; [rw elem_of_cons; naive_solver|]. intros Hn x Hx.
  apply Hmax; [|by apply elem_of_cons]. intros y Hy. apply Hn. by apply elem_of_cons.
Qed.

(** Totals that are not numbers replace whatever was best. *)
Lemma keep_best_nan l : forall b, Forall (fun x => is_nan (total_of x) = true) l -> foldl keep_best (Some b) l = last (b :: l).
Proof.
  induction l as [|y l IH]; intros b Hl; [done|]. apply Forall_cons in Hl as [Hy Hl]. cbn [foldl keep_best].
  fold (total_of b) (total_of y). assert (f32_ge (total_of b) (total_of y) = false) as ->
    by (by destruct (total_of y), (total_of b)).
  rw IH //.
Qed.

(** ** Candidates *)

Section facts.
Context `{DashIter} `{Blake3}.

Definition eligible (st : RouterState) (m : string) (role : NodeRole) (exclude : list string) (n : NodeEntry) : Prop :=
  (exists id, cl_nodes (rs_cluster st) !! id = Some n) /\ routable role (Some m) n = true /\
  excluded exclude n = false /\ capable st m n = true.

Lemma elem_of_prefer l n :
  n ∈ prefer_under_cap l <-> n ∈ l /\ ((exists x, x ∈ l /\ under_cap x = true) -> under_cap n = true).
Proof.
  rw /prefer_under_cap. destruct (existsb under_cap l) eqn:E.
  - apply existsb_exists in E as (x & Hx & Hc). rw list_elem_of_In filter_In -list_elem_of_In.
    rw -list_elem_of_In in Hx. naive_solver.
  - split; [|by intros []]. intros Hn. split; [done|]. intros (x & Hx & Hc).
    assert (existsb under_cap l = true) as Ht; [|by rw E in Ht].
    apply existsb_exists. exists x. by rw -list_elem_of_In.
Qed.

Lemma prefer_nil l : prefer_under_cap l = [] -> l = [].
Proof.
  rw /prefer_under_cap. destruct (existsb under_cap l) eqn:E; [|done]. intros Hf.
  apply existsb_exists in E as (x & Hx & Hc). assert (In x (List.filter under_cap l)) as Hin by by apply filter_In.
  by rw Hf in Hin.
Qed.

Lemma elem_of_eligible st m role exclude n : n ∈ eligible_nodes st m role exclude <-> eligible st m role exclude n.
Proof. rw /eligible_nodes 2!elem_of_bool_filter elem_of_nodes_for /eligible negb_true_iff. tauto. Qed.

Lemma elem_of_candidates st m role exclude n :
  n ∈ candidates_for st m role exclude <->
  eligible st m role exclude n /\
  ((exists x, eligible st m role exclude x /\ under_cap x = true) -> under_cap n = true).
Proof.
  rw /candidates_for elem_of_prefer elem_of_eligible. by setoid_rewrite elem_of_eligible.
Qed.

Lemma pick_cases st now key role exclude :
  let c := candidates_for st (k_model key) role exclude in
  match pick_excluding st now key role exclude with
  | Ok d => exists x, x ∈ scorer st now key c <$> c /\ foldl keep_best None (scorer st now key c <$> c) = Some x /\
      d = mkDecision x.1.1 x.1.2 x.2 (length c) (hash_seq_chunks (k_salt key) (k_token_ids key))
  | Err e => c = [] /\ e = Error_Unavailable "no live node"
  end.
Proof.
  cbn zeta. rw /pick_excluding. destruct (candidates_for _ _ _ _) as [|n c] eqn:E; [done|].
  destruct (keep_best_spec (scorer st now key (n :: c) <$> n :: c)) as (r & Hr & Hin & _); [done|].
  rw Hr. destruct r as [[x s] o]. by exists (x, s, o).
Qed.

Lemma scorer_node st now key c n : (scorer st now key c n).1.1 = n.
Proof. done. Qed.
End facts.

(** ** Session affinity *)

Lemma bytes_le_refl a : bytes_le a a = true.
Proof. induction a as [|x a IH]; cbn; [done|]. by rw Z.ltb_irrefl. Qed.

Lemma bytes_le_total a : forall b, bytes_le a b = false -> bytes_le b a = true.
Proof.
  induction a as [|x a IH]; intros [|y b]; cbn; try done.
  destruct (Z.ltb_spec x y); [done|]. destruct (Z.ltb_spec y x); [done|]. auto.
Qed.

Lemma bytes_le_antisym a : forall b, bytes_le a b = true -> bytes_le b a = true -> a = b.
Proof.
  induction a as [|x a IH]; intros [|y b]; cbn; try done.
  destruct (Z.ltb_spec x y), (Z.ltb_spec y x); try done; try lia. intros. assert (x = y) as -> by lia. f_equal. auto.
Qed.

Lemma bytes_le_trans a : forall b c, bytes_le a b = true -> bytes_le b c = true -> bytes_le a c = true.
Proof.
  induction a as [|x a IH]; intros [|y b] [|z c]; cbn; try done.
  destruct (Z.ltb_spec x y), (Z.ltb_spec y x), (Z.ltb_spec y z), (Z.ltb_spec z y), (Z.ltb_spec x z), (Z.ltb_spec z x);
    try done; try lia. eauto.
Qed.

Section affinity.
Context `{Blake3}.

Lemma rendezvous_fold s l : forall b,
  exists w, foldl (fun best n => match best with
      | None => Some n
      | Some b => if bytes_le (affinity s b) (affinity s n) then Some n else best end) (Some b) l = Some w /\
    (w = b \/ w ∈ l) /\ forall x, x = b \/ x ∈ l -> bytes_le (affinity s x) (affinity s w) = true.
Proof.
  induction l as [|y l IH]; intros b; cbn [foldl].
  - exists b. split; [done|]. split; [by left|]. intros x [->|Hx]; [apply bytes_le_refl|by apply elem_of_nil in Hx].
  - destruct (bytes_le (affinity s b) (affinity s y)) eqn:E.
    + destruct (IH y) as (w & -> & Hw & Hmax). exists w. split; [done|]. split; [rw elem_of_cons; naive_solver|].
      intros x. rw elem_of_cons. intros [->|[->|Hx]]; auto. eapply bytes_le_trans; [exact E|]. auto.
    + destruct (IH b) as (w & -> & Hw & Hmax). exists w. split; [done|]. split; [rw elem_of_cons; naive_solver|].
      intros x. rw elem_of_cons. intros [->|[->|Hx]]; auto.
      eapply bytes_le_trans; [by apply bytes_le_total|]. auto.
Qed.

Lemma rendezvous_spec s l :
  match rendezvous s l with
  | Some w => w ∈ l /\ forall x, x ∈ l -> bytes_le (affinity s x) (affinity s w) = true
  | None => l = []
  end.
Proof.
  rw /rendezvous. destruct l as [|b l]; [done|]. cbn [foldl].
  destruct (rendezvous_fold s l b) as (w & -> & Hw & Hmax). setoid_rewrite elem_of_cons. naive_solver.
Qed.
End affinity.

(** ** In-flight counts *)

Inductive guard_event := GuardTaken (id : string) | GuardDropped (id : string).

Definition guard_apply (st : RouterState) (e : guard_event) : RouterState :=
  match e with GuardTaken id => track_node st id | GuardDropped id => drop_guard st id end.

(** Guards of [id] alive after a trace. *)
Fixpoint live_guards (id : string) (es : list guard_event) : Z :=
  match es with
  | [] => 0
  | GuardTaken i :: es => (if decide (i = id) then 1 else 0) + live_guards id es
  | GuardDropped i :: es => (if decide (i = id) then -1 else 0) + live_guards id es
  end%Z.

Lemma live_guards_snoc id es e :
  live_guards id (es ++ [e]) = (live_guards id es + live_guards id [e])%Z.
Proof. induction es as [|[i|i] es IH]; cbn [app live_guards]; [lia|rw IH; cbn; lia..]. Qed.

Lemma inflight_mod st es id :
  rs_inflight st = ∅ -> node_inflight (foldl guard_apply st es) id = (live_guards id es mod 2 ^ 32)%Z.
Proof.
  intros He. induction es as [|e es IH] using rev_ind; [by rw /node_inflight /= He|].
  rw foldl_snoc live_guards_snoc. set (s1 := foldl guard_apply st es) in *. clearbody s1.
  destruct e as [i|i]; cbn [guard_apply live_guards]; rw /track_node /drop_guard /node_inflight /=;
    (destruct (decide (i = id)) as [->|Hne]; [rw lookup_insert_eq /=|rw lookup_insert_ne; [done|]]).
  all: rw -/(node_inflight s1 id) IH.
  - rw /add_u32 Zplus_mod_idemp_l Z.add_0_r //.
  - rw Z.add_0_l Z.add_0_r //.
  - rw Zminus_mod_idemp_l. f_equal; lia.
  - rw Z.add_0_l Z.add_0_r //.
Qed.

(** ** Properties *)

Section claims.
Context `{DashIter} `{Blake3}.

(** C20. What [pick_excluding] returns: a registered node that is ready, not
    cordoned, not draining, of the wanted role, serving the model, not excluded
    and meeting the model's GPU constraints, under its power cap if any such
    node is; the decision carries the request's digests, and the overlap is the
    node's longest held prefix over the number of digests. It fails exactly when
    no such node exists. *)
Theorem pick_correct st now key role exclude :
  match pick_excluding st now key role exclude with
  | Ok d =>
      eligible st (k_model key) role exclude (d_node d) /\
      ((exists x, eligible st (k_model key) role exclude x /\ under_cap x = true) -> under_cap (d_node d) = true) /\
      d_digests d = hash_seq_chunks (k_salt key) (k_token_ids key) /\
      (d_digests d <> [] -> d_overlap d =
        f32_div (f32_of_Z (Z.of_nat (held_prefix (cl_prefix (rs_cluster st)) now (node_id (d_node d)) (d_digests d))))
                (f32_of_Z (Z.of_nat (length (d_digests d)))))
  | Err _ => forall n, ~ eligible st (k_model key) role exclude n
  end.
Proof.
  pose proof (pick_cases st now key role exclude) as Hp. destruct (pick_excluding _ _ _ _ _) as [d|e].
  - destruct Hp as (x & Hin & _ & ->). apply list_elem_of_fmap in Hin as (n & -> & Hn). cbn [d_node d_digests d_overlap].
    rw scorer_node. apply elem_of_candidates in Hn as [He Hc]. split; [done|]. split; [done|]. split; [done|].
    intros Hd. rw /scorer /score_candidate. cbn [snd].
    destruct (hash_seq_chunks (k_salt key) (k_token_ids key)) as [|d0 ds] eqn:Eh; [done|]. cbn [length].
    cbn [Nat.eqb]. f_equal. f_equal. f_equal. rw longest_prefix_overlap_held. by destruct (held_prefix _ _ _ _).
  - destruct Hp as [Hc%prefer_nil _]. intros n Hn%elem_of_eligible. rw Hc in Hn. by apply elem_of_nil in Hn.
Qed.
(** C21. The choice among candidates: when every score is a number, no candidate
    scores higher than the chosen node; when none is (one weight that is not a
    number is enough), scores play no part and the last candidate in the
    registry's iteration order is chosen. *)
Theorem pick_is_argmax st now key role exclude d :
  pick_excluding st now key role exclude = Ok d ->
  let c := candidates_for st (k_model key) role exclude in
  let total n := s_total (scorer st now key c n).1.2 in
  ((forall n, n ∈ c -> is_nan (total n) = false) ->
   s_total (d_score d) = total (d_node d) /\ forall n, n ∈ c -> f32_ge (s_total (d_score d)) (total n) = true) /\
  ((forall n, n ∈ c -> is_nan (total n) = true) -> last c = Some (d_node d)).
Proof.
  intros Hp. cbn zeta. pose proof (pick_cases st now key role exclude) as Hc. rw Hp in Hc.
  destruct Hc as (x & Hin & Hfold & ->). set (c := candidates_for _ _ _ _) in *. cbn [d_score d_node].
  apply list_elem_of_fmap in Hin as (n0 & -> & Hn0). rw scorer_node. split.
  - intros Hn. split; [done|]. intros n Hc. destruct (keep_best_spec (scorer st now key c <$> c)) as (r & Hr & _ & Hmax).
    + intros E%fmap_nil_inv. by rw E in Hn0; apply elem_of_nil in Hn0.
    + rw Hfold in Hr. injection Hr as <-. apply (Hmax); [|by apply list_elem_of_fmap_2].
      intros y (m & -> & Hm)%list_elem_of_fmap. by apply Hn.
  - intros Hn. destruct c as [|n1 c']; [done|]. cbn [fmap list_fmap foldl] in Hfold. cbn [keep_best] in Hfold.
    rw keep_best_nan in Hfold.
    + apply Forall_fmap, Forall_forall. intros m Hm. apply Hn. by right.
    + change (scorer st now key (n1 :: c') n1 :: (scorer st now key (n1 :: c') <$> c'))
        with (scorer st now key (n1 :: c') <$> n1 :: c') in Hfold.
      rw fmap_last in Hfold. destruct (last (n1 :: c')) as [m|]; [|done]. injection Hfold as Hm.
      by rw -(scorer_node st now key (n1 :: c') n0) -Hm scorer_node.
Qed.

(** [pick_pair]: the prefill node is what [pick_excluding] picks; the
    decode node is a different, routable, non-excluded node of the decode role,
    under its cap if any such node is, or the prefill node again exactly when
    there is no other. It fails only when the prefill pick fails. *)
Lemma pick_pair_correct st now key prole drole exclude :
  let other n := (exists id, cl_nodes (rs_cluster st) !! id = Some n) /\
    routable drole (Some (k_model key)) n = true /\ excluded exclude n = false in
  match pick_pair st now key prole drole exclude with
  | Ok (p, d) =>
      pick_excluding st now key prole exclude = Ok p /\ d_digests d = d_digests p /\
      (node_id (d_node d) <> node_id (d_node p) /\ other (d_node d) /\
         ((exists x, other x /\ node_id x <> node_id (d_node p) /\ under_cap x = true) -> under_cap (d_node d) = true) \/
       d = p /\ forall n, other n -> node_id n = node_id (d_node p))
  | Err e => pick_excluding st now key prole exclude = Err e
  end.
Proof.
  cbn zeta. rw /pick_pair. destruct (pick_excluding st now key prole exclude) as [p|e]; cbn [result_bind]; [|done].
  set (l := List.filter (fun n => negb (String.eqb (node_id n) (node_id (d_node p))) && negb (excluded exclude n))
    (NodeRegistry_nodes_for (cl_nodes (rs_cluster st)) drole (Some (k_model key)))).
  assert (decode_candidates_for st (k_model key) drole exclude (node_id (d_node p)) = prefer_under_cap l) as Hl by done.
  assert (forall n, n ∈ l <-> ((exists id, cl_nodes (rs_cluster st) !! id = Some n) /\
    routable drole (Some (k_model key)) n = true /\ excluded exclude n = false) /\ node_id n <> node_id (d_node p)) as Hel.
  { intros n. rw /l elem_of_bool_filter elem_of_nodes_for andb_true_iff !negb_true_iff String.eqb_neq. tauto. }
  rw Hl. clearbody l. destruct (prefer_under_cap l) as [|n0 c] eqn:E.
  - apply prefer_nil in E as ->. split; [done|]. split; [done|]. right. split; [done|]. intros n Hn.
    destruct (decide (node_id n = node_id (d_node p))) as [|Hne]; [done|]. exfalso.
    apply (not_elem_of_nil n). by apply Hel.
  - set (f := fun n : NodeEntry => (n, score_node _ n _ _ _, f32_zero)).
    destruct (keep_best_spec (f <$> n0 :: c)) as ([[x s] o] & Hr & Hin & _); [done|]. cbn [fmap] in Hr. rw Hr.
    apply list_elem_of_fmap in Hin as (n & Heq & Hn). injection Heq as -> -> ->. rw -E in Hn.
    apply elem_of_prefer in Hn as [Hn%Hel Hc]. split; [done|]. split; [done|]. left. cbn [d_node].
    split; [by destruct Hn|]. split; [by destruct Hn|]. intros (y & Hy & Hne & Hcap). apply Hc. exists y. by rw Hel.
Qed.

(** Session affinity is stable and does not depend on the registry's
    iteration order: among nodes whose hashes with the session differ, the owner
    stays the owner in any other list of some of those nodes that still
    contains it (in any order, after nodes left), and a node that joins can only
    take sessions for itself. *)
Lemma rendezvous_stable s (all nodes nodes' : list NodeEntry) w :
  (forall a b, a ∈ all -> b ∈ all -> affinity s a = affinity s b -> a = b) ->
  (forall n, n ∈ nodes -> n ∈ all) -> (forall n, n ∈ nodes' -> n ∈ all) ->
  rendezvous s nodes = Some w ->
  ((forall n, n ∈ nodes' -> n ∈ nodes) -> w ∈ nodes' -> rendezvous s nodes' = Some w) /\
  ((forall n, n ∈ nodes -> n ∈ nodes') -> exists w', rendezvous s nodes' = Some w' /\ (w' ∈ nodes -> w' = w)).
Proof.
  intros Hinj Hall Hall' Hw. pose proof (rendezvous_spec s nodes) as H1. rw Hw in H1. destruct H1 as [Hin Hmax].
  pose proof (rendezvous_spec s nodes') as H2.
  destruct (rendezvous s nodes') as [v|].
  - destruct H2 as [Hv Hvmax]. split; intros Hsub.
    + intros Hw'. f_equal. apply Hinj; [by auto|by auto|].
      apply bytes_le_antisym; [by apply Hmax, Hsub|by apply Hvmax].
    + exists v. split; [done|]. intros Hvn. apply Hinj; [by auto|by auto|].
      apply bytes_le_antisym; [by apply Hmax|by apply Hvmax, Hsub].
  - subst. split; [intros _ Hn; by apply elem_of_nil in Hn|]. intros Hsub. apply Hsub in Hin. by apply elem_of_nil in Hin.
Qed.

(** The router's count of its own requests on a node is the number of
    guards alive, as long as there are fewer than 2^32, whatever the order in
    which requests to all nodes start and end; the queue estimate is never below
    it nor below the heartbeat's. *)
Lemma inflight_exact st es n :
  rs_inflight st = ∅ -> (0 <= live_guards (node_id n) es < 2 ^ 32)%Z ->
  let st' := foldl guard_apply st es in
  node_inflight st' (node_id n) = live_guards (node_id n) es /\
  effective_queue st' n = Z.max (queue_depth n) (live_guards (node_id n) es).
Proof.
  intros He Hr st'. assert (node_inflight st' (node_id n) = live_guards (node_id n) es) as Hi
    by (rw /st' inflight_mod // Z.mod_small //).
  split; [done|]. by rw /effective_queue Hi.
Qed.

(** Each signal of the score is clamped: it is between zero and one, or not
    a number, and the capacity and power signals fall back to zero and one when
    the node reports no blocks and no peer draws power. *)
Lemma score_signals_bounded policy n queue overlap pmax :
  let s := score_node policy n queue overlap pmax in
  (forall x, x = s_load s \/ x = s_power s \/ x = s_capacity s ->
     is_nan x = true \/ (f32_le f32_zero x = true /\ f32_le x f32_one = true)) /\
  (node_total_blocks n = 0%Z -> s_capacity s = f32_zero) /\
  (f32_lt f32_zero pmax = false -> s_power s = f32_one).
Proof.
  cbn zeta. assert (forall x, is_nan (f32_clamp x f32_zero f32_one) = true \/
    (f32_le f32_zero (f32_clamp x f32_zero f32_one) = true /\ f32_le (f32_clamp x f32_zero f32_one) f32_one = true)) as Hc.
  { intros x. destruct (is_nan x) eqn:E; [left; by rw f32_clamp_nan|right; by apply f32_clamp_bounds]. }
  rw /score_node. cbn [s_load s_power s_capacity]. split; [|split].
  - intros x [->|[->| ->]]; [apply Hc|destruct (f32_lt _ pmax); [apply Hc|by right]|].
    destruct (0 <? node_total_blocks n)%Z; [apply Hc|by right].
  - by intros ->.
  - by intros ->.
Qed.
End claims.

(** ** Witnesses *)

Module Examples.
Import Cluster.Examples.

#[local] Existing Instance list_order.
#[local] Instance toy : Blake3 := toy_blake3.

Definition env0 : HostEnv := mkHostEnv (Some "host") None "01234567".

Definition big (id : string) (r : Z) (vram : Z) : NodeEntry :=
  mkNode id "http://n:7070" r None (Some "llama3") 0 500 1000 f32_one f32_zero "NVIDIA H100" "nvidia" vram false 0 true false [] 0.

Definition weights : RoutingPolicy := mkPolicy f32_one f32_one f32_one f32_one f32_one.

Definition cluster_of (p : RoutingPolicy) (ns : list NodeEntry) : ClusterState :=
  mkCluster (foldr (fun n r => NodeRegistry_upsert r n) ∅ ns) (PrefixIndex_new 60) ∅ p.

(** A configuration whose model needs 40000 MiB. *)
Definition needs_vram : Config :=
  let c := Config_default env0 in
  let m := {| mo_cascade := []; mo_prefill_replicas := 1; mo_decode_replicas := 2; mo_tp := 1; mo_max_model_len := None;
    mo_extra_args := []; mo_tokenizer := None; mo_tokenizer_repo := None; mo_lora := ∅; mo_path := None;
    mo_pipeline := None; mo_min_vram_mb := Some 40000%Z; mo_require_gpu := None |} in
  {| cfg_cluster := cfg_cluster c; cfg_router := cfg_router c; cfg_agent := cfg_agent c; cfg_engine := cfg_engine c;
     cfg_kv := cfg_kv c; cfg_security := cfg_security c; cfg_metrics := cfg_metrics c; cfg_auth := cfg_auth c;
     cfg_carbon := cfg_carbon c; cfg_models := {["llama3" := m]} |}.

Definition state_of (p : RoutingPolicy) (ns : list NodeEntry) : RouterState :=
  mkRouterState needs_vram (cluster_of p ns) ∅ false.

Definition key0 : RouteKey := mkRouteKey "llama3" "llama3" None [1%Z; 2%Z; 3%Z].

Lemma pick_is_argmax_witness :
  exists d, pick_excluding (state_of weights [big "a" 3 81000; big "b" 3 24000]) 0 key0 RoleBoth [] = Ok d /\
    f32_ge (s_total (d_score d)) (s_total (d_score d)) = true.
Proof.
  destruct (pick_excluding (state_of weights [big "a" 3 81000; big "b" 3 24000]) 0 key0 RoleBoth []) as [d|e] eqn:E;
    [|vm_compute in E; discriminate E].
  exists d. split; [reflexivity|].
  destruct (pick_is_argmax _ _ _ _ _ d E) as [Hmax _].
  assert (candidates_for (state_of weights [big "a" 3 81000; big "b" 3 24000]) (k_model key0) RoleBoth [] = [big "a" 3 81000])
    as Hc by (vm_compute; reflexivity).
  rw Hc in Hmax. destruct Hmax as [Ht Hall].
  - intros n ->%list_elem_of_singleton. vm_compute. reflexivity.
  - assert (d_node d = big "a" 3 81000) as Hd by (vm_compute in E; injection E as <-; reflexivity).
    rw {2}Ht Hd. apply Hall. by left.
Defined.

Lemma rendezvous_stable_witness :
  rendezvous "s" [big "b" 3 1; big "a" 3 1] = rendezvous "s" [big "a" 3 1; big "b" 3 1].
Proof.
  destruct (rendezvous "s" [big "a" 3 1; big "b" 3 1]) as [w|] eqn:E; [|vm_compute in E; discriminate E].
  apply (rendezvous_stable "s" [big "a" 3 1; big "b" 3 1] [big "a" 3 1; big "b" 3 1] [big "b" 3 1; big "a" 3 1] w); [..|exact E| |].
  - intros x y [->|[->|[]%elem_of_nil]%elem_of_cons]%elem_of_cons [->|[->|[]%elem_of_nil]%elem_of_cons]%elem_of_cons Heq;
      first [reflexivity | vm_compute in Heq; discriminate Heq].
  - auto.
  - intros x. rw !elem_of_cons. tauto.
  - intros x. rw !elem_of_cons. tauto.
  - vm_compute in E. injection E as <-. rw !elem_of_cons. vm_compute. tauto.
Defined.

Definition trace : list guard_event := [GuardTaken "a"; GuardTaken "b"; GuardTaken "a"; GuardDropped "a"].

Lemma inflight_exact_witness : node_inflight (foldl guard_apply (state_of weights []) trace) "a" = 1%Z.
Proof.
  assert (0 <= live_guards "a" trace < 2 ^ 32)%Z as Hr by (vm_compute; split; [discriminate|reflexivity]).
  pose proof (inflight_exact (state_of weights []) trace (big "a" 3 1) eq_refl Hr) as [Hi _].
  change (node_id (big "a" 3 1)) with "a" in Hi. rw Hi. reflexivity.
Defined.

(** A disaggregated pair ignores the model's GPU constraints on the decode
    side: with [min_vram_mb = 40000] the decode node picked here reports 24000
    MiB, although [pick_excluding] would refuse every node of that role. *)
Lemma pair_ignores_capability :
  exists st key p d, pick_pair st 0 key RolePrefill RoleDecode [] = Ok (p, d) /\
    capable st (k_model key) (d_node p) = true /\ capable st (k_model key) (d_node d) = false /\
    exists e, pick_excluding st 0 key RoleDecode [] = Err e.
Proof.
  exists (state_of weights [big "p" 1 81000; big "d" 2 24000]), key0.
  destruct (pick_pair (state_of weights [big "p" 1 81000; big "d" 2 24000]) 0 key0 RolePrefill RoleDecode []) as [[p d]|e] eqn:E;
    [|vm_compute in E; discriminate E].
  exists p, d. split; [reflexivity|]. vm_compute in E. injection E as <- <-.
  split; [vm_compute; reflexivity|]. split; [vm_compute; reflexivity|]. eexists. vm_compute. reflexivity.
Qed.
End Examples.
