(* ===== verification/Admission.v ===== *)
(** * Admission control

    [cgn-router/src/admission.rs]: the slot pool of one (model, role), its
    per-tenant wait queues, and the waiters. A parked request is a numbered
    waiter with a one-shot channel: [Parked] while its receiver is open,
    [Sent] when a slot is in the channel and nobody has taken it yet, [Granted]
    when the waiter holds the permit, [Closed] when it timed out or was dropped
    before a slot came, [Leaked] when it was dropped with the slot in the
    channel. Every critical section is one step. *)

From S2P Require Import Prelude Float32 Config Cluster.

(** ** State *)

Inductive WStatus := Parked | Sent | Granted | Closed | Leaked.

#[export] Instance WStatus_eq_dec : EqDecision WStatus.
Proof. solve_decision. Defined.

Record PoolInner := mkPoolInner {
  inflight : Z;
  waiting : gmap string (list nat);
  turn : list string;
}.

Definition PoolInner_default : PoolInner := mkPoolInner 0 ∅ [].

(** The pool and everybody who uses it. *)
Record System := mkSystem {
  pool : PoolInner;
  status : gmap nat WStatus;
  permits : Z;
  next_waiter : nat;
}.

(** ** Operations *)

Section admission.
Context (max_queue : Z) (wait_queue_per_tenant : nat).

(** The turn after a waiter of [tenant] was popped, [q] being what is left of
    its queue. *)
Definition after_pop (g : PoolInner) (tenant : string) (ts : list string) (q : list nat) : PoolInner :=
  match q with
  | [] => mkPoolInner (inflight g) (delete tenant (waiting g)) ts
  | _ => mkPoolInner (inflight g) (<[tenant := q]> (waiting g)) (ts ++ [tenant])
  end.

(** [Pool::release]: every turn of the loop pops a tenant, and a waiter unless
    the tenant's queue is gone; [tx.send(())] succeeds on an open receiver. *)
Fixpoint release_loop (fuel : nat) (g : PoolInner) (ws : gmap nat WStatus) : PoolInner * gmap nat WStatus :=
  match fuel with
  | O => (g, ws)
  | S fuel =>
      match turn g with
      | [] => (mkPoolInner (Z.max 0 (inflight g - 1)) (waiting g) [], ws)
      | tenant :: ts =>
          match waiting g !! tenant with
          | None => release_loop fuel (mkPoolInner (inflight g) (waiting g) ts) ws
          | Some queue =>
              let g := after_pop g tenant ts (tail queue) in
              match head queue with
              | Some w => if decide (ws !! w = Some Parked) then (g, <[w := Sent]> ws) else release_loop fuel g ws
              | None => release_loop fuel g ws
              end
          end
      end
  end.

Definition queued_total (m : gmap string (list nat)) : nat := map_fold (fun _ q acc => length q + acc) 0 m.

Definition release (g : PoolInner) (ws : gmap nat WStatus) : PoolInner * gmap nat WStatus :=
  release_loop (S (length (turn g) + queued_total (waiting g))) g ws.

(** A slot is free and nobody is ahead in line. *)
Definition can_admit (g : PoolInner) : bool := (inflight g <? max_queue)%Z && bool_decide (turn g = []).

(** [try_admit]. *)
Definition try_admit (s : System) : System * bool :=
  let g := pool s in
  if can_admit g then (mkSystem (mkPoolInner (inflight g + 1) (waiting g) (turn g)) (status s) (permits s + 1) (next_waiter s), true)
  else (s, false).

Inductive AdmitResult := AdmitOk | QueueFull | Waiting (w : nat).

(** The critical section of [admit] after the fast path failed. *)
Definition admit_slow (tenant : string) (s : System) : System * AdmitResult :=
  let g := pool s in
  if can_admit g then ((try_admit s).1, AdmitOk)
  else
    let queue := default [] (waiting g !! tenant) in
    if (wait_queue_per_tenant <=? length queue)%nat then
      (mkSystem (mkPoolInner (inflight g) (match queue with [] => delete tenant (waiting g) | _ => waiting g end) (turn g))
         (status s) (permits s) (next_waiter s), QueueFull)
    else
      let w := next_waiter s in
      let queue := queue ++ [w] in
      let turn := if (length queue =? 1)%nat then turn g ++ [tenant] else turn g in
      (mkSystem (mkPoolInner (inflight g) (<[tenant := queue]> (waiting g)) turn)
         (<[w := Parked]> (status s)) (permits s) (S w), Waiting w).

Definition set_status (w : nat) (st : WStatus) (dpermits : Z) (s : System) : System :=
  mkSystem (pool s) (<[w := st]> (status s)) (permits s + dpermits) (next_waiter s).

(** The waiter's side: the slot arrives ([Ok(Ok(()))]); the timer fires, with a
    last look into the channel; the request is dropped while it waits. *)
Definition receive (w : nat) (s : System) : System :=
  if decide (status s !! w = Some Sent) then set_status w Granted 1 s else s.

Definition time_out (w : nat) (s : System) : System :=
  if decide (status s !! w = Some Sent) then set_status w Granted 1 s
  else if decide (status s !! w = Some Parked) then set_status w Closed 0 s else s.

Definition cancel (w : nat) (s : System) : System :=
  if decide (status s !! w = Some Sent) then set_status w Leaked 0 s
  else if decide (status s !! w = Some Parked) then set_status w Closed 0 s else s.

(** [Permit::drop]. *)
Definition drop_permit (s : System) : System :=
  if (0 <? permits s)%Z then
    let (g, ws) := release (pool s) (status s) in mkSystem g ws (permits s - 1) (next_waiter s)
  else s.

Inductive action :=
| ATry
| AAdmit (tenant : string)
| AReceive (w : nat)
| ATimeout (w : nat)
| ACancel (w : nat)
| ADrop.

Definition act (s : System) (a : action) : System :=
  match a with
  | ATry => (try_admit s).1
  | AAdmit tenant => (admit_slow tenant s).1
  | AReceive w => receive w s
  | ATimeout w => time_out w s
  | ACancel w => cancel w s
  | ADrop => drop_permit s
  end.

Definition start_pool : System := mkSystem PoolInner_default ∅ 0 0.
Definition run (actions : list action) : System := foldl act start_pool actions.
End admission.

(** [role_for_dispatch]. *)
Definition role_for_dispatch (cfg : Config) (prompt_tokens : Z) : NodeRole :=
  let d := rc_disagg (cfg_router cfg) in
  if dis_enabled d && (dis_colocate_below_tokens d <=? prompt_tokens)%Z then RoleDecode else RoleBoth.

Definition role_label (role : Z) : string :=
  match default RoleUnspecified (role_of_i32 role) with
  | RolePrefill => "prefill"
  | RoleDecode => "decode"
  | RoleBoth => "both"
  | RoleUnspecified => "unspecified"
  end.

(** ** Invariant *)

(** Waiter [w] is in [tenant]'s queue, at position [i]. *)
Definition queued_at (m : gmap string (list nat)) (tenant : string) (i w : nat) : Prop :=
  exists q, m !! tenant = Some q /\ q !! i = Some w.

Definition count_status (st : WStatus) (ws : gmap nat WStatus) : Z :=
  Z.of_nat (size (filter (fun p : nat * WStatus => p.2 = st) ws)).

Lemma count_insert_new st st' w ws :
  ws !! w = None -> count_status st (<[w := st']> ws) = (count_status st ws + if decide (st' = st) then 1 else 0)%Z.
Proof.
  intros Hw. rw /count_status. destruct (decide (st' = st)) as [<-|Hne].
  - rw map_filter_insert_True // map_size_insert_None; [|lia]. rw map_lookup_filter_None. by left.
  - rw map_filter_insert_False // delete_id //. lia.
Qed.

Lemma count_insert st st' st0 w ws :
  ws !! w = Some st0 ->
  count_status st (<[w := st']> ws) =
  (count_status st ws + (if decide (st' = st) then 1 else 0) - (if decide (st0 = st) then 1 else 0))%Z.
Proof.
  intros Hw. rw -{2}(insert_delete_id ws w st0 Hw) -(insert_delete_eq ws w st').
  rw !count_insert_new ?lookup_delete_eq //. lia.
Qed.

Lemma count_nonneg st ws : (0 <= count_status st ws)%Z.
Proof. rw /count_status. lia. Qed.

(** The part of the invariant about queues and turn. *)
Record queue_inv (cap : nat) (g : PoolInner) : Prop := {
  qi_turn : NoDup (turn g);
  qi_dom : forall t, t ∈ turn g <-> is_Some (waiting g !! t);
  qi_nonempty : forall t q, waiting g !! t = Some q -> q <> [] /\ length q <= cap;
  qi_unique : forall t1 i1 t2 i2 w, queued_at (waiting g) t1 i1 w -> queued_at (waiting g) t2 i2 w -> t1 = t2 /\ i1 = i2;
}.

(** The part about waiters: a queued waiter is parked or closed, a parked one is
    queued. *)
Record waiter_inv (m : gmap string (list nat)) (ws : gmap nat WStatus) : Prop := {
  wi_queued : forall t i w, queued_at m t i w -> ws !! w = Some Parked \/ ws !! w = Some Closed;
  wi_parked : forall w, ws !! w = Some Parked -> exists t i, queued_at m t i w;
}.

Definition fresh_inv (s : System) : Prop := forall w, is_Some (status s !! w) -> w < next_waiter s.

Definition slots (s : System) : Z := (permits s + count_status Sent (status s) + count_status Leaked (status s))%Z.

Record adm_inv (max : Z) (cap : nat) (s : System) : Prop := {
  ai_queue : queue_inv cap (pool s);
  ai_waiter : waiter_inv (waiting (pool s)) (status s);
  ai_fresh : fresh_inv s;
  ai_permits : (0 <= permits s)%Z;
  ai_slots : inflight (pool s) = slots s;
  ai_max : (inflight (pool s) <= max)%Z;
  ai_line : turn (pool s) <> [] -> inflight (pool s) = max;
}.

(** ** Popping a waiter *)

Lemma queued_total_delete m t q : m !! t = Some q -> queued_total m = length q + queued_total (delete t m).
Proof. intros Hm. rw /queued_total (map_fold_delete_L _ _ t q m) //. intros. lia. Qed.

Lemma queued_total_insert m t q : m !! t = None -> queued_total (<[t := q]> m) = length q + queued_total m.
Proof. intros Hm. rw /queued_total map_fold_insert_L //. intros. lia. Qed.

Lemma after_pop_total g t ts w q :
  waiting g !! t = Some (w :: q) -> S (queued_total (waiting (after_pop g t ts q))) = queued_total (waiting g).
Proof.
  intros Hm. rw (queued_total_delete _ _ _ Hm). destruct q as [|x q]; cbn [after_pop waiting]; [done|].
  rw -insert_delete_eq queued_total_insert ?lookup_delete_eq //.
Qed.

Lemma queued_after_pop g t ts w q t' i w' :
  waiting g !! t = Some (w :: q) ->
  queued_at (waiting (after_pop g t ts q)) t' i w' <->
  queued_at (waiting g) t' (if decide (t' = t) then S i else i) w'.
Proof.
  intros Hm. rw /queued_at. destruct (decide (t' = t)) as [->|Hne].
  - rw Hm. destruct q as [|x q]; cbn [after_pop waiting].
    + rw lookup_delete_eq. split; [by intros (? & ? & _)|]. by intros (q' & [= <-] & Hl).
    + rw lookup_insert_eq. split; intros (q' & [= <-] & Hl); by eexists.
  - destruct q as [|x q]; cbn [after_pop waiting]; [rw lookup_delete_ne //|rw lookup_insert_ne //].
Qed.

Lemma queue_inv_pop cap g t ts w q :
  queue_inv cap g -> turn g = t :: ts -> waiting g !! t = Some (w :: q) -> queue_inv cap (after_pop g t ts q).
Proof.
  intros Hg Ht Hm. pose proof Hg as [Hnd Hdom Hne Huniq]. rw Ht in Hnd Hdom. apply NoDup_cons in Hnd as [Htn Hnd].
  destruct (Hne t _ Hm) as [_ Hcap]. split.
  - destruct q; cbn [after_pop turn]; [done|]. apply NoDup_app. split; [done|]. split; [|by apply NoDup_singleton].
    by intros x Hx ->%list_elem_of_singleton.
  - intros t'. specialize (Hdom t'). rw elem_of_cons in Hdom. destruct q as [|x q]; cbn [after_pop turn waiting].
    + rw lookup_delete. case_decide; subst; [|naive_solver]. split; [done|by intros []].
    + rw elem_of_app list_elem_of_singleton lookup_insert. case_decide; subst; naive_solver.
  - intros t' q' Hq'. destruct q as [|x q]; cbn [after_pop waiting] in Hq'.
    + apply lookup_delete_Some in Hq' as [_ Hq']. by apply (Hne t').
    + apply lookup_insert_Some in Hq' as [[<- <-]|[_ Hq']]; [|by apply (Hne t')]. split; [done|]. simpl in *. lia.
  - intros t1 i1 t2 i2 w' H1 H2. rw (queued_after_pop g t ts w q) // in H1. rw (queued_after_pop g t ts w q) // in H2.
    destruct (Huniq _ _ _ _ _ H1 H2) as [-> Hi]. split; [done|]. case_decide; lia.
Qed.

(** Whatever becomes of the popped waiter, as long as it is no longer parked. *)
Lemma waiter_inv_pop cap g t ts w q ws ws' :
  queue_inv cap g -> waiting g !! t = Some (w :: q) -> waiter_inv (waiting g) ws ->
  (forall w', w' <> w -> ws' !! w' = ws !! w') -> ws' !! w <> Some Parked ->
  waiter_inv (waiting (after_pop g t ts q)) ws'.
Proof.
  intros Hg Hm [Hq Hp] Hsame Hw. assert (queued_at (waiting g) t 0 w) as H0 by (by exists (w :: q)). split.
  - intros t' i w' Hin. rw (queued_after_pop g t ts w q) // in Hin.
    assert (w' <> w) as Hne.
    { intros ->. destruct (qi_unique cap g Hg _ _ _ _ _ Hin H0) as [-> Hi]. by rw decide_True in Hi. }
    rw Hsame //. by eapply Hq.
  - intros w' Hw'. assert (w' <> w) as Hne by (by intros ->). rw Hsame // in Hw'.
    destruct (Hp w' Hw') as (t' & i & Hin). exists t'.
    destruct (decide (t' = t)) as [->|Ht].
    + destruct i as [|i]; [destruct Hin as (q' & Hq' & Hl); rw Hm in Hq'; by simplify_eq/=|].
      exists i. rw (queued_after_pop g t ts w q) // decide_True //.
    + exists i. rw (queued_after_pop g t ts w q) // decide_False //.
Qed.

(** [release]: a slot goes to a parked waiter if there is one. *)
Lemma release_loop_spec cap fuel : forall g ws,
  queue_inv cap g -> waiter_inv (waiting g) ws -> queued_total (waiting g) < fuel ->
  let (g', ws') := release_loop fuel g ws in
  queue_inv cap g' /\ waiter_inv (waiting g') ws' /\
  ((exists w, ws !! w = Some Parked /\ ws' = <[w := Sent]> ws /\ inflight g' = inflight g) \/
   ((forall w, ws !! w <> Some Parked) /\ ws' = ws /\ turn g' = [] /\ inflight g' = Z.max 0 (inflight g - 1))).
Proof.
  induction fuel as [|fuel IH]; intros g ws Hg Hw Hfuel; [lia|]. cbn [release_loop].
  destruct (turn g) as [|t ts] eqn:Ht.
  - split; [|split; [done|]].
    + destruct Hg. rw Ht in qi_turn0 qi_dom0. by split.
    + right. split; [|done]. intros w Hp. destruct (wi_parked _ _ Hw w Hp) as (t & i & q & Hq & _).
      assert (t ∈ turn g) as Hin by (by apply (qi_dom cap g Hg); eexists). rw Ht in Hin. by apply elem_of_nil in Hin.
  - assert (is_Some (waiting g !! t)) as [q Hq] by (apply (qi_dom cap g Hg); rw Ht; left). rw Hq.
    destruct q as [|w q]; [by destruct (qi_nonempty cap g Hg t [] Hq)|]. cbn [head tail].
    pose proof (queue_inv_pop cap g t ts w q Hg Ht Hq) as Hg'.
    destruct (decide (ws !! w = Some Parked)) as [Hp|Hp].
    + split; [done|]. split.
      * apply (waiter_inv_pop cap g t ts w q ws); auto; [intros w' Hne; by rw lookup_insert_ne|by rw lookup_insert_eq].
      * left. exists w. split; [done|]. split; [done|]. by destruct q.
    + specialize (IH (after_pop g t ts q) ws Hg').
      pose proof (after_pop_total g t ts w q Hq) as Htot.
      destruct (release_loop fuel _ ws) as [g' ws']. destruct IH as (I1 & I2 & I3).
      * by apply (waiter_inv_pop cap g t ts w q ws).
      * lia.
      * split; [done|]. split; [done|]. assert (inflight (after_pop g t ts q) = inflight g) as Hi by by destruct q.
        by rw Hi in I3.
Qed.

Lemma slot_release_spec cap g ws :
  queue_inv cap g -> waiter_inv (waiting g) ws ->
  let (g', ws') := release g ws in
  queue_inv cap g' /\ waiter_inv (waiting g') ws' /\
  ((exists w, ws !! w = Some Parked /\ ws' = <[w := Sent]> ws /\ inflight g' = inflight g) \/
   ((forall w, ws !! w <> Some Parked) /\ ws' = ws /\ turn g' = [] /\ inflight g' = Z.max 0 (inflight g - 1))).
Proof. intros Hg Hw. apply release_loop_spec; auto. lia. Qed.

(** ** Every action preserves the invariant *)

Section steps.
Context (max : Z) (cap : nat).
Implicit Types s : System.

Lemma waiter_inv_status m ws w st0 st :
  waiter_inv m ws -> ws !! w = Some st0 -> st <> Parked -> (st0 = Parked /\ st = Closed \/ st0 = Sent) ->
  waiter_inv m (<[w := st]> ws).
Proof.
  intros [Hq Hp] Hw Hst Hcase. split.
  - intros t i w' Hin. destruct (decide (w = w')) as [<-|Hne]; [|rw lookup_insert_ne //; by eapply Hq].
    rw lookup_insert_eq. destruct Hcase as [[_ ->]| ->]; [by right|]. by destruct (Hq _ _ _ Hin); simplify_map_eq.
  - intros w' Hw'. apply Hp. destruct (decide (w = w')) as [<-|Hne]; [by rw lookup_insert_eq in Hw'; simplify_eq|].
    by rw lookup_insert_ne in Hw'.
Qed.

Lemma fresh_inv_status s w st d : fresh_inv s -> is_Some (status s !! w) -> fresh_inv (set_status w st d s).
Proof.
  intros Hf Hw w'. cbn. destruct (decide (w = w')) as [<-|Hne]; [by auto|]. rw lookup_insert_ne //. apply Hf.
Qed.

Lemma adm_inv_status s w st0 st d :
  adm_inv max cap s -> status s !! w = Some st0 -> st <> Parked -> (st0 = Parked /\ st = Closed \/ st0 = Sent) ->
  (0 <= d)%Z -> slots (set_status w st d s) = slots s -> adm_inv max cap (set_status w st d s).
Proof.
  intros [] Hw Hst Hcase Hd Hsl. split; cbn; auto; [by eapply waiter_inv_status|by apply fresh_inv_status|lia|].
  by rw -/(set_status w st d s) Hsl.
Qed.

Lemma slots_set_status s w st0 st d :
  status s !! w = Some st0 ->
  slots (set_status w st d s) =
  (slots s + d + (if decide (st = Sent) then 1 else 0) - (if decide (st0 = Sent) then 1 else 0)
    + (if decide (st = Leaked) then 1 else 0) - (if decide (st0 = Leaked) then 1 else 0))%Z.
Proof. intros Hw. rw /slots /=. rw !(count_insert _ _ _ _ _ Hw). lia. Qed.

Lemma adm_inv_receive s w : adm_inv max cap s -> adm_inv max cap (receive w s).
Proof.
  intros Hv. rw /receive. case_decide as Hw; [|done].
  apply (adm_inv_status s w Sent); auto; [done|]. rw (slots_set_status _ _ _ _ _ Hw) /=. lia.
Qed.

Lemma adm_inv_time_out s w : adm_inv max cap s -> adm_inv max cap (time_out w s).
Proof.
  intros Hv. rw /time_out. case_decide as Hw; [|case_decide as Hw2; [|done]].
  - apply (adm_inv_status s w Sent); auto; [done|]. rw (slots_set_status _ _ _ _ _ Hw) /=. lia.
  - apply (adm_inv_status s w Parked); auto; [done|]. rw (slots_set_status _ _ _ _ _ Hw2) /=. lia.
Qed.

Lemma adm_inv_cancel s w : adm_inv max cap s -> adm_inv max cap (cancel w s).
Proof.
  intros Hv. rw /cancel. case_decide as Hw; [|case_decide as Hw2; [|done]].
  - apply (adm_inv_status s w Sent); auto; [done|]. rw (slots_set_status _ _ _ _ _ Hw) /=. lia.
  - apply (adm_inv_status s w Parked); auto; [done|]. rw (slots_set_status _ _ _ _ _ Hw2) /=. lia.
Qed.

Lemma adm_inv_try s : adm_inv max cap s -> adm_inv max cap (try_admit max s).1.
Proof.
  intros Hv. rw /try_admit /can_admit. destruct (Z.ltb_spec (inflight (pool s)) max); [|done].
  destruct (bool_decide_reflect (turn (pool s) = [])) as [Ht|]; [|done]. destruct Hv as [[] ? ? ? Hsl ? ?]. cbn [fst andb].
  split; cbn; auto; [by split|lia|rw /slots /= in Hsl |- *; lia|lia|by rw Ht].
Qed.

(** Appending a fresh waiter to a tenant's queue. *)
Lemma queue_inv_push g t w (q := default [] (waiting g !! t)) ts :
  queue_inv cap g -> length q < cap -> (forall t' i, ~ queued_at (waiting g) t' i w) ->
  ts = (if (length (q ++ [w]) =? 1)%nat then turn g ++ [t] else turn g) ->
  queue_inv cap (mkPoolInner (inflight g) (<[t := q ++ [w]]> (waiting g)) ts).
Proof.
  intros [Hnd Hdom Hne Huniq] Hcap Hw ->.
  assert (is_Some (waiting g !! t) <-> length (q ++ [w]) <> 1) as Hone.
  { rw /q length_app /=. destruct (waiting g !! t) as [q0|] eqn:E; cbn; [|split; [by intros []|lia]].
    destruct (Hne t q0 E) as [Hq0 _]. destruct q0; [done|]. simpl. split; [lia|done]. }
  assert (t ∈ turn g <-> length (q ++ [w]) <> 1) as Hin by by rw Hdom.
  split; cbn [turn waiting].
  - destruct (Nat.eqb_spec (length (q ++ [w])) 1) as [H1|]; [|done]. apply NoDup_app. split; [done|].
    split; [|by apply NoDup_singleton]. intros x Hx ->%list_elem_of_singleton. by apply Hin in Hx.
  - intros t'. rw lookup_insert. destruct (decide (t = t')) as [<-|Ht].
    + split; [done|]. intros _. destruct (Nat.eqb_spec (length (q ++ [w])) 1); [rw elem_of_app; right; by left|by apply Hin].
    + rw -Hdom. destruct (_ =? _)%nat; [rw elem_of_app list_elem_of_singleton; naive_solver|done].
  - intros t' q' [[<- <-]|[_ Hq']]%lookup_insert_Some; [|by apply (Hne t')]. rw length_app /=. split; [by destruct q|lia].
  - assert (forall t' i w', queued_at (<[t := q ++ [w]]> (waiting g)) t' i w' ->
      (queued_at (waiting g) t' i w' /\ w' <> w) \/ (t' = t /\ i = length q /\ w' = w)) as Hold.
    { intros t' i w' (q' & Hq' & Hl). apply lookup_insert_Some in Hq' as [[<- <-]|[_ Hq']].
      - apply lookup_snoc_Some in Hl as [[Hi Hl]|[-> ->]]; [left|by right].
        assert (queued_at (waiting g) t i w') as Hqa.
        { rw /q in Hl. destruct (waiting g !! t) as [q0|] eqn:E; [by exists q0|]. by rw lookup_nil in Hl. }
        split; [done|]. intros ->. by eapply Hw.
      - left. assert (queued_at (waiting g) t' i w') as Hqa by by exists q'. split; [done|]. intros ->. by eapply Hw. }
    intros t1 i1 t2 i2 w' [[H1 Hn1]|(-> & -> & ->)]%Hold [[H2 Hn2]|(-> & -> & Hw2)]%Hold; try done. by eapply Huniq.
Qed.

Lemma adm_inv_slow s tenant : adm_inv max cap s -> adm_inv max cap (admit_slow max cap tenant s).1.
Proof.
  intros Hv. rw /admit_slow. destruct (can_admit max (pool s)) eqn:Eca; [by apply adm_inv_try|].
  pose proof Hv as [Hq Hwi Hf Hp Hsl Hmax Hline].
  assert (inflight (pool s) = max) as Hfull.
  { rw /can_admit in Eca. apply andb_false_iff in Eca as [?%Z.ltb_ge|?%bool_decide_eq_false]; [lia|auto]. }
  destruct (Nat.leb_spec cap (length (default [] (waiting (pool s) !! tenant)))) as [Hle|Hlt].
  - cbn. assert (match default [] (waiting (pool s) !! tenant) with [] => delete tenant (waiting (pool s)) | _ => waiting (pool s) end
      = waiting (pool s)) as ->.
    { destruct (waiting (pool s) !! tenant) as [q|] eqn:E; cbn; [|by apply delete_id].
      destruct (qi_nonempty cap _ Hq _ _ E) as [Hn _]. by destruct q. }
    by destruct s as [[] ? ? ?].
  - set (w := next_waiter s) in *.
    assert (status s !! w = None) as Hw.
    { apply eq_None_not_Some. intros Hs. specialize (Hf w Hs). lia. }
    assert (forall t' i, ~ queued_at (waiting (pool s)) t' i w) as Hnq.
    { intros t' i Hin. destruct (wi_queued _ _ Hwi _ _ _ Hin) as [E|E]; by rw Hw in E. }
    cbn [fst]. split; cbn; auto.
    + by apply queue_inv_push.
    + split.
      * intros t i w' (q' & Hq' & Hl). destruct (decide (w = w')) as [<-|Hne]; [rw lookup_insert_eq; by left|].
        rw lookup_insert_ne //. apply (wi_queued _ _ Hwi t i).
        apply lookup_insert_Some in Hq' as [[<- <-]|[_ Hq']]; [|by exists q'].
        apply lookup_snoc_Some in Hl as [[Hi Hl]|[_ <-]]; [|done].
        destruct (waiting (pool s) !! tenant) as [q0|] eqn:E; [by exists q0|]. by rw lookup_nil in Hl.
      * intros w' Hw'. destruct (decide (w = w')) as [<-|Hne].
        -- exists tenant, (length (default [] (waiting (pool s) !! tenant))), (default [] (waiting (pool s) !! tenant) ++ [w]).
           split; [by rw lookup_insert_eq|]. apply lookup_snoc_Some. by right.
        -- rw lookup_insert_ne // in Hw'. destruct (wi_parked _ _ Hwi w' Hw') as (t & i & q' & Hq' & Hl). exists t, i.
           destruct (decide (tenant = t)) as [<-|Ht].
           ++ exists (q' ++ [w]). rw lookup_insert_eq Hq' /=. split; [done|]. apply lookup_app_l_Some. done.
           ++ exists q'. by rw lookup_insert_ne.
    + intros w'. cbn. destruct (decide (w = w')) as [<-|Hne]; [intros _; lia|]. rw lookup_insert_ne //. intros Hs.
      specialize (Hf w' Hs). lia.
    + rw /slots /= !count_insert_new //= in Hsl |- *. lia.
Qed.

Lemma adm_inv_drop s : adm_inv max cap s -> adm_inv max cap (drop_permit s).
Proof.
  intros Hv. rw /drop_permit. destruct (Z.ltb_spec 0 (permits s)) as [Hpos|]; [|done].
  pose proof Hv as [Hq Hwi Hf Hp Hsl Hmax Hline]. pose proof (slot_release_spec cap (pool s) (status s) Hq Hwi) as Hr.
  destruct (release (pool s) (status s)) as [g ws]. destruct Hr as (Hq' & Hwi' & Hcase).
  pose proof (count_nonneg Sent (status s)). pose proof (count_nonneg Leaked (status s)).
  destruct Hcase as [(w & Hw & -> & Hi)|(Hno & -> & Ht & Hi)].
  - split; cbn; auto; try lia.
    + intros w'. cbn. destruct (decide (w = w')) as [<-|Hne]; [intros _; apply Hf; by eexists|]. rw lookup_insert_ne //. apply Hf.
    + rw Hi Hsl /slots /= !(count_insert _ _ _ _ _ Hw) /=. lia.
    + intros _. rw Hi. apply Hline. destruct (wi_parked _ _ Hwi w Hw) as (t & i & q & Hqt & _).
      intros Hnil. assert (t ∈ turn (pool s)) as Hin by (apply (qi_dom cap _ Hq); by eexists). rw Hnil in Hin. by apply elem_of_nil in Hin.
  - rw /slots in Hsl. split; cbn; auto; try (rw /slots /=; lia). by rw Ht.
Qed.

Lemma adm_inv_act s a : adm_inv max cap s -> adm_inv max cap (act max cap s a).
Proof.
  destruct a; cbn [act];
    auto using adm_inv_try, adm_inv_slow, adm_inv_receive, adm_inv_time_out, adm_inv_cancel, adm_inv_drop.
Qed.

Lemma adm_inv_run actions : (0 <= max)%Z -> adm_inv max cap (run max cap actions).
Proof.
  intros Hmax. rw /run. assert (adm_inv max cap start_pool) as H0.
  { split; cbn; try done.
    - split; cbn; [by apply NoDup_nil_2|intros t; rw lookup_empty elem_of_nil; split; [done|by intros []]|done|].
      by intros t1 i1 t2 i2 w (q & Hq & _).
    - split; [by intros t i w (q & Hq & _)|done].
    - by intros w []. }
  revert H0. generalize start_pool. induction actions as [|a l IH]; intros s Hs; cbn; auto using adm_inv_act.
Qed.
End steps.

(** A leaked slot stays leaked. *)
Lemma leaked_mono max cap s a :
  adm_inv max cap s -> (count_status Leaked (status s) <= count_status Leaked (status (act max cap s a)))%Z.
Proof.
  intros [Hq Hwi Hf _ _ _ _]. destruct a as [|t|w|w|w|]; cbn [act].
  - rw /try_admit. by destruct (can_admit _ _).
  - rw /admit_slow /try_admit. destruct (can_admit _ _); [done|]. destruct (_ <=? _)%nat; [done|]. cbn.
    assert (status s !! next_waiter s = None) as Hn
      by (apply eq_None_not_Some; intros Hs; specialize (Hf _ Hs); lia).
    rw count_insert_new //=. lia.
  - rw /receive. case_decide as Hw; [|done]. cbn. rw (count_insert _ _ _ _ _ Hw) /=. lia.
  - rw /time_out. case_decide as Hw; [|case_decide as Hw2; [|done]]; cbn; rw (count_insert _ _ _ _ _ ltac:(eassumption)) /=; lia.
  - rw /cancel. case_decide as Hw; [|case_decide as Hw2; [|done]]; cbn; rw (count_insert _ _ _ _ _ ltac:(eassumption)) /=; lia.
  - rw /drop_permit. destruct (_ <? _)%Z; [|done].
    pose proof (slot_release_spec cap (pool s) (status s) Hq Hwi) as Hr. destruct (release _ _) as [g ws].
    destruct Hr as (_ & _ & [(w & Hw & -> & _)|(_ & -> & _)]); cbn; [|done]. rw (count_insert _ _ _ _ _ Hw) /=. lia.
Qed.

(** ** Properties *)

(** C14. Whatever requests arrive, finish, time out or are dropped, in any
    order: every slot in use is held by a permit, is on its way to a waiter or
    was leaked; the pool never exceeds its size; no slot is idle while a live
    request waits; a tenant never parks more than its cap; and the turn lists
    each tenant with a queue once. *)
Theorem admission_invariant max cap actions :
  (0 <= max)%Z ->
  let s := run max cap actions in
  inflight (pool s) = (permits s + count_status Sent (status s) + count_status Leaked (status s))%Z /\
  (0 <= inflight (pool s) <= max)%Z /\
  (forall w, status s !! w = Some Parked -> inflight (pool s) = max) /\
  (forall t q, waiting (pool s) !! t = Some q -> q <> [] /\ length q <= cap) /\
  NoDup (turn (pool s)) /\ (forall t, t ∈ turn (pool s) <-> is_Some (waiting (pool s) !! t)).
Proof.
  intros Hmax s. pose proof (adm_inv_run max cap actions Hmax) as Hv. fold s in Hv. destruct Hv.
  pose proof (count_nonneg Sent (status s)). pose proof (count_nonneg Leaked (status s)).
  split; [done|]. split; [rw /slots in ai_slots0; lia|]. split.
  - intros w Hw. apply ai_line0. destruct (wi_parked _ _ ai_waiter0 w Hw) as (t & i & q & Hq & _).
    intros Hnil. assert (t ∈ turn (pool s)) as Hin by (apply (qi_dom cap _ ai_queue0); by eexists).
    rw Hnil in Hin. by apply elem_of_nil in Hin.
  - by destruct ai_queue0.
Qed.


(** A slot is lost when a parked request is dropped after the slot was put
    in its channel and before it took it: with one slot, two requests and that
    interleaving, nobody holds a permit or waits, yet the pool is full and
    refuses every request from then on. *)
Lemma cancelled_waiter_leaks_slot :
  let s := run 1 4 [AAdmit "a"; AAdmit "b"; ADrop; ACancel 0] in
  permits s = 0%Z /\ (forall w, status s !! w <> Some Parked /\ status s !! w <> Some Sent) /\
  inflight (pool s) = 1%Z /\
  forall l,
    inflight (pool (foldl (act 1 4) s l)) = 1%Z /\ permits (foldl (act 1 4) s l) = 0%Z.
Proof.
  cbn zeta. set (s := run 1 4 [AAdmit "a"; AAdmit "b"; ADrop; ACancel 0]).
  assert (permits s = 0 /\ inflight (pool s) = 1 /\ count_status Leaked (status s) = 1 /\ count_status Sent (status s) = 0)%Z
    as (Hp & Hi & Hl & Hse) by (by vm_compute).
  split; [done|]. split.
  { assert (status s = {[0 := Leaked]}) as -> by (by vm_compute). intros w.
    destruct (decide (w = 0)) as [->|Hne]; [by rw lookup_singleton_eq|by rw lookup_singleton_ne]. }
  split; [done|]. intros l.
  assert (forall l, adm_inv 1 4 (foldl (act 1 4) s l)) as Hinv.
  { intros l0. rw /s /run -foldl_app. by apply (adm_inv_run 1 4). }
  assert (forall l, (1 <= count_status Leaked (status (foldl (act 1 4) s l)))%Z) as Hleak.
  { clearbody s. induction l0 as [|a l0 IH] using rev_ind; [cbn; lia|]. rw foldl_snoc.
    pose proof (leaked_mono 1 4 _ a (Hinv l0)). lia. }
  destruct (Hinv l) as [_ _ _ Hp1 Hsl Hm _]. specialize (Hleak l). rw /slots in Hsl.
  pose proof (count_nonneg Sent (status (foldl (act 1 4) s l))). lia.
Qed.

(** ** Witnesses *)

Definition example_actions : list action := [AAdmit "a"; AAdmit "a"; AAdmit "a"; AAdmit "b"; ATimeout 0].

Lemma admission_invariant_witness :
  status (run 1 4 example_actions) !! 2 = Some Parked /\ inflight (pool (run 1 4 example_actions)) = 1%Z.
Proof.
  split; [reflexivity|].
  destruct (admission_invariant 1 4 example_actions ltac:(lia)) as (_ & _ & Hw & _). apply (Hw 2). reflexivity.
Defined.

