(* ===== verification/KvStore.v ===== *)
(** * The KV block store

    [cgn-kv] ([block.rs], [tier.rs], [ssd.rs], [index.rs]) and
    [cgn-kvcached/src/tiers.rs]. The block index is an interface with two
    implementations, as in the source: the DashMap of dev builds and RocksDB
    keyed by [digest || layer]; the store is written and verified against the
    interface. Disk and RocksDB calls can fail: a [Faults] value says which.
    Bytes are lists of [Z]; times are seconds. *)

From stdpp Require Import pretty.
From S2P Require Import Prelude Hash Float32.

(** ** Blocks *)

Record BlockAddress := mkAddr { digest : list Z; layer : Z }.

#[export] Instance BlockAddress_eq_dec : EqDecision BlockAddress.
Proof. solve_decision. Defined.
#[export] Instance BlockAddress_countable : Countable BlockAddress.
Proof.
  refine (inj_countable' (fun a => (digest a, layer a)) (fun p => mkAddr p.1 p.2) _). by intros [].
Defined.

(** What [[u8; 32]] and [u32] guarantee. *)
Definition addr_valid (a : BlockAddress) : Prop :=
  length (digest a) = 32 /\ Forall (fun b => (0 <= b < 256)%Z) (digest a) /\ is_u32 (layer a).

Inductive TierKind := Gpu | Ram | Ssd.

#[export] Instance TierKind_eq_dec : EqDecision TierKind.
Proof. solve_decision. Defined.

Record BlockMeta := mkMeta {
  bm_model : string;
  bm_layer : Z;
  bm_bytes : Z;
  bm_created_unix : Z;
  bm_last_seen_unix : Z;
  bm_tier : TierKind;
}.

Record BlockHandle := mkHandle { bh_meta : BlockMeta; bh_addr : BlockAddress }.

(** ** The RAM tier *)

Record RamSlot := mkSlot { slot_bytes : list Z; slot_last : Z }.

Record RamTier := mkRam { ram_inner : gmap BlockAddress RamSlot; ram_capacity : Z; ram_used : Z }.

(** The iteration order of the tier's DashMap. *)
Class RamIter := {
  ram_iter : gmap BlockAddress RamSlot -> list (BlockAddress * RamSlot);
  ram_iter_perm : forall m, ram_iter m ≡ₚ map_to_list m;
}.

Definition blen (bs : list Z) : Z := Z.of_nat (length bs).

Definition RamTier_new (capacity : Z) : RamTier := mkRam ∅ capacity 0.

(** A read touches the slot's timestamp. *)
Definition ram_touch (now : Z) (a : BlockAddress) (t : RamTier) : RamTier :=
  mkRam (alter (fun s => mkSlot (slot_bytes s) now) a (ram_inner t)) (ram_capacity t) (ram_used t).

Definition RamTier_get_bytes (now : Z) (a : BlockAddress) (t : RamTier) : RamTier * option (list Z) :=
  match ram_inner t !! a with
  | None => (t, None)
  | Some s => (ram_touch now a t, Some (slot_bytes s))
  end.

Definition RamTier_get (now : Z) (a : BlockAddress) (t : RamTier) : RamTier * option BlockHandle :=
  match ram_inner t !! a with
  | None => (t, None)
  | Some s => (ram_touch now a t, Some (mkHandle (mkMeta "" (layer a) (blen (slot_bytes s)) 0 now Ram) a))
  end.

Definition RamTier_contains (a : BlockAddress) (t : RamTier) : bool := bool_decide (is_Some (ram_inner t !! a)).

Definition RamTier_put (now : Z) (a : BlockAddress) (bytes : list Z) (t : RamTier) : RamTier * bool :=
  let prev := ram_inner t !! a in
  let used := add_u64 (ram_used t) (blen bytes) in
  let used := match prev with Some p => sub_u64 used (blen (slot_bytes p)) | None => used end in
  (mkRam (<[a := mkSlot bytes now]> (ram_inner t)) (ram_capacity t) used, bool_decide (is_Some prev)).

Definition RamTier_evict (a : BlockAddress) (t : RamTier) : RamTier :=
  match ram_inner t !! a with
  | None => t
  | Some s => mkRam (delete a (ram_inner t)) (ram_capacity t) (sub_u64 (ram_used t) (blen (slot_bytes s)))
  end.

Definition block_count (t : RamTier) : nat := size (ram_inner t).

(** [sort_by_key] on the timestamp. *)
Definition colder (x y : BlockAddress * RamSlot) : Prop := (slot_last x.2 <= slot_last y.2)%Z.
#[export] Instance colder_dec x y : Decision (colder x y).
Proof. unfold colder. apply _. Defined.

Definition coldest `{RamIter} (n : nat) (t : RamTier) : list BlockAddress :=
  (take n (merge_sort colder (ram_iter (ram_inner t)))).*1.

(** ** The SSD tier *)

(** Files and left-over temporary files by name. *)
Record SsdTier := mkSsd { ssd_files : gmap string (list Z); ssd_tmp : gmap string (list Z); ssd_capacity : Z }.

(** [hash_short] is [short] of [Hash]: the first eight bytes. *)
Definition path_for (a : BlockAddress) : string := short (digest a) +:+ "-" +:+ pretty (layer a) +:+ ".kvb".

Inductive WriteOutcome := WriteOk | WriteTmpFails | RenameFails.

Record Faults := mkFaults {
  f_read : BlockAddress -> bool;
  f_write : BlockAddress -> WriteOutcome;
  f_unlink : BlockAddress -> bool;
  f_index : bool;
}.

Definition no_faults : Faults := mkFaults (fun _ => true) (fun _ => WriteOk) (fun _ => true) true.

Section ssd.
Context (f : Faults).

Definition SsdTier_read (a : BlockAddress) (t : SsdTier) : result (option (list Z)) unit :=
  if f_read f a then Ok (ssd_files t !! path_for a) else Err tt.

Definition SsdTier_write (a : BlockAddress) (bytes : list Z) (t : SsdTier) : SsdTier * bool :=
  match f_write f a with
  | WriteTmpFails => (t, false)
  | RenameFails => (mkSsd (ssd_files t) (<[path_for a := bytes]> (ssd_tmp t)) (ssd_capacity t), false)
  | WriteOk => (mkSsd (<[path_for a := bytes]> (ssd_files t)) (delete (path_for a) (ssd_tmp t)) (ssd_capacity t), true)
  end.

Definition SsdTier_evict (a : BlockAddress) (t : SsdTier) : SsdTier * bool :=
  if f_unlink f a then (mkSsd (delete (path_for a) (ssd_files t)) (ssd_tmp t) (ssd_capacity t), true) else (t, false).
End ssd.

Definition SsdTier_used_bytes (t : SsdTier) : Z :=
  (map_fold (fun _ b acc => blen b + acc) 0 (ssd_files t) + map_fold (fun _ b acc => blen b + acc) 0 (ssd_tmp t))%Z.

(** ** The index interface *)

Class BlockIndex := {
  ix : Type;
  ix_empty : ix;
  ix_put : BlockAddress -> BlockMeta -> ix -> ix;
  ix_get : BlockAddress -> ix -> option BlockMeta;
  ix_delete : BlockAddress -> ix -> ix;
  ix_scan : ix -> list (BlockAddress * BlockMeta);
}.

Class BlockIndexLaws `{BlockIndex} := {
  ix_get_empty : forall a, ix_get a ix_empty = None;
  ix_get_put : forall a b m i, addr_valid a -> addr_valid b -> ix_get b (ix_put a m i) = if decide (a = b) then Some m else ix_get b i;
  ix_get_delete : forall a b i, addr_valid a -> addr_valid b -> ix_get b (ix_delete a i) = if decide (a = b) then None else ix_get b i;
  ix_scan_empty : ix_scan ix_empty = [];
  ix_scan_put : forall a m i x, addr_valid a -> x ∈ ix_scan (ix_put a m i) -> x = (a, m) \/ x ∈ ix_scan i;
  ix_scan_delete : forall a i x, x ∈ ix_scan (ix_delete a i) -> x ∈ ix_scan i;
  ix_get_scan : forall a m i, addr_valid a -> ix_get a i = Some m -> (a, m) ∈ ix_scan i;
}.

(** [IndexImpl] without the [persistent-index] feature. *)
Definition DashIndex : BlockIndex := {|
  ix := gmap BlockAddress BlockMeta;
  ix_empty := ∅;
  ix_put a m i := <[a := m]> i;
  ix_get a i := i !! a;
  ix_delete a i := delete a i;
  ix_scan i := map_to_list i;
|}.

(** RocksDB: a map from byte strings; [key_of] is the address and the scan
    decodes the keys of 36 bytes. [bincode] is third-party and taken to give
    back what it was given. *)
Definition key_of (a : BlockAddress) : list Z := digest a ++ to_le_bytes (layer a).

Definition from_le_bytes (b : list Z) : Z :=
  match b with [b0; b1; b2; b3] => b0 + 256 * b1 + 65536 * b2 + 16777216 * b3 | _ => 0 end%Z.

Definition addr_of_key (k : list Z) : option BlockAddress :=
  if (length k =? 36)%nat then Some (mkAddr (take 32 k) (from_le_bytes (drop 32 k))) else None.

Definition RocksIndex : BlockIndex := {|
  ix := gmap (list Z) BlockMeta;
  ix_empty := ∅;
  ix_put a m i := <[key_of a := m]> i;
  ix_get a i := i !! key_of a;
  ix_delete a i := delete (key_of a) i;
  ix_scan i := omap (fun km => (fun a => (a, km.2)) <$> addr_of_key km.1) (map_to_list i);
|}.

(** ** The store *)

(** The last two counters belong to the QUIC transport. *)
Record KvStats := mkKvStats {
  hits : Z;
  misses : Z;
  evictions : Z;
  spills : Z;
  bytes_pushed : Z;
  bytes_pulled : Z;
}.
Definition KvStats_default : KvStats := mkKvStats 0 0 0 0 0 0.

Section store.
Context `{BlockIndex} `{RamIter}.

Record Store := mkStore { st_ram : RamTier; st_ssd : SsdTier; st_index : ix; st_stats : KvStats }.

Definition set_ram (r : RamTier) (s : Store) : Store := mkStore r (st_ssd s) (st_index s) (st_stats s).
Definition set_ssd (d : SsdTier) (s : Store) : Store := mkStore (st_ram s) d (st_index s) (st_stats s).
Definition set_index (i : ix) (s : Store) : Store := mkStore (st_ram s) (st_ssd s) i (st_stats s).
Definition set_stats (k : KvStats) (s : Store) : Store := mkStore (st_ram s) (st_ssd s) (st_index s) k.
Definition count_hit (s : Store) : Store :=
  let k := st_stats s in
  set_stats (mkKvStats (add_u64 (hits k) 1) (misses k) (evictions k) (spills k) (bytes_pushed k) (bytes_pulled k)) s.
Definition count_miss (s : Store) : Store :=
  let k := st_stats s in
  set_stats (mkKvStats (hits k) (add_u64 (misses k) 1) (evictions k) (spills k) (bytes_pushed k) (bytes_pulled k)) s.
Definition count_eviction (s : Store) : Store :=
  let k := st_stats s in
  set_stats (mkKvStats (hits k) (misses k) (add_u64 (evictions k) 1) (spills k) (bytes_pushed k) (bytes_pulled k)) s.
Definition count_spill (s : Store) : Store :=
  let k := st_stats s in
  set_stats (mkKvStats (hits k) (misses k) (evictions k) (add_u64 (spills k) 1) (bytes_pushed k) (bytes_pulled k)) s.

Definition Store_open (ram_gib ssd_gib : Z) : Store :=
  mkStore (RamTier_new (ram_gib * 1024 * 1024 * 1024)) (mkSsd ∅ ∅ (ssd_gib * 1024 * 1024 * 1024)) ix_empty KvStats_default.

(** [Store::open] on the directories an earlier process left, with the
    persistent index. *)
Definition Store_reopen (s : Store) : Store :=
  mkStore (RamTier_new (ram_capacity (st_ram s))) (st_ssd s) (st_index s) KvStats_default.

Definition meta_of (now : Z) (model : string) (a : BlockAddress) (bytes : list Z) (t : TierKind) : BlockMeta :=
  mkMeta model (layer a) (blen bytes) now now t.

(** [index.put] and [index.delete]; a failure leaves the index alone. *)
Definition index_put (f : Faults) (a : BlockAddress) (m : BlockMeta) (s : Store) : Store * bool :=
  if f_index f then (set_index (ix_put a m (st_index s)) s, true) else (s, false).
Definition index_delete (f : Faults) (a : BlockAddress) (s : Store) : Store * bool :=
  if f_index f then (set_index (ix_delete a (st_index s)) s, true) else (s, false).
Definition index_get (f : Faults) (a : BlockAddress) (s : Store) : option BlockMeta :=
  if f_index f then ix_get a (st_index s) else None.

Definition Store_lookup (f : Faults) (now : Z) (a : BlockAddress) (s : Store) : Store * option BlockHandle :=
  let (r, h) := RamTier_get now a (st_ram s) in
  match h with
  | Some h => (count_hit (set_ram r s), Some h)
  | None =>
      match index_get f a s with
      | Some m => (count_hit s, Some (mkHandle m a))
      | None => (count_miss s, None)
      end
  end.

Definition lookup_with_promote (f : Faults) (now : Z) (a : BlockAddress) (s : Store) : Store * option (list Z) :=
  let (r, b) := RamTier_get_bytes now a (st_ram s) in
  match b with
  | Some b => (count_hit (set_ram r s), Some b)
  | None =>
      match SsdTier_read f a (st_ssd s) with
      | Ok (Some b) =>
          let s := count_hit s in
          let s := set_ram (RamTier_put now a b (st_ram s)).1 s in
          ((index_put f a (meta_of now "" a b Ram) s).1, Some b)
      | _ => (count_miss s, None)
      end
  end.

Definition put_ram (f : Faults) (now : Z) (a : BlockAddress) (bytes : list Z) (model : string) (s : Store) : Store * bool :=
  let s := set_ram (RamTier_put now a bytes (st_ram s)).1 s in
  index_put f a (meta_of now model a bytes Ram) s.

Definition spill_to_ssd (f : Faults) (now : Z) (a : BlockAddress) (model : string) (s : Store) : Store * bool :=
  let (r, b) := RamTier_get_bytes now a (st_ram s) in
  match b with
  | None => (s, true)
  | Some b =>
      let s := set_ram r s in
      let (d, ok) := SsdTier_write f a b (st_ssd s) in
      let s := set_ssd d s in
      if ok then
        let s := set_ram (RamTier_evict a (st_ram s)) s in
        index_put f a (meta_of now model a b Ssd) s
      else (s, false)
  end.

Definition Store_forget (f : Faults) (a : BlockAddress) (s : Store) : Store * bool :=
  let s := set_ram (RamTier_evict a (st_ram s)) s in
  let (d, ok) := SsdTier_evict f a (st_ssd s) in
  let s := set_ssd d s in
  if ok then index_delete f a s else (s, false).

(** One victim of the spill loop. *)
Definition spill_victim (f : Faults) (now : Z) (s : Store) (a : BlockAddress) : Store :=
  let model := default "" (bm_model <$> index_get f a s) in
  let (s, ok) := spill_to_ssd f now a model s in
  if ok then count_spill s else s.

(** The spill loop: every turn that does not end it strictly lowers the number
    of bytes in use, hence the number of blocks. *)
Fixpoint spill_loop (fuel : nat) (f : Faults) (now target : Z) (s : Store) : Store :=
  match fuel with
  | O => s
  | S fuel =>
      if (target <? ram_used (st_ram s))%Z then
        let before := ram_used (st_ram s) in
        match coldest 32 (st_ram s) with
        | [] => s
        | victims =>
            let s := foldl (spill_victim f now) s victims in
            if (before <=? ram_used (st_ram s))%Z then s else spill_loop fuel f now target s
        end
      else s
  end.

(** The TTL pass over a scan of the index. *)
Definition expired (now ssd_ttl_secs : Z) (m : BlockMeta) : bool :=
  bool_decide (bm_tier m = Ssd) && (ssd_ttl_secs <? sat_sub now (bm_last_seen_unix m))%Z.

Definition ttl_pass (f : Faults) (now ssd_ttl_secs : Z) (s : Store) : Store :=
  foldl (fun s am =>
    if expired now ssd_ttl_secs am.2 then
      let (s, ok) := Store_forget f am.1 s in if ok then count_eviction s else s
    else s) s (ix_scan (st_index s)).

(** [(cap as f64 * high_watermark as f64) as u64]. *)
Definition spill_target (cap : Z) (high_watermark : f32) : Z :=
  u64_of_float (f64_mul (f64_of_Z cap) (f64_of_f32 high_watermark)).

Definition spill_pass (f : Faults) (now : Z) (high_watermark : f32) (s : Store) : Store :=
  let cap := ram_capacity (st_ram s) in
  let target := spill_target cap high_watermark in
  if (0 <? cap)%Z then spill_loop (S (block_count (st_ram s))) f now target s else s.

Definition evict_pass (f : Faults) (now : Z) (high_watermark : f32) (ssd_ttl_secs : Z) (s : Store) : Store :=
  let s := spill_pass f now high_watermark s in
  if (ssd_ttl_secs =? 0)%Z then s else ttl_pass f now ssd_ttl_secs s.

Definition cold_block_count (s : Store) : nat :=
  length (List.filter (fun am => bool_decide (bm_tier am.2 = Ssd)) (ix_scan (st_index s))).
End store.

(** ** The two implementations satisfy the interface *)

#[export] Instance DashIndex_laws : @BlockIndexLaws DashIndex.
Proof.
  split; cbn; intros.
  - apply lookup_empty.
  - apply lookup_insert.
  - apply lookup_delete.
  - by rw map_to_list_empty.
  - destruct x as [b m']. rw !elem_of_map_to_list lookup_insert in H0 |- *. case_decide; naive_solver.
  - destruct x as [b m']. rw !elem_of_map_to_list lookup_delete in H |- *. by case_decide.
  - by apply elem_of_map_to_list.
Qed.

Lemma from_to_le_bytes z : is_u32 z -> from_le_bytes (to_le_bytes z) = z.
Proof.
  rw /is_u32 /u32_max /from_le_bytes /to_le_bytes => Hz. change 255%Z with (Z.ones 8). rw !Z.land_ones // !Z.shiftr_div_pow2 //.
  change (2 ^ 8)%Z with 256%Z. change (2 ^ 16)%Z with (256 * 256)%Z. change (2 ^ 24)%Z with (256 * 256 * 256)%Z.
  rw -!Z.div_div //. pose proof (Z.div_mod z 256). pose proof (Z.div_mod (z / 256) 256).
  pose proof (Z.div_mod (z / 256 / 256) 256).
  assert (z / 256 / 256 / 256 < 256)%Z by (do 3 (apply Z.div_lt_upper_bound; [lia|]); lia).
  assert (0 <= z / 256 / 256 / 256)%Z by (do 3 (apply Z.div_pos; [|lia]); lia).
  rw (Z.mod_small (z / 256 / 256 / 256)) //. lia.
Qed.

Lemma addr_of_key_of a : addr_valid a -> addr_of_key (key_of a) = Some a.
Proof.
  intros (Hl & _ & Hz). rw /addr_of_key /key_of length_app Hl. cbn [to_le_bytes length plus Nat.eqb].
  rw (take_app_length' (digest a)) // (drop_app_length' (digest a)) // from_to_le_bytes //. by destruct a.
Qed.

Lemma key_of_inj a b : addr_valid a -> addr_valid b -> key_of a = key_of b -> a = b.
Proof. intros Ha Hb Heq. apply addr_of_key_of in Ha, Hb. rw Heq in Ha. congruence. Qed.

Lemma rocks_scan (x : BlockAddress * BlockMeta) (i : @ix RocksIndex) :
  x ∈ @ix_scan RocksIndex i <-> exists k, (i : gmap (list Z) BlockMeta) !! k = Some x.2 /\ addr_of_key k = Some x.1.
Proof.
  cbn. rw list_elem_of_omap. split.
  - intros ([k m] & Hin & (a & Ha & ->)%fmap_Some). exists k. by apply elem_of_map_to_list in Hin.
  - intros (k & Hk & Ha). exists (k, x.2). split; [by apply elem_of_map_to_list|]. cbn. rw Ha. by destruct x.
Qed.

#[export] Instance RocksIndex_laws : @BlockIndexLaws RocksIndex.
Proof.
  split.
  - intros a. apply lookup_empty.
  - intros a b m i Ha Hb. cbn. rw lookup_insert. repeat case_decide; subst; auto; [|done].
    exfalso. by apply key_of_inj in H.
  - intros a b i Ha Hb. cbn. rw lookup_delete. repeat case_decide; subst; auto; [|done].
    exfalso. by apply key_of_inj in H.
  - done.
  - intros a m i [b m'] Ha. rw !rocks_scan. intros (k & Hk & Hb). cbn in *. apply lookup_insert_Some in Hk as [[<- <-]|[_ Hk]].
    + rw addr_of_key_of // in Hb. left. congruence.
    + right. by exists k.
  - intros a i [b m']. rw !rocks_scan. intros (k & Hk & Hb). cbn in *. apply lookup_delete_Some in Hk as [_ Hk]. by exists k.
  - intros a m i Ha Hg. apply rocks_scan. exists (key_of a). split; [done|]. by apply addr_of_key_of.
Qed.

(** ** RAM accounting *)

Definition ram_sum (m : gmap BlockAddress RamSlot) : Z := map_fold (fun _ s acc => (blen (slot_bytes s) + acc)%Z) 0%Z m.

Lemma ram_sum_delete m a s : m !! a = Some s -> ram_sum m = (blen (slot_bytes s) + ram_sum (delete a m))%Z.
Proof. intros Hm. rw /ram_sum (map_fold_delete_L _ _ a s m) //. intros. lia. Qed.

Lemma ram_sum_insert m a s : m !! a = None -> ram_sum (<[a := s]> m) = (blen (slot_bytes s) + ram_sum m)%Z.
Proof. intros Hm. rw /ram_sum map_fold_insert_L //. intros. lia. Qed.

Lemma ram_sum_nonneg m : (0 <= ram_sum m)%Z.
Proof.
  induction m as [|a s m Hm IH] using map_ind; [done|]. rw ram_sum_insert //. rw /blen. lia.
Qed.

(** The counter is the number of resident bytes, modulo the counter's width. *)
Definition ram_wf (t : RamTier) : Prop := ram_used t = (ram_sum (ram_inner t) mod 2 ^ 64)%Z.

Lemma ram_wf_touch now a t : ram_wf t -> ram_wf (ram_touch now a t).
Proof.
  rw /ram_wf /ram_touch /= => ->. f_equal. destruct (ram_inner t !! a) as [s|] eqn:E.
  - rw (ram_sum_delete _ a s E) (ram_sum_delete (alter _ a (ram_inner t)) a (mkSlot (slot_bytes s) now)).
    + by rw lookup_alter_eq E.
    + by rw delete_alter_eq.
  - rw alter_id //. by rw E.
Qed.

Lemma ram_wf_put now a bytes t : ram_wf t -> ram_wf (RamTier_put now a bytes t).1.
Proof.
  rw /ram_wf /RamTier_put /= => ->. rw -(insert_delete_eq (ram_inner t)) ram_sum_insert ?lookup_delete_eq //=.
  destruct (ram_inner t !! a) as [s|] eqn:E.
  - rw (ram_sum_delete _ a s E) /sub_u64 /add_u64 Zplus_mod_idemp_l Zminus_mod_idemp_l. f_equal. lia.
  - rw delete_id // /add_u64 Zplus_mod_idemp_l. f_equal. lia.
Qed.

Lemma ram_wf_evict a t : ram_wf t -> ram_wf (RamTier_evict a t).
Proof.
  rw /ram_wf /RamTier_evict => Hu. destruct (ram_inner t !! a) as [s|] eqn:E; [|done]. cbn.
  rw Hu (ram_sum_delete _ a s E) /sub_u64 Zminus_mod_idemp_l. f_equal. lia.
Qed.

#[export] Hint Resolve ram_wf_touch ram_wf_put ram_wf_evict : cgn.

(** ** What the primitives do to the contents *)

Lemma ram_touch_bytes now a t b : slot_bytes <$> ram_inner (ram_touch now a t) !! b = slot_bytes <$> ram_inner t !! b.
Proof.
  cbn. destruct (decide (a = b)) as [<-|Hne]; [|by rw lookup_alter_ne].
  rw lookup_alter_eq. by destruct (ram_inner t !! a).
Qed.

Lemma ram_evict_inner a t : ram_inner (RamTier_evict a t) = delete a (ram_inner t).
Proof. rw /RamTier_evict. destruct (ram_inner t !! a) eqn:E; [done|]. by rw delete_id. Qed.

Section facts.
Context `{BlockIndex} `{!BlockIndexLaws} `{RamIter}.

(** The bytes of [a] in RAM and in [a]'s file. *)
Definition rb (s : Store) (a : BlockAddress) : option (list Z) := slot_bytes <$> ram_inner (st_ram s) !! a.
Definition fl (s : Store) (a : BlockAddress) : option (list Z) := ssd_files (st_ssd s) !! path_for a.

Lemma RamTier_get_bytes_spec now a t :
  (RamTier_get_bytes now a t).2 = (slot_bytes <$> ram_inner t !! a) /\
  (forall b, slot_bytes <$> ram_inner (RamTier_get_bytes now a t).1 !! b = slot_bytes <$> ram_inner t !! b) /\
  (ram_wf t -> ram_wf (RamTier_get_bytes now a t).1) /\ ram_capacity (RamTier_get_bytes now a t).1 = ram_capacity t /\
  ram_used (RamTier_get_bytes now a t).1 = ram_used t.
Proof.
  rw /RamTier_get_bytes. destruct (ram_inner t !! a) as [s|] eqn:E; [|done]. cbn [fst snd].
  split; [done|]. split; [apply ram_touch_bytes|]. split; [apply ram_wf_touch|done].
Qed.

(** The effect of an operation on what the store holds for [b]: RAM bytes, file
    and index entry. *)
Lemma index_put_view f a m s :
  st_ram (index_put f a m s).1 = st_ram s /\ st_ssd (index_put f a m s).1 = st_ssd s /\
  st_index (index_put f a m s).1 = (if f_index f then ix_put a m (st_index s) else st_index s) /\
  (index_put f a m s).2 = f_index f.
Proof. rw /index_put. by destruct (f_index f). Qed.

Lemma put_ram_view f now a bytes model s :
  let s' := (put_ram f now a bytes model s).1 in
  (forall b, rb s' b = if decide (a = b) then Some bytes else rb s b) /\ st_ssd s' = st_ssd s /\
  st_index s' = (if f_index f then ix_put a (meta_of now model a bytes Ram) (st_index s) else st_index s) /\
  (ram_wf (st_ram s) -> ram_wf (st_ram s')).
Proof.
  rw /put_ram. set (s1 := set_ram _ s). destruct (index_put_view f a (meta_of now model a bytes Ram) s1) as (Hr & Hd & Hi & _).
  rw /rb Hr Hd Hi. split; [|split; [done|split; [done|apply ram_wf_put]]].
  intros b. cbn. rw lookup_insert. by case_decide.
Qed.

Lemma promote_view f now a s :
  let s' := (lookup_with_promote f now a s).1 in
  let r := (lookup_with_promote f now a s).2 in
  r = (match rb s a with Some b => Some b | None => if f_read f a then fl s a else None end) /\
  (forall b, rb s' b = if decide (a = b) then r ∪ rb s b else rb s b) /\ st_ssd s' = st_ssd s /\
  (st_index s' = st_index s \/ exists b, r = Some b /\ rb s a = None /\ f_index f = true /\ st_index s' = ix_put a (meta_of now "" a b Ram) (st_index s)) /\
  (f_index f = true -> rb s a = None -> forall b, r = Some b -> st_index s' = ix_put a (meta_of now "" a b Ram) (st_index s)) /\
  (rb s a <> None -> st_index s' = st_index s) /\ (r = None -> st_index s' = st_index s) /\
  (ram_wf (st_ram s) -> ram_wf (st_ram s')).
Proof.
  cbn zeta. rw /lookup_with_promote. pose proof (RamTier_get_bytes_spec now a (st_ram s)) as (Hb & Hsame & Hwf & _).
  destruct (RamTier_get_bytes now a (st_ram s)) as [t ob]. cbn in Hb, Hsame, Hwf. rw -/(rb s a) in Hb. rw -Hb.
  destruct ob as [b0|].
  - cbn. split; [done|]. split; [|split; [done|split; [by left|split; [done|split; [done|split; [done|done]]]]]].
    intros b. rw /rb /= Hsame. case_decide; [|done]. subst. rw -/(rb s b) -Hb. done.
  - rw /SsdTier_read. destruct (f_read f a); cbn [fst snd].
    2: { cbn. split; [done|]. split; [|split; [done|split; [by left|split; [done|done]]]]. intros b.
         rw /rb /=. case_decide; [|done]. by destruct (_ <$> _). }
    rw -/(fl s a). destruct (fl s a) as [b0|] eqn:Ef.
    + set (s1 := set_ram _ _). destruct (index_put_view f a (meta_of now "" a b0 Ram) s1) as (Hr & Hd & Hi & _). cbn [fst snd].
      split; [done|]. split; [|split; [by rw Hd|split]].
      * intros b. rw /rb Hr. cbn. rw lookup_insert. case_decide; [|done]. cbn. by destruct (_ <$> _).
      * rw Hi. destruct (f_index f); [right; by exists b0|by left].
      * split; [|split; [done|split; [done|]]]; [intros Hf _ b [= <-]; by rw Hi Hf|]. rw Hr. apply ram_wf_put.
    + cbn. split; [done|]. split; [|split; [done|split; [by left|split; [done|done]]]]. intros b.
      rw /rb /=. case_decide; [|done]. by destruct (_ <$> _).
Qed.

Lemma lookup_view f now a s :
  let s' := (Store_lookup f now a s).1 in
  (forall b, rb s' b = rb s b) /\ st_ssd s' = st_ssd s /\ st_index s' = st_index s /\
  (ram_wf (st_ram s) -> ram_wf (st_ram s')) /\
  (Store_lookup f now a s).2 =
    match rb s a with
    | Some b => Some (mkHandle (mkMeta "" (layer a) (blen b) 0 now Ram) a)
    | None => (fun m => mkHandle m a) <$> index_get f a s
    end.
Proof.
  cbn zeta. rw /Store_lookup /RamTier_get /rb. destruct (ram_inner (st_ram s) !! a) as [sl|] eqn:E; cbn [fst snd fmap option_fmap option_map].
  - split; [intros b; exact (ram_touch_bytes now a (st_ram s) b)|]. split; [done|]. split; [done|]. split; [apply ram_wf_touch|done].
  - destruct (index_get f a s); cbn; done.
Qed.

Lemma spill_view f now a model s :
  let s' := (spill_to_ssd f now a model s).1 in
  (ram_wf (st_ram s) -> ram_wf (st_ram s')) /\ ram_capacity (st_ram s') = ram_capacity (st_ram s) /\
  match rb s a, f_write f a with
  | None, _ => s' = s
  | Some b, WriteOk =>
      (forall c, rb s' c = if decide (a = c) then None else rb s c) /\
      ssd_files (st_ssd s') = <[path_for a := b]> (ssd_files (st_ssd s)) /\
      st_index s' = (if f_index f then ix_put a (meta_of now model a b Ssd) (st_index s) else st_index s)
  | Some _, _ =>
      (forall c, rb s' c = rb s c) /\ ssd_files (st_ssd s') = ssd_files (st_ssd s) /\ st_index s' = st_index s
  end.
Proof.
  cbn zeta. rw /spill_to_ssd. destruct (RamTier_get_bytes_spec now a (st_ram s)) as (Hb & Hsame & Hwf & Hcap & _).
  destruct (RamTier_get_bytes now a (st_ram s)) as [t ob]. cbn in Hb, Hsame, Hwf, Hcap. rw -/(rb s a) in Hb. rw -Hb.
  destruct ob as [b|]; [|done]. rw /SsdTier_write. destruct (f_write f a); cbn [fst snd].
  - set (s1 := set_ram _ _). destruct (index_put_view f a (meta_of now model a b Ssd) s1) as (Hr & Hd & Hi & _).
    rw Hr Hd Hi. split; [intros Hw; by apply ram_wf_evict, Hwf|]. split; [cbn; rw /RamTier_evict; by destruct (ram_inner t !! a)|].
    split; [|done]. intros c. rw /rb Hr. cbn. rw ram_evict_inner lookup_delete. case_decide; [done|]. apply Hsame.
  - split; [done|]. split; [done|]. split; [|done]. intros c. rw /rb. apply Hsame.
  - split; [done|]. split; [done|]. split; [|done]. intros c. rw /rb. apply Hsame.
Qed.

Lemma forget_view f a s :
  let s' := (Store_forget f a s).1 in
  (ram_wf (st_ram s) -> ram_wf (st_ram s')) /\ ram_capacity (st_ram s') = ram_capacity (st_ram s) /\
  (forall c, rb s' c = if decide (a = c) then None else rb s c) /\
  ssd_files (st_ssd s') = (if f_unlink f a then delete (path_for a) (ssd_files (st_ssd s)) else ssd_files (st_ssd s)) /\
  st_index s' = (if f_unlink f a && f_index f then ix_delete a (st_index s) else st_index s).
Proof.
  cbn zeta. rw /Store_forget /SsdTier_evict.
  assert (Hrb : forall c, slot_bytes <$> ram_inner (RamTier_evict a (st_ram s)) !! c = if decide (a = c) then None else rb s c).
  { intros c. rw ram_evict_inner lookup_delete. by case_decide. }
  assert (Hcap : ram_capacity (RamTier_evict a (st_ram s)) = ram_capacity (st_ram s)).
  { rw /RamTier_evict. by destruct (_ !! a). }
  pose proof (ram_wf_evict a (st_ram s)) as Hwf.
  destruct (f_unlink f a); cbn [fst snd andb]; [rw /index_delete; destruct (f_index f)|]; cbn; done.
Qed.
End facts.
