(* ===== verification/KvSpec.v ===== *)
(** * What the KV block store promises

    Traces of store operations with arbitrary disk and index failures, and the
    contract of the store over them: it refines a map from addresses to bytes
    ([ghost]), its byte counter is exact, its index agrees with its contents when
    nothing fails, and the eviction pass ends below its target. *)

From stdpp Require Import pretty.
From S2P Require Import Prelude Hash Float32 KvStore.

(** ** File names

    A file is named by the first eight bytes of the digest and the layer. *)

Definition same_file (a b : BlockAddress) : Prop := take 8 (digest a) = take 8 (digest b) /\ layer a = layer b.

Lemma hex_digit_inj x y : (0 <= x < 16)%Z -> (0 <= y < 16)%Z -> hex_digit x = hex_digit y -> x = y.
Proof.
  assert (Hall : Forall (fun p => hex_digit p.1 = hex_digit p.2 -> p.1 = p.2) (cprod (seqZ 0 16) (seqZ 0 16))) by compute_dec.
  intros Hx Hy. rw Forall_forall in Hall. apply (Hall (x, y)). apply list_elem_of_cprod. by rw !elem_of_seqZ.
Qed.

Lemma hex_byte_inj x y :
  (0 <= x < 256)%Z -> (0 <= y < 256)%Z -> hex_digit (Z.shiftr x 4) = hex_digit (Z.shiftr y 4) ->
  hex_digit (Z.land x 15) = hex_digit (Z.land y 15) -> x = y.
Proof.
  intros Hx Hy Hh Hl. change 15%Z with (Z.ones 4) in Hl. rw !Z.land_ones // in Hl. rw !Z.shiftr_div_pow2 // in Hh.
  change (2 ^ 4)%Z with 16%Z in *. apply hex_digit_inj in Hl; [|by apply Z.mod_pos_bound..].
  apply hex_digit_inj in Hh; [|split; [by apply Z.div_pos; lia|by apply Z.div_lt_upper_bound; lia]..].
  rw (Z.div_mod x 16) // (Z.div_mod y 16) //. congruence.
Qed.

Lemma hex_of_bytes_inj l1 l2 :
  Forall (fun b => (0 <= b < 256)%Z) l1 -> Forall (fun b => (0 <= b < 256)%Z) l2 -> hex_of_bytes l1 = hex_of_bytes l2 -> l1 = l2.
Proof.
  intros H1. revert l2. induction H1 as [|x l1 Hx H1 IH]; intros l2 H2 Heq; destruct H2 as [|y l2 Hy H2]; [done..|].
  cbn in Heq. injection Heq as Hh Hl Heq. f_equal; [by apply hex_byte_inj|by apply IH].
Qed.

Lemma string_app_ascii l s : String.string_of_list_ascii l +:+ s = String.string_of_list_ascii (l ++ String.list_ascii_of_string s).
Proof.
  induction l as [|c l IH]; cbn; [by rw String.string_of_list_ascii_of_string|]. rw -IH. done.
Qed.

Lemma string_app_inj_r (s1 s2 t : string) : s1 +:+ t = s2 +:+ t -> s1 = s2.
Proof.
  intros Heq%(f_equal String.list_ascii_of_string).
  assert (Happ : forall u v, String.list_ascii_of_string (u +:+ v) = String.list_ascii_of_string u ++ String.list_ascii_of_string v).
  { clear. intros u v. induction u as [|c u IH]; cbn; [done|]. by rw -IH. }
  rw !Happ in Heq. apply app_inv_tail in Heq.
  by rw -(String.string_of_list_ascii_of_string s1) Heq String.string_of_list_ascii_of_string.
Qed.

Lemma path_for_iff a b : addr_valid a -> addr_valid b -> path_for a = path_for b <-> same_file a b.
Proof.
  intros (Hla & Hba & _) (Hlb & Hbb & _). split; [|intros [Hd Hl]; by rw /path_for /short Hd Hl].
  rw /path_for /short !string_app_ascii.
  intros Heq%(f_equal String.list_ascii_of_string). rw !String.list_ascii_of_string_of_list_ascii in Heq.
  apply app_inj_1 in Heq as [Hd Hs]; [|rw !length_hex_of_bytes !length_take; lia].
  apply hex_of_bytes_inj in Hd; [|by apply Forall_take..]. split; [done|].
  apply (f_equal String.string_of_list_ascii) in Hs. rw !String.string_of_list_ascii_of_string in Hs.
  injection Hs as Hs. change (pretty (layer a) +:+ ".kvb" = pretty (layer b) +:+ ".kvb") in Hs. by apply string_app_inj_r, (inj pretty) in Hs.
Qed.

(** ** Traces *)

Inductive Op :=
| OpLookup (f : Faults) (now : Z) (a : BlockAddress)
| OpPromote (f : Faults) (now : Z) (a : BlockAddress)
| OpPut (f : Faults) (now : Z) (a : BlockAddress) (bytes : list Z) (model : string)
| OpSpill (f : Faults) (now : Z) (a : BlockAddress) (model : string)
| OpForget (f : Faults) (a : BlockAddress)
| OpEvict (f : Faults) (now : Z) (high_watermark : f32) (ssd_ttl_secs : Z).

Definition op_faults (o : Op) : Faults :=
  match o with
  | OpLookup f _ _ | OpPromote f _ _ | OpPut f _ _ _ _ | OpSpill f _ _ _ | OpForget f _ | OpEvict f _ _ _ => f
  end.

Section spec.
Context `{BlockIndex} `{!BlockIndexLaws} `{RamIter}.

Definition step (s : Store) (o : Op) : Store :=
  match o with
  | OpLookup f now a => (Store_lookup f now a s).1
  | OpPromote f now a => (lookup_with_promote f now a s).1
  | OpPut f now a bytes model => (put_ram f now a bytes model s).1
  | OpSpill f now a model => (spill_to_ssd f now a model s).1
  | OpForget f a => (Store_forget f a s).1
  | OpEvict f now hw ttl => evict_pass f now hw ttl s
  end.

Definition run (s : Store) (ops : list Op) : Store := foldl step s ops.

(** The addresses a TTL pass over this store removes. *)
Definition expiring (now ttl : Z) (s : Store) : list BlockAddress :=
  if (ttl =? 0)%Z then [] else (filter (fun am => expired now ttl am.2) (ix_scan (st_index s))).*1.

(** An invariant of the eviction pass, from its two primitives. *)
Definition stats_blind (P : Store -> Prop) : Prop := forall s k, P s -> P (mkStore (st_ram s) (st_ssd s) (st_index s) k).

Lemma spill_victim_ind (P : Store -> Prop) f now :
  stats_blind P -> (forall s a model, P s -> P (spill_to_ssd f now a model s).1) -> forall s a, P s -> P (spill_victim f now s a).
Proof.
  intros Hb Hs s a HP. rw /spill_victim. set (m := default _ _). specialize (Hs s a m HP).
  destruct (spill_to_ssd f now a m s) as [s' ok]. cbn in Hs. destruct ok; [by apply Hb|done].
Qed.

Lemma spill_loop_ind (P : Store -> Prop) f now target :
  (forall s a, P s -> P (spill_victim f now s a)) -> forall fuel s, P s -> P (spill_loop fuel f now target s).
Proof.
  intros Hv fuel. induction fuel as [|fuel IH]; intros s HP; [done|]. cbn [spill_loop]. case_match; [|done].
  destruct (coldest 32 (st_ram s)) as [|v vs]; [done|]. set (s' := foldl _ _ _).
  assert (P s') by (apply foldl_ind; auto). case_match; auto.
Qed.

Lemma spill_pass_ind (P : Store -> Prop) f now hw :
  stats_blind P -> (forall s a model, P s -> P (spill_to_ssd f now a model s).1) -> forall s, P s -> P (spill_pass f now hw s).
Proof.
  intros Hb Hs s HP. rw /spill_pass. case_match; [|done]. apply spill_loop_ind; [|done]. by apply spill_victim_ind.
Qed.

Lemma evict_pass_ind (P : Store -> Prop) f now hw ttl s :
  stats_blind P -> P (spill_pass f now hw s) ->
  (forall s' a, a ∈ expiring now ttl (spill_pass f now hw s) -> P s' -> P (Store_forget f a s').1) -> P (evict_pass f now hw ttl s).
Proof.
  intros Hb HP Hf. rw /evict_pass. rw /expiring in Hf. destruct (ttl =? 0)%Z; [done|]. rw /ttl_pass.
  apply foldl_ind; [|done]. intros s' [a m] Hin HP'. cbn. destruct (expired now ttl m) eqn:E; [|done].
  assert (Ha : a ∈ (filter (fun am => expired now ttl am.2) (ix_scan (st_index (spill_pass f now hw s)))).*1).
  { apply list_elem_of_fmap. exists (a, m). split; [done|]. apply list_elem_of_filter. by rw E. }
  specialize (Hf s' a Ha HP'). destruct (Store_forget f a s') as [s'' ok]. cbn in Hf. destruct ok; [by apply Hb|done].
Qed.

(** ** RAM accounting *)

Lemma step_ram_wf s o : ram_wf (st_ram s) -> ram_wf (st_ram (step s o)).
Proof.
  intros Hw. destruct o as [f now a|f now a|f now a b m|f now a m|f a|f now hw ttl]; cbn [step].
  - by apply lookup_view.
  - by apply promote_view.
  - by apply put_ram_view.
  - by apply spill_view.
  - by apply forget_view.
  - apply (evict_pass_ind (fun s => ram_wf (st_ram s))); [by intros ??| |intros; by apply forget_view].
    apply (spill_pass_ind (fun s => ram_wf (st_ram s))); [by intros ??| |done]. intros. by apply spill_view.
Qed.

Lemma ram_accounting_run ram_gib ssd_gib ops : ram_wf (st_ram (run (Store_open ram_gib ssd_gib) ops)).
Proof.
  rw /run. apply (foldl_ind (fun s => ram_wf (st_ram s))); [intros; by apply step_ram_wf|]. rw /ram_wf /=. reflexivity.
Qed.

(** RAM accounting: after any sequence of store operations, whatever disk
    and index calls failed, [ram_used] is the number of bytes resident in RAM
    modulo 2^64 (exactly that number while it fits the counter): the wrapping
    atomic additions and subtractions of [put] and [evict] never drift. *)
Lemma ram_accounting ram_gib ssd_gib ops :
  let t := st_ram (run (Store_open ram_gib ssd_gib) ops) in ram_used t = (ram_sum (ram_inner t) mod 2 ^ 64)%Z.
Proof.
  apply ram_accounting_run.
Qed.

(** ** Contents *)

(** The abstract store: a map from addresses to bytes. *)
Definition ghost_step (s : Store) (o : Op) (g : gmap BlockAddress (list Z)) : gmap BlockAddress (list Z) :=
  match o with
  | OpPut _ _ a b _ => <[a := b]> g
  | OpForget _ a => delete a g
  | OpEvict f now hw ttl => foldr delete g (expiring now ttl (spill_pass f now hw s))
  | _ => g
  end.

Definition run_ghost (sg : Store * gmap BlockAddress (list Z)) (ops : list Op) : Store * gmap BlockAddress (list Z) :=
  foldl (fun sg o => (step sg.1 o, ghost_step sg.1 o sg.2)) sg ops.

Lemma run_ghost_run ops sg : (run_ghost sg ops).1 = run sg.1 ops.
Proof. revert sg. induction ops as [|o ops IH]; intros sg; [done|]. cbn. by rw -/(run_ghost _ ops) IH. Qed.

(** The addresses a deployment uses, no two of which share a file. *)
Definition usable (U : BlockAddress -> Prop) : Prop :=
  (forall a, U a -> addr_valid a) /\ (forall a b, U a -> U b -> same_file a b -> a = b).

Definition op_in (U : BlockAddress -> Prop) (o : Op) : Prop :=
  match o with
  | OpLookup _ _ a | OpPromote _ _ a | OpPut _ _ a _ _ | OpSpill _ _ a _ | OpForget _ a => U a
  | OpEvict _ _ _ _ => True
  end.

Definition op_put (o : Op) : option (BlockAddress * list Z) :=
  match o with OpPut _ _ a b _ => Some (a, b) | _ => None end.

Section contents.
Context (U : BlockAddress -> Prop) (HU : usable U).

Lemma usable_path a b : U a -> U b -> a <> b -> path_for a <> path_for b.
Proof. intros Ha Hb Hne Heq. apply path_for_iff in Heq; [|by apply HU..]. by apply Hne, HU. Qed.

(** Where everything is: [W] bounds the bytes held, [g] is what is promised. *)
Record holds (W : BlockAddress -> list Z -> Prop) (g : gmap BlockAddress (list Z)) (s : Store) : Prop := mkHolds {
  h_ram : forall a b, rb s a = Some b -> U a /\ W a b;
  h_file : forall a b, U a -> fl s a = Some b -> W a b;
  h_scan : forall x, x ∈ ix_scan (st_index s) -> U x.1;
  h_kept : forall a b, U a -> g !! a = Some b -> rb s a = Some b \/ (rb s a = None /\ fl s a = Some b);
}.

Lemma holds_mono (W W' : BlockAddress -> list Z -> Prop) g s : (forall a b, W a b -> W' a b) -> holds W g s -> holds W' g s.
Proof. intros HW [Hr Hf Hs Hk]. split; naive_solver. Qed.

Lemma holds_blind W g : stats_blind (holds W g).
Proof. intros s k [Hr Hf Hs Hk]. by split. Qed.

Lemma scan_put_in a m i : U a -> (forall x, x ∈ ix_scan i -> U x.1) -> forall x, x ∈ ix_scan (ix_put a m i) -> U x.1.
Proof. intros Ha Hi x Hx. apply ix_scan_put in Hx as [->|Hx]; [done|by apply Hi|by apply HU]. Qed.

Lemma holds_spill W g f now a model s : holds W g s -> holds W g (spill_to_ssd f now a model s).1.
Proof.
  intros [Hr Hf Hs Hk]. destruct (spill_view f now a model s) as (_ & _ & Hv). destruct (rb s a) as [b|] eqn:Ea; [|by rw Hv].
  destruct (Hr a b Ea) as [Ha HWab].
  destruct (f_write f a).
  2,3: destruct Hv as (Hrb & Hfl & Hix); split; rw /fl ?Hfl ?Hix; [by intros ??; rw Hrb; apply Hr|done|done|by intros ??; rw Hrb; apply Hk].
  destruct Hv as (Hrb & Hfl & Hix). split.
  - intros c b'. rw Hrb. case_decide; [done|apply Hr].
  - intros c b' Hc. rw /fl Hfl. destruct (decide (a = c)) as [<-|Hne]; [rw lookup_insert_eq; by intros [= <-]|].
    rw lookup_insert_ne; [by apply usable_path|]. by apply Hf.
  - rw Hix. destruct (f_index f); [by apply scan_put_in|done].
  - intros c b' Hc Hg. rw Hrb /fl Hfl. case_decide as Hac; [subst c; right|].
    + rw lookup_insert_eq. destruct (Hk a b' Hc Hg) as [?|[? _]]; split; congruence.
    + rw lookup_insert_ne; [by apply usable_path|]. by apply Hk.
Qed.

Lemma holds_forget W g f a s : U a -> holds W g s -> holds W (delete a g) (Store_forget f a s).1.
Proof.
  intros Ha [Hr Hf Hs Hk]. destruct (forget_view f a s) as (_ & _ & Hrb & Hfl & Hix).
  assert (Hfile : forall c, U c -> c <> a -> fl (Store_forget f a s).1 c = fl s c).
  { intros c Hc Hne. rw /fl Hfl. destruct (f_unlink f a); [|done]. apply lookup_delete_ne. by apply usable_path. }
  split.
  - intros c b. rw Hrb. case_decide; [done|apply Hr].
  - intros c b Hc. rw /fl Hfl. destruct (f_unlink f a); [|by apply Hf]. rw lookup_delete. case_decide; [done|by apply Hf].
  - rw Hix. destruct (f_unlink f a && f_index f); [|done]. intros x Hx%ix_scan_delete. by apply Hs.
  - intros c b Hc [Hne Hg]%lookup_delete_Some. rw Hrb decide_False // Hfile //. by apply Hk.
Qed.

Lemma holds_delete W g a s : holds W g s -> holds W (delete a g) s.
Proof. intros [Hr Hf Hs Hk]. split; [done..|]. intros c b Hc [_ Hg]%lookup_delete_Some. by apply Hk. Qed.

Lemma foldr_delete_in (l : list BlockAddress) (g : gmap BlockAddress (list Z)) a : a ∈ l -> delete a (foldr delete g l) = foldr delete g l.
Proof.
  intros Hin. apply delete_id. induction l as [|x l IH]; [in_nil|]. cbn. rw lookup_delete.
  case_decide; [done|]. apply IH. set_solver.
Qed.

Lemma holds_step W g s o :
  op_in U o -> (forall a b, op_put o = Some (a, b) -> W a b) -> holds W g s -> holds W (ghost_step s o g) (step s o).
Proof.
  intros Ho HW Hh. destruct o as [f now a|f now a|f now a b m|f now a m|f a|f now hw ttl]; cbn [step ghost_step op_in] in *.
  - destruct (lookup_view f now a s) as (Hrb & Hd & Hi & _), Hh as [Hr Hf Hs Hk].
    split; rw /fl ?Hd ?Hi; [by intros ??; rw Hrb; apply Hr|done|done|by intros ??; rw Hrb; apply Hk].
  - destruct (promote_view f now a s) as (Hres & Hrb & Hd & Hi & _), Hh as [Hr Hf Hs Hk]. split; rw /fl ?Hd.
    + intros c b. rw Hrb. case_decide as Hc; [subst c|by apply Hr].
      rw Hres. destruct (rb s a) as [b0|] eqn:Ea; [intros [= <-]; by apply Hr|]. destruct (f_read f a); [|done].
      destruct (fl s a) as [b0|] eqn:Ef; [|done]. intros [= <-]. split; [done|by apply Hf].
    + done.
    + destruct Hi as [->|(b & _ & _ & _ & ->)]; [done|by apply scan_put_in].
    + intros c b Hc Hg. rw Hrb. specialize (Hk c b Hc Hg). case_decide as Hac; [subst c|done]. rw Hres.
      destruct Hk as [->|[-> Hk]]; [by left|]. rw Hk. destruct (f_read f a); [by left|by right].
  - destruct (put_ram_view f now a b m s) as (Hrb & Hd & Hi & _), Hh as [Hr Hf Hs Hk]. split; rw /fl ?Hd.
    + intros c b'. rw Hrb. case_decide as Hc; [subst c; intros [= <-]; auto|by apply Hr].
    + done.
    + rw Hi. destruct (f_index f); [by apply scan_put_in|done].
    + intros c b' Hc. rw lookup_insert Hrb. case_decide; [intros [= <-]; by left|by apply Hk].
  - by apply holds_spill.
  - by apply holds_forget.
  - set (l := expiring _ _ _).
    assert (Hsp : holds W g (spill_pass f now hw s)).
    { apply (spill_pass_ind (holds W g)); [apply holds_blind|intros; by apply holds_spill|done]. }
    apply (evict_pass_ind (holds W (foldr delete g l))); [apply holds_blind| |].
    + clearbody l. induction l as [|x l IH]; [done|]. cbn. by apply holds_delete.
    + intros s' a Hin Hs'. rw -(foldr_delete_in l g a Hin). apply holds_forget; [|done].
      rw /l /expiring in Hin. case_match; [in_nil|].
      apply list_elem_of_fmap in Hin as (x & -> & [_ Hx]%list_elem_of_filter). by apply (h_scan _ _ _ Hsp).
Qed.

Lemma holds_run W ops : forall sg, Forall (op_in U) ops -> (forall o a b, o ∈ ops -> op_put o = Some (a, b) -> W a b) ->
  holds W sg.2 sg.1 -> holds W (run_ghost sg ops).2 (run_ghost sg ops).1.
Proof.
  induction ops as [|o ops IH]; intros sg Hops HW Hh; [done|]. apply Forall_cons in Hops as [Ho Hops].
  cbn. apply IH; [done|set_solver|]. cbn. apply holds_step; [done|set_solver|done].
Qed.

Lemma holds_open W ram_gib ssd_gib : holds W ∅ (Store_open ram_gib ssd_gib).
Proof.
  split; [by intros ??; rw /rb /= lookup_empty|by intros ???; rw /fl /= lookup_empty| |by intros ???; rw lookup_empty].
  cbn. rw ix_scan_empty. intros x Hx. in_nil.
Qed.
End contents.

(** C4. Stored blocks are kept: over any sequence of puts, promotions, spills,
    evictions and forgets on addresses no two of which share a file, with
    arbitrary disk and index failures, a block that was put and neither
    forgotten nor expired since is returned with exactly the bytes last put
    (if its file can be read), and no read ever returns bytes that were not
    put under that address. *)
Theorem stored_blocks_kept (U : BlockAddress -> Prop) ram_gib ssd_gib ops f now a
  (HU : usable U) (Hops : Forall (op_in U) ops) (Ha : U a) :
  let '(s, g) := run_ghost (Store_open ram_gib ssd_gib, ∅) ops in
  let got := (lookup_with_promote f now a s).2 in
  (forall b, g !! a = Some b -> f_read f a = true -> got = Some b) /\
  (forall b, got = Some b -> exists o, o ∈ ops /\ op_put o = Some (a, b)).
Proof.
  set (W := fun a b => exists o, o ∈ ops /\ op_put o = Some (a, b)).
  assert (Hh : holds U W (run_ghost (Store_open ram_gib ssd_gib, ∅) ops).2 (run_ghost (Store_open ram_gib ssd_gib, ∅) ops).1).
  { apply (holds_run U HU); [done| |apply holds_open]. intros o c b Ho Hp. by exists o. }
  destruct (run_ghost _ ops) as [s g]. cbn [fst snd] in Hh. destruct Hh as [Hr Hf _ Hk].
  destruct (promote_view f now a s) as [Hgot _]. cbn zeta. rw Hgot. split.
  - intros b Hg ->. by destruct (Hk a b Ha Hg) as [->|[-> ->]].
  - intros b. destruct (rb s a) eqn:E; [intros [= <-]; by apply Hr in E as [_ ?]|].
    destruct (f_read f a); [|done]. intros Hb. by apply (Hf a b Ha).
Qed.

(** ** The index agrees with the contents *)

Section agreement.
Context (U : BlockAddress -> Prop) (HU : usable U).

Definition entry_ok (a : BlockAddress) (m : option BlockMeta) (r d : option (list Z)) : Prop :=
  match m with
  | None => r = None /\ d = None
  | Some m => bm_layer m = layer a /\
      exists b, bm_bytes m = blen b /\ ((bm_tier m = Ram /\ r = Some b) \/ (bm_tier m = Ssd /\ r = None /\ d = Some b))
  end.

Definition agree (s : Store) : Prop :=
  (forall a, rb s a <> None -> U a) /\ (forall x, x ∈ ix_scan (st_index s) -> U x.1) /\
  (forall a, U a -> entry_ok a (ix_get a (st_index s)) (rb s a) (fl s a)).

Lemma agree_blind : stats_blind agree.
Proof. by intros s k. Qed.

Lemma agree_same s s' : (forall b, rb s' b = rb s b) -> st_ssd s' = st_ssd s -> st_index s' = st_index s -> agree s -> agree s'.
Proof.
  intros Hrb Hd Hi (Hr & Hs & He). rw /agree /fl Hd Hi. split; [intros a; rw Hrb; apply Hr|]. split; [done|].
  intros a Ha. rw Hrb. by apply He.
Qed.

(** Writing [a]'s entry to match its new contents. *)
Lemma agree_put s s' a m :
  U a -> agree s -> st_index s' = ix_put a m (st_index s) -> entry_ok a (Some m) (rb s' a) (fl s' a) ->
  (forall c, c <> a -> rb s' c = rb s c) -> (forall c, U c -> c <> a -> fl s' c = fl s c) -> agree s'.
Proof.
  intros Ha (Hr & Hs & He) Hi Hm Hrb Hfl. split; [|split].
  - intros c. destruct (decide (c = a)) as [->|Hne]; [done|]. rw Hrb //. apply Hr.
  - rw Hi. by apply (scan_put_in U HU).
  - intros c Hc. rw Hi ix_get_put; [by apply HU|by apply HU|]. case_decide as Hac; [by subst c|].
    rw Hrb // Hfl //. by apply He.
Qed.

Lemma agree_spill now a model s : agree s -> agree (spill_to_ssd no_faults now a model s).1.
Proof.
  intros Hg. destruct (spill_view no_faults now a model s) as (_ & _ & Hv). destruct (rb s a) as [b|] eqn:Ea; [|by rw Hv].
  cbn in Hv. destruct Hv as (Hrb & Hfl & Hi). assert (Ha : U a) by (apply Hg; by rw Ea).
  apply (agree_put s _ a (meta_of now model a b Ssd)); [done..| | |].
  - split; [done|]. exists b. split; [done|]. right. split; [done|]. rw Hrb /fl Hfl decide_True // lookup_insert_eq. done.
  - intros c Hne. by rw Hrb decide_False.
  - intros c Hc Hne. rw /fl Hfl lookup_insert_ne //. apply (usable_path U HU); congruence.
Qed.

Lemma agree_forget a s : U a -> agree s -> agree (Store_forget no_faults a s).1.
Proof.
  intros Ha (Hr & Hs & He). destruct (forget_view no_faults a s) as (_ & _ & Hrb & Hfl & Hi).
  change (f_unlink no_faults a) with true in Hfl, Hi. change (f_index no_faults) with true in Hi. cbn [andb] in Hi. split; [|split].
  - intros c. rw Hrb. case_decide; [done|apply Hr].
  - rw Hi. intros x Hx%ix_scan_delete. by apply Hs.
  - intros c Hc. rw Hrb /fl Hfl Hi ix_get_delete; [by apply HU|by apply HU|]. case_decide as Hac.
    + subst c. split; [done|]. apply lookup_delete_eq.
    + rw lookup_delete_ne; [by apply (usable_path U HU)|]. by apply He.
Qed.

Lemma agree_step s o : op_in U o -> op_faults o = no_faults -> agree s -> agree (step s o).
Proof.
  intros Ho Hnf Hg. destruct o as [f now a|f now a|f now a b m|f now a m|f a|f now hw ttl]; cbn in Ho, Hnf; subst f; cbn [step].
  - destruct (lookup_view no_faults now a s) as (Hrb & Hd & Hi & _). by apply (agree_same s).
  - destruct (promote_view no_faults now a s) as (Hres & Hrb & Hd & _ & Hi & Hi1 & Hi2 & _). cbn in Hres. rw Hres in Hrb Hi Hi2.
    destruct (rb s a) as [b|] eqn:Ea.
    { apply (agree_same s); [|done|by apply Hi1|done]. intros c. rw Hrb. case_decide; [|done]. subst c. by rw Ea. }
    destruct (fl s a) as [b|] eqn:Ef.
    2: { apply (agree_same s); [|done|by apply Hi2|done]. intros c. rw Hrb. case_decide; [|done]. subst c. by rw Ea. }
    apply (agree_put s _ a (meta_of now "" a b Ram)); [done|done|by apply Hi| | |].
    + split; [done|]. exists b. split; [done|]. left. by rw Hrb decide_True // Ea.
    + intros c Hne. by rw Hrb decide_False.
    + intros c _ _. by rw /fl Hd.
  - destruct (put_ram_view no_faults now a b m s) as (Hrb & Hd & Hi & _).
    apply (agree_put s _ a (meta_of now m a b Ram)); [done..| | |].
    + split; [done|]. exists b. split; [done|]. left. by rw Hrb decide_True.
    + intros c Hne. by rw Hrb decide_False.
    + intros c _ _. by rw /fl Hd.
  - by apply agree_spill.
  - by apply agree_forget.
  - assert (Hsp : agree (spill_pass no_faults now hw s)).
    { apply (spill_pass_ind agree); [apply agree_blind|intros; by apply agree_spill|done]. }
    apply (evict_pass_ind agree); [apply agree_blind|done|]. intros s' a Hin. apply agree_forget.
    rw /expiring in Hin. case_match; [in_nil|].
    apply list_elem_of_fmap in Hin as (x & -> & [_ Hx]%list_elem_of_filter). by apply Hsp.
Qed.

Lemma agree_run ops : Forall (op_in U) ops -> Forall (fun o => op_faults o = no_faults) ops -> forall s, agree s -> agree (run s ops).
Proof.
  intros Hi Hf s Hs. rw /run. rw !Forall_forall in Hi Hf. apply foldl_ind; [|done]. intros s' o Ho. apply agree_step; auto.
Qed.

Lemma agree_open ram_gib ssd_gib : agree (Store_open ram_gib ssd_gib).
Proof.
  split; [by intros a; rw /rb /= lookup_empty|]. split.
  - cbn. rw ix_scan_empty. intros x Hx. in_nil.
  - intros a _. rw /= ix_get_empty /rb /fl /= !lookup_empty. done.
Qed.
End agreement.

(** The index agrees with the contents: when no call failed, a lookup
    finds a block exactly when a reading lookup returns its bytes, and the
    handle gives the true size and layer and says [Ram] exactly for the blocks
    in RAM (the others being on disk). *)
Lemma index_agrees (U : BlockAddress -> Prop) ram_gib ssd_gib ops now a
  (HU : usable U) (Hops : Forall (op_in U) ops) (Hok : Forall (fun o => op_faults o = no_faults) ops) (Ha : U a) :
  let s := run (Store_open ram_gib ssd_gib) ops in
  match (Store_lookup no_faults now a s).2, (lookup_with_promote no_faults now a s).2 with
  | Some h, Some b => bh_addr h = a /\ bm_bytes (bh_meta h) = blen b /\ bm_layer (bh_meta h) = layer a /\
      bm_tier (bh_meta h) = (if RamTier_contains a (st_ram s) then Ram else Ssd)
  | None, None => True
  | _, _ => False
  end.
Proof.
  cbn zeta. set (s := run _ _). assert (Hag : agree U s) by (apply (agree_run U HU); [done|done|apply agree_open]).
  destruct (lookup_view no_faults now a s) as (_ & _ & _ & _ & Hl). destruct (promote_view no_faults now a s) as (Hp & _).
  assert (Hc : RamTier_contains a (st_ram s) = bool_decide (is_Some (rb s a))).
  { apply bool_decide_ext. rw /rb. by rw fmap_is_Some. }
  rw Hl Hp Hc /=. destruct Hag as (_ & _ & He). specialize (He a Ha). rw /index_get /=. clearbody s. clear Hl Hp Hc Hops Hok.
  destruct (rb s a) as [b|]; [done|]. destruct (ix_get a (st_index s)) as [m|]; cbn.
  - destruct He as (Hlay & b & Hb & [[_ [=]]|(Ht & _ & ->)]). done.
  - by destruct He as [_ ->].
Qed.

(** ** The eviction pass ends, below its target *)

(** The [while] loop of [evict_pass] as the source writes it, without fuel. *)
Inductive spill_while (f : Faults) (now target : Z) : Store -> Store -> Prop :=
| sw_below s : (ram_used (st_ram s) <= target)%Z -> spill_while f now target s s
| sw_no_victim s : (target < ram_used (st_ram s))%Z -> coldest 32 (st_ram s) = [] -> spill_while f now target s s
| sw_stuck s s' : (target < ram_used (st_ram s))%Z -> coldest 32 (st_ram s) <> [] ->
    s' = foldl (spill_victim f now) s (coldest 32 (st_ram s)) ->
    (ram_used (st_ram s) <= ram_used (st_ram s'))%Z -> spill_while f now target s s'
| sw_next s s' s'' : (target < ram_used (st_ram s))%Z -> coldest 32 (st_ram s) <> [] ->
    s' = foldl (spill_victim f now) s (coldest 32 (st_ram s)) ->
    (ram_used (st_ram s') < ram_used (st_ram s))%Z -> spill_while f now target s' s'' -> spill_while f now target s s''.

(** The resident bytes by address, and their number. *)
Definition resident (s : Store) : gmap BlockAddress (list Z) := slot_bytes <$> ram_inner (st_ram s).
Definition bsum (m : gmap BlockAddress (list Z)) : Z := map_fold (fun _ b acc => (blen b + acc)%Z) 0%Z m.

Lemma ram_sum_bsum s : ram_sum (ram_inner (st_ram s)) = bsum (resident s).
Proof. rw /bsum /resident map_fold_fmap. done. Qed.

Lemma resident_lookup s a : resident s !! a = rb s a.
Proof. rw /resident lookup_fmap. done. Qed.

Lemma bsum_nonneg m : (0 <= bsum m)%Z.
Proof.
  induction m as [|a b m Hm IH] using map_ind; [done|]. rw /bsum map_fold_insert_L //; [intros; lia|].
  rw -/(bsum m) /blen. lia.
Qed.

Lemma bsum_subseteq m' m : m' ⊆ m -> bsum m = (bsum m' + bsum (m ∖ m'))%Z.
Proof.
  intros Hs. rw -{1}(map_difference_union m' m Hs). generalize (map_disjoint_difference_r1 m m' m' (reflexivity m')).
  generalize (m ∖ m') as d. clear Hs. intros d. revert m. induction m' as [|a b m' Hm IH] using map_ind; intros m Hd.
  - by rw map_empty_union.
  - apply map_disjoint_insert_l in Hd as [Hda Hd]. rw -insert_union_l /bsum !map_fold_insert_L //; try (intros; lia).
    + by rw lookup_union_None.
    + rw -!/(bsum _) (IH m Hd). lia.
Qed.

(** What a store operation that only moves blocks out of RAM preserves. *)
Definition shrinks (s s' : Store) : Prop :=
  resident s' ⊆ resident s /\ ram_wf (st_ram s') /\ ram_capacity (st_ram s') = ram_capacity (st_ram s).

Definition fits (s : Store) : Prop := ram_wf (st_ram s) /\ (bsum (resident s) < 2 ^ 64)%Z.

Lemma fits_used s : fits s -> ram_used (st_ram s) = bsum (resident s).
Proof. intros [-> Hlt]. rw ram_sum_bsum Z.mod_small //. pose proof (bsum_nonneg (resident s)). lia. Qed.

Lemma shrinks_fits s s' : fits s -> shrinks s s' -> fits s' /\ (ram_used (st_ram s') <= ram_used (st_ram s))%Z.
Proof.
  intros Hf (Hsub & Hwf & _). pose proof (bsum_subseteq _ _ Hsub). pose proof (bsum_nonneg (resident s ∖ resident s')).
  assert (fits s') by (destruct Hf; split; [done|lia]). split; [done|]. rw !fits_used //. lia.
Qed.

Lemma shrinks_spill f now a model s : ram_wf (st_ram s) -> shrinks s (spill_to_ssd f now a model s).1.
Proof.
  intros Hw. destruct (spill_view f now a model s) as (Hwf & Hcap & Hv). split; [|by split; [apply Hwf|]].
  apply map_subseteq_spec. intros c b. rw !resident_lookup. destruct (rb s a) as [b0|]; [|by rw Hv].
  destruct (f_write f a); destruct Hv as (Hrb & _); rw Hrb; [by case_decide|done|done].
Qed.

Lemma shrinks_forget f a s : ram_wf (st_ram s) -> shrinks s (Store_forget f a s).1.
Proof.
  intros Hw. destruct (forget_view f a s) as (Hwf & Hcap & Hrb & _). split; [|by split; [apply Hwf|]].
  apply map_subseteq_spec. intros c b. rw !resident_lookup Hrb. by case_decide.
Qed.

Lemma shrinks_trans s s' s'' : shrinks s s' -> shrinks s' s'' -> shrinks s s''.
Proof. intros (Hs & _ & Hc) (Hs' & Hw & Hc'). split; [by trans (resident s')|]. split; [done|congruence]. Qed.

Lemma shrinks_victim s0 f now : forall s a, shrinks s0 s -> shrinks s0 (spill_victim f now s a).
Proof.
  apply (spill_victim_ind (shrinks s0)); [by intros ??|]. intros s a model Hs. apply (shrinks_trans s0 s); [done|].
  apply shrinks_spill, Hs.
Qed.

Lemma shrinks_batch f now l s : ram_wf (st_ram s) -> shrinks s (foldl (spill_victim f now) s l).
Proof. intros Hw. apply (foldl_ind (shrinks s)); [intros ? ? _; apply shrinks_victim|by split]. Qed.

(** A batch that lowers the counter removes a block. *)
Lemma batch_count f now l s (s' := foldl (spill_victim f now) s l) :
  fits s -> (ram_used (st_ram s') < ram_used (st_ram s))%Z -> block_count (st_ram s') < block_count (st_ram s).
Proof.
  intros Hf Hlt. pose proof (shrinks_batch f now l s (proj1 Hf)) as Hs. rw -/s' in Hs.
  pose proof (proj1 (shrinks_fits s s' Hf Hs)) as Hf'. rw !fits_used // in Hlt.
  rw /block_count -(map_size_fmap slot_bytes (ram_inner (st_ram s'))) -(map_size_fmap slot_bytes (ram_inner (st_ram s))).
  apply map_subset_size. split; [apply Hs|]. intros Hsub. assert (resident s = resident s') as Heq by (apply (anti_symm (⊆)); [done|apply Hs]).
  rw Heq in Hlt. lia.
Qed.

Lemma spill_loop_while f now target : forall fuel s, fits s -> block_count (st_ram s) < fuel -> spill_while f now target s (spill_loop fuel f now target s).
Proof.
  intros fuel. induction fuel as [|fuel IH]; intros s Hf Hfuel; [lia|]. cbn [spill_loop].
  destruct (target <? ram_used (st_ram s))%Z eqn:Ht; [apply Z.ltb_lt in Ht|apply Z.ltb_ge in Ht; by apply sw_below].
  destruct (coldest 32 (st_ram s)) as [|v vs] eqn:Hv; [by apply sw_no_victim|]. set (s' := foldl _ _ _).
  destruct (ram_used (st_ram s) <=? ram_used (st_ram s'))%Z eqn:Hp; [apply Z.leb_le in Hp|apply Z.leb_gt in Hp].
  - apply sw_stuck; rw ?Hv; done.
  - apply (sw_next _ _ _ s s'); rw ?Hv; [done..|]. apply IH.
    + apply (shrinks_fits s); [done|apply shrinks_batch, Hf].
    + pose proof (batch_count f now (v :: vs) s Hf Hp). rw -/s' in H2. lia.
Qed.

Lemma coldest_resident n s a : a ∈ coldest n (st_ram s) -> is_Some (rb s a).
Proof.
  intros ([a' sl] & -> & Hin)%list_elem_of_fmap. assert (Hin' : (a', sl) ∈ merge_sort colder (ram_iter (ram_inner (st_ram s)))).
  { rw -(take_drop n (merge_sort _ _)). by apply elem_of_app; left. }
  rw merge_sort_Permutation ram_iter_perm elem_of_map_to_list in Hin'. rw /rb Hin'. by eexists.
Qed.

Lemma coldest_nil n s : coldest (S n) (st_ram s) = [] -> resident s = ∅.
Proof.
  rw /coldest => /fmap_nil_inv Hn. destruct (merge_sort colder (ram_iter (ram_inner (st_ram s)))) as [|x l] eqn:E; [|done].
  pose proof (merge_sort_Permutation colder (ram_iter (ram_inner (st_ram s)))) as Hp. rw E ram_iter_perm in Hp.
  apply Permutation_nil, map_to_list_empty_iff in Hp. rw /resident Hp. apply fmap_empty.
Qed.

(** When writes succeed, a batch of non-empty blocks lowers the counter. *)
Lemma batch_progress f now v vs s :
  fits s -> (forall a, f_write f a = WriteOk) -> (forall a b, rb s a = Some b -> b <> []) -> is_Some (rb s v) ->
  (ram_used (st_ram (foldl (spill_victim f now) s (v :: vs))) < ram_used (st_ram s))%Z.
Proof.
  intros Hf Hw Hne [b Hb]. cbn [foldl]. set (s1 := spill_victim f now s v).
  assert (Hs1 : shrinks s s1) by (apply shrinks_victim; split; [done|split; [apply Hf|done]]).
  destruct (shrinks_fits s s1 Hf Hs1) as [Hf1 _]. pose proof (shrinks_batch f now vs s1 (proj1 Hf1)) as Hs2.
  apply shrinks_fits in Hs2 as [_ Hle]; [|done]. apply (Z.le_lt_trans _ _ _ Hle). clear Hle. rw !fits_used //.
  assert (Hv : rb s1 v = None).
  { rw /s1 /spill_victim. set (m := default _ _). destruct (spill_view f now v m s) as (_ & _ & Hv). rw Hb Hw in Hv.
    destruct Hv as (Hrb & _). destruct (spill_to_ssd f now v m s) as [s2 ok]. cbn [fst] in Hrb.
    assert (rb s2 v = None) by (by rw Hrb decide_True). by destruct ok. }
  rw (bsum_subseteq _ _ (proj1 Hs1)). rw (bsum_subseteq {[v := b]} (resident s ∖ resident s1)).
  - apply map_singleton_subseteq_l. apply lookup_difference_Some. by rw !resident_lookup Hv.
  - assert (bsum {[v := b]} = blen b) as -> by (rw /bsum map_fold_singleton; lia). pose proof (bsum_nonneg ((resident s ∖ resident s1) ∖ {[v := b]})).
    specialize (Hne v b Hb). rw /blen. destruct b; [done|]. cbn [length]. lia.
Qed.

Lemma spill_while_below f now target s s' :
  (0 <= target)%Z -> (forall a, f_write f a = WriteOk) -> fits s -> (forall a b, rb s a = Some b -> b <> []) ->
  spill_while f now target s s' -> (ram_used (st_ram s') <= target)%Z.
Proof.
  intros Ht Hw Hf Hne Hrun. induction Hrun as [s Hle|s Hlt Hc|s s' Hlt Hc -> Hst|s s' s'' Hlt Hc -> Hst Hrun IH].
  - done.
  - rw fits_used // (coldest_nil 31 s Hc). done.
  - destruct (coldest 32 (st_ram s)) as [|v vs] eqn:Hv; [done|].
    assert (is_Some (rb s v)) by (apply (coldest_resident 32); rw Hv; set_solver).
    pose proof (batch_progress f now v vs s Hf Hw Hne). intuition lia.
  - pose proof (shrinks_batch f now (coldest 32 (st_ram s)) s (proj1 Hf)) as Hs. apply IH.
    + by apply (shrinks_fits s).
    + intros a b Hb. apply (Hne a). rw -resident_lookup in Hb. rw -resident_lookup.
      by eapply lookup_weaken; [exact Hb|apply Hs].
Qed.

(** The eviction pass ends: in every reachable store whose resident bytes
    fit the counter, whatever writes fail, the spill loop leaves its [while]
    (fuel [S block_count] is enough, each further batch removing a block); and
    when writes succeed and no resident block is empty, the whole pass leaves
    at most [capacity * high_watermark] bytes in RAM. *)
Lemma evict_pass_bounded ram_gib ssd_gib ops f now hw ttl
  (s := run (Store_open ram_gib ssd_gib) ops) (target := spill_target (ram_capacity (st_ram s)) hw)
  (Hsum : (bsum (resident s) < 2 ^ 64)%Z) (Hcap : (0 < ram_capacity (st_ram s))%Z) :
  spill_while f now target s (spill_pass f now hw s) /\
  ((forall a, f_write f a = WriteOk) -> (forall a b, rb s a = Some b -> b <> []) ->
   (ram_used (st_ram (evict_pass f now hw ttl s)) <= target)%Z).
Proof.
  assert (Hf : fits s) by (split; [apply ram_accounting_run|done]).
  assert (Hloop : spill_while f now target s (spill_pass f now hw s)).
  { rw /spill_pass. apply Z.ltb_lt in Hcap as ->. apply spill_loop_while; [done|lia]. }
  split; [done|]. intros Hw Hne.
  assert (Ht : (0 <= target)%Z) by apply u64_of_float_range.
  pose proof (spill_while_below f now target s _ Ht Hw Hf Hne Hloop) as Hle.
  assert (Hsp : fits (spill_pass f now hw s)).
  { apply (shrinks_fits s); [done|]. apply (spill_pass_ind (shrinks s)); [by intros ??| |by split; [|split; [apply Hf|]]].
    intros s1 a model Hs1. apply (shrinks_trans s s1); [done|]. apply shrinks_spill, Hs1. }
  clearbody target s. assert (Hs : shrinks (spill_pass f now hw s) (evict_pass f now hw ttl s)).
  { apply (evict_pass_ind (shrinks (spill_pass f now hw s))); [by intros ??|by split; [|split; [apply Hsp|]]|].
    intros s1 a _ Hs1. apply (shrinks_trans _ s1); [done|]. apply shrinks_forget, Hs1. }
  apply shrinks_fits in Hs as [_ ?]; [lia|done].
Qed.

(** File names collide: two blocks of the same layer whose digests share
    their first eight bytes share a file. After both are stored and spilled
    without any failure, reading the first returns the second's bytes, while
    the index still describes the first. *)
Lemma colliding_blocks_swapped ram_gib ssd_gib now a b x y model (Hsame : same_file a b) (Hne : a <> b)
  (Ha : addr_valid a) (Hb : addr_valid b) :
  let s := run (Store_open ram_gib ssd_gib)
    [OpPut no_faults now a x model; OpPut no_faults now b y model; OpSpill no_faults now a model; OpSpill no_faults now b model] in
  (lookup_with_promote no_faults now a s).2 = Some y /\
  (Store_lookup no_faults now a s).2 = Some (mkHandle (meta_of now model a x Ssd) a).
Proof.
  cbn zeta. rw /run. cbn [foldl step]. set (s0 := Store_open _ _).
  destruct (put_ram_view no_faults now a x model s0) as (Hr1 & _ & _ & _). set (s1 := (put_ram no_faults now a x model s0).1) in *.
  destruct (put_ram_view no_faults now b y model s1) as (Hr2 & _ & _ & _). set (s2 := (put_ram no_faults now b y model s1).1) in *.
  assert (Hp : path_for a = path_for b) by (by apply path_for_iff).
  assert (H2a : rb s2 a = Some x) by (rw Hr2 decide_False // Hr1; by rw decide_True).
  assert (H2b : rb s2 b = Some y) by (rw Hr2; by rw decide_True).
  destruct (spill_view no_faults now a model s2) as (_ & _ & Hv3). rw H2a in Hv3. cbn [f_write no_faults f_index] in Hv3.
  set (s3 := (spill_to_ssd no_faults now a model s2).1) in *. destruct Hv3 as (Hr3 & _ & Hi3).
  assert (H3b : rb s3 b = Some y) by (rw Hr3; by rw decide_False).
  assert (H3a : rb s3 a = None) by (rw Hr3; by rw decide_True).
  destruct (spill_view no_faults now b model s3) as (_ & _ & Hv4). rw H3b in Hv4. cbn [f_write no_faults f_index] in Hv4.
  set (s4 := (spill_to_ssd no_faults now b model s3).1) in *. destruct Hv4 as (Hr4 & Hf4 & Hi4).
  assert (H4a : rb s4 a = None) by (rw Hr4; by rw decide_False).
  destruct (promote_view no_faults now a s4) as (-> & _). destruct (lookup_view no_faults now a s4) as (_ & _ & _ & _ & ->).
  rw H4a /= /fl Hf4 Hp lookup_insert_eq. split; [done|]. rw /index_get /= Hi4 Hi3. rw ix_get_put // decide_False // ix_get_put // decide_True //.
Qed.
(** Restart: when a daemon with the persistent index restarts after calls
    that did not fail, a block that was on disk is found and read as before,
    but a block that was only in RAM is still reported as a hit in tier [Ram],
    while reading it finds nothing but an older spilled copy if there is one. *)
Lemma restart_contents (U : BlockAddress -> Prop) ram_gib ssd_gib ops now a (s := run (Store_open ram_gib ssd_gib) ops)
  (HU : usable U) (Hops : Forall (op_in U) ops) (Hok : Forall (fun o => op_faults o = no_faults) ops) (Ha : U a) :
  (RamTier_contains a (st_ram s) = false ->
     (Store_lookup no_faults now a (Store_reopen s)).2 = (Store_lookup no_faults now a s).2 /\
     (lookup_with_promote no_faults now a (Store_reopen s)).2 = (lookup_with_promote no_faults now a s).2) /\
  (RamTier_contains a (st_ram s) = true ->
     (exists m, (Store_lookup no_faults now a (Store_reopen s)).2 = Some (mkHandle m a) /\ bm_tier m = Ram) /\
     (lookup_with_promote no_faults now a (Store_reopen s)).2 = ssd_files (st_ssd s) !! path_for a).
Proof.
  assert (Hag : agree U s) by (apply (agree_run U HU); [done|done|apply agree_open]).
  destruct (lookup_view no_faults now a s) as (_ & _ & _ & _ & Hl). destruct (promote_view no_faults now a s) as (Hp & _).
  destruct (lookup_view no_faults now a (Store_reopen s)) as (_ & _ & _ & _ & Hl'). destruct (promote_view no_faults now a (Store_reopen s)) as (Hp' & _).
  assert (Hn : rb (Store_reopen s) a = None) by (by rw /rb /= lookup_empty).
  assert (Hc : RamTier_contains a (st_ram s) = bool_decide (is_Some (rb s a))).
  { apply bool_decide_ext. rw /rb. by rw fmap_is_Some. }
  rw Hl Hp Hl' Hp' Hn Hc. cbn [f_read no_faults]. rw /index_get /=. destruct Hag as (_ & _ & He). specialize (He a Ha).
  clearbody s. clear Hl Hp Hl' Hp' Hn Hc. destruct (rb s a) as [b|] eqn:E; split; intros Hin; try done.
  split; [|done]. destruct (ix_get a (st_index s)) as [m|]; cbn in He |- *.
  - exists m. split; [done|]. destruct He as (_ & b' & _ & [[? _]|(_ & [=] & _)]). done.
  - by destruct He as [[=] _].
Qed.
End spec.

(** ** Concrete stores *)

Module Examples.
#[local] Existing Instance DashIndex.
#[local] Existing Instance DashIndex_laws.

#[local] Instance map_order : RamIter.
Proof. refine {| ram_iter m := map_to_list m |}. done. Defined.

Definition addr (x y : Z) : BlockAddress := mkAddr (replicate 8 x ++ replicate 24 y) 0.
Definition a1 := addr 1 1.
Definition a2 := addr 2 1.
(** [a1']'s digest starts like [a1]'s. *)
Definition a1' := addr 1 2.

Definition U (a : BlockAddress) : Prop := a = a1 \/ a = a2.

Lemma addr_ok x y : (0 <= x < 256)%Z -> (0 <= y < 256)%Z -> addr_valid (addr x y).
Proof. intros Hx Hy. repeat split; [by apply Forall_app; split; apply Forall_replicate|done..]. Qed.

Lemma U_usable : usable U.
Proof. split; [intros a [->| ->]; by apply addr_ok|]. intros a b [->| ->] [->| ->] [Heq _]; done. Qed.

(** Every write but [a2]'s fails; the index is down. *)
Definition flaky : Faults := mkFaults (fun _ => true) (fun a => if decide (a = a2) then WriteOk else RenameFails) (fun _ => false) false.

Definition ops : list Op := [
  OpPut no_faults 10 a1 [1; 2]%Z "m"; OpPut flaky 11 a2 [3]%Z "m"; OpSpill flaky 12 a1 "m"; OpSpill no_faults 13 a1 "m";
  OpSpill flaky 14 a2 "m"; OpPromote no_faults 15 a2; OpForget flaky a2].

Definition ops_ok : list Op := [
  OpPut no_faults 10 a1 [1; 2]%Z "m"; OpPut no_faults 11 a2 [3]%Z "m"; OpSpill no_faults 13 a1 "m"].
End Examples.
Import Examples.

#[local] Existing Instance DashIndex.
#[local] Existing Instance DashIndex_laws.
#[local] Existing Instance map_order.

(** Three bytes are resident after two puts. *)
Lemma ram_accounting_witness :
  ram_used (st_ram (run (Store_open 1 1) (take 2 ops))) = 3%Z /\
  ram_used (st_ram (run (Store_open 1 1) (take 2 ops))) = (ram_sum (ram_inner (st_ram (run (Store_open 1 1) (take 2 ops)))) mod 2 ^ 64)%Z.
Proof. split; [vm_compute; reflexivity|]. apply (ram_accounting 1 1 (take 2 ops)). Defined.

Lemma stored_blocks_kept_witness :
  (run_ghost (Store_open 1 1, ∅) ops).2 !! a1 = Some [1; 2]%Z /\
  (lookup_with_promote no_faults 20 a1 (run_ghost (Store_open 1 1, ∅) ops).1).2 = Some [1; 2]%Z.
Proof.
  assert (Hg : (run_ghost (Store_open 1 1, ∅) ops).2 !! a1 = Some [1; 2]%Z) by (vm_compute; reflexivity).
  split; [exact Hg|].
  pose proof (stored_blocks_kept U 1 1 ops no_faults 20 a1 U_usable) as Hk.
  destruct (run_ghost (Store_open 1 1, ∅) ops) as [s g]. cbn [fst snd] in Hg |- *.
  apply Hk; [|by left|exact Hg|reflexivity]. repeat constructor; (by left) || (by right).
Defined.

Lemma index_agrees_witness :
  match (Store_lookup no_faults 20 a1 (run (Store_open 1 1) ops_ok)).2, (lookup_with_promote no_faults 20 a1 (run (Store_open 1 1) ops_ok)).2 with
  | Some h, Some b => bh_addr h = a1 /\ bm_bytes (bh_meta h) = blen b /\ bm_layer (bh_meta h) = layer a1 /\
      bm_tier (bh_meta h) = (if RamTier_contains a1 (st_ram (run (Store_open 1 1) ops_ok)) then Ram else Ssd)
  | None, None => True
  | _, _ => False
  end.
Proof.
  apply (index_agrees U 1 1 ops_ok 20 a1 U_usable); [|repeat constructor|by left].
  repeat constructor; (by left) || (by right).
Defined.

Definition quarter : f32 := f32_div (f32_of_Z 1) (f32_of_Z 1073741824).

(** A 1 GiB tier with a watermark of one byte: three bytes spill to nothing. *)
Lemma evict_pass_bounded_witness :
  spill_target (1 * 1024 * 1024 * 1024) quarter = 1%Z /\
  (ram_used (st_ram (evict_pass no_faults 20 quarter 0 (run (Store_open 1 1) (take 2 ops_ok)))) <=
   spill_target (ram_capacity (st_ram (run (Store_open 1 1) (take 2 ops_ok)))) quarter)%Z.
Proof.
  split; [vm_compute; reflexivity|].
  apply (evict_pass_bounded 1 1 (take 2 ops_ok) no_faults 20 quarter 0); [vm_compute; reflexivity|vm_compute; reflexivity|done|].
  assert (Hall : map_Forall (fun _ b => b <> []) (resident (run (Store_open 1 1) (take 2 ops_ok)))) by compute_dec.
  intros a b Hb. apply (Hall a). by rw resident_lookup.
Defined.

Lemma colliding_blocks_swapped_witness :
  (lookup_with_promote no_faults 20 a1 (run (Store_open 1 1)
    [OpPut no_faults 20 a1 [1]%Z "m"; OpPut no_faults 20 a1' [2]%Z "m"; OpSpill no_faults 20 a1 "m"; OpSpill no_faults 20 a1' "m"])).2 = Some [2]%Z.
Proof.
  apply (colliding_blocks_swapped 1 1 20 a1 a1' [1]%Z [2]%Z "m"); [split; reflexivity|discriminate|by apply addr_ok|by apply addr_ok].
Defined.

(** The block put last is a hit the daemon cannot serve. *)
Lemma restart_contents_witness :
  (exists m, (Store_lookup no_faults 30 a2 (Store_reopen (run (Store_open 1 1) ops_ok))).2 = Some (mkHandle m a2) /\ bm_tier m = Ram) /\
  (lookup_with_promote no_faults 30 a2 (Store_reopen (run (Store_open 1 1) ops_ok))).2 = ssd_files (st_ssd (run (Store_open 1 1) ops_ok)) !! path_for a2 /\
  ssd_files (st_ssd (run (Store_open 1 1) ops_ok)) !! path_for a2 = None.
Proof.
  destruct (restart_contents U 1 1 ops_ok 30 a2 U_usable) as [_ Hr]; [repeat constructor; (by left) || (by right)|repeat constructor|by right|].
  destruct Hr as [Hl Hp]; [vm_compute; reflexivity|]. split; [exact Hl|]. split; [exact Hp|vm_compute; reflexivity].
Defined.
