(* ===== verification/Dispatch.v ===== *)
(** * Dispatching a request

    [cgn-router/src/gateway/generate.rs] up to the first token ([open],
    [dispatch_once], [run_prefill], [first_token], [federate]) with what it
    calls: [deadline.rs], [disagg.rs], [federation.rs] and [connect_agent] of
    [state.rs]. Dialing, RPCs and streams are outcomes given by an environment
    [Env]; the requests sent are logged. The admission slot is taken by
    [admit_request] before and lives as long as the returned flow. *)

From S2P Require Import Prelude Hash PrefixIndex Float32 Cluster Config Routing.

(** ** [deadline.rs] *)

Inductive AdmissionOutcome := Admit | DeadlineExceeded (estimated_ms requested_ms : Z) | QueueFull.

(** The fields of [GenerateRequest] that dispatching reads; [gr_max_tokens] is
    [params.max_tokens] when [params] is present. *)
Record GenerateRequest := mkGenReq { gr_deadline_ms : Z; gr_max_tokens : option Z }.

(** [as_millis], or [u32::MAX] when it does not fit. *)
Definition duration_to_ms (d : Z) : Z := let ms := (d / 1000000)%Z in if (ms <=? u32_max)%Z then ms else u32_max.

Definition effective_deadline_ms (cfg : Config) (req : GenerateRequest) : Z :=
  if (0 <? gr_deadline_ms req)%Z then gr_deadline_ms req
  else
    let ttft := adm_ttft_slo (rc_admission (cfg_router cfg)) in
    let max_tokens := default 256%Z (gr_max_tokens req) in
    add_u32 (duration_to_ms ttft) (sat_mul_u32 max_tokens 30).

Definition estimate_ttft_ms (cfg : Config) (node : NodeEntry) : Z :=
  let q := Z.max (queue_depth node) 1 in
  let conc := Z.max (adm_max_concurrent_per_replica (rc_admission (cfg_router cfg))) 1 in
  (sat_mul_u32 q 100 / conc)%Z.

Definition check (cfg : Config) (req : GenerateRequest) (candidate : NodeEntry) : AdmissionOutcome :=
  if negb (asc_deadline_admission (rc_autoscaler (cfg_router cfg))) then Admit
  else
    let requested_ms := effective_deadline_ms cfg req in
    let estimated_ms := estimate_ttft_ms cfg candidate in
    if (requested_ms <? estimated_ms)%Z then DeadlineExceeded estimated_ms requested_ms else Admit.

(** ** [disagg.rs] *)

Inductive Plan := Colocate | Split (prefill_role decode_role : NodeRole).

Definition plan (enabled : bool) (colocate_below_tokens prompt_tokens : Z) : Plan :=
  if negb enabled || (prompt_tokens <? colocate_below_tokens)%Z then Colocate else Split RolePrefill RoleDecode.

(** ** [federation.rs] *)

(** [min_by_key]: the first of the minima. *)
Definition closest (best : option (Z * string)) (x : Z * string) : option (Z * string) :=
  match best with Some b => if (b.1 <=? x.1)%Z then best else Some x | None => Some x end.

(** [probe peer] is the connect time of a reachable peer. *)
Definition pick_peer (probe : string -> option Z) (peers : list string) : result string Error :=
  match peers with
  | [] => Err (Error_Unavailable "no federation peers configured")
  | _ =>
      match foldl closest None (omap (fun p => (fun rtt => (rtt, p)) <$> probe p) peers) with
      | Some (_, peer) => Ok peer
      | None => Err (Error_Unavailable "federation peers unreachable")
      end
  end.

(** ** The environment *)

(** [AgentGenerateRequest]: the fields the dispatcher chooses. *)
Record AgentRequest := mkAgentReq {
  ar_address : string;
  ar_prefill_only : bool;
  ar_decode_only : bool;
  ar_blocks : list (list Z);
  ar_digests : list (list Z);
}.

(** What the first read of a token stream gives. *)
Inductive StreamHead (Token : Type) := HeadTimeout | HeadEnd | HeadToken (t : Token) | HeadStatus (code : Z) (msg : string).
Arguments HeadTimeout {Token}.
Arguments HeadEnd {Token}.
Arguments HeadToken {Token} t.
Arguments HeadStatus {Token} code msg.

(** Outcomes by attempt number; [dial]'s flag tells the prefill connection from
    the decode one. [None] is success. *)
Record Env (Token : Type) := mkEnv {
  endpoint_ok : string -> bool;
  dial : nat -> bool -> string -> option Error;
  call : nat -> AgentRequest -> option string;
  head : nat -> string -> StreamHead Token;
  now_at : nat -> Z;
  clock_at : nat -> nat -> Z;
  probe : string -> option Z;
  forward : string -> option string;
  peer_head : string -> StreamHead Token;
}.
Arguments endpoint_ok {Token} e _.
Arguments dial {Token} e _ _ _.
Arguments call {Token} e _ _.
Arguments head {Token} e _ _.
Arguments now_at {Token} e _.
Arguments clock_at {Token} e _ _.
Arguments probe {Token} e _.
Arguments forward {Token} e _.
Arguments peer_head {Token} e _.

(** The shared state a dispatch touches: routing state, cached channels, and the
    log of requests sent, with the node and whether the call was accepted. *)
Record DispatchState := mkDS {
  ds_router : RouterState;
  ds_channels : gset string;
  ds_sent : list (string * AgentRequest * bool);
}.

Definition set_router (r : RouterState) (ds : DispatchState) : DispatchState := mkDS r (ds_channels ds) (ds_sent ds).
Definition forget_agent (uri : string) (ds : DispatchState) : DispatchState :=
  mkDS (ds_router ds) (ds_channels ds ∖ {[uri]}) (ds_sent ds).
Definition cache_channel (uri : string) (ds : DispatchState) : DispatchState :=
  mkDS (ds_router ds) ({[uri]} ∪ ds_channels ds) (ds_sent ds).
Definition sent (id : string) (r : AgentRequest) (ok : bool) (ds : DispatchState) : DispatchState :=
  mkDS (ds_router ds) (ds_channels ds) (ds_sent ds ++ [(id, r, ok)]).
Definition track (id : string) (ds : DispatchState) : DispatchState := set_router (track_node (ds_router ds) id) ds.
Definition untrack (id : string) (ds : DispatchState) : DispatchState := set_router (drop_guard (ds_router ds) id) ds.

(** [state.prefix.insert_many]. *)
Definition announce (clock : nat -> Z) (digests : list (list Z)) (id : string) (ds : DispatchState) : DispatchState :=
  let r := ds_router ds in
  let c := set_prefix (PrefixIndex_insert_many (cl_prefix (rs_cluster r)) clock digests id) (rs_cluster r) in
  set_router (mkRouterState (rs_cfg r) c (rs_inflight r) (rs_draining r)) ds.

Definition MAX_DISPATCH_ATTEMPTS : nat := 3.

Inductive FirstToken (Token : Type) := Got (t : Token) | Retry (e : Error) | Fatal (e : Error).
Arguments Got {Token} t.
Arguments Retry {Token} e.
Arguments Fatal {Token} e.

(** tonic codes InvalidArgument, NotFound, PermissionDenied, FailedPrecondition,
    OutOfRange and Unauthenticated. *)
Definition caller_fault (code : Z) : bool := bool_decide (code ∈ [3; 5; 7; 9; 11; 16]%Z).

Definition first_token {Token} (h : StreamHead Token) : FirstToken Token :=
  match h with
  | HeadTimeout => Retry (Error_Unavailable "no token within the timeout")
  | HeadEnd => Retry (Error_Internal "engine stream ended before the first token")
  | HeadToken t => Got t
  | HeadStatus code msg => if caller_fault code then Fatal (Error_InvalidArgument msg) else Retry (Error_Internal msg)
  end.

Definition retryable (e : Error) : bool :=
  match e with Error_Unavailable _ | Error_Internal _ => true | _ => false end.

Definition is_unavailable (e : Error) : bool := match e with Error_Unavailable _ => true | _ => false end.

Record TokenFlow (Token : Type) := mkFlow { tf_first : Token; tf_prompt_estimate : nat; tf_node : option string }.
Arguments mkFlow {Token} _ _ _.
Arguments tf_first {Token} _.
Arguments tf_prompt_estimate {Token} _.
Arguments tf_node {Token} _.

Section dispatch.
Context `{DashIter} `{Blake3} {Token : Type} (env : Env Token).

(** [connect_agent]: the cached channel, or dial and cache. *)
Definition connect_agent (attempt : nat) (prefill : bool) (uri : string) (ds : DispatchState) : DispatchState * option Error :=
  if decide (uri ∈ ds_channels ds) then (ds, None)
  else
    let sec := cfg_security (rs_cfg (ds_router ds)) in
    if negb (endpoint_ok env uri) then (ds, Some (Error_Internal "agent endpoint"))
    else
      match sec_require_mtls sec, sec_ca_file sec, sec_cert_file sec, sec_key_file sec with
      | false, _, _, _ | true, Some _, Some _, Some _ =>
          match dial env attempt prefill uri with
          | Some e => (ds, Some e)
          | None => (cache_channel uri ds, None)
          end
      | true, _, _, _ =>
          (ds, Some (Error_Config "require_mtls=true but [security].ca_file/cert_file/key_file are not set"))
      end.

(** [run_prefill]: [None] on any error; the block list is always empty. *)
Definition run_prefill (attempt : nat) (node : NodeEntry) (ds : DispatchState) : DispatchState * option (list (list Z)) :=
  let (ds, err) := connect_agent attempt true (address node) ds in
  match err with
  | Some _ => (ds, None)
  | None =>
      let r := mkAgentReq (address node) true false [] [] in
      match call env attempt r with
      | Some _ => (sent (node_id node) r false ds, None)
      | None => (sent (node_id node) r true ds, Some [])
      end
  end.

(** The two decisions of an attempt. *)
Definition decide_route (st : RouterState) (now : Z) (key : RouteKey) (exclude : list string)
    : result (RoutingDecision * RoutingDecision) Error :=
  let d := rc_disagg (cfg_router (rs_cfg st)) in
  match plan (dis_enabled d) (dis_colocate_below_tokens d) (Z.of_nat (length (k_token_ids key))) with
  | Colocate => let? d := pick_excluding st now key RoleBoth exclude in Ok (d, d)
  | Split prefill_role decode_role => pick_pair st now key prefill_role decode_role exclude
  end.

Definition dispatch_once (attempt : nat) (req : GenerateRequest) (key : RouteKey) (exclude : list string) (ds : DispatchState)
    : DispatchState * result (string * string) (option string * Error) :=
  match decide_route (ds_router ds) (now_at env attempt) key exclude with
  | Err e => (ds, Err (None, e))
  | Ok (prefill_decision, decode_decision) =>
      let node := d_node decode_decision in
      let id := node_id node in
      match check (rs_cfg (ds_router ds)) req node with
      | DeadlineExceeded _ _ => (ds, Err (Some id, Error_Unavailable "deadline exceeded given current queue depth"))
      | QueueFull => (ds, Err (Some id, Error_Unavailable "admission queue full"))
      | Admit =>
          let ds := track id ds in
          let two := negb (String.eqb (node_id (d_node prefill_decision)) id) in
          let (ds, prefill_blocks) :=
            if two then (let (ds, b) := run_prefill attempt (d_node prefill_decision) ds in (ds, default [] b)) else (ds, []) in
          let (ds, err) := connect_agent attempt false (address node) ds in
          match err with
          | Some e => (untrack id ds, Err (Some id, e))
          | None =>
              let r := mkAgentReq (address node) false (negb (bool_decide (prefill_blocks = []))) prefill_blocks
                         (d_digests decode_decision) in
              match call env attempt r with
              | Some s =>
                  (untrack id (forget_agent (address node) (sent id r false ds)),
                   Err (Some id, Error_Internal ("agent generate: " +:+ s)))
              | None =>
                  let ds := announce (clock_at env attempt) (d_digests decode_decision) id (sent id r true ds) in
                  let ds :=
                    if two then announce (clock_at env attempt) (d_digests prefill_decision) (node_id (d_node prefill_decision)) ds
                    else ds in
                  (ds, Ok (id, address node))
              end
          end
      end
  end.

(** [federate] and its first token. *)
Definition federate (peers : list string) : option Token :=
  match pick_peer (probe env) peers with
  | Err _ => None
  | Ok peer =>
      match forward env peer with
      | Some _ => None
      | None => match first_token (peer_head env peer) with Got t => Some t | _ => None end
      end
  end.

(** The attempts of [open]; also returns the nodes excluded at the end. *)
Fixpoint open_loop (attempts : list nat) (req : GenerateRequest) (key : RouteKey) (exclude : list string)
    (last_err : option Error) (ds : DispatchState) : DispatchState * list string * result (TokenFlow Token) Error :=
  let n := length (k_token_ids key) in
  match attempts with
  | [] => (ds, exclude, Err (default (Error_Unavailable "dispatch exhausted") last_err))
  | attempt :: attempts =>
      let (ds, r) := dispatch_once attempt req key exclude ds in
      match r with
      | Ok (id, addr) =>
          match first_token (head env attempt addr) with
          | Got t => (ds, exclude, Ok (mkFlow t n (Some id)))
          | Fatal e => (untrack id ds, exclude, Err e)
          | Retry e => open_loop attempts req key (exclude ++ [id]) (Some e) (untrack id (forget_agent addr ds))
          end
      | Err (Some id, e) =>
          if retryable e then open_loop attempts req key (exclude ++ [id]) (Some e) ds else (ds, exclude, Err e)
      | Err (None, e) =>
          if is_unavailable e then
            let fed := rc_federation (cfg_router (rs_cfg (ds_router ds))) in
            match (if fed_enabled fed && negb (bool_decide (fed_peers fed = [])) then federate (fed_peers fed) else None) with
            | Some t => (ds, exclude, Ok (mkFlow t n None))
            | None => (ds, exclude, Err (default e last_err))
            end
          else (ds, exclude, Err e)
      end
  end.

Definition open (req : GenerateRequest) (key : RouteKey) (ds : DispatchState)
    : DispatchState * list string * result (TokenFlow Token) Error :=
  open_loop (seq 1 MAX_DISPATCH_ATTEMPTS) req key [] None ds.
End dispatch.

(** ** What an attempt may change *)

Section facts.
Context `{DashIter} `{Blake3} {Token : Type} (env : Env Token).

(** Every count can still grow by one. *)
Definition inflight_ok (ds : DispatchState) : Prop := forall n, (0 <= node_inflight (ds_router ds) n < u32_max)%Z.

Definition colocated (ds : DispatchState) (key : RouteKey) : Prop :=
  let d := rc_disagg (cfg_router (rs_cfg (ds_router ds))) in
  plan (dis_enabled d) (dis_colocate_below_tokens d) (Z.of_nat (length (k_token_ids key))) = Colocate.

Definition prefix_of (ds : DispatchState) : PrefixIndex := cl_prefix (rs_cluster (ds_router ds)).
Definition registry_of (ds : DispatchState) : NodeRegistry := cl_nodes (rs_cluster (ds_router ds)).

Definition plain (x : string * AgentRequest * bool) : Prop := ar_decode_only x.1.2 = false /\ ar_blocks x.1.2 = [].

(** [ds'] follows from [ds]; the request holds one count on [held]; every node
    whose claims changed accepted a request. *)
Record follows (co : Prop) (ds ds' : DispatchState) (held : option string) : Prop := mkFollows {
  fo_cfg : rs_cfg (ds_router ds') = rs_cfg (ds_router ds);
  fo_nodes : registry_of ds' = registry_of ds;
  fo_inflight : forall n, node_inflight (ds_router ds') n = (node_inflight (ds_router ds) n + match held with Some h => if decide (h = n) then 1 else 0 | None => 0 end)%Z;
  fo_wf : prefix_wf (prefix_of ds) -> prefix_wf (prefix_of ds');
  fo_sent : exists l, ds_sent ds' = ds_sent ds ++ l /\ Forall plain l;
  fo_claims : co -> prefix_wf (prefix_of ds) -> forall n, (forall r, (n, r, true) ∉ ds_sent ds') -> forall t d,
    n ∈ PrefixIndex_lookup (prefix_of ds') t d <-> n ∈ PrefixIndex_lookup (prefix_of ds) t d;
}.

Lemma follows_refl co ds : follows co ds ds None.
Proof. split; try done; [intros n; cbn; lia|]. exists []. by rw app_nil_r. Qed.

Lemma follows_trans co ds1 ds2 ds3 h : follows co ds1 ds2 None -> follows co ds2 ds3 h -> follows co ds1 ds3 h.
Proof.
  intros [a1 b1 c1 d1 (l1 & e1 & f1) g1] [a2 b2 c2 d2 (l2 & e2 & f2) g2]. split; try congruence; [|auto| |].
  - intros n. rw c2 c1 /=. lia.
  - exists (l1 ++ l2). rw e2 e1 app_assoc. split; [done|by apply Forall_app].
  - intros Hco Hwf n Hn t d. rw g2 //; [by auto|]. apply g1; [done|done|]. intros r Hr. apply (Hn r). rw e2. apply elem_of_app. by left.
Qed.

(** Steps that leave the routing state alone. *)
Lemma follows_router co ds ds1 ds2 h l :
  follows co ds ds1 h -> ds_router ds2 = ds_router ds1 -> ds_sent ds2 = ds_sent ds1 ++ l -> Forall plain l -> follows co ds ds2 h.
Proof.
  intros [a b c d (l1 & e & f) g] Hr Hs Hl. rw /prefix_of /registry_of in a b c d g |- *. split; rw /prefix_of /registry_of ?Hr; try done.
  - exists (l1 ++ l). rw Hs e app_assoc. split; [done|by apply Forall_app].
  - intros Hco Hwf n Hn. apply g; [done|done|]. intros r Hin. apply (Hn r). rw Hs. apply elem_of_app. by left.
Qed.

Lemma follows_forget co ds ds' h uri : follows co ds ds' h -> follows co ds (forget_agent uri ds') h.
Proof. intros Hf. apply (follows_router co ds ds' _ h []); [done|done|by rw app_nil_r|done]. Qed.

Lemma follows_sent co ds ds' h id r ok : plain (id, r, ok) -> follows co ds ds' h -> follows co ds (sent id r ok ds') h.
Proof. intros Hp Hf. apply (follows_router co ds ds' _ h [(id, r, ok)]); [done|done|done|by constructor]. Qed.

Lemma follows_track co ds id : inflight_ok ds -> follows co ds (track id ds) (Some id).
Proof.
  intros Hok. split; try done; [|by exists []; rw app_nil_r].
  intros n. rw /track /node_inflight /=. destruct (decide (id = n)) as [<-|Hne].
  - rw lookup_insert_eq /= -/(node_inflight (ds_router ds) id). specialize (Hok id). rw add_u32_small; lia.
  - rw lookup_insert_ne //. lia.
Qed.

Lemma follows_untrack co ds ds' id : inflight_ok ds -> follows co ds ds' (Some id) -> follows co ds (untrack id ds') None.
Proof.
  intros Hok [a b c d e g]. split; try done. intros n. rw /untrack /node_inflight /=. destruct (decide (id = n)) as [<-|Hne].
  - rw lookup_insert_eq /= -!/(node_inflight _ id) c decide_True //. specialize (Hok id). rw /u32_max in Hok. rw Z.mod_small; lia.
  - rw lookup_insert_ne // -!/(node_inflight _ n) c decide_False //.
Qed.

Lemma insert_many_lookup ds : forall clock ix n, prefix_wf ix -> forall t d n', n' <> n ->
  n' ∈ PrefixIndex_lookup (PrefixIndex_insert_many ix clock ds n) t d <-> n' ∈ PrefixIndex_lookup ix t d.
Proof.
  induction ds as [|d0 ds IH]; intros clock ix n Hwf t d n' Hne; [done|]. cbn. rw IH //; [by apply wf_insert|].
  rw elem_of_lookup_insert // decide_False //. intros [_ ?]. congruence.
Qed.

Lemma follows_announce (co : Prop) ds ds' h clock digests id :
  (co -> exists r, (id, r, true) ∈ ds_sent ds') -> follows co ds ds' h -> follows co ds (announce clock digests id ds') h.
Proof.
  intros Hsent [a b c d e g]. split; try done; [intros Hwf; apply wf_insert_many; auto|].
  intros Hco Hwf n Hn t x. rw -(g Hco Hwf n Hn t x). apply insert_many_lookup; [by apply d|].
  intros ->. destruct (Hsent Hco) as [r Hr]. by apply (Hn r).
Qed.

Lemma connect_follows co ds ds0 h attempt prefill uri :
  follows co ds0 ds h -> follows co ds0 (connect_agent env attempt prefill uri ds).1 h /\
  ds_router (connect_agent env attempt prefill uri ds).1 = ds_router ds /\ ds_sent (connect_agent env attempt prefill uri ds).1 = ds_sent ds.
Proof.
  intros Hf. assert (Hc : forall u, follows co ds0 (cache_channel u ds) h).
  { intros u. apply (follows_router co ds0 ds _ h []); [done|done|by rw app_nil_r|done]. }
  rw /connect_agent. repeat case_match; cbn [fst]; done.
Qed.

Lemma run_prefill_follows co ds ds0 h attempt node :
  follows co ds0 ds h -> follows co ds0 (run_prefill env attempt node ds).1 h /\
  default [] (run_prefill env attempt node ds).2 = [].
Proof.
  intros Hf. rw /run_prefill. destruct (connect_follows co ds ds0 h attempt true (address node) Hf) as (Hf1 & _ & _).
  destruct (connect_agent env attempt true (address node) ds) as [ds1 [e|]]; cbn [fst] in Hf1; [done|].
  destruct (call env attempt _); cbn [fst snd]; (split; [|done]); by apply follows_sent.
Qed.

(** ** One attempt *)

Lemma excluded_iff exclude n : excluded exclude n = false <-> node_id n ∉ exclude.
Proof.
  rw /excluded -not_true_iff_false existsb_exists. setoid_rewrite String.eqb_eq. setoid_rewrite <- list_elem_of_In. naive_solver.
Qed.

(** [id] is a registered node that may serve the model and was not excluded;
    without disaggregation it also meets the model's constraints. *)
Definition target (ds : DispatchState) (key : RouteKey) (exclude : list string) (id : string) : Prop :=
  exists n, node_id n = id /\ (exists i, registry_of ds !! i = Some n) /\ (id ∉ exclude) /\
    (exists role, routable role (Some (k_model key)) n = true) /\
    (colocated ds key -> eligible (ds_router ds) (k_model key) RoleBoth exclude n).

(** No status that blames the caller, and only retryable connection errors. *)
Definition calm (ds : DispatchState) : Prop :=
  (forall a u e, first_token (head env a u) <> Fatal e) /\ (forall a p u e, dial env a p u = Some e -> retryable e = true) /\
  sec_require_mtls (cfg_security (rs_cfg (ds_router ds))) = false.

Lemma decide_route_target ds now key exclude p d :
  decide_route (ds_router ds) now key exclude = Ok (p, d) ->
  target ds key exclude (node_id (d_node d)) /\ (colocated ds key -> d = p).
Proof.
  rw /decide_route /target /colocated. destruct (plan _ _ _) as [|prole drole].
  - intros Hp. pose proof (pick_cases (ds_router ds) now key RoleBoth exclude) as Hc. cbn zeta in Hc.
    destruct (pick_excluding _ _ _ _ _) as [d0|]; [|done]. cbn in Hp. injection Hp as <- <-. split; [|done].
    destruct Hc as (x & Hin & _ & ->). apply list_elem_of_fmap in Hin as (n & -> & Hn). cbn [d_node]. rw scorer_node.
    apply elem_of_candidates in Hn as [He _]. destruct He as (Hreg & Hr & Hex & Hcap). apply excluded_iff in Hex as Hex'.
    exists n. repeat (split; [by eauto|]). done.
  - rw /pick_pair. pose proof (pick_cases (ds_router ds) now key prole exclude) as Hc. cbn zeta in Hc.
    destruct (pick_excluding _ _ _ _ _) as [p0|]; [|done]. cbn [result_bind].
    destruct Hc as (x & Hin & _ & Hp0). apply list_elem_of_fmap in Hin as (n & -> & Hn). rw scorer_node in Hp0.
    apply elem_of_candidates in Hn as [He _]. destruct He as (Hreg & Hr & Hex%excluded_iff & _).
    destruct (decode_candidates_for _ _ _ _ _) as [|c cs] eqn:Ed.
    + intros [= <- <-]. split; [|done]. exists n. rw Hp0 /=. repeat (split; [by eauto|]). done.
    + set (f := fun n : NodeEntry => (n, score_node _ n _ _ _, f32_zero)). intros Hp.
      destruct (keep_best_spec (f <$> c :: cs)) as ([[x s] o] & Hk & Hin & _); [done|]. cbn [fmap] in Hk. rw Hk in Hp.
      injection Hp as <- <-. split; [|done]. apply list_elem_of_fmap in Hin as (m & Heq & Hm). injection Heq as -> -> ->.
      rw -Ed in Hm. apply elem_of_prefer in Hm as [Hm _]. apply elem_of_bool_filter in Hm as [Hm Hf].
      apply elem_of_nodes_for in Hm as [Hreg' Hr']. apply andb_true_iff in Hf as [_ Hf%negb_true_iff%excluded_iff].
      exists m. cbn. repeat (split; [by eauto|]). done.
Qed.

Lemma decide_route_err ds now key exclude e :
  decide_route (ds_router ds) now key exclude = Err e ->
  is_unavailable e = true /\ (colocated ds key -> forall n, ~ eligible (ds_router ds) (k_model key) RoleBoth exclude n).
Proof.
  rw /decide_route /colocated. destruct (plan _ _ _) as [|prole drole].
  - pose proof (pick_cases (ds_router ds) now key RoleBoth exclude) as Hc. cbn zeta in Hc.
    destruct (pick_excluding _ _ _ _ _) as [d0|]; [done|]. cbn. intros [= ->]. destruct Hc as [Hc%prefer_nil ->]. split; [done|].
    intros _ n Hn%elem_of_eligible. rw Hc in Hn. by apply not_elem_of_nil in Hn.
  - rw /pick_pair. pose proof (pick_cases (ds_router ds) now key prole exclude) as Hc. cbn zeta in Hc.
    destruct (pick_excluding _ _ _ _ _) as [p0|e0]; cbn [result_bind].
    + destruct (decode_candidates_for _ _ _ _ _) as [|c cs]; [done|]. set (f := fun n : NodeEntry => (n, score_node _ n _ _ _, f32_zero)).
      destruct (keep_best_spec (f <$> c :: cs)) as ([[x s] o] & Hk & _ & _); [done|]. cbn [fmap] in Hk. by rw Hk.
    + intros [= ->]. by destruct Hc as [_ ->].
Qed.

Lemma connect_retryable ds attempt prefill uri e :
  calm ds -> (connect_agent env attempt prefill uri ds).2 = Some e -> retryable e = true.
Proof.
  intros (_ & Hd & Hm). rw /connect_agent Hm. case_decide; [done|]. destruct (endpoint_ok env uri); cbn; [|by intros [= <-]].
  destruct (dial env attempt prefill uri) as [e'|] eqn:E; [|done]. intros [= <-]. by eapply Hd.
Qed.

Lemma dispatch_once_spec attempt req key exclude ds : inflight_ok ds ->
  let r := dispatch_once env attempt req key exclude ds in
  match r.2 with
  | Ok (id, _) => target ds key exclude id /\ follows (colocated ds key) ds r.1 (Some id)
  | Err (Some id, e) => target ds key exclude id /\ follows (colocated ds key) ds r.1 None /\ (calm ds -> retryable e = true)
  | Err (None, e) => r.1 = ds /\ is_unavailable e = true /\
      (colocated ds key -> forall n, ~ eligible (ds_router ds) (k_model key) RoleBoth exclude n)
  end.
Proof.
  intros Hok. cbn zeta. rw /dispatch_once. destruct (decide_route _ _ _ _) as [[p d]|e] eqn:Er.
  2: { apply decide_route_err in Er. done. }
  apply decide_route_target in Er as [Ht Hco]. set (id := node_id (d_node d)) in *. set (co := colocated ds key) in *.
  destruct (check _ _ _); cbn [fst snd]; [|split; [done|split; [apply follows_refl|done]]..].
  pose proof (follows_track co ds id Hok) as Hf.
  set (two := negb (String.eqb (node_id (d_node p)) id)).
  destruct (if two then _ else _) as [ds1 blocks] eqn:E1.
  assert (Hf1 : follows co ds ds1 (Some id) /\ blocks = [] /\ rs_cfg (ds_router ds1) = rs_cfg (ds_router ds)).
  { destruct two; [|by injection E1 as <- <-].
    destruct (run_prefill_follows co (track id ds) ds (Some id) attempt (d_node p) Hf) as [Hf' Hb].
    destruct (run_prefill env attempt (d_node p) (track id ds)) as [ds2 b]. injection E1 as <- <-. cbn [fst snd] in *.
    split; [done|]. split; [done|]. apply Hf'. }
  destruct Hf1 as (Hf1 & -> & Hcfg). clear E1.
  destruct (connect_follows co ds1 ds (Some id) attempt false (address (d_node d)) Hf1) as (Hf2 & _ & _).
  pose proof (connect_retryable ds1 attempt false (address (d_node d))) as Hre.
  destruct (connect_agent env attempt false (address (d_node d)) ds1) as [ds2 [e|]]; cbn [fst snd] in Hf2, Hre.
  { split; [done|]. split; [by apply follows_untrack|]. intros Hcalm. apply Hre; [|done]. rw /calm Hcfg. apply Hcalm. }
  set (r := mkAgentReq _ _ _ _ _). assert (Hp : forall ok, plain (id, r, ok)) by done.
  destruct (call env attempt r) as [msg|]; cbn [fst snd].
  { split; [done|]. split; [|done]. apply follows_untrack; [done|]. apply follows_forget. by apply follows_sent. }
  split; [done|]. set (ds3 := sent id r true ds2).
  assert (Hf3 : follows co ds (announce (clock_at env attempt) (d_digests d) id ds3) (Some id)).
  { apply follows_announce; [|by apply follows_sent]. intros _. exists r. apply elem_of_app. right. by apply list_elem_of_singleton. }
  destruct two eqn:Etwo; [|done]. apply follows_announce; [|done]. intros Hc. rw /two -(Hco Hc) String.eqb_refl // in Etwo.
Qed.

(** ** The loop *)

Lemma follows_ok co ds ds' : inflight_ok ds -> follows co ds ds' None -> inflight_ok ds'.
Proof. intros Hok Hf n. rw (fo_inflight _ _ _ _ Hf) /=. specialize (Hok n). lia. Qed.

Lemma follows_same co ds ds' h : follows co ds ds' h ->
  rs_cfg (ds_router ds') = rs_cfg (ds_router ds) /\ registry_of ds' = registry_of ds.
Proof. by intros []. Qed.

Lemma eligible_same ds ds' m role ex n :
  rs_cfg (ds_router ds') = rs_cfg (ds_router ds) -> registry_of ds' = registry_of ds ->
  eligible (ds_router ds') m role ex n <-> eligible (ds_router ds) m role ex n.
Proof. rw /eligible /capable /registry_of => -> ->. done. Qed.

Lemma colocated_same ds ds' key : rs_cfg (ds_router ds') = rs_cfg (ds_router ds) -> colocated ds' key = colocated ds key.
Proof. by rw /colocated => ->. Qed.

Lemma target_same ds ds' key ex id :
  rs_cfg (ds_router ds') = rs_cfg (ds_router ds) -> registry_of ds' = registry_of ds ->
  target ds' key ex id -> target ds key ex id.
Proof.
  intros Hc Hr (n & Hid & Hreg & Hex & Hrole & Hco). exists n. rw -Hr. repeat (split; [done|]).
  intros Hp. apply (eligible_same ds ds'); [done..|]. apply Hco. by rw (colocated_same ds).
Qed.

(** What [open] guarantees when it stops with [ex] excluded. *)
Definition outcome_ok (ds ds' : DispatchState) (key : RouteKey) (ex : list string) (total : nat)
    (r : result (TokenFlow Token) Error) : Prop :=
  NoDup ex /\ length ex <= total /\
  match r with
  | Ok flow => follows (colocated ds key) ds ds' (tf_node flow) /\
      match tf_node flow with
      | Some id => target ds key ex id
      | None => fed_enabled (rc_federation (cfg_router (rs_cfg (ds_router ds)))) = true /\
                (colocated ds key -> forall n, ~ eligible (ds_router ds) (k_model key) RoleBoth ex n)
      end
  | Err _ => follows (colocated ds key) ds ds' None /\
      (calm ds -> colocated ds key -> length ex = total \/ forall n, ~ eligible (ds_router ds) (k_model key) RoleBoth ex n)
  end.

Lemma outcome_after ds ds1 ds' key ex total r :
  follows (colocated ds key) ds ds1 None -> outcome_ok ds1 ds' key ex total r -> outcome_ok ds ds' key ex total r.
Proof.
  intros Hf (Hnd & Hlen & Hr). destruct (follows_same _ _ _ _ Hf) as [Hc Hn]. split; [done|]. split; [done|].
  rw (colocated_same ds ds1 key Hc) in Hr. destruct r as [flow|e].
  - destruct Hr as [Hr Ht]. split; [by eapply follows_trans|]. destruct (tf_node flow) as [id|].
    + by apply (target_same ds ds1).
    + rw -Hc. split; [by apply Ht|]. intros Hco n He. apply (proj2 Ht Hco n). by apply (eligible_same ds ds1).
  - destruct Hr as [Hr Ht]. split; [by eapply follows_trans|]. intros (Hh & Hd & Hm) Hco. destruct Ht as [Ht|Ht]; [by rw /calm Hc|done|by left|].
    right. intros n He. apply (Ht n). by apply (eligible_same ds ds1).
Qed.

Lemma open_loop_spec attempts : forall req key exclude last_err ds,
  inflight_ok ds -> NoDup exclude ->
  let '(ds', ex, r) := open_loop env attempts req key exclude last_err ds in
  outcome_ok ds ds' key ex (length exclude + length attempts) r.
Proof.
  induction attempts as [|attempt attempts IH]; intros req key exclude last_err ds Hok Hnd; cbn [open_loop].
  { split; [done|]. split; [cbn; lia|]. split; [apply follows_refl|]. intros _ _. left. cbn. lia. }
  pose proof (dispatch_once_spec attempt req key exclude ds Hok) as Hd. cbn zeta in Hd.
  destruct (dispatch_once env attempt req key exclude ds) as [ds1 res]. cbn [fst snd] in Hd.
  assert (Hnext : forall id le ds2, target ds key exclude id -> follows (colocated ds key) ds ds2 None ->
    let '(ds', ex, r) := open_loop env attempts req key (exclude ++ [id]) le ds2 in
    outcome_ok ds ds' key ex (length exclude + length (attempt :: attempts)) r).
  { intros id le ds2 (n & Hid & _ & Hni & _) Hf. specialize (IH req key (exclude ++ [id]) le ds2).
    destruct (open_loop env attempts req key (exclude ++ [id]) le ds2) as [[ds' ex] r].
    apply (outcome_after ds ds2); [done|].
    replace (length exclude + length (attempt :: attempts)) with (length (exclude ++ [id]) + length attempts)
      by (rw length_app; cbn; lia).
    apply IH; [by eapply follows_ok|].
    apply NoDup_app. split; [done|]. split; [by intros x Hx ->%list_elem_of_singleton|apply NoDup_singleton]. }
  destruct res as [[id addr]|[[id|] e]].
  - destruct Hd as [Ht Hf]. destruct (first_token (head env attempt addr)) as [t|e|e] eqn:Eh.
    + split; [done|]. split; [lia|]. by split.
    + apply Hnext; [done|]. apply follows_untrack; [done|]. by apply follows_forget.
    + split; [done|]. split; [lia|]. split; [by apply follows_untrack|]. intros (Hh & _) _. by destruct (Hh attempt addr e).
  - destruct Hd as (Ht & Hf & Hre). destruct (retryable e) eqn:Er; [by apply Hnext|]. split; [done|]. split; [lia|]. split; [done|].
    intros Hc _. by apply Hre in Hc.
  - destruct Hd as (-> & -> & Hno). set (fed := rc_federation _).
    destruct (if fed_enabled fed && _ then _ else _) as [t|] eqn:Ef.
    + split; [done|]. split; [lia|]. split; [apply follows_refl|]. cbn. split; [|done]. rw -/fed. by destruct (fed_enabled fed).
    + split; [done|]. split; [lia|]. split; [apply follows_refl|]. intros _ Hco. right. by apply Hno.
Qed.
End facts.

(** ** Properties *)

(** C9. Dispatch with retries ([open] after admission): at most three attempts,
    each on a different node. On success from a local node that node is
    registered, routable for the model, was not among the failed ones (and
    meets the model's constraints unless the request was split), and is the only
    node whose in-flight count is one higher; on any failure, and on a federated
    answer, every count is back where it was. Without disaggregation only nodes
    that accepted the request gain or change prefix claims. When failures are
    all of the retryable kind, it gives up only after three nodes failed or when
    no eligible node is left. *)
Theorem open_correct `{DashIter} `{Blake3} {Token} (env : Env Token) req key ds
  (Hok : inflight_ok ds) (Hwf : prefix_wf (prefix_of ds)) :
  let '(ds', failed, r) := open env req key ds in
  let held := match r with Ok flow => tf_node flow | Err _ => None end in
  NoDup failed /\ length failed <= MAX_DISPATCH_ATTEMPTS /\
  (forall n, node_inflight (ds_router ds') n =
     (node_inflight (ds_router ds) n + match held with Some h => if decide (h = n) then 1 else 0 | None => 0 end)%Z) /\
  (colocated ds key -> forall n, (forall q, (n, q, true) ∉ ds_sent ds') -> forall t d,
     n ∈ PrefixIndex_lookup (prefix_of ds') t d <-> n ∈ PrefixIndex_lookup (prefix_of ds) t d) /\
  match r with
  | Ok flow =>
      match tf_node flow with
      | Some id => target ds key failed id
      | None => fed_enabled (rc_federation (cfg_router (rs_cfg (ds_router ds)))) = true /\
                (colocated ds key -> forall n, ~ eligible (ds_router ds) (k_model key) RoleBoth failed n)
      end
  | Err _ => calm env ds -> colocated ds key ->
      length failed = MAX_DISPATCH_ATTEMPTS \/ forall n, ~ eligible (ds_router ds) (k_model key) RoleBoth failed n
  end.
Proof.
  pose proof (open_loop_spec env (seq 1 MAX_DISPATCH_ATTEMPTS) req key [] None ds Hok (NoDup_nil_2)) as Hs.
  rw /open. destruct (open_loop _ _ _ _ _ _ _) as [[ds' failed] r]. destruct Hs as (Hnd & Hlen & Hr).
  split; [done|]. split; [done|].
  assert (Hf : follows (colocated ds key) ds ds' (match r with Ok flow => tf_node flow | Err _ => None end)).
  { by destruct r as [flow|e], Hr as [Hr _]. }
  split; [apply Hf|]. split; [intros Hco; by apply (fo_claims _ _ _ _ Hf)|]. by destruct r as [flow|e], Hr as [_ Hr].
Qed.

(** The router never hands KV blocks over: every decode request it sends has
    [decode_only = false] and no blocks, split or not, because [run_prefill]
    returns an empty list even when the prefill succeeded. *)
Lemma decode_only_never_sent `{DashIter} `{Blake3} {Token} (env : Env Token) req key ds :
  inflight_ok ds -> ds_sent ds = [] ->
  let '(ds', _, _) := open env req key ds in Forall (fun x => ar_decode_only x.1.2 = false /\ ar_blocks x.1.2 = []) (ds_sent ds').
Proof.
  intros Hok Hs. pose proof (open_loop_spec env (seq 1 MAX_DISPATCH_ATTEMPTS) req key [] None ds Hok (NoDup_nil_2)) as Ho.
  rw /open. destruct (open_loop _ _ _ _ _ _ _) as [[ds' failed] r]. destruct Ho as (_ & _ & Hr).
  assert (Hf : follows (colocated ds key) ds ds' (match r with Ok flow => tf_node flow | Err _ => None end)).
  { by destruct r as [flow|e], Hr as [Hr _]. }
  destruct (fo_sent _ _ _ _ Hf) as (l & -> & Hl). by rw Hs.
Qed.

(** ** A run with a failing node, and an unreachable prefill node *)

Module Examples.
Import Cluster.Examples Routing.Examples.

#[local] Existing Instance list_order.
#[local] Existing Instance toy.

(** Node [a] cannot be dialed; every other stream starts with a token. *)
Definition env_a : Env string := {|
  endpoint_ok _ := true;
  dial _ _ uri := if String.eqb uri "http://a:7070" then Some (Error_Unavailable "agent connect") else None;
  call _ _ := None;
  head _ _ := HeadToken "hello";
  now_at _ := 0%Z;
  clock_at _ _ := 0%Z;
  probe _ := None;
  forward _ := None;
  peer_head _ := HeadEnd |}.

(** A node at its own address, with so many free blocks. *)
Definition at_addr (id : string) (r free : Z) : NodeEntry :=
  mkNode id ("http://" +:+ id +:+ ":7070") r None (Some "llama3") 0 free 1000 f32_one f32_zero "NVIDIA H100" "nvidia" 81000 false 0 true false [] 0.

Definition two_nodes : DispatchState := mkDS (state_of weights [at_addr "a" 3 900; at_addr "b" 3 100]) ∅ [].
Definition req0 : GenerateRequest := mkGenReq 0 None.

Lemma open_correct_witness :
  let '(ds', failed, r) := open env_a req0 key0 two_nodes in
  failed = ["a"] /\ r = Ok (mkFlow "hello" 3 (Some "b")) /\ node_inflight (ds_router ds') "a" = 0%Z /\ node_inflight (ds_router ds') "b" = 1%Z.
Proof.
  assert (Hok : inflight_ok two_nodes).
  { intros n. change (node_inflight (ds_router two_nodes) n) with 0%Z. by rw /u32_max. }
  pose proof (open_correct env_a req0 key0 two_nodes Hok (wf_new 60)) as Hs.
  destruct (open env_a req0 key0 two_nodes) as [[ds' failed] r] eqn:E.
  destruct Hs as (_ & _ & Hi & _ & _).
  assert (Hr : (failed, r) = (["a"], Ok (mkFlow "hello" 3 (Some "b")))).
  { transitivity ((open env_a req0 key0 two_nodes).1.2, (open env_a req0 key0 two_nodes).2); [by rw E|vm_compute; reflexivity]. }
  injection Hr as -> ->. split; [reflexivity|]. split; [reflexivity|]. split; rw Hi; vm_compute; reflexivity.
Defined.

(** With disaggregation on, a prefill node that cannot be dialed still gains
    claims on the prompt's digests. *)
Definition disagg_on (st : RouterState) : RouterState :=
  let c := rs_cfg st in
  let r := cfg_router c in
  mkRouterState
    {| cfg_cluster := cfg_cluster c;
       cfg_router := {| rc_listen_http := rc_listen_http r; rc_listen_grpc := rc_listen_grpc r; rc_listen_admin := rc_listen_admin r;
         rc_node_id := rc_node_id r; rc_score_weights := rc_score_weights r; rc_admission := rc_admission r;
         rc_rate_limit := rc_rate_limit r; rc_cascade := rc_cascade r; rc_disagg := mkDisaggConfig true 2;
         rc_federation := rc_federation r; rc_autoscaler := rc_autoscaler r; rc_drain_timeout := rc_drain_timeout r;
         rc_first_token_timeout := rc_first_token_timeout r; rc_max_body_mb := rc_max_body_mb r;
         rc_kv_tenant_isolation := rc_kv_tenant_isolation r |};
       cfg_agent := cfg_agent c; cfg_engine := cfg_engine c; cfg_kv := cfg_kv c; cfg_security := cfg_security c;
       cfg_metrics := cfg_metrics c; cfg_auth := cfg_auth c; cfg_carbon := cfg_carbon c; cfg_models := cfg_models c |}
    (rs_cluster st) (rs_inflight st) (rs_draining st).

Definition split_nodes : DispatchState := mkDS (disagg_on (state_of weights [at_addr "a" 1 900; at_addr "b" 2 100])) ∅ [].

Lemma unreachable_prefill_claims :
  let ds' := (open env_a req0 key0 split_nodes).1.1 in
  let ds := hash_seq_chunks (k_salt key0) (k_token_ids key0) in
  Forall (fun x => x.1.1 <> "a") (ds_sent ds') /\ Forall (fun d => "a" ∈ PrefixIndex_lookup (prefix_of ds') 0 d) ds /\ ds <> [].
Proof.
  cbn zeta. split; [|split].
  - compute_dec.
  - compute_dec.
  - vm_compute. discriminate.
Qed.
End Examples.
