(* ===== verification/Text.v ===== *)
(** * Text

    A Rust [&str] as the list of its characters, a character as its code point,
    and the functions of the standard library the modelled parsers and printers
    use: [trim], [split_once], [split], [lines], [split_whitespace],
    [strip_prefix], [strip_suffix], [parse] for [u64] and [usize], the decimal
    [Display] of unsigned integers and UTF-8 encoding. *)

From S2P Require Import Prelude StringFacts.

Abbreviation str := (list Z).

(** A literal: the code points of an ASCII string. *)
Fixpoint lit (s : string) : str :=
  match s with
  | EmptyString => []
  | String a s' => Z.of_nat (Ascii.nat_of_ascii a) :: lit s'
  end.

(** ** White space *)

(** [char::is_whitespace]: Unicode's White_Space. *)
Definition is_whitespace (c : Z) : bool :=
  ((9 <=? c) && (c <=? 13) || (c =? 32) || (c =? 133) || (c =? 160) || (c =? 5760)
   || (8192 <=? c) && (c <=? 8202) || (c =? 8232) || (c =? 8233) || (c =? 8239)
   || (c =? 8287) || (c =? 12288))%Z.

Fixpoint trim_start (s : str) : str :=
  match s with
  | c :: s' => if is_whitespace c then trim_start s' else s
  | [] => []
  end.

Definition trim_end (s : str) : str := reverse (trim_start (reverse s)).
Definition trim (s : str) : str := trim_end (trim_start s).

(** [str::split_once] at a character: before and after its first occurrence. *)
Fixpoint split_once (sep : Z) (s : str) : option (str * str) :=
  match s with
  | [] => None
  | c :: s' =>
      if (c =? sep)%Z then Some ([], s')
      else match split_once sep s' with Some (a, b) => Some (c :: a, b) | None => None end
  end.

(** [str::strip_prefix]. *)
Fixpoint strip_prefix (p s : str) : option str :=
  match p, s with
  | [], _ => Some s
  | a :: p', b :: s' => if (a =? b)%Z then strip_prefix p' s' else None
  | _ :: _, [] => None
  end.

(** ** Unsigned decimal integers *)

Definition is_digit (c : Z) : bool := ((48 <=? c) && (c <=? 57))%Z.

(** The accumulating loop of [from_str_radix]: [checked_mul], [checked_add]. *)
Fixpoint parse_digits (max acc : Z) (s : str) : option Z :=
  match s with
  | [] => Some acc
  | c :: s' =>
      if is_digit c then
        let acc' := (acc * 10 + (c - 48))%Z in
        if (acc' <=? max)%Z then parse_digits max acc' s' else None
      else None
  end.

(** [s.parse::<T>()] for an unsigned [T] with maximum [max]: one leading plus
    sign is allowed, nothing else but digits, at least one of them. *)
Definition parse_unsigned (max : Z) (s : str) : option Z :=
  let digits := match s with c :: s' => if (c =? 43)%Z then s' else s | [] => [] end in
  match digits with [] => None | _ => parse_digits max 0 digits end.

Definition parse_u64 : str -> option Z := parse_unsigned u64_max.
Definition parse_u32 : str -> option Z := parse_unsigned u32_max.

(** [to_string] of an unsigned integer. Twenty digits hold every [u64]. *)
Fixpoint dec_fuel (fuel : nat) (n : Z) (acc : str) : str :=
  match fuel with
  | O => acc
  | S fuel' =>
      let acc' := (48 + n mod 10)%Z :: acc in
      if (n <? 10)%Z then acc' else dec_fuel fuel' (n / 10) acc'
  end.
Definition dec (n : Z) : str := dec_fuel 20 n [].

(** ** Pieces and bytes *)

(** [str::split] at a character; [rsplit] is its reverse. *)
Fixpoint split_char (sep : Z) (s : str) : list str :=
  match s with
  | [] => [[]]
  | c :: s' =>
      if (c =? sep)%Z then [] :: split_char sep s'
      else match split_char sep s' with p :: ps => (c :: p) :: ps | [] => [[c]] end
  end.
Definition rsplit_char (sep : Z) (s : str) : list str := reverse (split_char sep s).

(** [str::lines]: an empty last line does not count; a carriage return is cut
    before a line feed, not at the end of the text. *)
Definition cut_cr (l : str) : str :=
  match reverse l with c :: r => if (c =? 13)%Z then reverse r else l | [] => l end.
Definition lines (s : str) : list str :=
  match reverse (split_char 10 s) with
  | [] => []
  | l :: r => reverse (cut_cr <$> r) ++ (if bool_decide (l = []) then [] else [l])
  end.

(** [str::split_whitespace]. *)
Fixpoint words_go (cur : str) (s : str) : list str :=
  match s with
  | [] => match cur with [] => [] | _ => [reverse cur] end
  | c :: s' =>
      if is_whitespace c then match cur with [] => words_go [] s' | _ => reverse cur :: words_go [] s' end
      else words_go (c :: cur) s'
  end.
Definition split_whitespace (s : str) : list str := words_go [] s.

(** [as_bytes]: UTF-8. *)
Definition utf8_char (c : Z) : list Z :=
  if (c <? 128)%Z then [c]
  else if (c <? 2048)%Z then [192 + Z.shiftr c 6; 128 + Z.land c 63]%Z
  else if (c <? 65536)%Z then [224 + Z.shiftr c 12; 128 + Z.land (Z.shiftr c 6) 63; 128 + Z.land c 63]%Z
  else [240 + Z.shiftr c 18; 128 + Z.land (Z.shiftr c 12) 63; 128 + Z.land (Z.shiftr c 6) 63; 128 + Z.land c 63]%Z.
Definition utf8 (s : str) : list Z := concat (utf8_char <$> s).

(** A character: a Unicode scalar value. *)
Definition scalar (c : Z) : Prop := (0 <= c < 55296 \/ 57344 <= c < 1114112)%Z.

#[export] Instance scalar_dec c : Decision (scalar c).
Proof. rw /scalar. apply _. Defined.

(** Text without line breaks. *)
Definition one_line (s : str) : Prop := Forall (fun c => scalar c /\ c <> 10 /\ c <> 13)%Z s.
#[export] Instance one_line_dec s : Decision (one_line s).
Proof. rw /one_line. apply _. Defined.

Definition continuation (b : Z) : bool := (128 <=? b)%Z && (b <? 192)%Z.

(** [std::str::from_utf8]: overlong forms, surrogates and values beyond the last
    scalar are refused. *)
Fixpoint from_utf8 (b : list Z) : option str :=
  match b with
  | [] => Some []
  | b0 :: r0 =>
      if (b0 <? 128)%Z then cons b0 <$> from_utf8 r0
      else match r0 with
      | [] => None
      | b1 :: r1 =>
          if (194 <=? b0)%Z && (b0 <? 224)%Z then
            if continuation b1 then cons ((b0 - 192) * 64 + (b1 - 128))%Z <$> from_utf8 r1 else None
          else match r1 with
          | [] => None
          | b2 :: r2 =>
              if (224 <=? b0)%Z && (b0 <? 240)%Z then
                let c := ((b0 - 224) * 4096 + (b1 - 128) * 64 + (b2 - 128))%Z in
                if continuation b1 && continuation b2 && (2048 <=? c)%Z && ((c <? 55296)%Z || (57344 <=? c)%Z)
                then cons c <$> from_utf8 r2 else None
              else match r2 with
              | [] => None
              | b3 :: r3 =>
                  let c := ((b0 - 240) * 262144 + (b1 - 128) * 4096 + (b2 - 128) * 64 + (b3 - 128))%Z in
                  if (240 <=? b0)%Z && continuation b1 && continuation b2 && continuation b3 && (65536 <=? c)%Z && (c <? 1114112)%Z
                  then cons c <$> from_utf8 r3 else None
              end
          end
      end
  end.

(** The byte string of a list of bytes, the inverse of [as_bytes]. *)
Definition ascii_of (b : Z) : Ascii.ascii := Ascii.ascii_of_N (Z.to_N b).
Fixpoint of_bytes (l : list Z) : string := match l with [] => EmptyString | b :: l' => String (ascii_of b) (of_bytes l') end.

(** A text as the byte string the messages carry. *)
Definition to_string (s : str) : string := of_bytes (utf8 s).

(** [strip_suffix] at a character. *)
Definition strip_suffix_char (c : Z) (s : str) : option str :=
  match reverse s with d :: r => if (d =? c)%Z then Some (reverse r) else None | [] => None end.

Definition starts_with (p s : str) : bool := match strip_prefix p s with Some _ => true | None => false end.

(** [Iterator::find_map]. *)
Fixpoint find_map {A B} (f : A -> option B) (l : list A) : option B :=
  match l with [] => None | x :: l' => match f x with Some y => Some y | None => find_map f l' end end.

(** ** Lemmas *)

Lemma trim_start_id s : (forall c, head s = Some c -> is_whitespace c = false) -> trim_start s = s.
Proof. destruct s as [|c s]; [done|]. intros Hc. by rw /= (Hc c). Qed.

Lemma trim_id s : Forall (fun c => is_whitespace c = false) s -> trim s = s.
Proof.
  intros Hs. rw /trim /trim_end (trim_start_id s).
  - destruct Hs; naive_solver.
  - rw trim_start_id ?reverse_involutive //. rw -Forall_reverse in Hs. destruct Hs; naive_solver.
Qed.

Lemma trim_start_suffix s : exists w, s = w ++ trim_start s /\ Forall (fun c => is_whitespace c = true) w.
Proof.
  induction s as [|c s (w & Hw & Hall)]; [by exists []|]. cbn. destruct (is_whitespace c) eqn:E.
  - exists (c :: w). split; [by rw {1}Hw|by constructor].
  - by exists [].
Qed.

Lemma split_once_app sep a b : sep ∉ a -> split_once sep (a ++ sep :: b) = Some (a, b).
Proof.
  induction a as [|c a IH]; cbn; [by rw Z.eqb_refl|]. intros [Hc Ha]%not_elem_of_cons.
  rw IH //. case_match eqn:E; [lia|done].
Qed.

Lemma split_once_Some sep s a b : split_once sep s = Some (a, b) -> s = a ++ sep :: b /\ sep ∉ a.
Proof.
  revert a b. induction s as [|c s IH]; intros a b; [done|]. cbn. destruct (Z.eqb_spec c sep) as [->|Hne].
  - intros [= <- <-]. split; [done|]. apply not_elem_of_nil.
  - destruct (split_once sep s) as [[a' b']|]; [|done]. intros [= <- <-].
    destruct (IH a' b' eq_refl) as [-> Hn]. split; [done|]. by apply not_elem_of_cons.
Qed.

Lemma text_strip_prefix_app p s : strip_prefix p (p ++ s) = Some s.
Proof. induction p as [|c p IH]; [done|]. by rw /= Z.eqb_refl. Qed.

Lemma strip_prefix_Some p s t : strip_prefix p s = Some t -> s = p ++ t.
Proof.
  revert s. induction p as [|a p IH]; intros [|b s]; cbn; try done; [by intros [= ->]..|].
  destruct (Z.eqb_spec a b) as [->|]; [|done]. intros E. by rw (IH s).
Qed.

Lemma is_digit_spec c : is_digit c = true <-> (48 <= c <= 57)%Z.
Proof. rw /is_digit andb_true_iff !Z.leb_le. lia. Qed.

Lemma digit_not_ws c : is_digit c = true -> is_whitespace c = false.
Proof. rw is_digit_spec /is_whitespace => ?. repeat (apply orb_false_iff; split); lia. Qed.

Lemma parse_digits_app max acc a b :
  parse_digits max acc (a ++ b) = match parse_digits max acc a with Some acc' => parse_digits max acc' b | None => None end.
Proof. revert acc. induction a as [|c a IH]; intros acc; cbn; [done|]. destruct (is_digit c); [|done]. by case_match. Qed.

Lemma parse_digits_bounds max acc s z :
  (0 <= acc)%Z -> (acc <= max)%Z -> parse_digits max acc s = Some z -> (acc <= z <= max)%Z.
Proof.
  revert acc. induction s as [|c s IH]; intros acc Ha Hm; cbn; [by intros [= ->]|].
  destruct (is_digit c) eqn:Ec; [|done]. apply is_digit_spec in Ec.
  case_match eqn:Em; [|done]. intros Hp. apply IH in Hp; lia.
Qed.

Lemma parse_unsigned_bounds max s z : (0 <= max)%Z -> parse_unsigned max s = Some z -> (0 <= z <= max)%Z.
Proof. rw /parse_unsigned => ?. repeat case_match; try done; intros E; apply parse_digits_bounds in E; lia. Qed.

Lemma dec_fuel_digits f n acc :
  Forall (fun c => is_digit c = true) acc -> (0 <= n)%Z -> Forall (fun c => is_digit c = true) (dec_fuel f n acc).
Proof.
  revert n acc. induction f as [|f IH]; intros n acc Hacc Hn; [done|]. cbn.
  assert (is_digit (48 + n mod 10) = true) by (apply is_digit_spec; pose proof (Z.mod_pos_bound n 10); lia).
  case_match; [by constructor|]. apply IH; [by constructor|apply Z.div_pos; lia].
Qed.

Lemma dec_digits n : (0 <= n)%Z -> Forall (fun c => is_digit c = true) (dec n).
Proof. by apply dec_fuel_digits. Qed.

Lemma dec_fuel_acc f n acc : dec_fuel f n acc = dec_fuel f n [] ++ acc.
Proof.
  revert n acc. induction f as [|f IH]; intros n acc; [done|]. cbn. case_match; [done|].
  rw IH (IH _ [_]) -assoc //.
Qed.

Lemma dec_nonempty n : dec n <> [].
Proof.
  rw /dec. change 20 with (S 19). generalize 19 => f. cbn [dec_fuel]. case_match; [done|]. rw dec_fuel_acc. by destruct (dec_fuel _ _ _).
Qed.

Lemma parse_dec_fuel f n max :
  (0 <= n < 10 ^ Z.of_nat f)%Z -> (n <= max)%Z -> 0 < f -> parse_digits max 0 (dec_fuel f n []) = Some n.
Proof.
  revert n. induction f as [|f IH]; intros n Hn Hm Hf; [lia|]. cbn.
  pose proof (Z.mod_pos_bound n 10 ltac:(lia)) as Hmod.
  assert (is_digit (48 + n mod 10) = true) as Hd by (apply is_digit_spec; lia).
  pose proof (Z.div_mod n 10 ltac:(lia)) as Hdm.
  destruct (Z.ltb_spec n 10).
  - cbn. rw Hd Z.mod_small; [lia|]. rw (_ : 0 * 10 + (48 + n - 48) = n)%Z; [lia|]. case_match; [done|lia].
  - destruct f as [|f]; [cbn in Hn; lia|].
    rw dec_fuel_acc parse_digits_app IH; [|lia| |].
    + split; [apply Z.div_pos; lia|]. apply Z.div_lt_upper_bound; [lia|].
      rw (Nat2Z.inj_succ (S f)) Z.pow_succ_r in Hn; lia.
    + assert (n / 10 <= n)%Z by (apply Z.div_le_upper_bound; lia). lia.
    + cbn [parse_digits]. rw Hd (_ : n / 10 * 10 + (48 + n mod 10 - 48) = n)%Z; [lia|]. case_match; [done|lia].
Qed.

Lemma parse_dec n max : is_u64 n -> (n <= max)%Z -> parse_unsigned max (dec n) = Some n.
Proof.
  intros [Hn Hn'] Hm. pose proof (dec_digits n Hn) as Hd. rw /parse_unsigned.
  assert (parse_digits max 0 (dec n) = Some n) as Hp.
  { apply parse_dec_fuel; [|done|lia]. rw /u64_max in Hn'. split; [done|]. cbn. lia. }
  destruct (dec n) as [|c s] eqn:E.
  - by apply dec_nonempty in E.
  - apply Forall_cons in Hd as [Hc _]. apply is_digit_spec in Hc. by destruct (Z.eqb_spec c 43); [lia|].
Qed.

Lemma dec_no_char n c : (0 <= n)%Z -> is_digit c = false -> c ∉ dec n.
Proof. intros Hn Hc Hin. pose proof (dec_digits n Hn) as Hd. rw Forall_forall in Hd. rw (Hd c) in Hc; done. Qed.

Lemma trim_dec n : (0 <= n)%Z -> trim (dec n) = dec n.
Proof. intros Hn. apply trim_id. eapply Forall_impl; [by apply dec_digits|]. apply digit_not_ws. Qed.

Lemma split_char_app sep a b : split_char sep (a ++ sep :: b) = split_char sep a ++ split_char sep b.
Proof.
  induction a as [|c a IH]; cbn; [by rw Z.eqb_refl|]. destruct (c =? sep)%Z; [by rw IH|]. rw IH.
  destruct (split_char sep a) as [|p ps] eqn:E; [|done]. exfalso. clear IH. destruct a as [|x a]; cbn in E; [done|].
  destruct (x =? sep)%Z; [done|]. by destruct (split_char sep a).
Qed.

(** ** UTF-8 *)

(** Decides the comparisons of a goal, one side of which lia can refute. *)
Ltac decide_ranges :=
  repeat match goal with
  | |- context [(?a <? ?b)%Z] => first [rw (proj2 (Z.ltb_lt a b) ltac:(lia)) | rw (proj2 (Z.ltb_ge a b) ltac:(lia))]
  | |- context [(?a <=? ?b)%Z] => first [rw (proj2 (Z.leb_le a b) ltac:(lia)) | rw (proj2 (Z.leb_gt a b) ltac:(lia))]
  end.

Lemma land_low c k : (0 <= k)%Z -> Z.land c (2 ^ k - 1) = (c mod 2 ^ k)%Z.
Proof. intros Hk. rw -Z.land_ones; [lia|]. f_equal. rw Z.ones_equiv. lia. Qed.

Lemma land_63 c : Z.land c 63 = (c mod 64)%Z.
Proof. by apply (land_low c 6). Qed.

(** The six-bit digits of a number. *)
Lemma six_bits c : c = (64 * (c / 64) + c mod 64)%Z /\ (0 <= c mod 64 < 64)%Z.
Proof. split; [by apply Z.div_mod|by apply Z.mod_pos_bound]. Qed.

Lemma from_utf8_char c l : scalar c -> from_utf8 (utf8_char c ++ l) = cons c <$> from_utf8 l.
Proof.
  intros Hc. rw /utf8_char !land_63 !Z.shiftr_div_pow2 //.
  change (2 ^ 12)%Z with (64 * 64)%Z. change (2 ^ 18)%Z with (64 * 64 * 64)%Z. change (2 ^ 6)%Z with 64%Z.
  rw -!Z.div_div //. destruct (six_bits c) as [E1 B1]. destruct (six_bits (c / 64)) as [E2 B2].
  destruct (six_bits (c / 64 / 64)) as [E3 B3].
  remember (c mod 64)%Z as r0. remember (c / 64)%Z as q1. remember (q1 mod 64)%Z as r1.
  remember (q1 / 64)%Z as q2. remember (q2 mod 64)%Z as r2. remember (q2 / 64)%Z as q3. clear Heqr0 Heqq1 Heqr1 Heqq2 Heqr2 Heqq3.
  rw /scalar in Hc.
  destruct (Z.ltb_spec c 128); [cbn; by decide_ranges|].
  destruct (Z.ltb_spec c 2048); [cbn; rw /continuation; decide_ranges; cbn; f_equal; f_equal; lia|].
  destruct (Z.ltb_spec c 65536); cbn; rw /continuation.
  - destruct (Z.ltb_spec c 55296); decide_ranges; cbn; f_equal; f_equal; lia.
  - decide_ranges. cbn. f_equal. f_equal. lia.
Qed.

Lemma utf8_cons c s : utf8 (c :: s) = utf8_char c ++ utf8 s.
Proof. done. Qed.

Lemma utf8_app s1 s2 : utf8 (s1 ++ s2) = utf8 s1 ++ utf8 s2.
Proof. by rw /utf8 fmap_app concat_app. Qed.

(** Decoding inverts encoding. *)
Lemma from_utf8_utf8 s : Forall scalar s -> from_utf8 (utf8 s) = Some s.
Proof.
  induction 1 as [|c s Hc _ IH]; [done|]. by rw utf8_cons from_utf8_char // IH.
Qed.

(** Decoding goes on after a valid part. *)
Lemma from_utf8_app a b x : from_utf8 a = Some x -> from_utf8 (a ++ b) = app x <$> from_utf8 b.
Proof.
  assert (Hcons : forall c l y, (cons c <$> from_utf8 l) = Some y -> (forall z, from_utf8 l = Some z -> from_utf8 (l ++ b) = app z <$> from_utf8 b) ->
    cons c <$> from_utf8 (l ++ b) = app y <$> from_utf8 b).
  { intros c l y. destruct (from_utf8 l) as [z|]; [|done]. intros [= <-] Hz. rw (Hz z eq_refl). by destruct (from_utf8 b). }
  assert (Hnil : from_utf8 b = app [] <$> from_utf8 b) by by destruct (from_utf8 b).
  revert a x. fix IH 1. intros [|b0 a] x; cbn [from_utf8 app]; [intros [= <-]; exact Hnil|].
  destruct (b0 <? 128)%Z; [intros E; apply (Hcons _ _ _ E), IH|].
  destruct a as [|b1 a]; cbn [app]; [done|]. destruct ((194 <=? b0)%Z && (b0 <? 224)%Z).
  { destruct (continuation b1); [|done]. intros E. apply (Hcons _ _ _ E), IH. }
  destruct a as [|b2 a]; cbn [app]; [done|]. destruct ((224 <=? b0)%Z && (b0 <? 240)%Z).
  { cbv zeta. destruct (_ && _); [|done]. intros E. apply (Hcons _ _ _ E), IH. }
  destruct a as [|b3 a]; cbn [app]; [done|]. cbv zeta. destruct (_ && _); [|done]. intros E. apply (Hcons _ _ _ E), IH.
Qed.

(** A text that ends with the byte of a line feed ends with a line feed. *)
Lemma from_utf8_newline a s : from_utf8 (a ++ [10%Z]) = Some s -> exists s', s = s' ++ [10%Z].
Proof.
  assert (Hcons : forall c l y, (cons c <$> from_utf8 (l ++ [10%Z])) = Some y -> (forall z, from_utf8 (l ++ [10%Z]) = Some z -> exists s', z = s' ++ [10%Z]) ->
    exists s', y = s' ++ [10%Z]).
  { intros c l y. destruct (from_utf8 _) as [z|]; [|done]. intros [= <-] Hz. destruct (Hz z eq_refl) as [s' ->]. by exists (c :: s'). }
  revert a s. fix IH 1. intros [|b0 a] s; [cbn; intros [= <-]; by exists []|]. cbn [app from_utf8].
  destruct (b0 <? 128)%Z; [intros E; apply (Hcons _ _ _ E), IH|].
  destruct a as [|b1 a]; cbn [app]; [by cbn; destruct (_ && _)|]. destruct ((194 <=? b0)%Z && (b0 <? 224)%Z).
  { destruct (continuation b1); [|done]. intros E. apply (Hcons _ _ _ E), IH. }
  destruct a as [|b2 a]; cbn [app]; [by cbv zeta; change (continuation 10) with false; repeat rw (andb_false_r, andb_false_l); repeat case_match|].
  destruct ((224 <=? b0)%Z && (b0 <? 240)%Z).
  { cbv zeta. destruct (_ && _); [|done]. intros E. apply (Hcons _ _ _ E), IH. }
  destruct a as [|b3 a]; cbn [app]; [by cbv zeta; change (continuation 10) with false; repeat rw (andb_false_r, andb_false_l); repeat case_match|].
  cbv zeta. destruct (_ && _); [|done]. intros E. apply (Hcons _ _ _ E), IH.
Qed.

Lemma utf8_ascii s : Forall (fun c => (0 <= c < 128)%Z) s -> utf8 s = s.
Proof.
  induction 1 as [|c s Hc _ IH]; [done|]. rw utf8_cons IH /utf8_char. by rw (proj2 (Z.ltb_lt c 128) ltac:(lia)).
Qed.

Lemma utf8_char_bytes c : scalar c -> Forall (fun b => (0 <= b < 256)%Z) (utf8_char c).
Proof.
  rw /scalar => Hc. rw /utf8_char !land_63 !Z.shiftr_div_pow2 //.
  destruct (Z.ltb_spec c 128), (Z.ltb_spec c 2048), (Z.ltb_spec c 65536); repeat constructor;
    Z.to_euclidean_division_equations; lia.
Qed.

Lemma utf8_bytes s : Forall scalar s -> Forall (fun b => (0 <= b < 256)%Z) (utf8 s).
Proof. induction 1; [constructor|]. rw utf8_cons. apply Forall_app. split; [by apply utf8_char_bytes|done]. Qed.

Lemma of_as_bytes s : of_bytes (as_bytes s) = s.
Proof. induction s as [|a s IH]; [done|]. rw as_bytes_cons /= IH. by rw /ascii_of N2Z.id Ascii.ascii_N_embedding. Qed.

Lemma as_of_bytes l : Forall (fun b => (0 <= b < 256)%Z) l -> as_bytes (of_bytes l) = l.
Proof.
  induction 1 as [|b l Hb _ IH]; [done|]. rw /= as_bytes_cons IH. f_equal.
  rw /ascii_of Ascii.N_ascii_embedding; [|by lia]. lia.
Qed.

(** ** Lines *)

Lemma split_char_none sep a : Forall (fun c => c <> sep) a -> split_char sep a = [a].
Proof. induction 1 as [|c a Hc _ IH]; [done|]. cbn. by rw (proj2 (Z.eqb_neq c sep) Hc) IH. Qed.

(** ** Lines *)

Abbreviation no_newline := (Forall (fun c : Z => c <> 10%Z)).

Lemma split_char_nonempty sep s : exists p ps, split_char sep s = p :: ps.
Proof. destruct s as [|c s]; cbn [split_char]; [by eauto|]. case_match; [by eauto|]. case_match; by eauto. Qed.

Lemma split_char_pieces sep s : Forall (Forall (fun c => c <> sep)) (split_char sep s).
Proof.
  induction s as [|c s IH]; cbn [split_char]; [by repeat constructor|]. destruct (c =? sep)%Z eqn:E; [by constructor|].
  apply Z.eqb_neq in E. destruct (split_char sep s); [by repeat constructor|]. apply Forall_cons_1 in IH as [??]. by repeat constructor.
Qed.

(** A terminated line, and then the rest. *)
Lemma lines_app a b : lines (a ++ 10%Z :: b) = (cut_cr <$> split_char 10 a) ++ lines b.
Proof.
  rw /lines split_char_app reverse_app. destruct (split_char_nonempty 10 b) as (p & ps & ->). rw reverse_cons.
  destruct (reverse ps ++ [p]) as [|l r] eqn:E; [by destruct (reverse ps)|]. rw -app_comm_cons fmap_app reverse_app.
  rw (fmap_reverse cut_cr (split_char 10 a)) reverse_involutive. by rw -app_assoc.
Qed.

(** Text that ends its last line, or is empty, then more. *)
Definition ended (s : str) : Prop := s = [] \/ last s = Some 10%Z.

Lemma lines_ended a b : ended a -> lines (a ++ b) = lines a ++ lines b.
Proof.
  intros [->|Hl]; [done|]. destruct a as [|x a' _] using rev_ind; [done|]. rw last_snoc in Hl. injection Hl as ->.
  rw -app_assoc /= !lines_app. by rw app_nil_r.
Qed.

Lemma lines_one l : no_newline l -> lines (l ++ [10%Z]) = [cut_cr l].
Proof. intros Hl. by rw lines_app (split_char_none 10 l Hl). Qed.

Lemma lines_terminated (ls : list str) : Forall no_newline ls -> lines (concat (map (fun l => l ++ [10%Z]) ls)) = cut_cr <$> ls.
Proof.
  induction 1 as [|l ls Hl _ IH]; [done|]. cbn [map concat]. by rw -app_assoc lines_app (split_char_none 10 l Hl) IH.
Qed.

(** [join("\n")]. *)
Fixpoint join_lines (ls : list str) : str :=
  match ls with [] => [] | [l] => l | l :: ls => l ++ 10%Z :: join_lines ls end.

Lemma lines_join (ls : list str) : Forall no_newline ls ->
  exists ls' l, lines (join_lines ls) = (cut_cr <$> ls') ++ l /\ ((ls = ls' ++ l /\ length l <= 1) \/ (ls = ls' ++ [[]] /\ l = [])).
Proof.
  induction ls as [|a ls IH]; intros Hls; [exists [], []; split; [done|]; left; cbn; auto|].
  apply Forall_cons_1 in Hls as [Ha Hls]. destruct ls as [|b ls].
  - exists []. cbn [join_lines]. rw /lines (split_char_none 10 a Ha) reverse_singleton. destruct (decide (a = [])) as [->|Hne].
    + exists []. split; [done|by right].
    + exists [a]. rw bool_decide_false //. split; [done|by left].
  - destruct (IH Hls) as (ls' & l & El & Hl). exists (a :: ls'), l. split.
    + change (join_lines (a :: b :: ls)) with (a ++ 10%Z :: join_lines (b :: ls)). rw lines_app (split_char_none 10 a Ha) El. done.
    + destruct Hl as [[-> Hn]|[-> ->]]; [left|right]; done.
Qed.

Lemma split_char_forall (P : Z -> Prop) sep s : Forall P s -> Forall (Forall P) (split_char sep s).
Proof.
  induction 1 as [|c s Hc _ IH]; cbn [split_char]; [by repeat constructor|]. case_match; [by constructor|].
  destruct (split_char sep s); [by repeat constructor|]. apply Forall_cons_1 in IH as [??]. by repeat constructor.
Qed.

Lemma cut_cr_forall (P : Z -> Prop) l : Forall P l -> Forall P (cut_cr l).
Proof.
  intros Hl. rw /cut_cr. destruct (reverse l) as [|c r] eqn:E; [done|]. case_match; [|done].
  rw -Forall_reverse E in Hl. apply Forall_reverse. by apply Forall_cons_1 in Hl as [_ ?].
Qed.

Lemma lines_forall (P : Z -> Prop) s : Forall P s -> Forall (Forall P) (lines s).
Proof.
  intros Hs. apply (split_char_forall P 10) in Hs. rw /lines. rw -Forall_reverse in Hs. destruct (reverse _) as [|l r]; [done|].
  apply Forall_cons_1 in Hs as [Hl Hr]. apply Forall_app. split; [|case_match; by repeat constructor].
  apply Forall_reverse, Forall_fmap. eapply Forall_impl; [exact Hr|]. intros. by apply cut_cr_forall.
Qed.

Lemma cut_cr_newline l : no_newline l -> no_newline (cut_cr l).
Proof. apply cut_cr_forall. Qed.

(** A line has no line feed. *)
Lemma lines_newline s : Forall no_newline (lines s).
Proof.
  rw /lines. pose proof (split_char_pieces 10 s) as Hp. rw -Forall_reverse in Hp. destruct (reverse _) as [|l r]; [done|].
  apply Forall_cons_1 in Hp as [Hl Hr]. apply Forall_app. split; [|case_match; by repeat constructor].
  apply Forall_reverse, Forall_fmap. eapply Forall_impl; [exact Hr|]. intros. by apply cut_cr_newline.
Qed.

Lemma utf8_char_no_byte b c : scalar c -> (b < 128)%Z -> c <> b -> Forall (fun x => x <> b) (utf8_char c).
Proof.
  rw /scalar => Hc Hb Hn. rw /utf8_char !land_63 !Z.shiftr_div_pow2 //.
  destruct (Z.ltb_spec c 128), (Z.ltb_spec c 2048), (Z.ltb_spec c 65536); repeat constructor; try lia;
    Z.to_euclidean_division_equations; lia.
Qed.

Lemma utf8_one_line s : one_line s -> Forall (fun x => x <> 10%Z) (utf8 s).
Proof.
  induction 1 as [|c s (Hc & Hn & _) _ IH]; [constructor|]. rw utf8_cons. apply Forall_app. split; [|exact IH].
  by apply utf8_char_no_byte.
Qed.

Lemma one_line_scalar s : one_line s -> Forall scalar s.
Proof. intros Hs. eapply Forall_impl; [exact Hs|]. by intros c (Hc & _). Qed.

(** A line and an empty line. *)
Lemma lines_block s : one_line s -> lines (s ++ [10; 10]%Z) = [s; []].
Proof.
  intros Hs. assert (Hn : Forall (fun c => c <> 10%Z) s) by (eapply Forall_impl; [exact Hs|]; by intros c (_ & Hc & _)).
  rw /lines (split_char_app 10 s [10%Z]) (split_char_none 10 s Hn) /=. do 2 f_equal.
  rw /cut_cr. destruct (reverse s) as [|c r] eqn:E; [done|].
  rw /one_line -Forall_reverse E in Hs. apply Forall_cons_1 in Hs as [(_ & _ & Hc) _].
  by rw (proj2 (Z.eqb_neq c 13) Hc).
Qed.

(** Text that begins and ends in something visible is not trimmed. *)
Lemma trim_ends s : (forall c, head s = Some c -> is_whitespace c = false) -> (forall c, last s = Some c -> is_whitespace c = false) -> trim s = s.
Proof.
  intros Hh Hl. rw /trim /trim_end (trim_start_id s) // trim_start_id ?reverse_involutive //.
  intros c Hc. apply Hl. by rw -head_reverse.
Qed.

Lemma trim_space s : trim (32%Z :: s) = trim s.
Proof. done. Qed.

Lemma trim_start_app a c : is_whitespace c = false -> trim_start (a ++ [c]) = trim_start a ++ [c].
Proof. intros Hc. induction a as [|x a IH]; cbn; [by rw Hc|]. by destruct (is_whitespace x). Qed.

(** The first character stays when it is visible. *)
Lemma trim_cons c s : is_whitespace c = false -> trim (c :: s) = c :: trim_end s.
Proof.
  intros Hc. rw /trim /trim_end (trim_start_id (c :: s)); [by intros x [= <-]|].
  by rw reverse_cons trim_start_app // reverse_snoc.
Qed.
