(* ===== verification/BTree.v ===== *)
(** * Maps in key order

    Rust's [BTreeMap] with text keys: a finite map whose iteration is sorted by
    key. *)

From S2P Require Import Prelude.

(** Byte-wise comparison of the keys. *)
Definition key_le {A} (a b : string * A) : Prop := Is_true (String.leb (fst a) (fst b)).
#[export] Instance key_le_dec {A} : RelDecision (@key_le A).
Proof. intros a b. rw /key_le. apply _. Defined.

Definition btree_iter {A} (m : gmap string A) : list (string * A) := merge_sort key_le (map_to_list m).

Lemma btree_iter_perm {A} (m : gmap string A) : btree_iter m ≡ₚ map_to_list m.
Proof. apply merge_sort_Permutation. Qed.

Lemma elem_of_btree_iter {A} (m : gmap string A) k x : (k, x) ∈ btree_iter m <-> m !! k = Some x.
Proof. by rw btree_iter_perm elem_of_map_to_list. Qed.
