(* ===== verification/Json.v ===== *)
(** * JSON values

    [serde_json::Value] and the accessors the modelled code uses. Printing and
    parsing are the crate's: the class [SerdeJson]. *)

From Stdlib Require Import Ascii.
From S2P Require Import Prelude StringFacts Float32 Text.

#[local] Set Warnings "-register-all".

Inductive Json :=
| JNull
| JBool (b : bool)
| JNumber (n : Z)
| JFloat (x : f64)
| JString (s : string)
| JArray (l : list Json)
| JObject (fields : list (string * Json)).

(** ** Objects *)

Fixpoint field (k : string) (fields : list (string * Json)) : option Json :=
  match fields with
  | [] => None
  | (k', v) :: fields' => if String.eqb k' k then Some v else field k fields'
  end.

(** [Map::insert] into a map in key order. *)
Fixpoint obj_insert (k : string) (v : Json) (f : list (string * Json)) : list (string * Json) :=
  match f with
  | [] => [(k, v)]
  | (k', v') :: f' =>
      match String.compare k k' with
      | Eq => (k, v) :: f'
      | Lt => (k, v) :: f
      | Gt => (k', v') :: obj_insert k v f'
      end
  end.

(** [json!({..})]. *)
Definition json_object (members : list (string * Json)) : list (string * Json) :=
  foldl (fun f e => obj_insert e.1 e.2 f) [] members.

(** What a syntax tree is as a [Value]: members in key order, the last of equal
    keys. *)
Fixpoint to_value (v : Json) : Json :=
  match v with
  | JArray l => JArray (map to_value l)
  | JObject f => JObject ((fix go acc f := match f with [] => acc | (k, v) :: f' => go (obj_insert k (to_value v) acc) f' end) [] f)
  | _ => v
  end.

(** [json_tree] is the syntax tree of a text, members as they are written. *)
Class SerdeJson := {
  json_to_string : Json -> string;
  json_tree : string -> option Json;
}.

(** [serde_json::from_str::<Value>]. *)
Definition json_from_str `{SerdeJson} (s : string) : option Json := to_value <$> json_tree s.

(** [Value::get] with a key. *)
Definition json_get (k : string) (v : Json) : option Json := match v with JObject f => field k f | _ => None end.

Definition as_str (v : Json) : option string := match v with JString s => Some s | _ => None end.
Definition as_array (v : Json) : option (list Json) := match v with JArray l => Some l | _ => None end.
Definition as_u64 (v : Json) : option Z :=
  match v with JNumber n => if (0 <=? n)%Z then Some n else None | _ => None end.
Definition as_f64 (v : Json) : option f64 :=
  match v with JNumber n => Some (f64_of_Z n) | JFloat x => Some x | _ => None end.

(** [json!(x)] for an [f32]: JSON has no infinities. *)
Definition json_f32 (x : f32) : Json := if is_finite x then JFloat (f64_of_f32 x) else JNull.

(** ** Typed deserialization

    What serde's derived [Deserialize] makes of a syntax tree. A struct is an
    object, in which a repeated known member is an error and an unknown one is
    ignored, or an array of its fields in order. *)

Definition occurs (k : string) (f : list (string * Json)) : nat := length (List.filter (fun e => String.eqb e.1 k) f).

Definition struct_members (names : list string) (v : Json) : option (list (string * Json)) :=
  match v with
  | JObject f => if existsb (fun k => 1 <? occurs k f)%nat names then None else Some f
  | JArray l => if (length l <=? length names)%nat then Some (zip names l) else None
  | _ => None
  end.

Definition de_string : Json -> option string := as_str.
Definition de_bool (v : Json) : option bool := match v with JBool b => Some b | _ => None end.
Definition de_unsigned (max : Z) (v : Json) : option Z :=
  match v with JNumber n => if (0 <=? n)%Z && (n <=? max)%Z then Some n else None | _ => None end.
Definition de_u32 : Json -> option Z := de_unsigned u32_max.
Definition de_u64 : Json -> option Z := de_unsigned u64_max.
Definition de_f32 (v : Json) : option f32 :=
  match v with JNumber n => Some (f32_of_Z n) | JFloat x => Some (f32_of_f64 x) | _ => None end.
Definition de_value (v : Json) : option Json := Some (to_value v).
Definition de_vec {A} (de : Json -> option A) (v : Json) : option (list A) :=
  match v with JArray l => mapM de l | _ => None end.
Definition de_option {A} (de : Json -> option A) (v : Json) : option (option A) :=
  match v with JNull => Some None | _ => Some <$> de v end.

(** A member with [#[serde(default)]], and one that must be there. *)
Definition member {A} (de : Json -> option A) (d : A) (k : string) (f : list (string * Json)) : option A :=
  match field k f with Some v => de v | None => Some d end.
Definition required {A} (de : Json -> option A) (k : string) (f : list (string * Json)) : option A := field k f ≫= de.

(** ** Lemmas *)

Lemma field_obj_insert k v k' f : field k' (obj_insert k v f) = if String.eqb k k' then Some v else field k' f.
Proof.
  induction f as [|[a x] f IH]; cbn; [done|].
  destruct (String.compare k a) eqn:E; cbn; [|done|].
  - apply String.compare_eq_iff in E as ->. by destruct (String.eqb a k').
  - rw IH. destruct (String.eqb_spec a k') as [->|]; [|done].
    destruct (String.eqb_spec k k') as [->|]; [|done].
    by rw compare_refl in E.
Qed.

(** *** Objects in key order *)

Definition sorted_keys (f : list (string * Json)) : Prop := StronglySorted (fun a b => String.compare a.1 b.1 = Lt) f.

Lemma obj_insert_above a k v f :
  Forall (fun e => String.compare a e.1 = Lt) f -> String.compare a k = Lt ->
  Forall (fun e => String.compare a e.1 = Lt) (obj_insert k v f).
Proof.
  intros Hf Hk. induction Hf as [|[b x] f Hb Hf IH]; cbn; [by constructor|].
  destruct (String.compare k b); by repeat constructor.
Qed.

Lemma obj_insert_sorted k v f : sorted_keys f -> sorted_keys (obj_insert k v f).
Proof.
  rw /sorted_keys. induction 1 as [|[a x] f Hs IH Ha]; cbn; [by repeat constructor|].
  destruct (String.compare k a) eqn:E.
  - apply String.compare_eq_iff in E as ->. by constructor.
  - constructor; [by constructor|]. constructor; [done|]. eapply Forall_impl; [exact Ha|]. cbn. intros e He.
    by eapply compare_lt_trans.
  - constructor; [exact IH|]. apply obj_insert_above; [done|]. by apply compare_gt_lt.
Qed.

Lemma sorted_keys_occurs k f : sorted_keys f -> occurs k f <= 1.
Proof.
  rw /sorted_keys /occurs. induction 1 as [|[a x] f Hs IH Ha]; cbn; [lia|].
  destruct (String.eqb_spec a k) as [->|]; [|exact IH]. cbn.
  replace (List.filter _ f) with (@nil (string * Json)); [cbn; lia|].
  clear -Ha. induction Ha as [|[b y] f Hb _ IH]; [done|]. cbn in *.
  destruct (String.eqb_spec b k) as [->|]; [by rw compare_refl in Hb|exact IH].
Qed.

(** An object in key order has its members. *)
Lemma struct_members_sorted names f : sorted_keys f -> struct_members names (JObject f) = Some f.
Proof.
  intros Hf. rw /struct_members. replace (existsb _ names) with false; [done|]. symmetry.
  induction names as [|k names IH]; [done|]. apply orb_false_intro; [|exact IH].
  by apply Nat.ltb_ge, sorted_keys_occurs.
Qed.

(** The members of a value that was read. *)
Definition to_members (f : list (string * Json)) : list (string * Json) := foldl (fun acc e => obj_insert e.1 (to_value e.2) acc) [] f.

Lemma to_value_object f : to_value (JObject f) = JObject (to_members f).
Proof. rw /to_members /=. f_equal. generalize (@nil (string * Json)). induction f as [|[k v] f IH]; intros acc; [done|]. by rw /= IH. Qed.

Lemma obj_insert_keys k v f x : x ∈ map fst (obj_insert k v f) -> x = k \/ x ∈ map fst f.
Proof.
  induction f as [|[a w] f IH]; cbn; [by intros ->%list_elem_of_singleton; left|].
  destruct (String.compare k a); cbn; rw !elem_of_cons; naive_solver.
Qed.

Lemma field_absent k f : field k f = None <-> k ∉ map fst f.
Proof.
  induction f as [|[a v] f IH]; cbn; [split; [intros _; apply not_elem_of_nil|done]|]. rw not_elem_of_cons.
  destruct (String.eqb_spec a k) as [->|]; [naive_solver|]. rw IH. naive_solver.
Qed.

Lemma to_members_keys f x : x ∈ map fst (to_members f) -> x ∈ map fst f.
Proof.
  rw /to_members. assert (Hg : forall acc, x ∈ map fst (foldl (fun acc e => obj_insert e.1 (to_value e.2) acc) acc f) -> x ∈ map fst acc \/ x ∈ map fst f).
  { induction f as [|e f IH]; intros acc; [by left|]. cbn. intros [Hx|Hx]%IH; [|by right; right].
    apply obj_insert_keys in Hx as [->|Hx]; [by right; left|by left]. }
  intros [Hx|Hx]%Hg; [by apply elem_of_nil in Hx|done].
Qed.

Lemma to_members_field k f : occurs k f <= 1 -> field k (to_members f) = to_value <$> field k f.
Proof.
  rw /to_members. assert (Hg : forall acc, occurs k f <= 1 ->
    field k (foldl (fun acc e => obj_insert e.1 (to_value e.2) acc) acc f) = match field k f with Some v => Some (to_value v) | None => field k acc end).
  { induction f as [|[a v] f IH]; intros acc Ho; [done|]. rw /occurs /= in Ho. cbn. rw IH; [|].
    - rw /occurs. destruct (String.eqb a k); cbn in Ho; lia.
    - rw field_obj_insert. destruct (String.eqb a k); [|done]. cbn in Ho. rw -/(occurs k f) in Ho.
      assert (E : field k f = None); [|by rw E]. clear -Ho. induction f as [|[b w] f IH]; [done|]. rw /occurs /= in Ho. cbn.
      destruct (String.eqb b k); [cbn in Ho; lia|by apply IH]. }
  intros Ho. rw Hg //.
Qed.

(** ** Printing *)

(** A Rust [String]. *)
Definition utf8_ok (s : string) : bool := match from_utf8 (as_bytes s) with Some _ => true | None => false end.

(** What a [Value] can hold. *)
Fixpoint json_ok (v : Json) : bool :=
  match v with
  | JNull | JBool _ => true
  | JNumber n => (- 2 ^ 63 <=? n)%Z && (n <=? u64_max)%Z
  | JFloat x => is_finite x
  | JString s => utf8_ok s
  | JArray l => forallb json_ok l
  | JObject f => forallb (fun e => utf8_ok e.1 && json_ok e.2) f
  end.

(** A value up to the digits of its floats that an [f32] has not. *)
Fixpoint narrow (v : Json) : Json :=
  match v with
  | JFloat x => JFloat (f32_of_f64 x)
  | JArray l => JArray (map narrow l)
  | JObject f => JObject (map (fun e => (e.1, narrow e.2)) f)
  | _ => v
  end.

(** The documented behaviour of the printer: its text parses back, members in
    their order; the default parser may miss the last bits of an [f64], which an
    [f32] does not see. An object is printed on one line between braces. *)
Class SerdeJsonPrint `{SerdeJson} : Prop := {
  json_print_parse v : json_ok v = true -> exists w, json_tree (json_to_string v) = Some w /\ narrow w = narrow v;
  json_print_line f : json_ok (JObject f) = true ->
    exists s, as_bytes (json_to_string (JObject f)) = utf8 (lit "{" ++ s ++ lit "}") /\ Forall (fun c => scalar c /\ (32 <= c)%Z) s;
}.

(** *** Decoding does not see the lost digits *)

Definition same (w v : Json) : Prop := narrow w = narrow v.
Definition same_members (f g : list (string * Json)) : Prop := Forall2 (fun a b => a.1 = b.1 /\ same a.2 b.2) f g.

(** A decoder that gives the same on values that are the same. *)
Definition blind {A} (de : Json -> option A) : Prop := forall w v, same w v -> de w = de v.

Lemma same_array l v : same (JArray l) v -> exists l', v = JArray l' /\ Forall2 same l l'.
Proof.
  destruct v as [| | | | |l'|]; try done. intros [= E]. exists l'. split; [done|].
  revert l' E. induction l as [|x l IH]; intros [|y l'] E; try done. cbn in E. injection E as Hx E. constructor; [done|by apply IH].
Qed.

Lemma same_object f v : same (JObject f) v -> exists g, v = JObject g /\ same_members f g.
Proof.
  destruct v as [| | | | | |g]; try done. intros [= E]. exists g. split; [done|].
  revert g E. induction f as [|[k x] f IH]; intros [|[k' y] g] E; try done; [by constructor|]. cbn in E. injection E as Hk Hx E. constructor; [done|by apply IH].
Qed.

Lemma same_field k f g : same_members f g ->
  match field k f, field k g with Some w, Some v => same w v | None, None => True | _, _ => False end.
Proof.
  induction 1 as [|[a x] [b y] f g [Hk Hx] _ IH]; [done|]. cbn in *. subst. by destruct (String.eqb b k).
Qed.

Lemma same_occurs k f g : same_members f g -> occurs k f = occurs k g.
Proof.
  rw /occurs. induction 1 as [|[a x] [b y] f g [Hk _] _ IH]; [done|]. cbn in *. subst. destruct (String.eqb b k); cbn; lia.
Qed.

Lemma same_struct names w v : same w v ->
  match struct_members names w, struct_members names v with
  | Some f, Some g => same_members f g
  | None, None => True
  | _, _ => False
  end.
Proof.
  intros Hs. destruct w as [| | | | |l|f]; try by destruct v.
  - apply same_array in Hs as (l' & -> & Hl). cbn. rw (Forall2_length _ _ _ Hl).
    destruct (length l' <=? length names)%nat; [|done]. rw /same_members. clear -Hl.
    revert names. induction Hl as [|x y l l' Hx _ IH]; intros [|n names]; by constructor.
  - apply same_object in Hs as (g & -> & Hg). rw /struct_members.
    assert (E : forall k, occurs k f = occurs k g) by (intros k; by apply same_occurs).
    replace (existsb (fun k => 1 <? occurs k f)%nat names) with (existsb (fun k => 1 <? occurs k g)%nat names)
      by (clear -E; induction names as [|n names IH]; [done|]; cbn [existsb]; by rw E IH).
    by destruct (existsb _ names).
Qed.

Lemma blind_string : blind de_string.
Proof. intros [] [] [=]; by subst. Qed.
Lemma blind_bool : blind de_bool.
Proof. intros [] [] [=]; by subst. Qed.
Lemma blind_unsigned max : blind (de_unsigned max).
Proof. intros [] [] [=]; by subst. Qed.
Lemma blind_u32 : blind de_u32.
Proof. exact (blind_unsigned u32_max). Qed.
Lemma blind_u64 : blind de_u64.
Proof. exact (blind_unsigned u64_max). Qed.
Lemma blind_f32 : blind de_f32.
Proof. intros [] [] [=]; subst; cbn; congruence. Qed.

Lemma blind_vec {A} (de : Json -> option A) : blind de -> blind (de_vec de).
Proof.
  intros Hde w v Hs. destruct w as [| | | | |l|]; try by destruct v. apply same_array in Hs as (l' & -> & Hl). cbn.
  induction Hl as [|x y l l' Hx _ IH]; [done|]. cbn. by rw (Hde x y Hx) IH.
Qed.

Lemma blind_option {A} (de : Json -> option A) : blind de -> blind (de_option de).
Proof. intros Hde w v Hs. rw /de_option (Hde w v Hs). by destruct w, v. Qed.

Lemma blind_member {A} (de : Json -> option A) d k f g : blind de -> same_members f g -> member de d k f = member de d k g.
Proof.
  intros Hde Hf. pose proof (same_field k f g Hf) as Hk. rw /member. destruct (field k f), (field k g); try done. by apply Hde.
Qed.

Lemma blind_required {A} (de : Json -> option A) k f g : blind de -> same_members f g -> required de k f = required de k g.
Proof.
  intros Hde Hf. pose proof (same_field k f g Hf) as Hk. rw /required. destruct (field k f), (field k g); try done. by apply Hde.
Qed.

(** A struct whose members are decoded blindly. *)
Lemma blind_struct {A} names (k : list (string * Json) -> option A) :
  (forall f g, same_members f g -> k f = k g) -> blind (fun v => struct_members names v ≫= k).
Proof.
  intros Hk w v Hs. pose proof (same_struct names w v Hs) as Hm.
  destruct (struct_members names w), (struct_members names v); try done. by apply Hk.
Qed.

#[export] Hint Resolve blind_string blind_bool blind_u32 blind_u64 blind_f32 blind_vec blind_option : cgn.

(** What a printed value is decoded to. *)
Lemma de_printed `{SerdeJsonPrint} {A} (de : Json -> option A) v :
  blind de -> json_ok v = true -> json_tree (json_to_string v) ≫= de = de v.
Proof. intros Hde Hv. destruct (json_print_parse v Hv) as (w & -> & Hw). by apply Hde. Qed.

(** An [f32] survives the [f64] of a JSON number. *)
Lemma de_json_f32 x : f32_valid x -> is_finite x = true -> de_f32 (json_f32 x) = Some x.
Proof. intros Hx Hf. by rw /json_f32 Hf /= f32_of_f64_of_f32. Qed.

Lemma is_finite_widen x : f32_valid x -> is_finite x = true -> is_finite (f64_of_f32 x) = true.
Proof.
  intros Hv Hf. pose proof (f32_of_f64_of_f32 x Hv) as E. destruct (f64_of_f32 x); try done; by subst x.
Qed.

(** Without floats, a text parses to the very value. *)
Fixpoint float_free (v : Json) : bool :=
  match v with
  | JFloat _ => false
  | JArray l => forallb float_free l
  | JObject f => forallb (fun e => float_free e.2) f
  | _ => true
  end.

Fixpoint same_float_free (w v : Json) {struct v} : float_free v = true -> same w v -> w = v.
Proof.
  intros Hv Hs. destruct v as [| | |x| |l|f]; try discriminate; try (destruct w; rw /same /= in Hs; congruence).
  - symmetry in Hs. apply same_array in Hs as (l' & -> & Hl). f_equal. cbn in Hv. revert l' Hl.
    induction l as [|y l IH]; intros l' Hl; inversion Hl as [|? x ? l2 Hx Hl2]; subst; [done|].
    apply andb_true_iff in Hv as [Hy Hv]. f_equal; [by apply same_float_free|by apply IH].
  - symmetry in Hs. apply same_object in Hs as (g & -> & Hg). f_equal. cbn in Hv. revert g Hg.
    induction f as [|[k y] f IH]; intros g Hg; inversion Hg as [|? [k' x] ? g2 [Hk Hx] Hg2]; subst; [done|].
    apply andb_true_iff in Hv as [Hy Hv]. cbn in *. subst. f_equal; [f_equal; by apply same_float_free|by apply IH].
Qed.

Lemma printed_tree `{SerdeJsonPrint} v : json_ok v = true -> float_free v = true -> json_tree (json_to_string v) = Some v.
Proof. intros Hv Hf. destruct (json_print_parse v Hv) as (w & -> & Hw). f_equal. by apply same_float_free. Qed.

(** What is printed is text. *)
Lemma printed_utf8 `{SerdeJsonPrint} f : json_ok (JObject f) = true -> utf8_ok (json_to_string (JObject f)) = true.
Proof.
  intros Hok. destruct (json_print_line f Hok) as (t & Et & Ht). rw /utf8_ok Et from_utf8_utf8 //.
  assert (Hbr : Forall scalar (lit "{") /\ Forall scalar (lit "}")) by (split; compute_dec).
  apply Forall_app. split; [apply Hbr|]. apply Forall_app. split; [|apply Hbr]. eapply Forall_impl; [exact Ht|]. by intros c [].
Qed.

(** *** An instance: a Gödel number in binary between braces *)

Module ToyJson.

#[export] Instance spec_float_eq_dec : EqDecision spec_float.
Proof. solve_decision. Defined.

Definition float_code (x : spec_float) : bool * (unit + unit) + option (bool * positive * Z) :=
  match x with
  | S754_zero s => inl (s, inl tt)
  | S754_infinity s => inl (s, inr tt)
  | S754_nan => inr None
  | S754_finite s m e => inr (Some (s, m, e))
  end.
Definition float_decode (c : bool * (unit + unit) + option (bool * positive * Z)) : spec_float :=
  match c with
  | inl (s, inl _) => S754_zero s
  | inl (s, inr _) => S754_infinity s
  | inr None => S754_nan
  | inr (Some (s, m, e)) => S754_finite s m e
  end.
#[export] Instance spec_float_countable : Countable spec_float.
Proof. apply (inj_countable' float_code float_decode). by intros []. Defined.

Abbreviation Leaf := (bool + Z + spec_float + string)%type.

Fixpoint tree_of (v : Json) : gen_tree Leaf :=
  match v with
  | JNull => GenNode 0 []
  | JBool b => GenLeaf (inl (inl (inl b)))
  | JNumber n => GenLeaf (inl (inl (inr n)))
  | JFloat x => GenLeaf (inl (inr x))
  | JString s => GenLeaf (inr s)
  | JArray l => GenNode 1 (map tree_of l)
  | JObject f => GenNode 2 (map (fun e => GenNode 3 [GenLeaf (inr e.1); tree_of e.2]) f)
  end.

Fixpoint of_tree (t : gen_tree Leaf) : Json :=
  match t with
  | GenLeaf (inl (inl (inl b))) => JBool b
  | GenLeaf (inl (inl (inr n))) => JNumber n
  | GenLeaf (inl (inr x)) => JFloat x
  | GenLeaf (inr s) => JString s
  | GenNode 1 l => JArray (map of_tree l)
  | GenNode 2 l => JObject (map (fun e => match e with GenNode _ [GenLeaf (inr k); v] => (k, of_tree v) | _ => ("", JNull) end) l)
  | GenNode _ _ => JNull
  end.

Fixpoint of_tree_of (v : Json) : of_tree (tree_of v) = v.
Proof.
  destruct v as [| | | | |l|f]; try reflexivity; cbn; f_equal.
  - induction l as [|x l IH]; [reflexivity|]. cbn. f_equal; [apply of_tree_of|exact IH].
  - induction f as [|[k x] f IH]; [reflexivity|]. cbn. f_equal; [f_equal; apply of_tree_of|exact IH].
Qed.

Fixpoint bits (p : positive) : string :=
  match p with xH => "}" | xO p => String "0"%char (bits p) | xI p => String "1"%char (bits p) end.
Fixpoint unbits (s : string) : positive :=
  match s with
  | String c s' => if Ascii.eqb c "0"%char then xO (unbits s') else if Ascii.eqb c "1"%char then xI (unbits s') else xH
  | EmptyString => xH
  end.
Lemma unbits_bits p : unbits (bits p) = p.
Proof. induction p as [p IH|p IH|]; cbn; by rw ?IH. Qed.

#[export] Instance json : SerdeJson := {|
  json_to_string v := String "{"%char (bits (encode (tree_of v)));
  json_tree s := match s with String _ s' => of_tree <$> decode (unbits s') | EmptyString => None end;
|}.

Lemma bits_line p : exists s, as_bytes (bits p) = utf8 (s ++ lit "}") /\ Forall (fun c => scalar c /\ (32 <= c)%Z) s.
Proof.
  induction p as [p (s & E & Hs)|p (s & E & Hs)|]; [exists (49%Z :: s)|exists (48%Z :: s)|by exists []];
    (split; [by rw /= as_bytes_cons E|constructor; [rw /scalar; lia|done]]).
Qed.

#[export] Instance json_print : SerdeJsonPrint.
Proof.
  split.
  - intros v _. exists v. split; [|done]. cbn. by rw unbits_bits decode_encode /= of_tree_of.
  - intros f _. destruct (bits_line (encode (tree_of (JObject f)))) as (s & E & Hs). exists s. split; [|done].
    cbn [json_to_string json]. by rw as_bytes_cons E.
Qed.

End ToyJson.
