(* ===== verification/Prompt.v ===== *)
(** * The text and the tokens a request is routed by

    [cgn-router/src/routing/prompt.rs] (flattening a conversation, the tokens
    estimated when no tokenizer is loaded) and [routing/tokenize.rs] (the choice
    of the tokenizer). A tokenizer is a third-party object: what it makes of a
    text is an argument. *)

From S2P Require Import Prelude StringFacts Hash PrefixIndex Config Proto Text Json.

(** ** [prompt.rs] *)

Definition NL : string := String (Ascii.ascii_of_nat 10) "".

(** [blake3::hash(..).to_hex()]. *)
Definition blake3_hex `{Blake3} (s : string) : string := String.string_of_list_ascii (hex_of_bytes (blake3 (as_bytes s))).

Section prompt.
Context `{SerdeJson} `{Blake3}.

(** What one part of a multimodal content adds. *)
Definition part_text (p : Json) : string :=
  match json_get "text" p ≫= as_str with
  | Some t => t +:+ NL
  | None =>
      match json_get "image_url" p ≫= json_get "url" with
      | Some url => "<image:" +:+ blake3_hex (default "" (as_str url)) +:+ ">" +:+ NL
      | None => ""
      end
  end.

Definition message_text (m : Message) : string :=
  "<" +:+ m_role m +:+ ">" +:+ NL +:+
  (if negb (is_empty (m_content_json m)) then
     match json_from_str (m_content_json m) ≫= as_array with
     | Some parts => foldr String.append "" (map part_text parts)
     | None => ""
     end
   else m_content m) +:+ NL.

Definition join_messages (msgs : list Message) : string := foldr String.append "" (map message_text msgs).

Definition request_text (prompt : string) (msgs : list Message) : string :=
  if is_empty prompt then join_messages msgs else prompt.

Definition CHARS_PER_TOKEN : nat := 4.

Definition is_cjk (c : Z) : bool :=
  (((12352 <=? c) && (c <=? 12543)) || ((13312 <=? c) && (c <=? 19903)) || ((19968 <=? c) && (c <=? 40959))
   || ((44032 <=? c) && (c <=? 55215)) || ((63744 <=? c) && (c <=? 64255)) || ((131072 <=? c) && (c <=? 196607)))%Z.

(** [u32::from_le_bytes] of the first four bytes of a digest. *)
Definition le_u32 (b : list Z) : Z :=
  match b with b0 :: b1 :: b2 :: b3 :: _ => (b0 + 256 * b1 + 65536 * b2 + 16777216 * b3)%Z | _ => 0%Z end.

Definition emit (piece : str) : Z := le_u32 (blake3 (utf8 piece)).

(** The state of the loop: tokens so far, the current piece, its length. *)
Record Pieces := mkPieces { pc_out : list Z; pc_piece : str; pc_chars : nat }.

Definition flush (p : Pieces) : Pieces :=
  match pc_piece p with [] => p | piece => mkPieces (pc_out p ++ [emit piece]) [] 0 end.

Definition approximate_step (p : Pieces) (c : Z) : Pieces :=
  let cjk := is_cjk c in
  let p := if is_whitespace c || cjk || (pc_chars p =? CHARS_PER_TOKEN)%nat then flush p else p in
  if is_whitespace c then p
  else
    let p := mkPieces (pc_out p) (pc_piece p ++ [c]) (S (pc_chars p)) in
    if cjk then mkPieces (pc_out p ++ [emit (pc_piece p)]) [] 0 else p.

Definition approximate_pieces (s : str) : Pieces := foldl approximate_step (mkPieces [] [] 0) s.

Definition approximate_token_ids (s : str) : list Z := pc_out (flush (approximate_pieces s)).

(** The characters of a [&str]. *)
Definition chars (s : string) : str := default [] (from_utf8 (as_bytes s)).
End prompt.

(** ** [tokenize.rs] *)

Section tokenize.
Context `{Blake3} {Tokenizer : Type} (encode_with : Tokenizer -> string -> option (list Z)).

Definition Tokenizers : Type := gmap string Tokenizer.

(** The loop over the adapters; each key is set once, so the order of the map
    does not show. *)
Definition Tokenizers_insert (tk : Tokenizers) (model : string) (adapters : gmap string string) (t : Tokenizer) : Tokenizers :=
  ((fun _ => t) <$> adapters) ∪ <[model := t]> tk.

(** [load]: [fetch] downloads, [from_file] reads; a model that fails keeps none.
    [models] is the configuration in the order of its hash map. *)
Definition tokenizer_path (fetch : string -> option string) (mc : ModelConfig) : option string :=
  match mo_tokenizer mc, mo_tokenizer_repo mc with
  | Some p, _ => Some p
  | None, Some repo => fetch repo
  | None, None => None
  end.
Definition load_tokenizer (fetch : string -> option string) (from_file : string -> option Tokenizer)
    (out : Tokenizers) (m : string * ModelConfig) : Tokenizers :=
  match tokenizer_path fetch m.2 ≫= from_file with
  | Some t => Tokenizers_insert out m.1 (mo_lora m.2) t
  | None => out
  end.
Definition Tokenizers_load (fetch : string -> option string) (from_file : string -> option Tokenizer)
    (models : list (string * ModelConfig)) : Tokenizers := foldl (load_tokenizer fetch from_file) ∅ models.

Definition encode (tk : Tokenizers) (model text : string) : option (list Z) :=
  t ← tk !! model; encode_with t text.

Definition token_ids (tk : Tokenizers) (model text : string) : list Z :=
  match encode tk model text with Some ids => ids | None => approximate_token_ids (chars text) end.
End tokenize.

(** ** The estimate *)

Section estimate.
Context `{Blake3}.

Definition pieces_ok (p : Pieces) : Prop := pc_chars p = length (pc_piece p) /\ pc_chars p <= CHARS_PER_TOKEN.

Lemma flush_ok p : pieces_ok p -> pieces_ok (flush p) /\ pc_chars (flush p) = 0 /\ pc_piece (flush p) = [].
Proof.
  rw /pieces_ok /CHARS_PER_TOKEN. destruct p as [out [|c piece] n]; cbn; intros [-> _]; split_and!; (done || lia).
Qed.

Lemma flush_idem p : flush (flush p) = flush p.
Proof. by destruct p as [out [|c piece] n]. Qed.

Lemma step_ok p c : pieces_ok p -> pieces_ok (approximate_step p c).
Proof.
  intros Hp. destruct (flush_ok p Hp) as (Hf & Hn & Hpc). rw /approximate_step. destruct (is_whitespace c); cbn [orb]; [exact Hf|].
  destruct (is_cjk c); cbn [orb]; [by rw /pieces_ok /= /CHARS_PER_TOKEN; lia|].
  destruct (Nat.eqb_spec (pc_chars p) CHARS_PER_TOKEN) as [He|He]; rw /pieces_ok /= length_app /=.
  - rw Hn Hpc /= /CHARS_PER_TOKEN. split; [done|lia].
  - destruct Hp as [Hn' Hl]. rw -Hn'. lia.
Qed.

Lemma pieces_ok_all s : pieces_ok (approximate_pieces s).
Proof. apply (foldl_ind pieces_ok); [intros p c _; apply step_ok|]. rw /pieces_ok /CHARS_PER_TOKEN /=. lia. Qed.

(** Tokens are only added. *)
Lemma step_out p c : exists l, pc_out (approximate_step p c) = pc_out p ++ l.
Proof.
  assert (Hf : forall q, exists l, pc_out (flush q) = pc_out q ++ l).
  { intros [out [|x piece] n]; [exists []; by rw app_nil_r|by exists [emit (x :: piece)]]. }
  rw /approximate_step. set (q := if is_whitespace c || is_cjk c || (pc_chars p =? CHARS_PER_TOKEN)%nat then flush p else p).
  assert (Hq : exists l, pc_out q = pc_out p ++ l) by (rw /q; case_match; [apply Hf|by exists []; rw app_nil_r]).
  destruct Hq as [l Hl]. destruct (is_whitespace c); [by exists l|]. destruct (is_cjk c); cbn; rw Hl; [|by exists l].
  eexists. symmetry. apply app_assoc.
Qed.

Lemma foldl_out s p : exists l, pc_out (foldl approximate_step p s) = pc_out p ++ l.
Proof.
  revert p. induction s as [|c s IH]; intros p; cbn; [exists []; by rw app_nil_r|].
  destruct (IH (approximate_step p c)) as [l ->]. destruct (step_out p c) as [l' ->]. exists (l' ++ l). by rw app_assoc.
Qed.

(** The tokens of a state are those before it and those of its own. *)
Lemma foldl_shift s out piece n :
  foldl approximate_step (mkPieces out piece n) s =
  let r := foldl approximate_step (mkPieces [] piece n) s in mkPieces (out ++ pc_out r) (pc_piece r) (pc_chars r).
Proof.
  assert (Hflush : forall o p m, flush (mkPieces o p m) = let r := flush (mkPieces [] p m) in mkPieces (o ++ pc_out r) (pc_piece r) (pc_chars r)).
  { intros o [|x p] m; cbn; by rw ?app_nil_r. }
  assert (Hstep : forall o p m c, approximate_step (mkPieces o p m) c =
    let r := approximate_step (mkPieces [] p m) c in mkPieces (o ++ pc_out r) (pc_piece r) (pc_chars r)).
  { intros o p m c. rw /approximate_step. cbn [pc_chars].
    destruct (is_whitespace c || is_cjk c || (m =? CHARS_PER_TOKEN)); [rw Hflush|]; cbn [pc_out pc_piece pc_chars];
      destruct (is_whitespace c), (is_cjk c); cbn [pc_out pc_piece pc_chars]; by rw ?app_nil_r ?app_assoc. }
  revert out piece n. induction s as [|c s IH]; intros out piece n; cbn [foldl]; [by rw /= app_nil_r|].
  rw Hstep. cbn zeta. destruct (approximate_step (mkPieces [] piece n) c) as [o p m]. rw IH (IH o). cbn. by rw app_assoc.
Qed.
End estimate.

(** ** Boundaries

    White space ends a piece, so what follows it does not change the tokens before
    it. *)

Section boundary.
Context `{Blake3}.

Definition ends_blank (s : str) : Prop := forall c, last s = Some c -> is_whitespace c = true.

Lemma ends_blank_flushed s : ends_blank s -> pc_piece (approximate_pieces s) = [] /\ pc_chars (approximate_pieces s) = 0.
Proof.
  destruct s as [|c s] using rev_ind; [done|]. intros Hb. rw /approximate_pieces foldl_app /= -/(approximate_pieces s).
  specialize (Hb c ltac:(apply last_snoc)). rw /approximate_step Hb /=.
  destruct (flush_ok (approximate_pieces s) (pieces_ok_all s)) as (_ & Hn & Hp). done.
Qed.

Lemma approximate_app s1 s2 : ends_blank s1 ->
  approximate_token_ids (s1 ++ s2) = approximate_token_ids s1 ++ approximate_token_ids s2.
Proof.
  intros [Hp Hn]%ends_blank_flushed. rw /approximate_token_ids. rw {1}/approximate_pieces foldl_app -/(approximate_pieces s1).
  destruct (approximate_pieces s1) as [out piece n]. cbn in Hp, Hn. rw Hp Hn foldl_shift. rw /approximate_pieces.
  destruct (foldl _ _ s2) as [o [|x p] m]; cbn; [done|]. by rw app_assoc.
Qed.

(** Any text keeps the tokens of what it begins with, but for the last piece. *)
Lemma approximate_prefix s1 s2 : exists l, approximate_token_ids (s1 ++ s2) = pc_out (approximate_pieces s1) ++ l.
Proof.
  rw /approximate_token_ids /approximate_pieces foldl_app -/(approximate_pieces s1).
  destruct (foldl_out s2 (approximate_pieces s1)) as [l E]. set (p := foldl _ _ s2) in *.
  destruct p as [out [|x piece] n]; cbn in *; rw E; [by exists l|]. eexists. symmetry. apply app_assoc.
Qed.

Definition visible (s : str) : nat := length (List.filter (fun c => negb (is_whitespace c)) s).

(** The estimate lies between a quarter of the visible characters and all of
    them. *)
Lemma estimate_bounds s : length (approximate_token_ids s) <= visible s <= 4 * length (approximate_token_ids s).
Proof.
  assert (Hi : length (pc_out (approximate_pieces s)) + pc_chars (approximate_pieces s) <= visible s
    <= 4 * length (pc_out (approximate_pieces s)) + pc_chars (approximate_pieces s)).
  { induction s as [|c s IH] using rev_ind; [done|]. rw /approximate_pieces foldl_app /= -/(approximate_pieces s).
    rw /visible List.filter_app length_app /= -/(visible s). set (p := approximate_pieces s) in *.
    destruct (pieces_ok_all s) as [Hn Hm]. fold p in Hn, Hm. rw /CHARS_PER_TOKEN in Hm.
    assert (Hf : length (pc_out (flush p)) + pc_chars (flush p) <= visible s <= 4 * length (pc_out (flush p)) + pc_chars (flush p)).
    { destruct p as [out [|x piece] n]; cbn in *; [done|]. rw length_app /=. lia. }
    rw /approximate_step. destruct (is_whitespace c); cbn [orb negb length]; [lia|].
    destruct (flush_ok p (pieces_ok_all s)) as (_ & Hz & _).
    destruct (is_cjk c); cbn; [rw length_app /=; lia|]. destruct (pc_chars p =? CHARS_PER_TOKEN)%nat; cbn; lia. }
  destruct (pieces_ok_all s) as [Hn Hm]. rw /CHARS_PER_TOKEN in Hm. rw /approximate_token_ids.
  destruct (approximate_pieces s) as [out [|x piece] n]; cbn in *; [lia|]. rw length_app /=. lia.
Qed.
End boundary.

(** ** Conversations *)

Section conversation.
Context `{SerdeJson} `{Blake3}.

Lemma chars_app a b : utf8_ok a = true -> utf8_ok b = true -> chars (a +:+ b) = chars a ++ chars b /\ utf8_ok (a +:+ b) = true.
Proof.
  rw /utf8_ok /chars as_bytes_app => Ha Hb. destruct (from_utf8 (as_bytes a)) as [x|] eqn:Ea; [|done].
  destruct (from_utf8 (as_bytes b)) as [y|] eqn:Eb; [|done]. by rw (from_utf8_app _ _ _ Ea) Eb.
Qed.

Definition text_ok (m : Message) : Prop := utf8_ok (message_text m) = true.

Lemma message_ends_blank m : text_ok m -> ends_blank (chars (message_text m)).
Proof.
  rw /text_ok /utf8_ok /chars /message_text !string_app_assoc as_bytes_app. set (a := as_bytes _). intros Hok c.
  destruct (from_utf8 (a ++ as_bytes NL)) as [s|] eqn:E; [|done]. destruct (from_utf8_newline a s E) as [s' ->].
  rw /= last_snoc. by intros [= <-].
Qed.

Lemma join_app ms ms' : join_messages (ms ++ ms') = join_messages ms +:+ join_messages ms'.
Proof. rw /join_messages map_app. induction (map message_text ms) as [|t l IH]; [done|]. by rw /= IH string_app_assoc. Qed.

Lemma join_ok ms : Forall text_ok ms -> utf8_ok (join_messages ms) = true /\ ends_blank (chars (join_messages ms)).
Proof.
  induction 1 as [|m ms Hm _ [IH Hb]]; [split; [done|by intros c]|].
  change (join_messages (m :: ms)) with (message_text m +:+ join_messages ms).
  destruct (chars_app _ _ Hm IH) as [E Hok]. split; [exact Hok|]. rw E. intros c. rw last_app.
  destruct (last (chars (join_messages ms))) as [d|] eqn:Ed; [intros [= <-]; by apply Hb|]. by apply message_ends_blank.
Qed.

(** The tokens of a longer conversation begin with those of the shorter. *)
Lemma conversation_tokens ms more : Forall text_ok ms -> Forall text_ok more ->
  approximate_token_ids (chars (join_messages (ms ++ more))) =
  approximate_token_ids (chars (join_messages ms)) ++ approximate_token_ids (chars (join_messages more)).
Proof.
  intros [Hok Hb]%join_ok [Hok' _]%join_ok. rw join_app. destruct (chars_app _ _ Hok Hok') as [-> _]. by apply approximate_app.
Qed.
End conversation.

(** The digests a request is routed by. *)
Definition request_digests `{SerdeJson} `{Blake3} {Tokenizer} (encode_with : Tokenizer -> string -> option (list Z)) (tk : Tokenizers)
    (salt model prompt : string) (msgs : list Message) : list (list Z) :=
  hash_seq_chunks salt (token_ids encode_with tk model (request_text prompt msgs)).

(** What a batch of claims makes visible. *)
Lemma insert_many_live ds : forall clock ix n now, prefix_wf ix ->
  (forall i, i < length ds -> (duration_since now (clock i) < ix_ttl ix)%Z) ->
  forall d, d ∈ ds \/ n ∈ PrefixIndex_lookup ix now d -> n ∈ PrefixIndex_lookup (PrefixIndex_insert_many ix clock ds n) now d.
Proof.
  induction ds as [|d0 ds IH]; intros clock ix n now Hwf Hlive d Hd; cbn; [by destruct Hd as [Hd%elem_of_nil|]|].
  apply IH; [by apply wf_insert|intros i Hi; apply (Hlive (S i)); cbn; lia|]. rw elem_of_cons in Hd. rw elem_of_lookup_insert //.
  destruct (decide (d0 = d /\ n = n)) as [_|Hne]; [right; apply (Hlive 0); cbn; lia|].
  destruct Hd as [[->|Hd]|Hd]; [by destruct Hne|by left|by right].
Qed.

(** C10. A follow-up finds its conversation: when no tokenizer is loaded for the
    model, a node that was announced for a conversation holds, while the claims
    live, every full chunk of it for any continuation of the conversation, so the
    overlap the router computes for it is at least the number of full chunks. *)
Theorem follow_up_overlap `{SerdeJson} `{Blake3} {Tokenizer} (encode_with : Tokenizer -> string -> option (list Z)) tk salt model ms more
    ix clock n now :
  tk !! model = None -> Forall text_ok ms -> Forall text_ok more -> prefix_wf ix ->
  let turn := request_digests encode_with tk salt model "" ms in
  let follow_up := request_digests encode_with tk salt model "" (ms ++ more) in
  let full := length (token_ids encode_with tk model (request_text "" ms)) / TOKENS_PER_CHUNK in
  (forall i, i < length turn -> (duration_since now (clock i) < ix_ttl ix)%Z) -> 0 < full ->
  exists k, PrefixIndex_longest_prefix_overlap (PrefixIndex_insert_many ix clock turn n) now follow_up !! n = Some k /\ full <= k.
Proof.
  intros Htk Hms Hmore Hwf turn follow_up full Hlive Hfull.
  assert (Ht : forall l, token_ids encode_with tk model (request_text "" l) = approximate_token_ids (chars (join_messages l))).
  { intros l. by rw /token_ids /encode Htk. }
  rw /full Ht in Hfull |- *. rw /turn /request_digests Ht in Hlive. rw /turn /follow_up /request_digests !Ht conversation_tokens //.
  set (t1 := approximate_token_ids (chars (join_messages ms))) in *. set (t2 := approximate_token_ids (chars (join_messages more))).
  set (k0 := length t1 / TOKENS_PER_CHUNK) in *.
  assert (Hk : k0 * TOKENS_PER_CHUNK <= length t1) by (rw Nat.mul_comm; by apply Nat.Div0.mul_div_le).
  assert (Htake : take k0 (hash_seq_chunks salt (t1 ++ t2)) = take k0 (hash_seq_chunks salt t1)).
  { symmetry. apply hash_seq_chunks_take; [by rw take_app_le|done|rw length_app; lia]. }
  assert (Hlen : k0 <= length (hash_seq_chunks salt t1)).
  { rw hash_seq_chunks_chain length_chain. destruct k0 as [|k]; [lia|]. rw Nat.le_succ_l length_chunks_lt; [by cbv; lia|].
    cbn [Nat.mul] in Hk. rw /TOKENS_PER_CHUNK in Hk |- *. lia. }
  set (ix' := PrefixIndex_insert_many _ _ _ _). set (k := held_prefix ix' now n (hash_seq_chunks salt (t1 ++ t2))).
  assert (Hle : k0 <= k).
  { destruct (proj1 (held_prefix_iff ix' now n (hash_seq_chunks salt (t1 ++ t2)) k) eq_refl) as [_ Hno].
    destruct (decide (k0 <= k)) as [|Hlt]; [done|]. exfalso. apply Hno. destruct (lookup_lt_is_Some_2 (hash_seq_chunks salt t1) k) as [d Hd]; [lia|].
    exists d. split.
    - rw -(lookup_take_lt (hash_seq_chunks salt (t1 ++ t2)) k0 k) ?Htake ?lookup_take_lt //; lia.
    - apply insert_many_live; [done|exact Hlive|left; by eapply list_elem_of_lookup_2]. }
  exists k. split; [|done]. rw longest_prefix_overlap_held -/k. by destruct k; [lia|].
Qed.

(** Tool calls and names are not part of the text: messages that differ only
    there are routed alike, although the engine renders them differently. *)
Lemma tool_calls_not_hashed `{SerdeJson} `{Blake3} role content cj name tools call name' tools' call' :
  message_text (mkMessage role content name cj tools call) = message_text (mkMessage role content name' cj tools' call').
Proof. done. Qed.

Module PromptExamples.
Import ToyJson.

#[local] Instance blake : Blake3 := toy_blake3.

Definition words (n : nat) : string := foldr String.append "" (replicate n "w ").
Definition user (content : string) : Message := mkMessage "user" content "" "" "" "".
Definition history : list Message := [user (words 40)].
Definition follow_up : list Message := [mkMessage "assistant" "yes" "" "" "" ""; user "and now?"].
Definition no_tokenizer : unit -> string -> option (list Z) := fun _ _ => None.

Lemma follow_up_overlap_witness :
  exists k, PrefixIndex_longest_prefix_overlap
    (PrefixIndex_insert_many (PrefixIndex_new 300) (fun _ => 0%Z) (request_digests no_tokenizer ∅ "m" "m" "" history) "n1")
    60 (request_digests no_tokenizer ∅ "m" "m" "" (history ++ follow_up)) !! "n1" = Some k /\ 1 <= k.
Proof.
  assert (E : length (token_ids no_tokenizer ∅ "m" (request_text "" history)) / TOKENS_PER_CHUNK = 1) by by vm_compute.
  pose proof (follow_up_overlap no_tokenizer ∅ "m" "m" history follow_up (PrefixIndex_new 300) (fun _ => 0%Z) "n1" 60) as Hf.
  cbv zeta in Hf. rw E in Hf. apply Hf.
  - done.
  - by repeat constructor.
  - by repeat constructor.
  - apply wf_new.
  - by intros i _.
  - lia.
Defined.

(** Words of up to four characters, and one token to a CJK character. *)
Example fox : length (approximate_token_ids (lit "the quick brown fox")) = 6.
Proof. by vm_compute. Qed.
Example cjk : length (approximate_token_ids [20320; 22909; 19990; 30028]%Z) = 4.
Proof. by vm_compute. Qed.

End PromptExamples.
