(* ===== verification/OpenAi.v ===== *)
(** * The agent's OpenAI adapter

    [cgn-agent/src/engine/openai_http.rs] with the requests of
    [engine/mod.rs]: a generation request becomes the JSON body an
    OpenAI-compatible engine takes, the bytes of its event stream become tokens.
    The HTTP client is an argument: what posting gives. *)

From S2P Require Import Prelude StringFacts Hash Float32 Config Proto Text Json.

(** ** Requests *)

Record ChatMessage := mkChat {
  role : string;
  content : string;
  content_json : string;
  tool_calls_json : string;
  tool_call_id : string;
}.

Record GenerateReq := mkReq {
  id : string;
  model : string;
  messages : list ChatMessage;
  prompt : string;
  max_tokens : Z;
  temperature : f32;
  top_p : f32;
  stop : list string;
  stream : bool;
  seed : option Z;
  frequency_penalty : f32;
  presence_penalty : f32;
  repetition_penalty : f32;
  top_k : Z;
  logprobs : bool;
  extensions_json : string;
  prefix_digests : list (list Z);
  resident_digests : list (list Z);
}.

Record EmbedReq := mkEmbedReq { em_model : string; em_inputs : list string }.
Record EmbedResp := mkEmbedResp { embeddings : list (list f32); prompt_tokens : Z }.

(** ** HTTP

    [reqwest]: a request that was sent gives a status and the pieces of the
    body as they arrive, the last of which may be a read error. The class holds
    how the crate prints a status and a decoding error and reads text. *)

Record Post := mkPost { post_url : string; post_body : Json }.
Record HttpResponse := mkResponse { rs_status : Z; rs_chunks : list (result (list Z) string) }.
Abbreviation Reply := (result HttpResponse string).

Class Reqwest := {
  status_display : Z -> string;
  decode_text : list Z -> string;
  decode_error : list Z -> string;
}.

Definition is_success (status : Z) : bool := (200 <=? status)%Z && (status <? 300)%Z.

(** The whole body, or the first read error. *)
Fixpoint body_bytes (l : list (result (list Z) string)) : result (list Z) string :=
  match l with
  | [] => Ok []
  | Err e :: _ => Err e
  | Ok b :: l' => let? r := body_bytes l' in Ok (b ++ r)
  end.

(** [resp.text().await.unwrap_or_default()]. *)
Definition text_or_default `{Reqwest} (r : HttpResponse) : string :=
  match body_bytes (rs_chunks r) with Ok b => decode_text b | Err _ => "" end.

(** ** The engine *)

Record OpenAiHttpEngine := mkEngine { base : string; kind : string }.

(** [trim_end_matches('/')]. *)
Fixpoint drop_slashes (l : list Z) : list Z :=
  match l with b :: l' => if (b =? 47)%Z then drop_slashes l' else l | [] => [] end.
Definition OpenAiHttpEngine_new (kind base_url : string) : OpenAiHttpEngine :=
  mkEngine (of_bytes (reverse (drop_slashes (reverse (as_bytes base_url))))) kind.

(** ** The body of a request *)

Section body.
Context `{SerdeJson}.

(** [json!] of a list of strings. *)
Definition json_strings (l : list string) : Json := JArray (map JString l).

Definition message_json (m : ChatMessage) : Json :=
  let c := if negb (is_empty (content_json m)) then default (JString (content m)) (json_from_str (content_json m))
           else JString (content m) in
  let msg := json_object [("role", JString (role m)); ("content", c)] in
  let msg :=
    if negb (is_empty (tool_calls_json m)) then
      match json_from_str (tool_calls_json m) with Some tc => obj_insert "tool_calls" tc msg | None => msg end
    else msg in
  let msg := if negb (is_empty (tool_call_id m)) then obj_insert "tool_call_id" (JString (tool_call_id m)) msg else msg in
  JObject msg.

(** [x != 0.0]. *)
Definition nonzero (x : f32) : bool := negb (SFeqb x f32_zero).

Definition put_if (b : bool) (k : string) (v : Json) (body : list (string * Json)) : list (string * Json) :=
  if b then obj_insert k v body else body.

Definition apply_sampling (req : GenerateReq) (chat_mode : bool) (body : list (string * Json)) : list (string * Json) :=
  let body := obj_insert "temperature" (json_f32 (temperature req)) body in
  let body := obj_insert "top_p" (json_f32 (top_p req)) body in
  let body := obj_insert "stop" (json_strings (stop req)) body in
  let body := obj_insert "stream" (JBool true) body in
  let body := obj_insert "stream_options" (JObject (json_object [("include_usage", JBool true)])) body in
  let body := put_if (0 <? max_tokens req)%Z "max_tokens" (JNumber (max_tokens req)) body in
  let body := match seed req with Some s => obj_insert "seed" (JNumber s) body | None => body end in
  let body := put_if (nonzero (frequency_penalty req)) "frequency_penalty" (json_f32 (frequency_penalty req)) body in
  let body := put_if (nonzero (presence_penalty req)) "presence_penalty" (json_f32 (presence_penalty req)) body in
  let body := put_if (nonzero (repetition_penalty req) && negb (SFeqb (repetition_penalty req) f32_one))
    "repetition_penalty" (json_f32 (repetition_penalty req)) body in
  let body := put_if (0 <? top_k req)%Z "top_k" (JNumber (top_k req)) body in
  put_if (logprobs req) "logprobs" (if chat_mode then JBool true else JNumber 1) body.

(** The loop over the members of the extensions. *)
Fixpoint merge_extensions (kind : string) (ext : list (string * Json)) (body : list (string * Json)) : list (string * Json) :=
  match ext with
  | [] => body
  | (k, v) :: ext' =>
      if String.eqb k "cache_salt" && negb (String.eqb kind "vllm") then merge_extensions kind ext' body
      else merge_extensions kind ext' (obj_insert k v body)
  end.

Definition digest_hex (digests : list (list Z)) : list string :=
  map (fun d => String.string_of_list_ascii (hex_of_bytes d)) (List.filter (fun d => length d =? 32) digests).

Definition kv_transfer_params_from_digests (digests resident : list (list Z)) : option Json :=
  let prefix_hex := digest_hex digests in
  match prefix_hex with
  | [] => None
  | _ =>
      let obj := obj_insert "cgn_prefix_digests" (json_strings prefix_hex) [] in
      let resident_hex := digest_hex resident in
      Some (JObject (match resident_hex with [] => obj | _ => obj_insert "cgn_resident_digests" (json_strings resident_hex) obj end))
  end.

Definition chat_mode (req : GenerateReq) : bool := match messages req with [] => false | _ => true end.

Definition base_body (req : GenerateReq) : list (string * Json) :=
  if chat_mode req then json_object [("model", JString (model req)); ("messages", JArray (map message_json (messages req)))]
  else json_object [("model", JString (model req)); ("prompt", JString (prompt req))].

Definition post_fields (e : OpenAiHttpEngine) (req : GenerateReq) : list (string * Json) :=
  let body := apply_sampling req (chat_mode req) (base_body req) in
  let body :=
    if negb (is_empty (extensions_json req)) then
      match json_from_str (extensions_json req) with
      | Some (JObject ext) => merge_extensions (kind e) ext body
      | _ => body
      end
    else body in
  match kv_transfer_params_from_digests (prefix_digests req) (resident_digests req) with
  | Some kv => obj_insert "kv_transfer_params" kv body
  | None => body
  end.

Definition generate_post (e : OpenAiHttpEngine) (req : GenerateReq) : Post :=
  mkPost (base e +:+ (if chat_mode req then "/v1/chat/completions" else "/v1/completions")) (JObject (post_fields e req)).
End body.

Definition classify_engine_status `{Reqwest} (kind : string) (status : Z) (body : string) : Error :=
  let msg := kind +:+ " status " +:+ status_display status +:+ ": " +:+ body in
  if (status =? 429)%Z || (status =? 503)%Z then Error_Unavailable msg
  else if (status =? 408)%Z then Error_Internal msg
  else if (400 <=? status)%Z && (status <=? 499)%Z then Error_InvalidArgument msg
  else Error_Internal msg.

(** ** Frames of the event stream *)

Record FrameUsage := mkFrameUsage { fu_prompt_tokens : Z; fu_completion_tokens : Z }.
Record ChatDelta := mkDelta { cd_content : option string; cd_tool_calls : option Json; cd_role : option string }.
Record Choice := mkChoice {
  co_text : option string;
  co_delta : option ChatDelta;
  co_finish_reason : option string;
  co_logprobs : option Json;
}.
Record StreamFrame := mkFrame { sf_choices : list Choice; sf_usage : option FrameUsage }.

Definition de_frame_usage (v : Json) : option FrameUsage :=
  f ← struct_members ["prompt_tokens"; "completion_tokens"] v;
  p ← member de_u32 0%Z "prompt_tokens" f;
  c ← member de_u32 0%Z "completion_tokens" f;
  Some (mkFrameUsage p c).

Definition de_chat_delta (v : Json) : option ChatDelta :=
  f ← struct_members ["content"; "tool_calls"; "role"] v;
  c ← member (de_option de_string) None "content" f;
  t ← member (de_option de_value) None "tool_calls" f;
  r ← member (de_option de_string) None "role" f;
  Some (mkDelta c t r).

Definition de_choice (v : Json) : option Choice :=
  f ← struct_members ["text"; "delta"; "finish_reason"; "logprobs"] v;
  t ← member (de_option de_string) None "text" f;
  d ← member (de_option de_chat_delta) None "delta" f;
  r ← member (de_option de_string) None "finish_reason" f;
  l ← member (de_option de_value) None "logprobs" f;
  Some (mkChoice t d r l).

Definition de_stream_frame (v : Json) : option StreamFrame :=
  f ← struct_members ["choices"; "usage"] v;
  c ← member (de_vec de_choice) [] "choices" f;
  u ← member (de_option de_frame_usage) None "usage" f;
  Some (mkFrame c u).

(** [values.iter().sum::<f64>()] starts at minus zero. *)
Definition f64_sum (l : list f64) : f64 := foldl f64_add (S754_zero true) l.

Definition mean_logprob (v : Json) : option f32 :=
  let values :=
    match json_get "content" v ≫= as_array with
    | Some items => Some (omap (M:=list) (fun i => json_get "logprob" i ≫= as_f64) items)
    | None => omap (M:=list) as_f64 <$> (json_get "token_logprobs" v ≫= as_array)
    end in
  match values with
  | Some (_ :: _ as l) => Some (f32_of_f64 (f64_div (f64_sum l) (f64_of_Z (Z.of_nat (length l)))))
  | _ => None
  end.

Definition terminal_token (id : string) (saw_finish : bool) (usage : Z * Z) : Token :=
  mkToken id "" (if saw_finish then "" else "stop") f32_zero "" "" usage.1 usage.2.

Section stream.
Context `{SerdeJson}.

(** The token of one choice; [None] for an empty delta, which is skipped. *)
Definition choice_token (id : string) (forward_logprobs : bool) (c : Choice) : option Token :=
  let text := default "" (match co_delta c ≫= cd_content with Some t => Some t | None => co_text c end) in
  let tools := default "" (json_to_string <$> (co_delta c ≫= cd_tool_calls)) in
  let finish := default "" (co_finish_reason c) in
  if is_empty text && is_empty finish && is_empty tools then None
  else Some (mkToken id text finish (default f32_zero (co_logprobs c ≫= mean_logprob)) tools
    (if forward_logprobs then default "" (json_to_string <$> co_logprobs c) else "") 0 0).

(** [find_frame_end]: one past the first blank line. *)
Fixpoint find_frame_end_from (i : nat) (buf : list Z) : option nat :=
  match buf with
  | a :: ((b :: r) as t) =>
      if (a =? 10)%Z then
        if (b =? 10)%Z then Some (i + 2)
        else if (b =? 13)%Z && bool_decide (head r = Some 10%Z) then Some (i + 3)
        else find_frame_end_from (S i) t
      else find_frame_end_from (S i) t
  | _ => None
  end.
Definition find_frame_end (buf : list Z) : option nat := find_frame_end_from 0 buf.

(** [trim_start_matches("data:")]: every leading occurrence. *)
Fixpoint trim_data (fuel : nat) (s : str) : str :=
  match fuel with
  | O => s
  | S fuel' => match strip_prefix (lit "data:") s with Some s' => trim_data fuel' s' | None => s end
  end.

(** The payload of a frame: what its first data line carries. *)
Definition frame_payload (frame : list Z) : option str :=
  let text := default [] (from_utf8 frame) in
  let line := find_map (fun l => if starts_with (lit "data:") l then Some l else None) (trim <$> lines text) in
  (fun l => trim (trim_data (length l) l)) <$> line.

(** The client: what it has been sent and how much it still takes. *)
Record Tx := mkTx { tx_sent : list Token; tx_takes : nat }.
Definition tx_send (t : Token) (tx : Tx) : Tx * bool :=
  match tx_takes tx with
  | O => (tx, false)
  | S n => (mkTx (tx_sent tx ++ [t]) n, true)
  end.

(** What the loop has seen: whether a choice finished, the usage, the client. *)
Record Progress := mkProgress { saw_finish : bool; usage : Z * Z; tx : Tx }.

Variables (rid : string) (forward_logprobs : bool).

(** The loop over the choices of a frame; [true] when the client has gone. *)
Fixpoint choices_loop (cs : list Choice) (st : Progress) : Progress * bool :=
  match cs with
  | [] => (st, false)
  | c :: cs' =>
      match choice_token rid forward_logprobs c with
      | None => choices_loop cs' st
      | Some t =>
          let (x, sent) := tx_send t (tx st) in
          let st := mkProgress (saw_finish st || negb (is_empty (t_finish t))) (usage st) x in
          if sent then choices_loop cs' st else (st, true)
      end
  end.

(** [tx.send(terminal_token(..))], the result ignored. *)
Definition send_terminal (st : Progress) : Progress :=
  mkProgress (saw_finish st) (usage st) (tx_send (terminal_token rid (saw_finish st) (usage st)) (tx st)).1.

(** One frame; [true] when generation returns. *)
Definition frame_step (frame : list Z) (st : Progress) : Progress * bool :=
  match frame_payload frame with
  | None => (st, false)
  | Some p =>
      if decide (p = lit "[DONE]") then (send_terminal st, true)
      else match json_tree (to_string p) ≫= de_stream_frame with
      | None => (st, false)
      | Some f =>
          let u := match sf_usage f with Some u => (fu_prompt_tokens u, fu_completion_tokens u) | None => usage st end in
          choices_loop (sf_choices f) (mkProgress (saw_finish st) u (tx st))
      end
  end.

(** The loop over the frames that the buffer completes: what stays in the
    buffer, and whether generation returns. Fuel: a frame is at least two
    bytes. *)
Fixpoint drain_frames (fuel : nat) (buf : list Z) (st : Progress) : list Z * Progress * bool :=
  match fuel with
  | O => (buf, st, false)
  | S fuel' =>
      match find_frame_end buf with
      | None => (buf, st, false)
      | Some e =>
          let (st', returned) := frame_step (take e buf) st in
          if returned then (drop e buf, st', true) else drain_frames fuel' (drop e buf) st'
      end
  end.

(** The loop over the pieces of the body. *)
Fixpoint read_chunks (kind : string) (l : list (result (list Z) string)) (buf : list Z) (st : Progress) : Progress * result unit Error :=
  match l with
  | [] =>
      if saw_finish st then (send_terminal st, Ok tt)
      else (st, Err (Error_Internal (kind +:+ " stream ended before a finish reason")))
  | Err e :: _ => (st, Err (Error_Internal (kind +:+ " stream: " +:+ e)))
  | Ok bytes :: l' =>
      let buf := buf ++ bytes in
      match drain_frames (length buf) buf st with
      | (_, st', true) => (st', Ok tt)
      | (buf', st', false) => read_chunks kind l' buf' st'
      end
  end.
End stream.

(** ** The operations of the engine *)

Section engine.
Context `{SerdeJson} `{Reqwest} (e : OpenAiHttpEngine).

Definition generate (post : Post -> Reply) (req : GenerateReq) (client : Tx) : Tx * result unit Error :=
  match post (generate_post e req) with
  | Err m => (client, Err (Error_Unavailable (kind e +:+ " post: " +:+ m)))
  | Ok resp =>
      if negb (is_success (rs_status resp)) then
        (client, Err (classify_engine_status (kind e) (rs_status resp) (text_or_default resp)))
      else
        let (st, res) := read_chunks (id req) (logprobs req) (kind e) (rs_chunks resp) [] (mkProgress false (0, 0)%Z client) in
        (tx st, res)
  end.

Definition de_embed_datum (v : Json) : option (list f32) :=
  f ← struct_members ["embedding"] v; required (de_vec de_f32) "embedding" f.
Definition de_embed_usage (v : Json) : option Z :=
  f ← struct_members ["prompt_tokens"] v; member de_u32 0%Z "prompt_tokens" f.
Definition de_embed_frame (v : Json) : option EmbedResp :=
  f ← struct_members ["data"; "usage"] v;
  d ← required (de_vec de_embed_datum) "data" f;
  u ← member (de_option de_embed_usage) None "usage" f;
  Some (mkEmbedResp d (default 0%Z u)).

Definition embed (post : Post -> Reply) (req : EmbedReq) : result EmbedResp Error :=
  let body := JObject (json_object [("model", JString (em_model req)); ("input", json_strings (em_inputs req))]) in
  match post (mkPost (base e +:+ "/v1/embeddings") body) with
  | Err m => Err (Error_Unavailable (kind e +:+ " embed post: " +:+ m))
  | Ok resp =>
      let status := rs_status resp in
      if negb (is_success status) then
        if (status =? 404)%Z then Err (Error_Unavailable
          (kind e +:+ " returned 404 from /v1/embeddings — is the loaded model an embedding model?"))
        else Err (Error_Internal (kind e +:+ " embed status " +:+ status_display status +:+ ": " +:+ text_or_default resp))
      else
        match body_bytes (rs_chunks resp) with
        | Err m => Err (Error_Internal (kind e +:+ " embed decode: " +:+ m))
        | Ok b =>
            match json_tree (of_bytes b) ≫= de_embed_frame with
            | Some r => Ok r
            | None => Err (Error_Internal (kind e +:+ " embed decode: " +:+ decode_error b))
            end
        end
  end.

(** [get url] is the status of an answered probe. *)
Definition ready (get : string -> option Z) : bool :=
  existsb (fun path => match get (base e +:+ path) with Some s => is_success s | None => false end) ["/health"; "/v1/models"].
End engine.

(** ** The stream as a function of the body

    The frames of a body, each classified once, give the answer without
    buffers, pieces or a client. *)

Inductive FrameEvent := Skip | Done | Data (f : StreamFrame).

Fixpoint split_frames (fuel : nat) (b : list Z) : list (list Z) * list Z :=
  match fuel with
  | O => ([], b)
  | S fuel' =>
      match find_frame_end b with
      | None => ([], b)
      | Some e => let (fs, rest) := split_frames fuel' (drop e b) in (take e b :: fs, rest)
      end
  end.
Definition frames (b : list Z) : list (list Z) := (split_frames (length b) b).1.
Definition frames_rest (b : list Z) : list Z := (split_frames (length b) b).2.

Section spec.
Context `{SerdeJson}.

Definition frame_event (frame : list Z) : FrameEvent :=
  match frame_payload frame with
  | None => Skip
  | Some p =>
      if decide (p = lit "[DONE]") then Done
      else match json_tree (to_string p) ≫= de_stream_frame with Some f => Data f | None => Skip end
  end.

(** The frames before the end marker, and whether there is one. *)
Fixpoint before_done (evs : list FrameEvent) : list StreamFrame :=
  match evs with
  | [] | Done :: _ => []
  | Skip :: evs' => before_done evs'
  | Data f :: evs' => f :: before_done evs'
  end.
Definition has_done (evs : list FrameEvent) : bool := existsb (fun e => match e with Done => true | _ => false end) evs.

Definition tokens_of (rid : string) (fw : bool) (fs : list StreamFrame) : list Token :=
  concat (map (fun f => omap (M:=list) (choice_token rid fw) (sf_choices f)) fs).
Definition finished (ts : list Token) : bool := existsb (fun t => negb (is_empty (t_finish t))) ts.
(** The last usage reported. *)
Definition usage_of (u : Z * Z) (fs : list StreamFrame) : Z * Z :=
  foldl (fun u f => match sf_usage f with Some x => (fu_prompt_tokens x, fu_completion_tokens x) | None => u end) u fs.

(** What a client that takes [n] tokens gets from a body, cut short by a read
    error or complete. *)
Definition answer (kind rid : string) (fw : bool) (body : list Z) (broken : option string) (n : nat) : list Token * result unit Error :=
  let evs := frame_event <$> frames body in
  let fs := before_done evs in
  let ts := tokens_of rid fw fs in
  let whole := ts ++ [terminal_token rid (finished ts) (usage_of (0, 0)%Z fs)] in
  if decide (n < length ts) then (take n ts, Ok tt)
  else if has_done evs then (take n whole, Ok tt)
  else match broken with
  | Some m => (ts, Err (Error_Internal (kind +:+ " stream: " +:+ m)))
  | None =>
      if finished ts then (take n whole, Ok tt)
      else (ts, Err (Error_Internal (kind +:+ " stream ended before a finish reason")))
  end.
End spec.

(** ** Frames *)

Lemma find_frame_cons i a x r :
  find_frame_end_from i (a :: x :: r) =
  if (a =? 10)%Z then
    if (x =? 10)%Z then Some (i + 2)
    else if (x =? 13)%Z && bool_decide (head r = Some 10%Z) then Some (i + 3)
    else find_frame_end_from (S i) (x :: r)
  else find_frame_end_from (S i) (x :: r).
Proof. done. Qed.

Lemma find_frame_from_app i b c e : find_frame_end_from i b = Some e -> find_frame_end_from i (b ++ c) = Some e /\ i + 2 <= e <= i + length b.
Proof.
  revert i. induction b as [|a [|x r] IH]; intros i; [done..|].
  change ((a :: x :: r) ++ c) with (a :: x :: (r ++ c)). rw !find_frame_cons.
  assert (Hrec : find_frame_end_from (S i) (x :: r) = Some e ->
    find_frame_end_from (S i) (x :: r ++ c) = Some e /\ i + 2 <= e <= i + length (a :: x :: r)).
  { intros [E ?]%IH. cbn in *. split; [exact E|lia]. }
  destruct (a =? 10)%Z; [|exact Hrec]. destruct (x =? 10)%Z; [intros [= <-]; cbn; split; [done|lia]|].
  destruct (x =? 13)%Z; [|exact Hrec]. destruct r as [|y r]; [done|]. cbn [head app andb] in *.
  case_bool_decide; [|exact Hrec]. intros [= <-]. cbn. split; [done|lia].
Qed.

(** A complete frame stays one when more bytes come. *)
Lemma find_frame_app b c e : find_frame_end b = Some e -> find_frame_end (b ++ c) = Some e /\ 2 <= e <= length b.
Proof. apply (find_frame_from_app 0). Qed.

Lemma split_frames_fuel f1 f2 b : length b <= f1 -> length b <= f2 -> split_frames f1 b = split_frames f2 b.
Proof.
  revert f2 b. induction f1 as [|f1 IH]; intros [|f2] b H1 H2; cbn; try (by destruct b; cbn in *; [|lia]).
  destruct (find_frame_end b) as [e|] eqn:E; [|done].
  destruct (find_frame_app b [] e E) as [_ He]. rw (IH f2) ?length_drop //; lia.
Qed.

Lemma frames_eq b : frames b = match find_frame_end b with Some e => take e b :: frames (drop e b) | None => [] end.
Proof.
  rw {1}/frames (split_frames_fuel _ (S (length b))); [lia|lia|]. cbn [split_frames].
  destruct (find_frame_end b) as [e|] eqn:E; [|done]. destruct (find_frame_app b [] e E) as [_ He].
  rw (split_frames_fuel _ (length (drop e b))); [rw length_drop; lia|lia|].
  rw /frames. by destruct (split_frames _ _).
Qed.

Lemma frames_rest_eq b : frames_rest b = match find_frame_end b with Some e => frames_rest (drop e b) | None => b end.
Proof.
  rw {1}/frames_rest (split_frames_fuel _ (S (length b))); [lia|lia|]. cbn [split_frames].
  destruct (find_frame_end b) as [e|] eqn:E; [|done]. destruct (find_frame_app b [] e E) as [_ He].
  rw (split_frames_fuel _ (length (drop e b))); [rw length_drop; lia|lia|].
  rw /frames_rest. by destruct (split_frames _ _).
Qed.

(** A block without line feeds, ended by an empty line, is one frame. *)
Lemma find_frame_from_block i b rest : Forall (fun x => x <> 10%Z) b -> find_frame_end_from i (b ++ [10; 10]%Z ++ rest) = Some (i + length b + 2).
Proof.
  intros Hb. revert i. induction Hb as [|x b Hx Hb IH]; intros i; [cbn; f_equal; lia|].
  assert (E : exists y r, b ++ [10; 10]%Z ++ rest = y :: r) by (destruct b; by eexists _, _). destruct E as (y & r & E).
  cbn [app]. cbn [app] in E, IH. rw E find_frame_cons -E (proj2 (Z.eqb_neq x 10) Hx) IH. f_equal. cbn. lia.
Qed.

Lemma frames_block b rest : Forall (fun x => x <> 10%Z) b -> frames (b ++ [10; 10]%Z ++ rest) = (b ++ [10; 10]%Z) :: frames rest.
Proof.
  intros Hb. rw frames_eq /find_frame_end find_frame_from_block //. rw app_assoc. f_equal.
  - rw take_app_length' //. rw length_app /=. lia.
  - rw drop_app_length' //. rw length_app /=. lia.
Qed.

(** Induction on the frames of a body. *)
Lemma frames_ind (P : list Z -> Prop) :
  (forall b, find_frame_end b = None -> P b) ->
  (forall b e, find_frame_end b = Some e -> P (drop e b) -> P b) -> forall b, P b.
Proof.
  intros Hnone Hsome b. remember (length b) as n eqn:Hn. revert b Hn. induction (lt_wf n) as [n _ IH]. intros b ->.
  destruct (find_frame_end b) as [e|] eqn:E; [|by apply Hnone]. destruct (find_frame_app b [] e E) as [_ He].
  eapply Hsome; [exact E|]. eapply IH; [|reflexivity]. rw length_drop. lia.
Qed.

(** More bytes only add frames. *)
Lemma frames_app b c : frames (b ++ c) = frames b ++ frames (frames_rest b ++ c).
Proof.
  induction b as [b E|b e E IH] using frames_ind.
  - by rw (frames_eq b) (frames_rest_eq b) E.
  - destruct (find_frame_app b c e E) as [E' He]. rw (frames_eq (b ++ c)) (frames_eq b) (frames_rest_eq b) E E'.
    rw take_app_le; [lia|]. rw drop_app_le; [lia|]. cbn. by rw IH.
Qed.

Lemma frames_rest_app b c : frames_rest (b ++ c) = frames_rest (frames_rest b ++ c).
Proof.
  induction b as [b E|b e E IH] using frames_ind; [by rw (frames_rest_eq b) E|].
  destruct (find_frame_app b c e E) as [E' He]. rw (frames_rest_eq (b ++ c)) (frames_rest_eq b) E E'.
  by rw drop_app_le; [lia|].
Qed.

Lemma frames_of_rest b : frames (frames_rest b) = [].
Proof. by induction b as [b E|b e E IH] using frames_ind; rw (frames_rest_eq b) E // (frames_eq b) E. Qed.

Lemma frames_concat b : concat (frames b) ++ frames_rest b = b.
Proof.
  induction b as [b E|b e E IH] using frames_ind; rw (frames_eq b) (frames_rest_eq b) E //=. by rw -app_assoc IH take_drop.
Qed.

Section proofs.
Context `{SerdeJson} (rid : string) (fw : bool) (kind : string).
Implicit Types (st : Progress) (fs : list (list Z)).

(** The frames of a buffer, one after the other. *)
Fixpoint run_frames fs st : Progress * bool :=
  match fs with
  | [] => (st, false)
  | f :: fs' => let (st', returned) := frame_step rid fw f st in if returned then (st', true) else run_frames fs' st'
  end.

Lemma run_frames_app fs1 fs2 st :
  run_frames (fs1 ++ fs2) st = let (st', returned) := run_frames fs1 st in if returned then (st', true) else run_frames fs2 st'.
Proof.
  revert st. induction fs1 as [|f fs1 IH]; intros st; [done|]. cbn. destruct (frame_step rid fw f st) as [st' []]; [done|apply IH].
Qed.

Lemma drain_frames_run fuel b st : length b <= fuel ->
  exists rest, drain_frames rid fw fuel b st = (rest, (run_frames (frames b) st).1, (run_frames (frames b) st).2) /\
  ((run_frames (frames b) st).2 = false -> rest = frames_rest b).
Proof.
  revert fuel st. induction b as [b E|b e E IH] using frames_ind; intros [|fuel] st Hf.
  - destruct b; [|cbn in Hf; lia]. by exists [].
  - rw (frames_eq b) (frames_rest_eq b) /= E. by exists b.
  - destruct (find_frame_app b [] e E) as [_ He]. lia.
  - rw (frames_eq b) (frames_rest_eq b) /= E. destruct (find_frame_app b [] e E) as [_ He]. cbn [run_frames].
    destruct (frame_step rid fw (take e b) st) as [st' []]; [by exists (drop e b)|].
    apply IH. rw length_drop. lia.
Qed.

(** What the loop makes of a body, whatever its pieces. *)
Definition read_body (b : list Z) (broken : option string) st : Progress * result unit Error :=
  match run_frames (frames b) st with
  | (st', true) => (st', Ok tt)
  | (st', false) => read_chunks rid fw kind (match broken with Some m => [Err m] | None => [] end) [] st'
  end.

Lemma read_chunks_body cs broken buf st : frames buf = [] ->
  read_chunks rid fw kind ((Ok <$> cs) ++ match broken with Some m => [Err m] | None => [] end) buf st
  = read_body (buf ++ concat cs) broken st.
Proof.
  revert buf st. induction cs as [|c cs IH]; intros buf st Hbuf.
  - cbn. rw app_nil_r /read_body Hbuf /=. by destruct broken.
  - cbn [fmap list_fmap app read_chunks concat].
    destruct (drain_frames_run (length (buf ++ c)) (buf ++ c) st (le_n _)) as (rest & E & Hrest). rw E.
    rw /read_body app_assoc (frames_app (buf ++ c)) run_frames_app.
    destruct (run_frames (frames (buf ++ c)) st) as [st' []]; cbn in *; [done|].
    rw Hrest //. by rw IH /read_body ?frames_of_rest.
Qed.

Lemma tx_send_sent t s n : tx_sent (tx_send t (mkTx s n)).1 = s ++ take n [t].
Proof. destruct n as [|n]; cbn; [by rw app_nil_r|by destruct n]. Qed.

Lemma finished_app ts1 ts2 : finished (ts1 ++ ts2) = finished ts1 || finished ts2.
Proof. by rw /finished existsb_app. Qed.

Lemma choices_loop_run cs f u s n :
  let ts := omap (M:=list) (choice_token rid fw) cs in
  if decide (n < length ts) then
    exists st, choices_loop rid fw cs (mkProgress f u (mkTx s n)) = (st, true) /\ tx_sent (tx st) = s ++ take n ts
  else choices_loop rid fw cs (mkProgress f u (mkTx s n)) = (mkProgress (f || finished ts) u (mkTx (s ++ ts) (n - length ts)), false).
Proof.
  revert f s n. induction cs as [|c cs IH]; intros f s n; cbn zeta; cbn [omap list_omap choices_loop].
  - case_decide as Hn; [cbn in Hn; lia|]. by rw /= app_nil_r Nat.sub_0_r orb_false_r.
  - destruct (choice_token rid fw c) as [t|]; [|apply IH]. destruct n as [|n]; cbn [tx tx_send tx_takes saw_finish usage length].
    + case_decide; [|lia]. eexists. split; [reflexivity|]. by rw /= app_nil_r.
    + specialize (IH (f || negb (is_empty (t_finish t))) (s ++ [t]) n). cbn zeta in IH. cbn [tx_sent].
      do 2 case_decide; try lia.
      * destruct IH as (st & E & Hs). exists st. split; [exact E|]. by rw Hs -app_assoc.
      * by rw IH -app_assoc -orb_assoc.
Qed.

Definition next_usage (u : Z * Z) (f : StreamFrame) : Z * Z :=
  match sf_usage f with Some x => (fu_prompt_tokens x, fu_completion_tokens x) | None => u end.

Lemma frame_step_event b st :
  frame_step rid fw b st = match frame_event b with
  | Skip => (st, false)
  | Done => (send_terminal rid st, true)
  | Data f => choices_loop rid fw (sf_choices f) (mkProgress (saw_finish st) (next_usage (usage st) f) (tx st))
  end.
Proof.
  rw /frame_step /frame_event. destruct (frame_payload b) as [p|]; [|done]. case_decide; [done|].
  by destruct (json_tree (to_string p) ≫= de_stream_frame).
Qed.

Lemma run_frames_answer fs f u s n :
  let evs := frame_event <$> fs in
  let ds := before_done evs in
  let ts := tokens_of rid fw ds in
  if decide (n < length ts) then
    exists st, run_frames fs (mkProgress f u (mkTx s n)) = (st, true) /\ tx_sent (tx st) = s ++ take n ts
  else
    let st := mkProgress (f || finished ts) (usage_of u ds) (mkTx (s ++ ts) (n - length ts)) in
    run_frames fs (mkProgress f u (mkTx s n)) = if has_done evs then (send_terminal rid st, true) else (st, false).
Proof.
  revert f u s n. induction fs as [|b fs IH]; intros f u s n; cbn zeta.
  - case_decide as Hn; [cbn in Hn; lia|]. by rw /= app_nil_r Nat.sub_0_r orb_false_r.
  - rw fmap_cons. cbn [run_frames]. rw frame_step_event. destruct (frame_event b) as [| |d]; [apply IH| |].
    { case_decide as Hn; [cbn in Hn; lia|]. by rw /= app_nil_r Nat.sub_0_r orb_false_r. }
    cbn [before_done has_done existsb orb usage_of foldl tokens_of map concat]. rw -/(has_done _) -/(tokens_of rid fw _) -/(usage_of _ _).
    cbn [saw_finish usage tx]. rw -/(next_usage u d). set (u' := next_usage u d).
 set (ts1 := omap _ (sf_choices d)).
    set (ds := before_done _) in *. set (ts := tokens_of rid fw ds) in *.
    pose proof (choices_loop_run (sf_choices d) f u' s n) as Hc. cbn zeta in Hc. fold ts1 in Hc. rw length_app.
    destruct (decide (n < length ts1)) as [Hn|Hn].
    + case_decide; [|lia]. destruct Hc as (st & -> & Hs). exists st. split; [done|]. rw Hs take_app_le //. lia.
    + rw Hc. specialize (IH (f || finished ts1) u' (s ++ ts1) (n - length ts1)). cbn zeta in IH. fold ds ts in IH.
      rw -!app_assoc -orb_assoc -finished_app -Nat.sub_add_distr in IH.
      destruct (decide (n < length ts1 + length ts)) as [Hm|Hm]; case_decide; try lia.
      * destruct IH as (st & E & Hs). exists st. split; [exact E|].
        rw Hs take_app_ge; [lia|]. by rw app_assoc.
      * exact IH.
Qed.
End proofs.

(** ** Generation *)

Lemma read_chunks_answer `{SerdeJson} rid fw kind cs broken n :
  let (st, res) := read_chunks rid fw kind ((Ok <$> cs) ++ match broken with Some m => [Err m] | None => [] end) []
    (mkProgress false (0, 0)%Z (mkTx [] n)) in
  (tx_sent (tx st), res) = answer kind rid fw (concat cs) broken n.
Proof.
  rw read_chunks_body //= /read_body /answer.
  pose proof (run_frames_answer rid fw (frames (concat cs)) false (0, 0)%Z [] n) as Hr. cbn zeta in *.
  set (fs := before_done _) in *. set (ts := tokens_of _ _ fs) in *.
  destruct (decide (n < length ts)) as [Hn|Hn].
  { destruct Hr as (st & -> & E). by rw /= E. }
  rw Hr. assert (Ht : forall t, ts ++ take (n - length ts) [t] = take n (ts ++ [t])) by (intros t; rw take_app_ge //; lia).
  destruct (has_done _); [by rw /= tx_send_sent Ht|]. destruct broken as [m|]; [done|]. cbn.
  destruct (finished ts) eqn:Ef; [|done]. by rw /= tx_send_sent /= Ht.
Qed.

(** C34. The bytes of a successful response decide what the client gets, the
    way they are cut into pieces does not: the tokens are those of the frames
    before the end marker, in order, followed by one terminal token with the
    last usage; a client that goes away gets the first of them and no error; a
    body that breaks off, or ends without marker and without a finish reason, is
    an error after the tokens it held. *)
Theorem adapter_stream_correct `{SerdeJson} `{Reqwest} e post req status cs broken n :
  post (generate_post e req) = Ok (mkResponse status ((Ok <$> cs) ++ match broken with Some m => [Err m] | None => [] end)) ->
  is_success status = true ->
  let (c, res) := generate e post req (mkTx [] n) in
  (tx_sent c, res) = answer (kind e) (id req) (logprobs req) (concat cs) broken n.
Proof.
  intros Hp Hs. rw /generate Hp /= Hs /=. pose proof (read_chunks_answer (id req) (logprobs req) (kind e) cs broken n) as Ha.
  by destruct (read_chunks _ _ _ _ _ _).
Qed.

(** ** Payloads *)

Lemma utf8_blank : utf8 [10; 10]%Z = [10; 10]%Z.
Proof. done. Qed.

Lemma one_line_app a b : one_line (a ++ b) <-> one_line a /\ one_line b.
Proof. apply Forall_app. Qed.

Lemma one_line_lit_data : one_line (lit "data: ").
Proof. compute_dec. Qed.

Lemma frame_decodes l : one_line l -> from_utf8 (utf8 (l ++ [10; 10]%Z)) = Some (l ++ [10; 10]%Z).
Proof.
  intros Hl. apply from_utf8_utf8, Forall_app. split; [by apply one_line_scalar|compute_dec].
Qed.

Definition visible_ends (l : str) : Prop :=
  (forall c, head l = Some c -> is_whitespace c = false) /\ (forall c, last l = Some c -> is_whitespace c = false).

(** The payload of a data line is what follows the field name. *)
Lemma payload_of_data l : one_line l -> l <> [] -> visible_ends l ->
  frame_payload (utf8 ((lit "data: " ++ l) ++ [10; 10]%Z)) = Some l.
Proof.
  intros Hl Hne [Hh Ht]. assert (Hd : one_line (lit "data: " ++ l)) by (apply one_line_app; split; [exact one_line_lit_data|done]).
  rw /frame_payload frame_decodes //. cbv zeta. change (default [] (Some ?x)) with x. rw lines_block //.
  assert (Hlast : forall c, last (lit "data: " ++ l) = Some c -> is_whitespace c = false).
  { intros c. rw last_app. destruct (last l) as [d|] eqn:E; [intros [= <-]; by apply Ht|]. by apply last_None in E. }
  cbn [fmap list_fmap find_map]. rw (trim_ends (lit "data: " ++ l)) //; [by intros c [= <-]|].
  assert (Hs : starts_with (lit "data:") (lit "data: " ++ l) = true) by done. rw Hs. cbn [option_map fmap option_fmap].
  change (trim_data _ _) with (32%Z :: l). by rw trim_space trim_ends.
Qed.

(** A comment has none. *)
Lemma payload_of_comment l : one_line l -> frame_payload (utf8 ((58%Z :: l) ++ [10; 10]%Z)) = None.
Proof.
  intros Hl. assert (Hd : one_line (58%Z :: l)) by (apply (one_line_app [58%Z]); split; [compute_dec|done]).
  rw /frame_payload frame_decodes //. cbv zeta. change (default [] (Some ?x)) with x. rw lines_block //.
  cbn [fmap list_fmap find_map]. by rw trim_cons.
Qed.
(** ** The fields of a body *)

Section fields.
Context `{SerdeJson} (e : OpenAiHttpEngine) (req : GenerateReq).

Lemma put_if_sorted b k v f : sorted_keys f -> sorted_keys (put_if b k v f).
Proof. rw /put_if. destruct b; [apply obj_insert_sorted|done]. Qed.

Lemma field_put_if b k v k' f : field k' (put_if b k v f) = if b && String.eqb k k' then Some v else field k' f.
Proof. rw /put_if. destruct b; [apply field_obj_insert|done]. Qed.

Lemma apply_sampling_sorted cm f : sorted_keys f -> sorted_keys (apply_sampling req cm f).
Proof. intros Hf. rw /apply_sampling. destruct (seed req); repeat (apply put_if_sorted || apply obj_insert_sorted); exact Hf. Qed.

Lemma merge_extensions_sorted k ext f : sorted_keys f -> sorted_keys (merge_extensions k ext f).
Proof.
  revert f. induction ext as [|[a v] ext IH]; intros f Hf; cbn; [done|].
  destruct (_ && _); apply IH; [done|]. by apply obj_insert_sorted.
Qed.

(** Extensions only set their own keys. *)
Lemma field_merge_other k ext k' f : occurs k' ext = 0 -> field k' (merge_extensions k ext f) = field k' f.
Proof.
  revert f. induction ext as [|[a v] ext IH]; intros f Hk; cbn; [done|]. rw /occurs /= in Hk.
  destruct (String.eqb_spec a k') as [->|Ha]; [done|]. destruct (_ && _); rw IH //.
  rw field_obj_insert. by rw (proj2 (String.eqb_neq a k') Ha).
Qed.

(** An extension has the last word on its key, unless it is a salt the engine does
    not know. *)
Lemma field_merge k ext k' f : sorted_keys ext ->
  field k' (merge_extensions k ext f) =
  match field k' ext with
  | Some v => if String.eqb k' "cache_salt" && negb (String.eqb k "vllm") then field k' f else Some v
  | None => field k' f
  end.
Proof.
  revert f. induction ext as [|[a v] ext IH]; intros f Hs; [done|]. cbn [merge_extensions field].
  pose proof (StronglySorted_inv Hs) as [Hs' Ha]. destruct (String.eqb_spec a k') as [->|Hne].
  - assert (Ho : occurs k' ext = 0).
    { pose proof (sorted_keys_occurs k' _ Hs) as Ho. rw /occurs /= String.eqb_refl /= -/(occurs k' ext) in Ho. lia. }
    destruct (_ && _); rw field_merge_other //. by rw field_obj_insert String.eqb_refl.
  - destruct (String.eqb a "cache_salt" && _); rw IH //. rw field_obj_insert (proj2 (String.eqb_neq a k') Hne). done.
Qed.

Lemma json_object_sorted l : sorted_keys (json_object l).
Proof.
  rw /json_object. assert (Hg : forall f, sorted_keys f -> sorted_keys (foldl (fun f e => obj_insert e.1 e.2 f) f l)).
  { induction l as [|x l IH]; intros f Hf; [done|]. apply IH. by apply obj_insert_sorted. }
  apply Hg. constructor.
Qed.

Lemma post_fields_sorted : sorted_keys (post_fields e req).
Proof.
  rw /post_fields. assert (Hs : sorted_keys (apply_sampling req (chat_mode req) (base_body req))).
  { apply apply_sampling_sorted. rw /base_body. destruct (chat_mode req); apply json_object_sorted. }
  set (f1 := if negb _ then _ else _).
  assert (H1 : sorted_keys f1).
  { rw /f1. destruct (negb _); [|done]. destruct (json_from_str _) as [[]|]; try done. by apply merge_extensions_sorted. }
  destruct (kv_transfer_params_from_digests _ _); [by apply obj_insert_sorted|done].
Qed.

(** A key that neither the extensions nor the digests set has the value the
    request gives it. *)
Definition extension_keys : list string :=
  if is_empty (extensions_json req) then []
  else match json_from_str (extensions_json req) with Some (JObject ext) => map fst ext | _ => [] end.

Lemma field_post_fields k : k ∉ extension_keys -> k <> "kv_transfer_params" ->
  field k (post_fields e req) = field k (apply_sampling req (chat_mode req) (base_body req)).
Proof.
  intros Hk Hkv. rw /post_fields /extension_keys in Hk *. set (f0 := apply_sampling _ _ _).
  set (f1 := if negb _ then _ else _). assert (H1 : field k f1 = field k f0).
  { rw /f1. destruct (is_empty _); [done|]. cbn [negb]. destruct (json_from_str _) as [[]|]; try done. apply field_merge_other.
    clear -Hk. induction fields as [|[a v] l IH]; [done|]. rw /occurs /=. cbn in Hk.
    destruct (String.eqb_spec a k) as [->|]; [by destruct Hk; left|]. apply IH. by intros Hin; apply Hk; right. }
  destruct (kv_transfer_params_from_digests _ _); [|done]. rw field_obj_insert.
  destruct (String.eqb_spec "kv_transfer_params" k); [by subst|done].
Qed.
End fields.

Module OpenAiExamples.
Import ToyJson.

#[local] Instance toy_reqwest : Reqwest := {| status_display _ := ""; decode_text _ := ""; decode_error _ := "" |}.

Definition engine : OpenAiHttpEngine := OpenAiHttpEngine_new "vllm" "http://127.0.0.1:8000/".
Definition request : GenerateReq :=
  mkReq "r1" "m" [] "hi" 16 f32_one f32_one [] true None f32_zero f32_zero f32_one 0 false "" [] [].

Definition frame_bytes (v : Json) : list Z := as_bytes ("data: " +:+ json_to_string v) ++ [13; 10; 13; 10]%Z.
Definition body : list Z :=
  frame_bytes (JObject [("choices", JArray [JObject [("text", JString "He")]])])
  ++ frame_bytes (JObject [("choices", JArray [JObject [("delta", JObject [("content", JString "y")])]]); ("usage", JNull)]).

(** A body that breaks off, in pieces of five bytes. *)
Lemma adapter_stream_correct_witness :
  let (c, res) := generate engine (fun _ => Ok (mkResponse 200 ((Ok <$> chunks 5 body) ++ [Err "reset"]))) request (mkTx [] 9) in
  (map t_text (tx_sent c), res) = (["He"; "y"], Err (Error_Internal "vllm stream: reset")).
Proof.
  pose proof (adapter_stream_correct engine (fun _ => Ok (mkResponse 200 ((Ok <$> chunks 5 body) ++ [Err "reset"]))) request 200
    (chunks 5 body) (Some "reset") 9 eq_refl eq_refl) as Ha.
  destruct (generate _ _ _ _) as [c res]. rw concat_chunks in Ha; [lia|].
  apply (f_equal (fun r => (map t_text r.1, r.2))) in Ha. cbn [fst snd] in Ha. rw Ha. by vm_compute.
Defined.

Example error_bodies : map (fun s => match classify_engine_status "vllm" s "x" with
    Error_Unavailable _ => 503 | Error_InvalidArgument _ => 400 | _ => 500 end%Z) [429; 503; 408; 400; 404; 500]%Z
  = [503; 503; 500; 400; 400; 500]%Z.
Proof. done. Qed.

End OpenAiExamples.
