(* ===== verification/Layers.v ===== *)
(** * Layer ranges

    [LayerRange], [split_layers] and [validate_coverage] of
    [cgn-infer/src/model/llama.rs]: how a model is cut into the slices a layer
    pipeline runs, and the check that slices found elsewhere tile it. *)

From S2P Require Import Prelude Config Text.

(** Half-open layer interval. *)
Record LayerRange := mkRange { lr_start : nat; lr_end : nat }.

#[export] Instance LayerRange_eq_dec : EqDecision LayerRange.
Proof. solve_decision. Defined.

Module LayerRange.

Definition new (start end_ : nat) : result LayerRange Error :=
  if (end_ <=? start)%nat then Err (Error_InvalidArgument "layer range is empty") else Ok (mkRange start end_).

(** The CLI form [A:B]. *)
Definition parse (s : str) : result LayerRange Error :=
  match split_once 58 s with
  | None => Err (Error_InvalidArgument "layer range must be of the form A:B")
  | Some (a, b) =>
      match parse_u64 (trim a) with
      | None => Err (Error_InvalidArgument "layer range start")
      | Some start =>
          match parse_u64 (trim b) with
          | None => Err (Error_InvalidArgument "layer range end")
          | Some end_ => new (Z.to_nat start) (Z.to_nat end_)
          end
      end
  end.

(** [Display]. *)
Definition fmt (r : LayerRange) : str := dec (Z.of_nat (lr_start r)) ++ 58%Z :: dec (Z.of_nat (lr_end r)).

Definition len (r : LayerRange) : nat := lr_end r - lr_start r.

End LayerRange.

(** [for i in 0..parts]: the first [rem] parts get one layer more. *)
Fixpoint split_loop (base rem i n start : nat) : list LayerRange :=
  match n with
  | O => []
  | S n' =>
      let len := base + (if (i <? rem)%nat then 1 else 0) in
      mkRange start (start + len) :: split_loop base rem (S i) n' (start + len)
  end.

Definition split_layers (total parts : nat) : result (list LayerRange) Error :=
  if (parts =? 0)%nat || (total <? parts)%nat then Err (Error_InvalidArgument "cannot split layers")
  else Ok (split_loop (total / parts) (total mod parts) 0 parts 0).

Fixpoint coverage_loop (next : nat) (ranges : list LayerRange) : result nat Error :=
  match ranges with
  | [] => Ok next
  | r :: rs =>
      if (lr_start r =? next)%nat then coverage_loop (lr_end r) rs
      else Err (Error_InvalidArgument "pipeline layer ranges must be contiguous")
  end.

Definition validate_coverage (total : nat) (ranges : list LayerRange) : result unit Error :=
  let? next := coverage_loop 0 ranges in
  if (next =? total)%nat then Ok tt else Err (Error_InvalidArgument "pipeline layer ranges do not cover the model").

(** The layers a range names. *)
Definition layers_of (r : LayerRange) : list nat := seq (lr_start r) (lr_end r - lr_start r).
Definition range_wf (r : LayerRange) : Prop := lr_start r < lr_end r.

Section ranges.
Implicit Types r : LayerRange.

Lemma range_new_ok a b r : LayerRange.new a b = Ok r -> r = mkRange a b /\ range_wf r.
Proof. rw /LayerRange.new. case_match eqn:E; [done|]. intros [= <-]. apply Nat.leb_gt in E. done. Qed.

Lemma coverage_loop_spec rs next m :
  Forall range_wf rs -> coverage_loop next rs = Ok m ->
  next <= m /\ concat (layers_of <$> rs) = seq next (m - next).
Proof.
  revert next. induction rs as [|r rs IH]; intros next Hwf.
  - intros [= ->]. by rw Nat.sub_diag.
  - apply Forall_cons in Hwf as [Hr Hwf]. rw /range_wf in Hr. cbn. case_match eqn:E; [|done]. apply Nat.eqb_eq in E.
    intros [Hle Hc]%IH; [|done]. split; [lia|]. rw Hc /layers_of E.
    replace (seq (lr_end r)) with (seq (next + (lr_end r - next))) by (f_equal; lia). rw -seq_app. f_equal. lia.
Qed.

Lemma coverage_loop_seq rs next n :
  Forall range_wf rs -> concat (layers_of <$> rs) = seq next n -> coverage_loop next rs = Ok (next + n).
Proof.
  revert next n. induction rs as [|r rs IH]; intros next n Hwf; cbn.
  - destruct n; [|done]. by rw Nat.add_0_r.
  - apply Forall_cons in Hwf as [Hr Hwf]. rw /range_wf in Hr. rw /layers_of. intros Hc.
    destruct (lr_end r - lr_start r) as [|k] eqn:Ek; [lia|]. destruct n as [|n]; [done|].
    cbn in Hc. injection Hc as Hs Hc. rw Hs Nat.eqb_refl.
    assert (k <= n) as Hk.
    { apply (f_equal length) in Hc. rw length_app !length_seq in Hc. lia. }
    rw (IH (lr_end r) (n - k)) //; [|f_equal; lia].
    replace n with (k + (n - k)) in Hc at 1 by lia. rw seq_app Hs in Hc. apply app_inv_head in Hc. rw Hc. f_equal. lia.
Qed.

Lemma validate_coverage_spec total rs :
  Forall range_wf rs -> validate_coverage total rs = Ok tt <-> concat (layers_of <$> rs) = seq 0 total.
Proof.
  intros Hwf. rw /validate_coverage. split.
  - destruct (coverage_loop 0 rs) as [m|] eqn:E; [|done]. cbn. case_match eqn:Em; [|done]. intros _.
    apply Nat.eqb_eq in Em as <-. destruct (coverage_loop_spec rs 0 m Hwf E) as [_ ->]. by rw Nat.sub_0_r.
  - intros Hc. rw (coverage_loop_seq rs 0 total) //= Nat.eqb_refl //.
Qed.

Lemma split_loop_spec base rem n i start :
  coverage_loop start (split_loop base rem i n start)
    = Ok (start + n * base + (Nat.min (i + n) rem - Nat.min i rem)) /\
  length (split_loop base rem i n start) = n /\
  (forall j r, split_loop base rem i n start !! j = Some r ->
     LayerRange.len r = base + (if (i + j <? rem)%nat then 1 else 0)).
Proof.
  revert i start. induction n as [|n IH]; intros i start; cbn [split_loop coverage_loop lr_start lr_end length].
  - split_and!; [f_equal; lia|done|by intros []].
  - rw Nat.eqb_refl. destruct (IH (S i) (start + (base + (if (i <? rem)%nat then 1 else 0)))) as (-> & -> & Hl).
    split_and!; [|done|].
    + f_equal. case_match eqn:E; [apply Nat.ltb_lt in E|apply Nat.ltb_ge in E]; lia.
    + intros [|j] r; cbn [lookup list_lookup]; [|by intros ->%Hl; rw Nat.add_succ_r].
      intros [= <-]. rw /LayerRange.len /= Nat.add_0_r. lia.
Qed.

End ranges.

(** ** Properties *)

(** Printing a layer range and parsing it back gives the range, for every
    range a machine can hold; and whatever text [LayerRange::parse] accepts, the
    range it returns is not empty and fits in [usize]. *)
Lemma layer_range_roundtrip :
  (forall r, range_wf r -> (Z.of_nat (lr_end r) <= u64_max)%Z -> LayerRange.parse (LayerRange.fmt r) = Ok r) /\
  (forall s r, LayerRange.parse s = Ok r -> range_wf r /\ (Z.of_nat (lr_end r) <= u64_max)%Z).
Proof.
  split.
  - intros [a b] Hwf Hb. rw /range_wf /= in Hwf, Hb. rw /LayerRange.parse /LayerRange.fmt /= split_once_app.
    { apply dec_no_char; [lia|done]. }
    rw !trim_dec; [lia..|]. unfold parse_u64. assert (Z.of_nat a <= u64_max)%Z by lia.
    rw !parse_dec; [by rw /is_u64; lia..|]. rw !Nat2Z.id /LayerRange.new. by case_match eqn:E; [apply Nat.leb_le in E; lia|].
  - intros s r. rw /LayerRange.parse. repeat (case_match; try done). intros [-> Hwf]%range_new_ok. split; [done|].
    cbn. match goal with E : parse_u64 (trim ?b) = Some ?z |- context [Z.to_nat ?z] =>
      apply parse_unsigned_bounds in E; [|done] end. lia.
Qed.

Lemma layer_range_roundtrip_witness :
  LayerRange.fmt (mkRange 16 32) = lit "16:32" /\
  LayerRange.parse (LayerRange.fmt (mkRange 16 32)) = Ok (mkRange 16 32) /\ range_wf (mkRange 0 16).
Proof.
  split; [reflexivity|]. split.
  - apply layer_range_roundtrip; [unfold range_wf; simpl; lia|vm_compute; discriminate].
  - apply (proj2 layer_range_roundtrip (lit " 0 : +16 ") (mkRange 0 16)). vm_compute. reflexivity.
Defined.

(** [validate_coverage] accepts non-empty ranges exactly when the layers they
    name, in order, are [0 .. total). [split_layers] succeeds exactly when the
    number of parts is between one and the number of layers, and what it returns
    passes that check, has one range per part, and gives the [j]-th part the
    quotient, plus one layer for the first [total mod parts] parts. *)
Lemma layer_split_correct total parts :
  (forall rs, Forall range_wf rs ->
     validate_coverage total rs = Ok tt <-> concat (layers_of <$> rs) = seq 0 total) /\
  (split_layers total parts = Err (Error_InvalidArgument "cannot split layers") <-> parts = 0 \/ total < parts) /\
  (forall rs, split_layers total parts = Ok rs ->
     validate_coverage total rs = Ok tt /\ Forall range_wf rs /\ length rs = parts /\
     forall j r, rs !! j = Some r ->
       LayerRange.len r = total / parts + (if (j <? total mod parts)%nat then 1 else 0)).
Proof.
  split; [by apply validate_coverage_spec|]. rw /split_layers.
  destruct ((parts =? 0)%nat || (total <? parts)%nat) eqn:E.
  { split; [|done]. split; [intros _|done]. apply orb_true_iff in E as [E%Nat.eqb_eq|E%Nat.ltb_lt]; lia. }
  apply orb_false_iff in E as [E1%Nat.eqb_neq E2%Nat.ltb_ge]. split; [split; [done|lia]|]. intros rs [= <-].
  pose proof (Nat.div_mod total parts E1) as Hdm. pose proof (Nat.mod_upper_bound total parts E1) as Hmod.
  destruct (split_loop_spec (total / parts) (total mod parts) parts 0 0) as (Hc & Hlen & Hl).
  assert (1 <= total / parts) as Hq by (apply Nat.div_le_lower_bound; lia). split_and!; [| |done|].
  - rw /validate_coverage Hc. cbn [result_bind]. match goal with |- context [(?x =? total)%nat] => replace x with total by nia end. by rw Nat.eqb_refl.
  - apply Forall_lookup => j r Hj. apply Hl in Hj. rw /LayerRange.len in Hj. rw /range_wf. lia.
  - intros j r Hj. by apply Hl in Hj.
Qed.

Lemma layer_split_correct_witness :
  split_layers 10 3 = Ok [mkRange 0 4; mkRange 4 7; mkRange 7 10] /\
  validate_coverage 10 [mkRange 0 4; mkRange 4 7; mkRange 7 10] = Ok tt.
Proof.
  split; [reflexivity|]. refine (proj1 (proj2 (proj2 (layer_split_correct 10 3)) _ _)). reflexivity.
Defined.
