(* ===== verification/Llama.v ===== *)
(** * The engine's model and its runtimes

    [cgn-infer/src/model/llama.rs] and [BatchedLlama], [SequentialModel] of
    [cgn-infer/src/runtime/mod.rs]. The tensor library (candle) and its GGUF
    reader are the classes [Candle] and [Gguf]: tensors are values of an abstract
    type and their operations parameters, so every result below holds for any of
    them. What batching relies on, that operations treat the rows of a batch
    independently, is the class [CandleRows]. Devices are left out. A function
    that may panic has an [option] result, [None] being the panic. *)

From S2P Require Import Prelude Float32 Config Scheduler Layers.
From stdpp Require Import pretty.

(** ** The tensor library *)

(** [candle_core::Result]. *)
Definition cres (A : Type) : Type := result A unit.

Class Candle := {
  Tensor : Type;
  QMatMul : Type;
  RmsNorm : Type;
  Embedding : Type;
  c_dims3 : Tensor -> cres (nat * nat * nat);
  c_qmatmul : QMatMul -> Tensor -> cres Tensor;
  c_rmsnorm : RmsNorm -> Tensor -> cres Tensor;
  (** [Tensor::new(tokens)] then [unsqueeze(0)]; [Embedding::forward]. *)
  c_tokens : list Z -> cres Tensor;
  c_embedding : Embedding -> Tensor -> cres Tensor;
  c_broadcast_add : Tensor -> Tensor -> cres Tensor;
  c_add : Tensor -> Tensor -> cres Tensor;
  c_mul : Tensor -> Tensor -> cres Tensor;
  c_matmul : Tensor -> Tensor -> cres Tensor;
  c_silu : Tensor -> cres Tensor;
  c_softmax_last_dim : Tensor -> cres Tensor;
  c_t : Tensor -> cres Tensor;
  c_div_sqrt : Tensor -> nat -> cres Tensor;
  c_reshape : Tensor -> list nat -> cres Tensor;
  c_transpose : Tensor -> nat -> nat -> cres Tensor;
  c_contiguous : Tensor -> cres Tensor;
  c_narrow : Tensor -> nat -> nat -> nat -> cres Tensor;
  (** [cat] along a dimension; [x.i(i..i+1)] along the first. *)
  c_cat : list Tensor -> nat -> cres Tensor;
  c_row : nat -> Tensor -> cres Tensor;
  c_rope_i : Tensor -> Tensor -> Tensor -> cres Tensor;
  c_rope : Tensor -> Tensor -> Tensor -> cres Tensor;
  c_repeat_kv : Tensor -> nat -> cres Tensor;
  (** [Tensor::from_slice(mask, (t, total))]; [mask.broadcast_as(att)] then
      [where_cond] with [neg_inf]. *)
  c_mask : list Z -> nat -> nat -> cres Tensor;
  c_masked : Tensor -> Tensor -> Tensor -> cres Tensor;
  (** [x.i((.., i, ..))]; the index is a [usize]. *)
  c_position : Tensor -> Z -> cres Tensor;
  (** [dims().len()]; [x.i((0, i, ..))]. *)
  c_rank : Tensor -> nat;
  c_position0 : Tensor -> Z -> cres Tensor;
  (** [squeeze(0)], [to_vec1] and [to_vec2] of an [f32] copy. *)
  c_squeeze0 : Tensor -> cres Tensor;
  c_to_vec1 : Tensor -> cres (list f32);
  c_to_vec2 : Tensor -> cres (list (list f32));
  (** The RoPE tables: [Tensor::new] of floats, [arange] as floats. *)
  c_floats : list f32 -> cres Tensor;
  c_arange : nat -> cres Tensor;
  c_cos : Tensor -> cres Tensor;
  c_sin : Tensor -> cres Tensor;
  c_scalar : f32 -> cres Tensor;
  f32_powf : f32 -> f32 -> f32;
}.

(** A GGUF file: typed metadata lookups and quantized tensors by name. *)
Class Gguf `{Candle} := {
  Content : Type;
  QTensor : Type;
  g_string : Content -> string -> option string;
  g_u32 : Content -> string -> option Z;
  g_f32 : Content -> string -> option f32;
  g_tensor : Content -> string -> cres QTensor;
  g_dequantize : QTensor -> cres Tensor;
  g_qmatmul : QTensor -> cres QMatMul;
  g_rmsnorm : QTensor -> f64 -> cres RmsNorm;
  g_embedding : Tensor -> nat -> Embedding;
}.

Definition internal {A} (what : string) (r : cres A) : result A Error :=
  match r with Ok a => Ok a | Err _ => Err (Error_Internal what) end.

(** ** Configuration *)

Inductive RopeStyle := Interleaved | Neox.

Record QLlamaConfig := mkQLlamaConfig {
  architecture : string;
  n_layers : nat;
  n_head : nat;
  n_kv_head : nat;
  head_dim : nat;
  embedding_length : nat;
  rms_eps : f64;
  rope_freq_base : f32;
  rope_dim : nat;
  context_length : nat;
  qkv_bias : bool;
  rope_style : RopeStyle;
}.

Record ModelParts := mkParts { mp_embedding : bool; mp_output : bool }.
Definition parts_full : ModelParts := mkParts true true.
Definition parts_middle : ModelParts := mkParts false false.

Section gguf.
Context `{Gguf}.
Implicit Types c : Content.

Definition arch_supported c : bool :=
  let arch := default "" (g_string c "general.architecture") in
  if decide (arch = "qwen2") then true
  else if decide (arch = "llama") then (default 0 (g_u32 c "llama.expert_count") <=? 1)%Z
  else false.

Definition get_u32 c (arch k : string) : result nat Error :=
  match g_u32 c (arch +:+ "." +:+ k) with Some v => Ok (Z.to_nat v) | None => Err (Error_Config "gguf: missing key") end.

Definition get_arch c : result string Error :=
  match g_string c "general.architecture" with
  | Some a => Ok a
  | None => Err (Error_Config "gguf: missing general.architecture")
  end.

Definition arch_style c (arch : string) (hd : nat) : result (bool * RopeStyle * nat) Error :=
  if decide (arch = "qwen2") then Ok (true, Neox, hd)
  else if decide (arch = "llama") then Ok (false, Interleaved, default hd (Z.to_nat <$> g_u32 c "llama.rope.dimension_count"))
  else Err (Error_Config "architecture is not supported by the batched runtime").

(** [None]: [embedding_length / n_head] divides by zero. *)
Definition from_gguf c : option (result QLlamaConfig Error) :=
  match (let? arch := get_arch c in
         let? nh := get_u32 c arch "attention.head_count" in
         let? nkv := get_u32 c arch "attention.head_count_kv" in
         let? nl := get_u32 c arch "block_count" in
         let? el := get_u32 c arch "embedding_length" in
         Ok (arch, nh, nkv, nl, el)) with
  | Err e => Some (Err e)
  | Ok (arch, nh, nkv, nl, el) =>
      let ctx := match get_u32 c arch "context_length" with Ok v => v | Err _ => 4096 end in
      if (nh =? 0)%nat then None else
      let hd := el / nh in
      let eps := f64_of_f32 (default (f32_lit 1 100000) (g_f32 c (arch +:+ ".attention.layer_norm_rms_epsilon"))) in
      let base := default (f32_of_Z 10000) (g_f32 c (arch +:+ ".rope.freq_base")) in
      Some (let? (bias, style, rd) := arch_style c arch hd in
            Ok (mkQLlamaConfig arch nl nh nkv hd el eps base rd ctx bias style))
  end.

End gguf.

(** ** KV caches *)

Section model.
Context `{Candle}.
Implicit Types x y k v : Tensor.

Definition KvSlot : Type := option (Tensor * Tensor).

Record SeqKv := mkSeqKv { kv_entries : list KvSlot; kv_tokens : nat }.

Definition SeqKv_new (nl : nat) : SeqKv := mkSeqKv (replicate nl None) 0.
(** [Default]: what [mem::take] leaves. *)
Definition SeqKv_default : SeqKv := mkSeqKv [] 0.
Definition SeqKv_clear (kv : SeqKv) : SeqKv := mkSeqKv ((fun _ => None) <$> kv_entries kv) 0.

(** ** Layers *)

Record QkvProj := mkQkv { qp_weight : QMatMul; qp_bias : option Tensor }.

Definition qkv_forward (p : QkvProj) x : cres Tensor :=
  let? y := c_qmatmul (qp_weight p) x in
  match qp_bias p with Some b => c_broadcast_add y b | None => Ok y end.

Record Block := mkBlock {
  attn_norm : RmsNorm;
  wq : QkvProj;
  wk : QkvProj;
  wv : QkvProj;
  wo : QMatMul;
  ffn_norm : RmsNorm;
  w_gate : QMatMul;
  w_down : QMatMul;
  w_up : QMatMul;
}.

Definition mlp (bl : Block) x : cres Tensor :=
  let? gate := c_qmatmul (w_gate bl) x in
  let? up := c_qmatmul (w_up bl) x in
  let? s := c_silu gate in
  let? act := c_mul s up in
  c_qmatmul (w_down bl) act.

Record QLlama := mkQLlama {
  ql_cfg : QLlamaConfig;
  ql_range : LayerRange;
  ql_embed : option Embedding;
  ql_blocks : list Block;
  ql_out : option (RmsNorm * QMatMul);
  ql_cos : Tensor;
  ql_sin : Tensor;
  ql_neg_inf : Tensor;
}.
Implicit Types m : QLlama.

Definition new_kv m : SeqKv := SeqKv_new (length (ql_blocks m)).

Definition embed_tokens m (tokens : list Z) : result Tensor Error :=
  match ql_embed m with
  | None => Err (Error_Internal "this stage has no embedding table")
  | Some e =>
      let? x := internal "embed input" (c_tokens tokens) in
      internal "embed" (c_embedding e x)
  end.

Definition rope m x (pos t : nat) : cres Tensor :=
  let? cos := c_narrow (ql_cos m) 0 pos t in
  let? sin := c_narrow (ql_sin m) 0 pos t in
  let? x := c_contiguous x in
  match rope_style (ql_cfg m) with
  | Interleaved => c_rope_i x cos sin
  | Neox => c_rope x cos sin
  end.

(** Row [i] masks the positions after [start_pos + i]. *)
Definition mask_bits (t start_pos : nat) : list Z :=
  let total := start_pos + t in
  concat ((fun i => (fun j => if (start_pos + i <? j)%nat then 1 else 0)%Z <$> seq 0 total) <$> seq 0 t).

Definition causal_mask (t start_pos : nat) : result (option Tensor) Error :=
  if (t =? 1)%nat then Ok None
  else let? mask := internal "mask" (c_mask (mask_bits t start_pos) t (start_pos + t)) in Ok (Some mask).

Definition attend m q k v (mask : option Tensor) : cres Tensor :=
  let n_rep := n_head (ql_cfg m) / n_kv_head (ql_cfg m) in
  let? k := c_repeat_kv k n_rep in
  let? v := c_repeat_kv v n_rep in
  let? kt := c_t k in
  let? s := c_matmul q kt in
  let? att := c_div_sqrt s (head_dim (ql_cfg m)) in
  let? att := match mask with None => Ok att | Some mk => c_masked mk (ql_neg_inf m) att end in
  let? att := c_softmax_last_dim att in
  let? v := c_contiguous v in
  c_matmul att v.

(** The projections of both forward functions, split into heads. *)
Definition project m (bl : Block) x (b t : nat) : cres (Tensor * Tensor * Tensor) :=
  let cfg := ql_cfg m in
  let? xn := c_rmsnorm (attn_norm bl) x in
  let? q := qkv_forward (wq bl) xn in
  let? k := qkv_forward (wk bl) xn in
  let? v := qkv_forward (wv bl) xn in
  let? q := c_reshape q [b; t; n_head cfg; head_dim cfg] in
  let? q := c_transpose q 1 2 in
  let? k := c_reshape k [b; t; n_kv_head cfg; head_dim cfg] in
  let? k := c_transpose k 1 2 in
  let? v := c_reshape v [b; t; n_kv_head cfg; head_dim cfg] in
  let? v := c_transpose v 1 2 in
  let? v := c_contiguous v in
  Ok (q, k, v).

(** After attention: output projection, residuals, feed-forward. *)
Definition finish (bl : Block) x y (b t e : nat) : cres Tensor :=
  let? y := c_transpose y 1 2 in
  let? y := c_reshape y [b; t; e] in
  let? y := c_qmatmul (wo bl) y in
  let? x := c_add y x in
  let? xn := c_rmsnorm (ffn_norm bl) x in
  let? y := mlp bl xn in
  c_add y x.

(** [slot.take()], extended unless the sequence starts. *)
Definition grow (slot : KvSlot) (pos : nat) k v : cres (Tensor * Tensor) :=
  match slot with
  | Some (kc, vc) =>
      if (0 <? pos)%nat then
        let? k := c_cat [kc; k] 2 in
        let? v := c_cat [vc; v] 2 in
        Ok (k, v)
      else Ok (k, v)
  | None => Ok (k, v)
  end.

(** The result with the slot as it is left, also on an error. *)
Definition block_forward_single m (bl : Block) x (start_pos t : nat) (mask : option Tensor) (slot : KvSlot)
    : cres Tensor * KvSlot :=
  match (let? (b, _, e) := c_dims3 x in
         let? (q, k, v) := project m bl x b t in
         let? q := rope m q start_pos t in
         let? k := rope m k start_pos t in
         Ok (b, e, q, k, v)) with
  | Err u => (Err u, slot)
  | Ok (b, e, q, k, v) =>
      match grow slot start_pos k v with
      | Err u => (Err u, None)
      | Ok (k, v) => (let? y := attend m q k v mask in finish bl x y b t e, Some (k, v))
      end
  end.

(** [blocks.iter().zip(entries.iter_mut())]. *)
Fixpoint run_layers m (bls : list Block) (slots : list KvSlot) x (start_pos t : nat) (mask : option Tensor)
    : cres Tensor * list KvSlot :=
  match bls, slots with
  | bl :: bls', s :: slots' =>
      match block_forward_single m bl x start_pos t mask s with
      | (Err u, s') => (Err u, s' :: slots')
      | (Ok x', s') => let '(r, slots'') := run_layers m bls' slots' x' start_pos t mask in (r, s' :: slots'')
      end
  | _, _ => (Ok x, slots)
  end.

Definition forward_hidden m (hidden : Tensor) (start_pos : nat) (kv : SeqKv) : result Tensor Error * SeqKv :=
  if negb (length (kv_entries kv) =? length (ql_blocks m))%nat then (Err (Error_Internal "SeqKv layer count mismatch"), kv)
  else
    match (let? (_, t, _) := internal "hidden dims" (c_dims3 hidden) in
           let? mask := causal_mask t start_pos in Ok (t, mask)) with
    | Err e => (Err e, kv)
    | Ok (t, mask) =>
        match run_layers m (ql_blocks m) (kv_entries kv) hidden start_pos t mask with
        | (Err u, slots) => (Err (Error_Internal "layer forward"), mkSeqKv slots (kv_tokens kv))
        | (Ok x, slots) => (Ok x, mkSeqKv slots (start_pos + t))
        end
    end.

(** Final norm and head over the last position; [t - 1] is on [usize]. *)
Definition output m (hidden : Tensor) : result Tensor Error :=
  match ql_out m with
  | None => Err (Error_Internal "this stage has no output head")
  | Some (norm, head) =>
      let? (_, t, _) := internal "output dims" (c_dims3 hidden) in
      let? x := internal "output norm" (c_rmsnorm norm hidden) in
      let? x := internal "last position" (c_position x (sub_u64 (Z.of_nat t) 1)) in
      internal "lm head" (c_qmatmul head x)
  end.

(** ** Batched decode *)

(** One sequence of the batch at layer [l]: its row of the projections, its
    position, its slot. *)
Definition row_attend m q k v (i pos : nat) (slot : KvSlot) : cres Tensor * KvSlot :=
  match (let? qi := c_row i q in let? qi := rope m qi pos 1 in
         let? ki := c_row i k in let? ki := rope m ki pos 1 in
         let? vi := c_row i v in let? vi := c_contiguous vi in
         Ok (qi, ki, vi)) with
  | Err u => (Err u, slot)
  | Ok (qi, ki, vi) =>
      match grow slot pos ki vi with
      | Err u => (Err u, None)
      | Ok (ki, vi) => (attend m qi ki vi None, Some (ki, vi))
      end
  end.

(** [for (i, kv) in kvs.iter_mut().enumerate()]; [None] when [positions[i]] or
    [kv.entries[layer]] is out of range. *)
Fixpoint attend_rows m q k v (l i : nat) (positions : list nat) (kvs : list SeqKv)
    : option (cres (list Tensor) * list SeqKv) :=
  match kvs with
  | [] => Some (Ok [], [])
  | kv :: kvs' =>
      pos ← positions !! i;
      slot ← kv_entries kv !! l;
      let '(r, slot') := row_attend m q k v i pos slot in
      let kv' := mkSeqKv (<[l := slot']> (kv_entries kv)) (kv_tokens kv) in
      match r with
      | Err u => Some (Err u, kv' :: kvs')
      | Ok y =>
          '(ys, kvs'') ← attend_rows m q k v l (S i) positions kvs';
          Some (let? ys := ys in Ok (y :: ys), kv' :: kvs'')
      end
  end.

Definition block_forward_batch m (bl : Block) (l : nat) x (positions : list nat) (kvs : list SeqKv)
    : option (cres Tensor * list SeqKv) :=
  match (let? (b, _, e) := c_dims3 x in
         let? qkv := project m bl x b 1 in
         Ok (b, e, qkv)) with
  | Err u => Some (Err u, kvs)
  | Ok (b, e, (q, k, v)) =>
      '(ys, kvs') ← attend_rows m q k v l 0 positions kvs;
      Some (let? ys := ys in
            let? y := c_cat ys 0 in
            finish bl x y b 1 e, kvs')
  end.

(** [for (l, block) in blocks.iter().enumerate()]. *)
Fixpoint batch_layers m (bls : list Block) (l : nat) x (positions : list nat) (kvs : list SeqKv)
    : option (cres Tensor * list SeqKv) :=
  match bls with
  | [] => Some (Ok x, kvs)
  | bl :: bls' =>
      '(r, kvs') ← block_forward_batch m bl l x positions kvs;
      match r with
      | Err u => Some (Err u, kvs')
      | Ok x' => batch_layers m bls' (S l) x' positions kvs'
      end
  end.

Definition decode_step m (hiddens : Tensor) (positions : list nat) (kvs : list SeqKv)
    : option (result Tensor Error * list SeqKv) :=
  match internal "decode dims" (c_dims3 hiddens) with
  | Err e => Some (Err e, kvs)
  | Ok (b, t, _) =>
      if negb (t =? 1)%nat || negb (b =? length positions)%nat || negb (b =? length kvs)%nat
      then Some (Err (Error_Internal "decode_step batch mismatch"), kvs)
      else
        match batch_layers m (ql_blocks m) 0 hiddens positions kvs with
        | None => None
        | Some (Err _, kvs') => Some (Err (Error_Internal "batched layer forward"), kvs')
        | Some (Ok x, kvs') => Some (Ok x, (fun kv => mkSeqKv (kv_entries kv) (S (kv_tokens kv))) <$> kvs')
        end
  end.

End model.

(** ** Loading *)

Section load.
Context `{Gguf}.
Implicit Types c : Content.

Definition precompute_freqs (rd : nat) (freq_base : f32) (ctx : nat) : result (Tensor * Tensor) Error :=
  let theta := (fun i => f32_div f32_one
                 (f32_powf freq_base (f32_div (f32_of_Z (Z.of_nat i)) (f32_of_Z (Z.of_nat rd)))))
               <$> filter (fun i => i mod 2 = 0) (seq 0 rd) in
  internal "rope tables"
    (let? th := c_floats theta in
     let? ar := c_arange ctx in
     let? ar := c_reshape ar [ctx; 1] in
     let? th := c_reshape th [1; length theta] in
     let? it := c_matmul ar th in
     let? cos := c_cos it in
     let? sin := c_sin it in
     Ok (cos, sin)).

Definition load_qmatmul c (name : string) : result QMatMul Error :=
  internal "weight load" (let? q := g_tensor c name in g_qmatmul q).
Definition load_norm c (name : string) (eps : f64) : result RmsNorm Error :=
  internal "weight load" (let? q := g_tensor c name in g_rmsnorm q eps).
Definition load_dense c (name : string) : result Tensor Error :=
  internal "weight load" (let? q := g_tensor c name in g_dequantize q).

(** The closure [proj]; it is called with the query, key and value names only. *)
Definition load_proj c (cfg : QLlamaConfig) (p name : string) : result QkvProj Error :=
  let? weight := load_qmatmul c (p +:+ "." +:+ name +:+ ".weight") in
  let? bias := (if qkv_bias cfg && bool_decide (name <> "attn_output")
                then let? b := load_dense c (p +:+ "." +:+ name +:+ ".bias") in Ok (Some b)
                else Ok None) in
  Ok (mkQkv weight bias).

(** The body of the loop over layers. *)
Definition load_block c (cfg : QLlamaConfig) (idx : nat) : result Block Error :=
  let p := "blk." +:+ pretty idx in
  let? wq := load_proj c cfg p "attn_q" in
  let? wk := load_proj c cfg p "attn_k" in
  let? wv := load_proj c cfg p "attn_v" in
  let? wo := load_qmatmul c (p +:+ ".attn_output.weight") in
  let? an := load_norm c (p +:+ ".attn_norm.weight") (rms_eps cfg) in
  let? fn := load_norm c (p +:+ ".ffn_norm.weight") (rms_eps cfg) in
  let? gate := load_qmatmul c (p +:+ ".ffn_gate.weight") in
  let? down := load_qmatmul c (p +:+ ".ffn_down.weight") in
  let? up := load_qmatmul c (p +:+ ".ffn_up.weight") in
  Ok (mkBlock an wq wk wv wo fn gate down up).

Fixpoint load_blocks c (cfg : QLlamaConfig) (idxs : list nat) : result (list Block) Error :=
  match idxs with
  | [] => Ok []
  | i :: idxs' => let? b := load_block c cfg i in let? bs := load_blocks c cfg idxs' in Ok (b :: bs)
  end.

Definition load_embed c (cfg : QLlamaConfig) : result Embedding Error :=
  let? w := load_dense c "token_embd.weight" in Ok (g_embedding w (embedding_length cfg)).

(** Tied embeddings have no [output.weight]. *)
Definition load_output c (cfg : QLlamaConfig) : result (RmsNorm * QMatMul) Error :=
  let? norm := load_norm c "output_norm.weight" (rms_eps cfg) in
  let? head_q := match g_tensor c "output.weight" with
                 | Ok t => Ok t
                 | Err _ => internal "weight load" (g_tensor c "token_embd.weight")
                 end in
  let? head := internal "weight load" (g_qmatmul head_q) in
  Ok (norm, head).

(** [QLlama::load] after its first line. *)
Definition load_with c (cfg : QLlamaConfig) (range : LayerRange) (parts : ModelParts) : result QLlama Error :=
  if (n_layers cfg <? lr_end range)%nat then Err (Error_InvalidArgument "layer range exceeds model layer count")
  else
    let? (cos, sin) := precompute_freqs (rope_dim cfg) (rope_freq_base cfg) (context_length cfg) in
    let? neg_inf := internal "weight load" (c_scalar (S754_infinity true)) in
    let? embed := (if mp_embedding parts then let? e := load_embed c cfg in Ok (Some e) else Ok None) in
    let? out := (if mp_output parts then let? o := load_output c cfg in Ok (Some o) else Ok None) in
    let? blocks := load_blocks c cfg (seq (lr_start range) (lr_end range - lr_start range)) in
    Ok (mkQLlama cfg range embed blocks out cos sin neg_inf).

Definition QLlama_load c (range : LayerRange) (parts : ModelParts) : option (result QLlama Error) :=
  match from_gguf c with
  | None => None
  | Some (Err e) => Some (Err e)
  | Some (Ok cfg) => Some (load_with c cfg range parts)
  end.

End load.

(** ** The batched runtime *)

Section batched.
Context `{Candle}.

Record BatchedLlama := mkBatched {
  bl_model : QLlama;
  bl_kvs : gmap nat SeqKv;
  bl_max_seq_len : nat;
  bl_max_batch : nat;
}.
Implicit Types st : BatchedLlama.

Definition with_kvs st (kvs : gmap nat SeqKv) : BatchedLlama :=
  mkBatched (bl_model st) kvs (bl_max_seq_len st) (bl_max_batch st).

(** [squeeze(0)] and [to_vec1] of the logits. *)
Definition readback (logits : Tensor) : result (list f32) Error :=
  internal "logits readback" (let? t := c_squeeze0 logits in c_to_vec1 t).

(** The part of [prefill] after [forward_hidden]. *)
Definition last_logits (m : QLlama) (hidden : Tensor) (want_logits : bool) : result (option (list f32)) Error :=
  if want_logits then
    let? logits := output m hidden in
    let? l := readback logits in Ok (Some l)
  else Ok None.

Definition bl_prefill st (seq : nat) (tokens : list Z) (start_pos : nat) (want_logits : bool)
    : BatchedLlama * result (option (list f32)) Error :=
  let m := bl_model st in
  let kv := default (new_kv m) (bl_kvs st !! seq) in
  let kv := if (start_pos =? 0)%nat then SeqKv_clear kv else kv in
  let put kv := with_kvs st (<[seq := kv]> (bl_kvs st)) in
  if negb (kv_tokens kv =? start_pos)%nat then (put kv, Err (Error_Internal "prefill position mismatch"))
  else
    match embed_tokens m tokens with
    | Err e => (put kv, Err e)
    | Ok hidden =>
        let '(r, kv) := forward_hidden m hidden start_pos kv in
        (put kv, let? hidden := r in last_logits m hidden want_logits)
    end.

(** The caches are taken out one by one; on an unknown sequence the ones already
    taken are dropped with the local vector. *)
Fixpoint take_kvs (kvs : gmap nat SeqKv) (batch : list (nat * Z)) : gmap nat SeqKv * result (list SeqKv) Error :=
  match batch with
  | [] => (kvs, Ok [])
  | (seq, _) :: batch' =>
      match kvs !! seq with
      | None => (kvs, Err (Error_Internal "decode of unknown seq"))
      | Some kv => let '(kvs', r) := take_kvs (delete seq kvs) batch' in (kvs', let? l := r in Ok (kv :: l))
      end
  end.

Fixpoint put_kvs (kvs : gmap nat SeqKv) (batch : list (nat * Z)) (l : list SeqKv) : gmap nat SeqKv :=
  match batch, l with
  | (seq, _) :: batch', kv :: l' => put_kvs (<[seq := kv]> kvs) batch' l'
  | _, _ => kvs
  end.

(** The closure of [decode]. *)
Definition decode_batch (m : QLlama) (tokens : list Z) (kvs : list SeqKv)
    : option (result (list (list f32)) Error * list SeqKv) :=
  match (let? hidden := embed_tokens m tokens in internal "decode reshape" (c_transpose hidden 0 1)) with
  | Err e => Some (Err e, kvs)
  | Ok hidden =>
      match decode_step m hidden (kv_tokens <$> kvs) kvs with
      | None => None
      | Some (r, kvs') =>
          Some (let? hidden := r in
                let? logits := output m hidden in
                internal "logits readback" (c_to_vec2 logits), kvs')
      end
  end.

Definition bl_decode st (batch : list (nat * Z)) : option (BatchedLlama * result (list (list f32)) Error) :=
  match batch with
  | [] => Some (st, Ok [])
  | _ =>
      match take_kvs (bl_kvs st) batch with
      | (kvs, Err e) => Some (with_kvs st kvs, Err e)
      | (kvs, Ok l) =>
          match decode_batch (bl_model st) (snd <$> batch) l with
          | None => None
          | Some (r, l') => Some (with_kvs st (put_kvs kvs batch l'), r)
          end
      end
  end.

Definition bl_drop_seq st (seq : nat) : BatchedLlama := with_kvs st (delete seq (bl_kvs st)).

End batched.

Section batched_load.
Context `{Gguf}.

Definition BatchedLlama_load (c : Content) (ctx max_batch : nat) : option (result BatchedLlama Error) :=
  match from_gguf c with
  | None => None
  | Some (Err e) => Some (Err e)
  | Some (Ok cfg) =>
      Some (let? range := LayerRange.new 0 (n_layers cfg) in
            let? model := load_with c cfg range parts_full in
            Ok (mkBatched model ∅ (Nat.max (Nat.min ctx (context_length (ql_cfg model))) 1) (Nat.max max_batch 1)))
  end.

End batched_load.

(** ** The sequential runtime *)

(** The stock models of [candle_transformers], each with a cache inside. *)
Class StockModels `{Candle} := {
  Weights : Type;
  w_forward : Weights -> Tensor -> nat -> Weights * cres Tensor;
  w_clear_kv_cache : Weights -> Weights;
}.

Section sequential.
Context `{StockModels}.

Inductive ArchWeights :=
| AW_Llama (w : Weights)
| AW_Qwen2 (w : Weights)
| AW_Qwen3 (w : Weights)
| AW_Gemma3 (w : Weights)
| AW_Phi3 (w : Weights).

Definition aw_forward (a : ArchWeights) (input : Tensor) (index_pos : nat) : ArchWeights * cres Tensor :=
  match a with
  | AW_Llama w => let '(w, r) := w_forward w input index_pos in (AW_Llama w, r)
  | AW_Qwen2 w => let '(w, r) := w_forward w input index_pos in (AW_Qwen2 w, r)
  | AW_Qwen3 w =>
      let w := if (index_pos =? 0)%nat then w_clear_kv_cache w else w in
      let '(w, r) := w_forward w input index_pos in (AW_Qwen3 w, r)
  | AW_Gemma3 w => let '(w, r) := w_forward w input index_pos in (AW_Gemma3 w, r)
  | AW_Phi3 w => let '(w, r) := w_forward w input index_pos in (AW_Phi3 w, r)
  end.

Record SequentialModel := mkSequential {
  sm_weights : ArchWeights;
  sm_max_seq_len : nat;
  sm_resident : option (nat * nat);
}.
Implicit Types st : SequentialModel.

Definition with_weights st (w : ArchWeights) : SequentialModel := mkSequential w (sm_max_seq_len st) (sm_resident st).
Definition with_resident st (r : option (nat * nat)) : SequentialModel := mkSequential (sm_weights st) (sm_max_seq_len st) r.

Definition forward_tokens st (tokens : list Z) (index_pos : nat) : SequentialModel * result (list f32) Error :=
  match internal "input tensor" (c_tokens tokens) with
  | Err e => (st, Err e)
  | Ok input =>
      let '(w, r) := aw_forward (sm_weights st) input index_pos in
      (with_weights st w,
       let? logits := internal "forward" r in
       let? logits := (if (c_rank logits =? 3)%nat then
                         let? (_, t, _) := internal "dims" (c_dims3 logits) in
                         internal "last logits" (c_position0 logits (sub_u64 (Z.of_nat t) 1))
                       else internal "squeeze logits" (c_squeeze0 logits)) in
       internal "logits readback" (c_to_vec1 logits))
  end.

(** Continuation chunks, token by token. *)
Fixpoint forward_each st (tokens : list Z) (pos : nat) (last : list f32) : SequentialModel * result (list f32) Error :=
  match tokens with
  | [] => (st, Ok last)
  | tok :: tokens' =>
      match forward_tokens st [tok] pos with
      | (st, Err e) => (st, Err e)
      | (st, Ok l) => forward_each st tokens' (S pos) l
      end
  end.

Definition sm_prefill st (seq : nat) (tokens : list Z) (start_pos : nat) (want_logits : bool)
    : SequentialModel * result (option (list f32)) Error :=
  let st := if (start_pos =? 0)%nat then with_resident st (Some (seq, 0)) else st in
  if bool_decide (sm_resident st = Some (seq, start_pos)) then
    match (if (start_pos =? 0)%nat then forward_tokens st tokens 0 else forward_each st tokens start_pos []) with
    | (st, Err e) => (st, Err e)
    | (st, Ok logits) =>
        (with_resident st (Some (seq, start_pos + length tokens)), Ok (if want_logits then Some logits else None))
    end
  else (st, Err (Error_Internal "sequential runtime: not the resident sequence")).

Definition sm_decode st (batch : list (nat * Z)) : SequentialModel * result (list (list f32)) Error :=
  match batch with
  | [] => (st, Ok [])
  | [(seq, token)] =>
      match sm_resident st with
      | None => (st, Err (Error_Internal "decode with no resident sequence"))
      | Some (s, n) =>
          if (s =? seq)%nat then
            match forward_tokens st [token] n with
            | (st, Err e) => (st, Err e)
            | (st, Ok logits) => (with_resident st (Some (s, n + 1)), Ok [logits])
            end
          else (st, Err (Error_Internal "sequential runtime: another sequence is resident"))
      end
  | _ => (st, Err (Error_Internal "sequential runtime cannot decode a batch larger than 1"))
  end.

Definition sm_drop_seq st (seq : nat) : SequentialModel :=
  match sm_resident st with
  | Some (s, _) => if (s =? seq)%nat then with_resident st None else st
  | None => st
  end.

End sequential.
