(* ===== verification/BatchSpec.v ===== *)
(** * What the engine's runtimes guarantee

    Over [Llama]: the batched decode computes, for every sequence of the batch,
    what a forward pass of that sequence alone would; the caches keep one slot
    per layer; and both runtimes keep the contract of the trait [BatchModel]. *)

From S2P Require Import Prelude Float32 Config Scheduler Layers Llama.

(** ** Simulation of fallible computations

    [csim R r r']: when [r] succeeds, so does [r'], with related results. *)

Definition csim {A B E F} (R : A -> B -> Prop) (r : result A E) (r' : result B F) : Prop :=
  forall y, r = Ok y -> exists y', r' = Ok y' /\ R y y'.

Section csim.
Context {A B A' B' E F : Type}.

Lemma csim_bind (R : A -> A' -> Prop) (S : B -> B' -> Prop) (r : result A E) (r' : result A' F) f f' :
  csim R r r' -> (forall y y', R y y' -> csim S (f y) (f' y')) ->
  csim S (let? y := r in f y) (let? y := r' in f' y).
Proof. intros Hr Hf y. destruct r as [a|]; [|done]. destruct (Hr a eq_refl) as (a' & -> & Ha). apply (Hf a a' Ha). Qed.

Lemma csim_ok (R : A -> A' -> Prop) a a' : R a a' -> csim R (Ok a : result A E) (Ok a' : result A' F).
Proof. intros HR ? [= <-]. by exists a'. Qed.

Lemma csim_weaken (R S : A -> A' -> Prop) (r : result A E) (r' : result A' F) :
  csim R r r' -> (forall a a', R a a' -> S a a') -> csim S r r'.
Proof. intros Hr HRS a Ha. destruct (Hr a Ha) as (a' & ? & ?). eauto. Qed.

End csim.

Lemma csim_internal {A B} (R : A -> B -> Prop) (r : cres A) (r' : cres B) w w' :
  csim R r r' -> csim R (internal w r) (internal w' r').
Proof. intros Hr y. destruct r as [a|]; [|done]. intros [= <-]. by destruct (Hr a eq_refl) as (a' & -> & ?); exists a'. Qed.

(** ** Rows of a batch

    Candle's operations on a tensor whose first dimension is the batch: matrix
    products with a weight, norms, element-wise operations, reshapes and
    transposes of the other dimensions act on every row alone; concatenation
    along the first dimension lists its rows; an embedding looks every token up;
    [contiguous] changes the layout, not the value. *)

Class CandleDim `{Candle} := { c_dim0 : Tensor -> nat }.

(** [xi] is row [i] of [x], which has [b] rows. An operation acts on every row
    alone when the row of its result is its result on the row. *)
Definition rowR `{CandleDim} (i b : nat) (x xi : Tensor) : Prop := c_dim0 x = b /\ c_row i x = Ok xi.

Class CandleRows `{CandleDim} : Prop := {
  row_exists x i : i < c_dim0 x -> exists xi, c_row i x = Ok xi;
  row_dim0 x i xi : c_row i x = Ok xi -> c_dim0 xi = 1;
  row_dims3 x i xi b t e : c_dims3 x = Ok (b, t, e) -> c_row i x = Ok xi -> c_dims3 xi = Ok (1, t, e);
  dims3_dim0 x b t e : c_dims3 x = Ok (b, t, e) -> c_dim0 x = b;
  row_qmatmul w i b x xi : rowR i b x xi -> csim (rowR i b) (c_qmatmul w x) (c_qmatmul w xi);
  row_rmsnorm n i b x xi : rowR i b x xi -> csim (rowR i b) (c_rmsnorm n x) (c_rmsnorm n xi);
  row_broadcast_add z i b x xi : rowR i b x xi -> csim (rowR i b) (c_broadcast_add x z) (c_broadcast_add xi z);
  row_silu i b x xi : rowR i b x xi -> csim (rowR i b) (c_silu x) (c_silu xi);
  row_transpose i b x xi : rowR i b x xi -> csim (rowR i b) (c_transpose x 1 2) (c_transpose xi 1 2);
  row_position p i b x xi : rowR i b x xi -> csim (rowR i b) (c_position x p) (c_position xi p);
  row_mul i b x xi z zi : rowR i b x xi -> rowR i b z zi -> csim (rowR i b) (c_mul x z) (c_mul xi zi);
  row_add i b x xi z zi : rowR i b x xi -> rowR i b z zi -> csim (rowR i b) (c_add x z) (c_add xi zi);
  row_reshape i b x xi ds : rowR i b x xi -> csim (rowR i b) (c_reshape x (b :: ds)) (c_reshape xi (1 :: ds));
  contiguous_id x y : c_contiguous x = Ok y -> y = x;
  contiguous_row i b x xi : rowR i b x xi -> csim (rowR i b) (c_contiguous x) (c_contiguous xi);
  dim0_matmul x z y : c_matmul x z = Ok y -> c_dim0 y = c_dim0 x;
  dim0_div x n y : c_div_sqrt x n = Ok y -> c_dim0 y = c_dim0 x;
  dim0_softmax x y : c_softmax_last_dim x = Ok y -> c_dim0 y = c_dim0 x;
  dim0_rope_i x c s y : c_rope_i x c s = Ok y -> c_dim0 y = c_dim0 x;
  dim0_rope x c s y : c_rope x c s = Ok y -> c_dim0 y = c_dim0 x;
  cat_rows ys y : c_cat ys 0 = Ok y -> Forall (fun z => c_dim0 z = 1) ys ->
    c_dim0 y = length ys /\ forall i yi, ys !! i = Some yi -> c_row i y = Ok yi;
  embed_rows e ts a x y : c_tokens ts = Ok a -> c_embedding e a = Ok x -> c_transpose x 0 1 = Ok y ->
    c_dim0 y = length ts /\
    forall i t, ts !! i = Some t -> exists a' yi, c_tokens [t] = Ok a' /\ c_embedding e a' = Ok yi /\ c_row i y = Ok yi;
  to_vec2_rows x ls : c_to_vec2 x = Ok ls ->
    length ls = c_dim0 x /\
    forall i l, ls !! i = Some l -> exists xi z, c_row i x = Ok xi /\ c_squeeze0 xi = Ok z /\ c_to_vec1 z = Ok l;
}.

Create HintDb rows.
#[export] Hint Resolve row_qmatmul row_rmsnorm row_broadcast_add row_silu row_transpose row_position row_mul row_add
  row_reshape contiguous_row csim_internal : rows.

(** Follows a computation and its row through their binds. *)
Ltac csim_step :=
  match goal with
  | |- csim _ (result_bind _ _) (result_bind _ _) => eapply csim_bind; [by eauto with rows|intros ???]
  end.
Ltac csims := repeat csim_step; try (by eauto with rows).

Section rows.
Context `{CandleRows}.
Implicit Types (m : QLlama) (bl : Block) (x y : Tensor).

Lemma qkv_row p i b x xi : rowR i b x xi -> csim (rowR i b) (qkv_forward p x) (qkv_forward p xi).
Proof. intros Hx. rw /qkv_forward. csims. case_match; [by apply row_broadcast_add|by apply csim_ok]. Qed.
Hint Resolve qkv_row : rows.

Lemma mlp_row bl i b x xi : rowR i b x xi -> csim (rowR i b) (mlp bl x) (mlp bl xi).
Proof. intros Hx. rw /mlp. csims. Qed.
Hint Resolve mlp_row : rows.

Lemma project_row m bl i b t x xi :
  rowR i b x xi ->
  csim (fun p p' => rowR i b p.1.1 p'.1.1 /\ rowR i b p.1.2 p'.1.2 /\ rowR i b p.2 p'.2)
    (project m bl x b t) (project m bl xi 1 t).
Proof. intros Hx. rw /project. csims. by apply csim_ok. Qed.

Lemma finish_row bl i b t e x xi y yi :
  rowR i b x xi -> rowR i b y yi -> csim (rowR i b) (finish bl x y b t e) (finish bl xi yi 1 t e).
Proof. intros Hx Hy. rw /finish. csims. Qed.

Lemma output_row m i b x xi : rowR i b x xi -> csim (rowR i b) (output m x) (output m xi).
Proof.
  intros Hx y. rw /output. destruct (ql_out m) as [[norm head]|]; [|done].
  destruct (c_dims3 x) as [[[b' t] e]|] eqn:Ed; [|done]. rw (row_dims3 _ _ _ _ _ _ Ed (proj2 Hx)) /=. revert y.
  change (csim (rowR i b) (let? x := internal "output norm" (c_rmsnorm norm x) in
    let? x := internal "last position" (c_position x (sub_u64 (Z.of_nat t) 1)) in internal "lm head" (c_qmatmul head x))
    (let? x := internal "output norm" (c_rmsnorm norm xi) in
    let? x := internal "last position" (c_position x (sub_u64 (Z.of_nat t) 1)) in internal "lm head" (c_qmatmul head x))).
  csims.
Qed.


(** ** One layer *)

Lemma dim0_row i b x xi : rowR i b x xi -> c_dim0 xi = 1.
Proof. intros [_ Hx]. by eapply row_dim0. Qed.

Lemma rope_dim0 m x pos t y : rope m x pos t = Ok y -> c_dim0 y = c_dim0 x.
Proof.
  rw /rope. destruct (c_narrow (ql_cos m) 0 pos t) as [cos|]; [|done]. destruct (c_narrow (ql_sin m) 0 pos t) as [sin|]; [|done].
  cbn. destruct (c_contiguous x) as [x'|] eqn:Ec; [|done]. apply contiguous_id in Ec as ->. cbn.
  case_match; [apply dim0_rope_i|apply dim0_rope].
Qed.

Lemma attend_dim0 m q k v y : attend m q k v None = Ok y -> c_dim0 y = c_dim0 q.
Proof.
  rw /attend. destruct (c_repeat_kv k _) as [k'|]; [cbn|done]. destruct (c_repeat_kv v _) as [v'|]; [cbn|done].
  destruct (c_t k') as [kt|]; [cbn|done]. destruct (c_matmul q kt) as [s|] eqn:Es; [cbn|done].
  destruct (c_div_sqrt s _) as [d|] eqn:Ed; [cbn|done]. destruct (c_softmax_last_dim d) as [p|] eqn:Ep; [cbn|done].
  destruct (c_contiguous v') as [v''|]; [cbn|done]. intros Hy.
  by rw (dim0_matmul _ _ _ Hy) (dim0_softmax _ _ Ep) (dim0_div _ _ _ Ed) (dim0_matmul _ _ _ Es).
Qed.

(** A row of the batched attention, then [finish] on that row, is the block on
    the row. *)
Lemma row_attend_single m bl x xi i b t e q k v pos slot slot' y :
  c_dims3 x = Ok (b, t, e) -> rowR i b x xi -> project m bl x b 1 = Ok (q, k, v) ->
  row_attend m q k v i pos slot = (Ok y, slot') ->
  c_dim0 y = 1 /\ block_forward_single m bl xi pos 1 None slot = (finish bl xi y 1 1 e, slot').
Proof.
  intros Hd Hx Hp Hr. destruct (project_row m bl i b 1 x xi Hx _ Hp) as ([[qi ki] vi] & Hpi & Hq & Hk & Hv).
  rw /block_forward_single (row_dims3 _ _ _ _ _ _ Hd (proj2 Hx)) /= Hpi /=. move: Hr.
  rw /row_attend (proj2 Hq) (proj2 Hk) (proj2 Hv) /=. destruct (rope m qi pos 1) as [qi'|] eqn:Eq; [|done].
  destruct (rope m ki pos 1) as [ki'|]; [|done]. cbn. destruct (c_contiguous vi) as [vi'|] eqn:Ec; [|done].
  apply contiguous_id in Ec as ->. cbn. destruct (grow slot pos ki' vi) as [[k' v']|]; [|done]. intros [= Ha <-].
  rw Ha. split; [|done]. rw (attend_dim0 _ _ _ _ _ Ha) (rope_dim0 _ _ _ _ _ Eq). by eapply dim0_row.
Qed.

(** What the loop over the batch does to sequence [j]. *)
Lemma attend_rows_spec m q k v l i positions kvs ys kvs' :
  attend_rows m q k v l i positions kvs = Some (Ok ys, kvs') ->
  length ys = length kvs /\ length kvs' = length kvs /\
  forall j kv, kvs !! j = Some kv -> exists pos slot slot' y,
    positions !! (i + j) = Some pos /\ kv_entries kv !! l = Some slot /\
    row_attend m q k v (i + j) pos slot = (Ok y, slot') /\ ys !! j = Some y /\
    kvs' !! j = Some (mkSeqKv (<[l := slot']> (kv_entries kv)) (kv_tokens kv)).
Proof.
  revert i ys kvs'. induction kvs as [|kv kvs IH]; intros i ys kvs'; cbn; [by intros [= <- <-]|].
  destruct (positions !! i) as [pos|] eqn:Ep; [cbn|done]. destruct (kv_entries kv !! l) as [slot|] eqn:El; [cbn|done].
  destruct (row_attend m q k v i pos slot) as [[y|] slot'] eqn:Er; [|done].
  destruct (attend_rows m q k v l (S i) positions kvs) as [[[ys'|] kvs'']|] eqn:Ea; [cbn|done..].
  intros [= <- <-]. destruct (IH _ _ _ Ea) as (Hl1 & Hl2 & Hj). split_and!; [cbn; lia..|].
  intros [|j] kv0; cbn.
  - intros [= <-]. exists pos, slot, slot', y. by rw Nat.add_0_r.
  - intros Hkv. rw Nat.add_succ_r. by apply Hj.
Qed.

Lemma block_forward_batch_spec m bl l x positions kvs x' kvs' :
  0 < length kvs -> c_dim0 x = length kvs ->
  block_forward_batch m bl l x positions kvs = Some (Ok x', kvs') ->
  c_dim0 x' = length kvs /\ length kvs' = length kvs /\
  forall j kv xj, kvs !! j = Some kv -> c_row j x = Ok xj -> exists pos slot slot' xj',
    positions !! j = Some pos /\ kv_entries kv !! l = Some slot /\ c_row j x' = Ok xj' /\
    block_forward_single m bl xj pos 1 None slot = (Ok xj', slot') /\
    kvs' !! j = Some (mkSeqKv (<[l := slot']> (kv_entries kv)) (kv_tokens kv)).
Proof.
  intros Hpos0 Hx. rw /block_forward_batch. destruct (c_dims3 x) as [[[b t] e]|] eqn:Ed; [cbn|done].
  pose proof (dims3_dim0 _ _ _ _ Ed) as Hb. subst b.
  destruct (project m bl x (c_dim0 x) 1) as [[[q k] v]|] eqn:Ep; [cbn|done].
  destruct (attend_rows m q k v l 0 positions kvs) as [[[ys|] kvs'']|] eqn:Ea; [cbn|done..].
  destruct (c_cat ys 0) as [y|] eqn:Ec; [cbn|done]. intros [= Hf <-].
  destruct (attend_rows_spec _ _ _ _ _ _ _ _ _ _ Ea) as (Hlen & Hlen' & Hj).
  assert (forall j kv xj, kvs !! j = Some kv -> c_row j x = Ok xj -> exists pos slot slot' yj,
    positions !! j = Some pos /\ kv_entries kv !! l = Some slot /\ ys !! j = Some yj /\ c_dim0 yj = 1 /\
    block_forward_single m bl xj pos 1 None slot = (finish bl xj yj 1 1 e, slot') /\
    kvs'' !! j = Some (mkSeqKv (<[l := slot']> (kv_entries kv)) (kv_tokens kv))) as Hrow.
  { intros j kv xj Hkv Hxj. destruct (Hj j kv Hkv) as (pos & slot & slot' & yj & Hpos & Hslot & Hr & Hy & Hk).
    destruct (row_attend_single m bl x xj j (c_dim0 x) t e q k v pos slot slot' yj) as [Hd1 Hb1]; [done|by split|done..|].
    by exists pos, slot, slot', yj. }
  destruct (cat_rows _ _ Ec) as [Hdy Hry].
  { apply Forall_lookup => j yj Hyj. assert (j < length kvs) as Hlt by (rw -Hlen; by eapply lookup_lt_Some).
    destruct (lookup_lt_is_Some_2 kvs j Hlt) as [kv Hkv]. destruct (row_exists x j) as [xj Hxj]; [lia|].
    destruct (Hrow j kv xj Hkv Hxj) as (?&?&?&yj'&?&?&Hyj'&?&?). by simplify_eq. }
  assert (forall j xj yj, c_row j x = Ok xj -> ys !! j = Some yj ->
    exists xj', finish bl xj yj 1 1 e = Ok xj' /\ rowR j (c_dim0 x) x' xj') as Hfin.
  { intros j xj yj Hxj Hyj. apply (finish_row bl j (c_dim0 x) 1 e x xj y yj); [by split| |done].
    split; [by rw Hdy Hlen Hx|by apply Hry]. }
  split_and!; [|by rw Hlen'|].
  - destruct (lookup_lt_is_Some_2 kvs 0 Hpos0) as [kv Hkv].
    destruct (row_exists x 0) as [xj Hxj]; [lia|]. destruct (Hrow 0 kv xj Hkv Hxj) as (?&?&?&yj&?&?&Hyj&?).
    destruct (Hfin 0 xj yj Hxj Hyj) as (? & ? & Hd' & _). by rw Hd'.
  - intros j kv xj Hkv Hxj. destruct (Hrow j kv xj Hkv Hxj) as (pos & slot & slot' & yj & ? & ? & Hyj & _ & Hs & ?).
    destruct (Hfin j xj yj Hxj Hyj) as (xj' & Hxj' & Hr). exists pos, slot, slot', xj'. rw Hs Hxj'.
    split_and!; try done. apply Hr.
Qed.


(** ** The whole step *)

Lemma drop_insert_ge {A} (l : list A) i n a : i < n -> drop n (<[i := a]> l) = drop n l.
Proof.
  revert i n. induction l as [|y l IH]; intros [|i] [|n] Hi; cbn; try lia; try done. apply IH. lia.
Qed.

Lemma batch_layers_spec m bls l x positions kvs x' kvs' :
  0 < length kvs -> c_dim0 x = length kvs ->
  batch_layers m bls l x positions kvs = Some (Ok x', kvs') ->
  c_dim0 x' = length kvs /\ length kvs' = length kvs /\
  forall j kv xj pos, kvs !! j = Some kv -> c_row j x = Ok xj -> positions !! j = Some pos ->
    length (kv_entries kv) = l + length bls ->
    exists xj' slots, c_row j x' = Ok xj' /\
      run_layers m bls (drop l (kv_entries kv)) xj pos 1 None = (Ok xj', slots) /\
      kvs' !! j = Some (mkSeqKv (take l (kv_entries kv) ++ slots) (kv_tokens kv)).
Proof.
  revert l x kvs. induction bls as [|bl bls IH]; intros l x kvs Hne Hx; cbn [batch_layers].
  - intros [= <- <-]. split_and!; [done..|]. intros j kv xj pos Hkv Hxj _ Hlen. exists xj, [].
    rw drop_ge; [cbn in Hlen; lia|]. rw take_ge; [cbn in Hlen; lia|]. rw app_nil_r. by destruct kv.
  - destruct (block_forward_batch m bl l x positions kvs) as [[[x1|] kvs1]|] eqn:Eb; [cbn|done..].
    destruct (block_forward_batch_spec _ _ _ _ _ _ _ _ Hne Hx Eb) as (Hd1 & Hl1 & Hj). intros Hb.
    destruct (IH (S l) x1 kvs1) as (Hd' & Hl' & Hj'); [lia..|done|]. split_and!; [lia..|].
    intros j kv xj pos Hkv Hxj Hpos Hlen.
    destruct (Hj j kv xj Hkv Hxj) as (pos0 & slot & slot' & x1j & Hpos0 & Hslot & Hx1 & Hs & Hk1).
    assert (pos0 = pos) as -> by congruence. clear Hpos0.
    destruct (Hj' j _ x1j pos Hk1 Hx1 Hpos) as (xj' & slots & Hxj' & Hrun & Hk').
    { cbn. rw length_insert. cbn in Hlen. lia. }
    cbn in Hrun, Hk'. rw drop_insert_ge in Hrun; [lia|]. exists xj', (slot' :: slots). split; [done|].
    rw (drop_S _ _ _ Hslot) /= Hs Hrun. split; [done|]. rw Hk'. do 2 f_equal.
    rw (take_S_r _ _ slot'); [apply list_lookup_insert_eq; by eapply lookup_lt_Some|].
    rw take_insert_ge // -assoc //.
Qed.

(** Decoding a batch is a forward pass of each sequence alone. *)
Lemma decode_step_rows m x positions kvs x' kvs' :
  0 < length kvs -> decode_step m x positions kvs = Some (Ok x', kvs') ->
  c_dim0 x' = length kvs /\ length kvs' = length kvs /\
  forall j kv xj, kvs !! j = Some kv -> c_row j x = Ok xj -> positions !! j = Some (kv_tokens kv) ->
    length (kv_entries kv) = length (ql_blocks m) ->
    exists xj' kv', c_row j x' = Ok xj' /\ kvs' !! j = Some kv' /\
      forward_hidden m xj (kv_tokens kv) kv = (Ok xj', kv').
Proof.
  intros Hne. rw /decode_step. destruct (c_dims3 x) as [[[b t] e]|] eqn:Ed; [cbn [internal]|done].
  case_match eqn:Ec; [done|]. apply orb_false_iff in Ec as [[Et Eb]%orb_false_iff Ek].
  apply negb_false_iff, Nat.eqb_eq in Et as ->, Eb as ->, Ek. pose proof (dims3_dim0 _ _ _ _ Ed) as Hx.
  destruct (batch_layers m (ql_blocks m) 0 x positions kvs) as [[[x1|] kvs1]|] eqn:El; [|done..].
  intros [= <- <-]. rw Ek in Hx. destruct (batch_layers_spec _ _ _ _ _ _ _ _ Hne Hx El) as (Hd & Hl & Hj).
  rw length_fmap. split_and!; [done..|]. intros j kv xj Hkv Hxj Hpos Hlen.
  destruct (Hj j kv xj _ Hkv Hxj Hpos) as (xj' & slots & Hxj' & Hrun & Hk'); [by rw Hlen|].
  exists xj'. eexists. rw list_lookup_fmap Hk' /=. split_and!; [done..|].
  rw /forward_hidden Hlen Nat.eqb_refl /= (row_dims3 _ _ _ _ _ _ Ed Hxj) /= drop_0 in Hrun |- *.
  rw Hrun Nat.add_1_r. done.
Qed.

End rows.

(** ** Caches *)

Section typed.
Context `{Candle}.
Implicit Types (m : QLlama) (st : BatchedLlama) (kv : SeqKv).

(** One slot per bound layer. *)
Definition kv_typed m kv : Prop := length (kv_entries kv) = length (ql_blocks m).
Definition bl_typed st : Prop := map_Forall (fun _ kv => kv_typed (bl_model st) kv) (bl_kvs st).

Lemma new_kv_typed m : kv_typed m (new_kv m).
Proof. by rw /kv_typed /= length_replicate. Qed.

Lemma clear_typed m kv : kv_typed m kv -> kv_typed m (SeqKv_clear kv).
Proof. by rw /kv_typed /= length_fmap. Qed.

Lemma run_layers_length m bls slots x pos t mask : length (run_layers m bls slots x pos t mask).2 = length slots.
Proof.
  revert slots x. induction bls as [|bl bls IH]; intros [|s slots] x; cbn; try done.
  destruct (block_forward_single m bl x pos t mask s) as [[x'|] s']; [|done].
  specialize (IH slots x'). destruct (run_layers m bls slots x' pos t mask). cbn in *. lia.
Qed.

Lemma forward_hidden_typed m x pos kv : kv_typed m kv -> kv_typed m (forward_hidden m x pos kv).2.
Proof.
  intros Hkv. rw /forward_hidden. case_match; [done|]. case_match; [|done]. case_match.
  pose proof (run_layers_length m (ql_blocks m) (kv_entries kv) x pos n o) as Hl.
  destruct (run_layers m _ _ x pos n o) as [[]]; cbn in Hl; by rw /kv_typed /= Hl.
Qed.

Lemma forward_hidden_tokens m x pos kv x' kv' :
  forward_hidden m x pos kv = (Ok x', kv') ->
  exists b t e, c_dims3 x = Ok (b, t, e) /\ kv_tokens kv' = pos + t.
Proof.
  rw /forward_hidden. case_match; [done|]. destruct (c_dims3 x) as [[[b t] e]|]; [cbn|done].
  destruct (causal_mask t pos); [cbn|done]. case_match. case_match; [|done]. intros [= _ <-]. by exists b, t, e.
Qed.

Lemma attend_rows_total m q k v l i positions kvs :
  i + length kvs <= length positions -> Forall (fun kv => kv_typed m kv) kvs -> l < length (ql_blocks m) ->
  exists r kvs', attend_rows m q k v l i positions kvs = Some (r, kvs') /\ Forall (fun kv => kv_typed m kv) kvs' /\
    length kvs' = length kvs.
Proof.
  intros Hlen Hall Hl. revert i Hlen. induction Hall as [|kv kvs Hkv Hall IH]; intros i Hlen; cbn; [by exists (Ok []), []|].
  cbn in Hlen. destruct (lookup_lt_is_Some_2 positions i ltac:(lia)) as [pos ->].
  destruct (lookup_lt_is_Some_2 (kv_entries kv) l ltac:(by rw Hkv)) as [slot ->]. cbn.
  destruct (row_attend m q k v i pos slot) as [[y|u] slot'].
  - destruct (IH (S i)) as (r & kvs' & -> & Hall' & <-); [lia|]. cbn. eexists _, _. split; [done|].
    split; [constructor; [by rw /kv_typed /= length_insert|done]|done].
  - eexists _, _. split; [done|]. split; [constructor; [by rw /kv_typed /= length_insert|done]|done].
Qed.

Lemma batch_layers_total m bls l x positions kvs :
  length kvs <= length positions -> Forall (fun kv => kv_typed m kv) kvs -> l + length bls <= length (ql_blocks m) ->
  exists r kvs', batch_layers m bls l x positions kvs = Some (r, kvs') /\ Forall (fun kv => kv_typed m kv) kvs' /\
    length kvs' = length kvs.
Proof.
  revert l x kvs. induction bls as [|bl bls IH]; intros l x kvs Hlen Hall Hl; cbn; [by eexists _, _|].
  cbn in Hl. rw /block_forward_batch. destruct (let? _ := c_dims3 x in _) as [[[b e] [[q k] v]]|u]; [|by eexists _, _].
  destruct (attend_rows_total m q k v l 0 positions kvs) as (r & kvs' & -> & Hall' & Hlen'); [done..|lia|]. cbn.
  destruct (result_bind r _) as [x'|u]; [|by eexists _, _].
  destruct (IH (S l) x' kvs') as (r' & kvs'' & -> & ? & ?); [lia|done|lia|]. eexists _, _. split_and!; [done..|lia].
Qed.

Lemma decode_step_total m x kvs :
  Forall (fun kv => kv_typed m kv) kvs ->
  exists r kvs', decode_step m x (kv_tokens <$> kvs) kvs = Some (r, kvs') /\ Forall (fun kv => kv_typed m kv) kvs' /\
    length kvs' = length kvs.
Proof.
  intros Hall. rw /decode_step. destruct (internal _ _) as [[[b t] e]|]; [|by eexists _, _]. case_match; [by eexists _, _|].
  destruct (batch_layers_total m (ql_blocks m) 0 x (kv_tokens <$> kvs) kvs) as (r & kvs' & -> & Hall' & Hlen');
    [by rw length_fmap|done|done|].
  destruct r; [|by eexists _, _]. eexists _, _. split_and!; [done|by apply Forall_fmap|by rw length_fmap].
Qed.

Lemma take_kvs_typed (P : SeqKv -> Prop) kvs batch :
  map_Forall (fun _ kv => P kv) kvs ->
  map_Forall (fun _ kv => P kv) (take_kvs kvs batch).1 /\
  forall l, (take_kvs kvs batch).2 = Ok l -> Forall P l /\ length l = length batch.
Proof.
  revert kvs. induction batch as [|[s t] batch IH]; intros kvs Hall; cbn; [by split; [|intros ? [= <-]]|].
  destruct (kvs !! s) as [kv|] eqn:Es; [|done].
  destruct (IH (delete s kvs) (map_Forall_delete _ _ _ Hall)) as [H1 H2].
  destruct (take_kvs (delete s kvs) batch) as [kvs' r]. cbn in *. split; [done|]. intros l.
  destruct r as [l'|]; [|done]. cbn. intros [= <-]. destruct (H2 l' eq_refl) as [? ?]. split; [|cbn; lia].
  constructor; [by apply (Hall s)|done].
Qed.

Lemma put_kvs_typed (P : SeqKv -> Prop) kvs batch l :
  map_Forall (fun _ kv => P kv) kvs -> Forall P l -> map_Forall (fun _ kv => P kv) (put_kvs kvs batch l).
Proof.
  revert kvs l. induction batch as [|[s t] batch IH]; intros kvs l Hall Hl; [done|]. destruct Hl; cbn; [done|].
  apply IH; [|done]. by apply map_Forall_insert_2.
Qed.

Lemma bl_prefill_typed st seq tokens pos want : bl_typed st -> bl_typed (bl_prefill st seq tokens pos want).1.
Proof.
  intros Hst. rw /bl_prefill.
  set (kv0 := default _ _). set (kv1 := if (pos =? 0)%nat then _ else _).
  assert (kv_typed (bl_model st) kv1) as Hkv.
  { assert (kv_typed (bl_model st) kv0).
    { subst kv0. destruct (bl_kvs st !! seq) as [kv|] eqn:E; cbn; [by apply (Hst seq)|apply new_kv_typed]. }
    subst kv1. case_match; [by apply clear_typed|done]. }
  clearbody kv1. case_match; [by apply map_Forall_insert_2|]. case_match; [|by apply map_Forall_insert_2].
  pose proof (forward_hidden_typed (bl_model st) t pos kv1 Hkv) as Hf.
  destruct (forward_hidden (bl_model st) t pos kv1). by apply map_Forall_insert_2.
Qed.

Lemma bl_decode_typed st batch : bl_typed st -> exists st' r, bl_decode st batch = Some (st', r) /\ bl_typed st'.
Proof.
  intros Hst. rw /bl_decode. destruct batch as [|p batch]; [by eexists _, _|].
  destruct (take_kvs_typed (kv_typed (bl_model st)) (bl_kvs st) (p :: batch) Hst) as [Hk Hl].
  destruct (take_kvs (bl_kvs st) (p :: batch)) as [kvs [l|]]; [|by eexists _, _]. cbn in Hk, Hl.
  destruct (Hl l eq_refl) as [Hall _]. rw /decode_batch.
  destruct (result_bind (embed_tokens _ _) _) as [x|].
  - destruct (decode_step_total (bl_model st) x l Hall) as (r & l' & -> & Hall' & _). eexists _, _. split; [done|].
    by apply put_kvs_typed.
  - eexists _, _. split; [done|]. by apply put_kvs_typed.
Qed.

End typed.

(** ** Batched decode against single forward passes *)

Section equiv.
Context `{CandleRows}.
Implicit Types (m : QLlama) (st : BatchedLlama).

Lemma take_kvs_spec kvs batch kvs' l :
  take_kvs kvs batch = (kvs', Ok l) ->
  length l = length batch /\ NoDup batch.*1 /\
  (forall i s t, batch !! i = Some (s, t) -> kvs !! s = l !! i) /\
  (forall s, s ∉ batch.*1 -> kvs' !! s = kvs !! s).
Proof.
  revert kvs l. induction batch as [|[s t] batch IH]; intros kvs l; cbn [take_kvs].
  - intros [= -> <-]. split_and!; try done. apply NoDup_nil_2.
  - destruct (kvs !! s) as [kv|] eqn:Es; [|done].
    destruct (take_kvs (delete s kvs) batch) as [kvs1 [l1|]] eqn:Et; [|done]. cbn. intros [= -> <-].
    destruct (IH _ _ Et) as (Hlen & Hnd & Hi & Hother).
    assert (s ∉ batch.*1) as Hs.
    { intros ([s' t'] & -> & [i Hin]%list_elem_of_lookup)%list_elem_of_fmap. cbn in *.
      pose proof (Hi _ _ _ Hin) as Hk. rw lookup_delete_eq in Hk. symmetry in Hk. apply lookup_ge_None in Hk.
      apply lookup_lt_Some in Hin. lia. }
    split_and!; [by rw /= Hlen|by constructor| |].
    + intros [|i] s0 t0; cbn; [by intros [= <- <-]|]. intros Hin. rw -(Hi _ _ _ Hin) lookup_delete_ne //.
      intros ->. apply Hs, list_elem_of_fmap. exists (s0, t0). split; [done|]. by eapply list_elem_of_lookup_2.
    + intros s0 [Hne Hs0]%not_elem_of_cons. rw Hother // lookup_delete_ne //.
Qed.

Lemma put_kvs_spec kvs batch l :
  length l = length batch -> NoDup batch.*1 ->
  (forall i s t, batch !! i = Some (s, t) -> put_kvs kvs batch l !! s = l !! i) /\
  (forall s, s ∉ batch.*1 -> put_kvs kvs batch l !! s = kvs !! s).
Proof.
  revert kvs l. induction batch as [|[s t] batch IH]; intros kvs [|kv l]; cbn; try done.
  intros [= Hlen] [Hs Hnd]%NoDup_cons. destruct (IH (<[s := kv]> kvs) l Hlen Hnd) as [Hi Ho]. split.
  - intros [|i] s0 t0; cbn; [|by apply Hi]. intros [= <- <-]. by rw Ho // lookup_insert_eq.
  - intros s0 [Hne Hs0]%not_elem_of_cons. rw Ho // lookup_insert_ne //.
Qed.

Lemma decode_batch_rows m tokens kvs ls kvs' :
  0 < length kvs -> length tokens = length kvs -> Forall (fun kv => kv_typed m kv) kvs ->
  decode_batch m tokens kvs = Some (Ok ls, kvs') ->
  length ls = length kvs /\ length kvs' = length kvs /\
  forall j kv tok, kvs !! j = Some kv -> tokens !! j = Some tok ->
    exists hidden xj logits l kv',
      embed_tokens m [tok] = Ok hidden /\ forward_hidden m hidden (kv_tokens kv) kv = (Ok xj, kv') /\
      output m xj = Ok logits /\ readback logits = Ok l /\ ls !! j = Some l /\ kvs' !! j = Some kv'.
Proof.
  intros Hne Hlt Hall. rw /decode_batch /embed_tokens. destruct (ql_embed m) as [e|]; [|done].
  destruct (c_tokens tokens) as [a|] eqn:Ea; [cbn|done]. destruct (c_embedding e a) as [x|] eqn:Ex; [cbn|done].
  destruct (c_transpose x 0 1) as [y|] eqn:Ey; [cbn|done]. destruct (embed_rows _ _ _ _ _ Ea Ex Ey) as [Hdy Hrow].
  destruct (decode_step m y (kv_tokens <$> kvs) kvs) as [[[x'|] kvs1]|] eqn:Ed; [cbn|done..].
  destruct (decode_step_rows _ _ _ _ _ _ Hne Ed) as (Hdx & Hl1 & Hj).
  destruct (output m x') as [lg|] eqn:Eo; [cbn|done]. destruct (c_to_vec2 lg) as [ls'|] eqn:Ev; [cbn|done]. intros [= <- <-].
  destruct (to_vec2_rows _ _ Ev) as [Hlls Hlrow].
  assert (forall j kv tok, kvs !! j = Some kv -> tokens !! j = Some tok -> exists a' yj xj kv' lgj,
    c_tokens [tok] = Ok a' /\ c_embedding e a' = Ok yj /\ kvs1 !! j = Some kv' /\
    forward_hidden m yj (kv_tokens kv) kv = (Ok xj, kv') /\ output m xj = Ok lgj /\ rowR j (length kvs) lg lgj) as Hk.
  { intros j kv tok Hkv Htok. destruct (Hrow j tok Htok) as (a' & yj & Ha' & Hyj & Hr).
    destruct (Hj j kv yj Hkv Hr) as (xj & kv' & Hxj & Hkv' & Hf).
    { by rw list_lookup_fmap Hkv. } { rw Forall_lookup in Hall. by apply (Hall j). }
    destruct (output_row m j (length kvs) x' xj (conj Hdx Hxj) _ Eo) as (lgj & Hlgj & Hr').
    by exists a', yj, xj, kv', lgj. }
  assert (c_dim0 lg = length kvs) as Hdl.
  { destruct (lookup_lt_is_Some_2 kvs 0 Hne) as [kv Hkv]. destruct (lookup_lt_is_Some_2 tokens 0 ltac:(lia)) as [tok Htok].
    destruct (Hk 0 kv tok Hkv Htok) as (?&?&?&?&?&?&?&?&?&?&[Hd _]). done. }
  split_and!; [lia|lia|]. intros j kv tok Hkv Htok.
  destruct (Hk j kv tok Hkv Htok) as (a' & yj & xj & kv' & lgj & Ha' & Hyj & Hkv' & Hf & Ho & Hr).
  destruct (lookup_lt_is_Some_2 ls' j) as [l Hl]; [apply lookup_lt_Some in Hkv; lia|].
  destruct (Hlrow j l Hl) as (lgj' & z & Hlg' & Hz & Hv). destruct Hr as [_ Hr].
  assert (lgj' = lgj) as -> by congruence. exists yj, xj, lgj, l, kv'. rw Ha' /= Hyj /readback Hz /= Hv. done.
Qed.

(** C1. Continuous batching changes nothing a client sees: when [decode] of a
    batch succeeds, it returns one row of logits per entry, leaves the caches of
    other sequences alone, and for every sequence of the batch the logits and
    the cache it is left with are those of a [prefill] of its one token alone at
    its position. *)
Theorem batched_decode_equiv st batch st' ls :
  bl_typed st -> bl_decode st batch = Some (st', Ok ls) ->
  length ls = length batch /\
  (forall s, s ∉ batch.*1 -> bl_kvs st' !! s = bl_kvs st !! s) /\
  forall i seq tok, batch !! i = Some (seq, tok) ->
    exists kv, bl_kvs st !! seq = Some kv /\
    (0 < kv_tokens kv -> exists l st1,
       ls !! i = Some l /\ bl_prefill st seq [tok] (kv_tokens kv) true = (st1, Ok (Some l)) /\
       bl_kvs st1 !! seq = bl_kvs st' !! seq).
Proof.
  intros Hst. rw /bl_decode. destruct batch as [|p batch']; [by intros [= <- <-]|].
  set (batch := p :: batch'). destruct (take_kvs (bl_kvs st) batch) as [kvs [l|]] eqn:Et; [|done].
  destruct (take_kvs_spec _ _ _ _ Et) as (Hlen & Hnd & Hlook & Hother).
  destruct (take_kvs_typed _ _ batch Hst) as [_ Hall]. rw Et in Hall. destruct (Hall l eq_refl) as [Hall' _].
  destruct (decode_batch (bl_model st) batch.*2 l) as [[r l']|] eqn:Ed; [|done]. intros [= <- ->].
  destruct (decode_batch_rows (bl_model st) batch.*2 l ls l') as (Hlls & Hl' & Hrow); [by rw Hlen /=; lia|by rw length_fmap|done..|].
  destruct (put_kvs_spec kvs batch l') as [Hput Hput']; [lia|done|]. cbn [with_kvs bl_kvs].
  split_and!; [lia|intros s Hs; rw Hput' //; by apply Hother|]. intros i seq tok Hi.
  destruct (lookup_lt_is_Some_2 l i) as [kv Hkv]; [apply lookup_lt_Some in Hi; lia|].
  exists kv. rw (Hlook _ _ _ Hi). split; [done|]. intros Hpos.
  destruct (Hrow i kv tok Hkv) as (hidden & xj & logits & lj & kv' & He & Hf & Ho & Hrb & Hls & Hk'); [by rw list_lookup_fmap Hi|].
  exists lj. eexists. split; [done|]. rw /bl_prefill (Hlook _ _ _ Hi) Hkv /=.
  destruct (Nat.eqb_spec (kv_tokens kv) 0); [lia|]. rw Nat.eqb_refl /= He Hf /= Ho /= Hrb /=. split; [done|].
  cbn. by rw lookup_insert_eq (Hput _ _ _ Hi).
Qed.

End equiv.

(** ** A small tensor library

    Bytes in rows, for the examples: weights multiply, attention adds the sum of
    the cached values, everything else keeps its operand. *)

Module ToyCandle.

Definition ragged (x : list (list Z)) : bool := negb (forallb (fun r => length r =? length (hd [] x)) x)%nat.

Definition attend_rows (q k : list (list Z)) : list (list Z) :=
  zip_with (fun a b => (fun z => (z + foldr Z.add 0 b) mod 256)%Z <$> a) q k.

Definition add_rows : list (list Z) -> list (list Z) -> list (list Z) := zip_with (zip_with (fun a b => (a + b) mod 256)%Z).
Definition bytes (x : list (list Z)) : list (list Z) := (fun r : list Z => ((fun z => z mod 256)%Z <$> r) : list Z) <$> x.

Definition scale (w : Z) (x : list (list Z)) : list (list Z) := (fun r : list Z => ((fun z => (z * w) mod 256)%Z <$> r) : list Z) <$> x.
Definition column (x : list (list Z)) : list (list Z) := (fun z => [z]) <$> concat x.
Definition pick (p : Z) (x : list (list Z)) : list (list Z) := (fun r : list Z => [nth (Z.to_nat p) r 0%Z]) <$> x.
Definition floats (r : list Z) : list f32 := f32_of_Z <$> r.

#[export] Instance candle : Candle := {|
  Tensor := list (list Z);
  QMatMul := Z;
  RmsNorm := unit;
  Embedding := unit;
  c_dims3 x := if ragged x then Err tt else Ok (length x, length (hd [] x), 1);
  c_qmatmul w x := Ok (scale w x);
  c_rmsnorm _ x := Ok x;
  c_tokens ts := Ok [ts];
  c_embedding _ x := Ok (bytes x);
  c_broadcast_add x _ := Ok x;
  c_add x y := Ok (add_rows x y);
  c_mul x y := Ok (zip_with (zip_with Z.mul) x y);
  c_matmul q k := if (length q =? length k)%nat then Ok (attend_rows q k) else Err tt;
  c_silu x := Ok x;
  c_softmax_last_dim x := Ok x;
  c_t x := Ok x;
  c_div_sqrt x _ := Ok x;
  c_reshape x _ := Ok x;
  c_transpose x i _ := Ok (if (i =? 0)%nat then column x else x);
  c_contiguous x := Ok x;
  c_narrow x _ _ _ := Ok x;
  c_cat xs d := if (d =? 0)%nat then Ok (concat xs) else match xs with [a; b] => Ok (zip_with app a b) | _ => Err tt end;
  c_row i x := match x !! i with Some r => Ok [r] | None => Err tt end;
  c_rope_i x _ _ := Ok x;
  c_rope x _ _ := Ok x;
  c_repeat_kv x _ := Ok x;
  c_mask _ _ _ := Ok [];
  c_masked _ _ x := Ok x;
  c_position x p := Ok (pick p x);
  c_rank _ := 2;
  c_position0 x _ := Ok x;
  c_squeeze0 x := Ok x;
  c_to_vec1 x := Ok (floats (concat x));
  c_to_vec2 x := Ok ((floats <$> x) : list (list f32));
  c_floats _ := Ok [];
  c_arange _ := Ok [];
  c_cos x := Ok x;
  c_sin x := Ok x;
  c_scalar _ := Ok [];
  f32_powf x _ := x;
|}.

#[export] Instance dim : CandleDim := {| c_dim0 x := length (x : list (list Z)) |}.

Lemma rowR_eq i b (x xi : list (list Z)) : rowR i b x xi <-> length x = b /\ exists r, x !! i = Some r /\ xi = [r].
Proof. rw /rowR /=. destruct (x !! i) as [r|]; naive_solver. Qed.

Lemma fmap_row i b f (x xi : list (list Z)) : rowR i b x xi -> csim (rowR i b) (Ok (f <$> x) : cres _) (Ok (f <$> xi) : cres _).
Proof.
  intros (Hb & r & Hr & ->)%rowR_eq. apply csim_ok, rowR_eq. rw length_fmap list_lookup_fmap Hr. naive_solver.
Qed.

Lemma zip_row i b f (x xi z zi : list (list Z)) :
  rowR i b x xi -> rowR i b z zi -> csim (rowR i b) (Ok (zip_with f x z) : cres _) (Ok (zip_with f xi zi) : cres _).
Proof.
  intros (Hb & r & Hr & ->)%rowR_eq (Hb' & r' & Hr' & ->)%rowR_eq. apply csim_ok, rowR_eq.
  rw length_zip_with lookup_zip_with Hr Hr'. split; [lia|by eexists].
Qed.

Lemma id_row i b (x xi : list (list Z)) : rowR i b x xi -> csim (rowR i b) (Ok x : cres _) (Ok xi : cres _).
Proof. apply csim_ok. Qed.

Lemma lookup_concat_singletons (ys : list (list (list Z))) i yi :
  Forall (fun z => length z = 1) ys -> ys !! i = Some yi -> exists r, concat ys !! i = Some r /\ yi = [r].
Proof.
  intros Hall. revert i. induction Hall as [|y ys Hy Hall IH]; intros i; [done|]. destruct y as [|r [|]]; try done.
  destruct i as [|i]; cbn; [|by apply IH]. intros [= <-]. by exists r.
Qed.

#[export] Instance rows : CandleRows.
Proof.
  split; cbn.
  - intros x i Hi. destruct (lookup_lt_is_Some_2 x i Hi) as [r ->]. by eexists.
  - intros x i xi. case_match; [|done]. by intros [= <-].
  - intros x i xi b t e. case_match eqn:Er; [done|]. intros [= <- <- <-]. case_match; [|done]. intros [= <-].
    apply negb_false_iff, Is_true_true, forallb_True in Er. rw Forall_lookup in Er. specialize (Er _ _ ltac:(eassumption)).
    apply Is_true_true, Nat.eqb_eq in Er. rw /ragged /= Nat.eqb_refl /= Er //.
  - intros x b t e. case_match; [done|]. by intros [= <- _ _].
  - intros w i b x xi. apply fmap_row.
  - intros _. apply id_row.
  - intros _. apply id_row.
  - apply id_row.
  - apply id_row.
  - intros p i b x xi. apply fmap_row.
  - intros i b x xi z zi. apply zip_row.
  - intros i b x xi z zi. apply zip_row.
  - intros i b x xi _. apply id_row.
  - by intros x y [= ->].
  - apply id_row.
  - intros x z y. case_match eqn:E; [|done]. apply Nat.eqb_eq in E. intros [= <-]. rw /attend_rows length_zip_with. lia.
  - by intros x _ y [= ->].
  - by intros x y [= ->].
  - by intros x _ _ y [= ->].
  - by intros x _ _ y [= ->].
  - intros ys y [= <-] Hall. split.
    + induction Hall as [|z ys Hz _ IH]; [done|]. cbn. rw length_app Hz IH //.
    + intros i yi Hi. by destruct (lookup_concat_singletons ys i yi Hall Hi) as (r & -> & ->).
  - intros _ ts a x y [= <-] [= <-] [= <-]. rw /column /= app_nil_r !length_fmap. split; [done|].
    intros i t Hi. exists [[t]], [[t mod 256]]%Z. by rw !list_lookup_fmap Hi.
  - intros x ls [= <-]. rw length_fmap. split; [done|]. intros i l. rw list_lookup_fmap.
    destruct (x !! i) as [r|]; [|done]. intros [= <-]. exists [r], [r]. by rw /= app_nil_r.
Qed.

(** One layer, one head. *)
Definition config : QLlamaConfig :=
  mkQLlamaConfig "llama" 1 1 1 1 1 f64_zero f32_one 1 16 false Interleaved.
Definition proj (w : Z) : QkvProj := mkQkv w None.
Definition block (w : Z) : Block :=
  mkBlock tt (proj w) (proj 1%Z) (proj 2%Z) 1%Z tt 1%Z 1%Z w.
Definition model (ws : list Z) : QLlama :=
  mkQLlama config (mkRange 0 (length ws)) (Some tt) (block <$> ws) (Some (tt, 1%Z)) [] [] [].

End ToyCandle.

Module BatchExamples.
Import ToyCandle.

Definition start : BatchedLlama := mkBatched (model [3; 2]%Z) ∅ 16 4.
(** Two sequences of different lengths, prefilled one after the other. *)
Definition ready : BatchedLlama := (bl_prefill (bl_prefill start 7 [5; 6]%Z 0 true).1 9 [4]%Z 0 true).1.

Definition batch : list (nat * Z) := [(9, 1%Z); (7, 2%Z)].
Definition decoded : bool := match bl_decode ready batch with Some (_, Ok _) => true | _ => false end.
Definition held (seq : nat) : nat := match bl_kvs ready !! seq with Some kv => kv_tokens kv | None => 0 end.

Lemma ready_typed : bl_typed ready.
Proof. apply bl_prefill_typed, bl_prefill_typed, map_Forall_empty. Qed.

Lemma batched_decode_equiv_witness :
  exists st' ls, bl_decode ready batch = Some (st', Ok ls) /\ length ls = 2 /\
  exists l st1, ls !! 1 = Some l /\ bl_prefill ready 7 [2]%Z 2 true = (st1, Ok (Some l)).
Proof.
  assert (decoded = true) as E by (vm_compute; reflexivity). assert (held 7 = 2) as Ht by (vm_compute; reflexivity).
  unfold decoded in E. unfold held in Ht.
  destruct (bl_decode ready batch) as [[st' [ls|]]|] eqn:E2; [|discriminate..].
  exists st', ls. split; [reflexivity|].
  destruct (batched_decode_equiv ready batch st' ls ready_typed E2) as (Hlen & _ & Hi). split; [exact Hlen|].
  destruct (Hi 1 7 2%Z eq_refl) as (kv & Hkv & Hl). rw Hkv in Ht. rw Ht in Hl.
  destruct (Hl (Nat.lt_0_succ 1)) as (l & st1 & Hls & Hp & _). exists l, st1. split; [exact Hls|exact Hp].
Defined.

End BatchExamples.

(** ** Types and errors *)

Section results.
Context `{Candle}.
Implicit Types st : BatchedLlama.


(** [prefill] reports a position mismatch without touching the other caches, and
    on success the sequence holds exactly the positions it was given. *)
Lemma bl_prefill_tokens st seq tokens pos want st' v :
  bl_prefill st seq tokens pos want = (st', Ok v) ->
  exists kv hidden b t e, bl_kvs st' !! seq = Some kv /\ embed_tokens (bl_model st) tokens = Ok hidden /\
    c_dims3 hidden = Ok (b, t, e) /\ kv_tokens kv = pos + t /\ is_Some v = is_Some (if want then v else None).
Proof.
  rw /bl_prefill. case_match; [done|]. destruct (embed_tokens _ _) as [hidden|] eqn:Ee; [|done].
  destruct (forward_hidden _ hidden pos _) as [[x|] kv] eqn:Ef; [cbn|done]. intros [= <- Hl].
  destruct (forward_hidden_tokens _ _ _ _ _ _ Ef) as (b & t & e & Hd & Ht).
  exists kv, hidden, b, t, e. rw lookup_insert_eq. split_and!; try done. destruct want; [done|]. by injection Hl as <-.
Qed.

(** A batch that names a sequence without a cache fails, and loses the caches of
    the sequences named before it. *)
Lemma decode_unknown_loses st a ta b tb kv rest :
  bl_kvs st !! a = Some kv -> bl_kvs st !! b = None -> a <> b ->
  exists st', bl_decode st ((a, ta) :: (b, tb) :: rest) = Some (st', Err (Error_Internal "decode of unknown seq")) /\
    bl_kvs st' !! a = None.
Proof.
  intros Ha Hb Hne. rw /bl_decode /= Ha lookup_delete_ne // Hb /=. eexists. split; [done|]. apply lookup_delete_eq.
Qed.

End results.

(** The contract of the sequential runtime: it serves the resident sequence only,
    at the position it holds, and counts the tokens it was given. *)
Section sequential_results.
Context `{StockModels}.
Implicit Types st : SequentialModel.

Lemma forward_tokens_resident st tokens pos : sm_resident (forward_tokens st tokens pos).1 = sm_resident st.
Proof. rw /forward_tokens. destruct (internal _ _); [|done]. by destruct (aw_forward _ _ _). Qed.

Lemma sm_prefill_ok st seq tokens pos want st' v :
  sm_prefill st seq tokens pos want = (st', Ok v) ->
  (pos = 0 \/ sm_resident st = Some (seq, pos)) /\ sm_resident st' = Some (seq, pos + length tokens) /\
  (want = false <-> v = None).
Proof.
  rw /sm_prefill. destruct (Nat.eqb_spec pos 0) as [->|Hp].
  - cbn. rw bool_decide_eq_true_2 //. destruct (forward_tokens _ tokens 0) as [s2 [l|]]; [|done].
    intros [= <- <-]. split_and!; [by left|done|]. by destruct want.
  - case_bool_decide as Hr; [|done]. destruct (forward_each st tokens pos []) as [s2 [l|]]; [|done].
    intros [= <- <-]. split_and!; [by right|done|]. by destruct want.
Qed.

Lemma sm_decode_ok st seq tok st' ls :
  sm_decode st [(seq, tok)] = (st', Ok ls) ->
  exists n, sm_resident st = Some (seq, n) /\ sm_resident st' = Some (seq, n + 1) /\ length ls = 1.
Proof.
  rw /sm_decode. destruct (sm_resident st) as [[s n]|] eqn:Er; [|done]. destruct (Nat.eqb_spec s seq) as [->|]; [|done].
  destruct (forward_tokens st [tok] n) as [s2 [l|]]; [|done]. intros [= <- <-]. by exists n.
Qed.

End sequential_results.

