(* ===== verification/Pipeline.v ===== *)
(** * The layer pipeline

    [cgn-infer/src/pipeline/mod.rs]: hidden states encoded for the wire, the
    worker that runs a middle slice of layers, and the coordinator's
    [PipelinedModel]. The half-precision conversions and the reading and building
    of tensors are parameters; whether a message reaches a worker and its answer
    comes back is the argument [net]. gRPC streams and TLS are left out. *)

From S2P Require Import Prelude Float32 Config Scheduler Layers Llama BatchSpec.

(** [Display] of the error type, by its prefixes; the text of wrapped errors is
    not in the model's [Error]. *)
Definition Error_to_string (e : Error) : string :=
  match e with
  | Error_Io _ => "io: "
  | Error_Config msg => "config: " +:+ msg
  | Error_Toml => "toml: "
  | Error_Json => "json: "
  | Error_Tls msg => "tls: " +:+ msg
  | Error_Transport => "transport: "
  | Error_Status _ => "rpc: "
  | Error_Etcd msg => "etcd: " +:+ msg
  | Error_Gossip msg => "gossip: " +:+ msg
  | Error_InvalidArgument msg => "invalid argument: " +:+ msg
  | Error_NotFound msg => "not found: " +:+ msg
  | Error_Unavailable msg => "unavailable: " +:+ msg
  | Error_Internal msg => "internal: " +:+ msg
  | Error_Other => "other"
  end.

(** ** Activation codecs *)

Inductive Encoding := EncF16 | EncInt8.
Inductive ActivationEncoding := AE_Unspecified | AE_F16 | AE_Int8.

Definition wire_encoding (enc : Encoding) : ActivationEncoding :=
  match enc with EncF16 => AE_F16 | EncInt8 => AE_Int8 end.

(** The protobuf enum's numbers. *)
Definition AE_to_i32 (e : ActivationEncoding) : Z :=
  match e with AE_Unspecified => 0 | AE_F16 => 1 | AE_Int8 => 2 end.
(** [try_into().unwrap_or(Unspecified)]. *)
Definition AE_of_i32 (z : Z) : ActivationEncoding :=
  if (z =? 1)%Z then AE_F16 else if (z =? 2)%Z then AE_Int8 else AE_Unspecified.

(** [half::f16] as its two little-endian bytes; [flatten_all] and [to_vec1];
    [Tensor::from_vec]. *)
Class Wire `{Candle} := {
  f16_to_le_bytes : f32 -> Z * Z;
  f16_from_le_bytes : Z -> Z -> f32;
  c_flat : Tensor -> cres (list f32);
  c_from_vec : list f32 -> nat -> nat -> cres Tensor;
}.

Section codec.
Context `{Wire}.

Definition int8_scale_of (values : list f32) : f32 :=
  let max := foldl (fun m v => f32_max m (f32_abs v)) f32_zero values in
  if f32_lt f32_zero max then f32_div max (f32_of_Z 127) else f32_one.

(** [(v / scale).round().clamp(-127.0, 127.0) as i8 as u8]. *)
Definition quantize (scale v : f32) : Z :=
  (i8_of_f32 (f32_clamp (f32_round (f32_div v scale)) (f32_of_Z (-127)) (f32_of_Z 127)) mod 256)%Z.

(** [b as i8 as f32 * scale]. *)
Definition dequantize (scale : f32) (b : Z) : f32 := f32_mul (f32_of_Z (if (b <? 128)%Z then b else (b - 256)%Z)) scale.

Definition encode_values (values : list f32) (enc : Encoding) : list Z * f32 :=
  match enc with
  | EncF16 => (concat ((fun v => let '(lo, hi) := f16_to_le_bytes v in [lo; hi]) <$> values), f32_zero)
  | EncInt8 => let scale := int8_scale_of values in (quantize scale <$> values, scale)
  end.

Definition encode_activation (x : Tensor) (enc : Encoding) : result (list Z * f32) Error :=
  let? values := internal "activation readback" (c_flat x) in
  Ok (encode_values values enc).

(** [chunks_exact(2)]. *)
Fixpoint f16_values (data : list Z) : list f32 :=
  match data with
  | lo :: hi :: data' => f16_from_le_bytes lo hi :: f16_values data'
  | _ => []
  end.

Definition decode_activation (data : list Z) (encoding : ActivationEncoding) (int8_scale : f32) (seq_len hidden : nat)
    : result Tensor Error :=
  let expect := seq_len * hidden in
  let? values :=
    match encoding with
    | AE_F16 =>
        if (length data =? expect * 2)%nat then Ok (f16_values data)
        else Err (Error_InvalidArgument "f16 activation payload length")
    | AE_Int8 =>
        if (length data =? expect)%nat then Ok (dequantize int8_scale <$> data)
        else Err (Error_InvalidArgument "int8 activation payload length")
    | AE_Unspecified => Err (Error_InvalidArgument "unspecified activation encoding")
    end in
  internal "activation tensor" (c_from_vec values seq_len hidden).

(** ** The worker *)

Record ActivationChunk := mkChunk {
  ch_request_id : Z;
  ch_seq_id : nat;
  ch_index_pos : Z;
  ch_seq_len : Z;
  ch_hidden : Z;
  ch_encoding : Z;
  ch_data : list Z;
  ch_int8_scale : f32;
  ch_error : string;
}.

Record WorkerState := mkWorker {
  ws_model : QLlama;
  ws_kvs : gmap nat SeqKv;
  ws_model_name : string;
}.
Implicit Types (ws : WorkerState) (chunk : ActivationChunk).

Definition ws_put ws (seq : nat) (kv : SeqKv) : WorkerState :=
  mkWorker (ws_model ws) (<[seq := kv]> (ws_kvs ws)) (ws_model_name ws).

Definition worker_step ws chunk (enc_out : Encoding) : WorkerState * result ActivationChunk Error :=
  match decode_activation (ch_data chunk) (AE_of_i32 (ch_encoding chunk)) (ch_int8_scale chunk)
          (Z.to_nat (ch_seq_len chunk)) (Z.to_nat (ch_hidden chunk)) with
  | Err e => (ws, Err e)
  | Ok hidden =>
      let seq := ch_seq_id chunk in
      let pos := Z.to_nat (ch_index_pos chunk) in
      let kv := match ws_kvs ws !! seq with Some kv => kv | None => new_kv (ws_model ws) end in
      let kv := if (ch_index_pos chunk =? 0)%Z then SeqKv_clear kv else kv in
      if negb (kv_tokens kv =? pos)%nat then
        (ws_put ws seq kv, Err (Error_InvalidArgument "worker KV positions differ from index_pos"))
      else
        let '(r, kv) := forward_hidden (ws_model ws) hidden pos kv in
        (ws_put ws seq kv,
         let? out := r in
         let? (data, scale) := encode_activation out enc_out in
         Ok (mkChunk (ch_request_id chunk) seq (ch_index_pos chunk) (ch_seq_len chunk) (ch_hidden chunk)
               (AE_to_i32 (wire_encoding enc_out)) data scale ""))
  end.

(** One turn of the loop in [forward]: an error becomes a reply that carries it. *)
Definition worker_reply ws chunk (enc_out : Encoding) : WorkerState * ActivationChunk :=
  let '(ws, r) := worker_step ws chunk enc_out in
  (ws, match r with
       | Ok reply => reply
       | Err e => mkChunk (ch_request_id chunk) (ch_seq_id chunk) 0 0 0 0 [] f32_zero (Error_to_string e)
       end).

Definition reset_sequence ws (seq : nat) : WorkerState :=
  mkWorker (ws_model ws) (delete seq (ws_kvs ws)) (ws_model_name ws).

(** What [info] reports. *)
Definition worker_info ws : nat * nat * nat :=
  (lr_start (ql_range (ws_model ws)), lr_end (ql_range (ws_model ws)), n_layers (ql_cfg (ws_model ws))).

(** ** The coordinator *)

(** One worker as the coordinator sees it: where, which layers, and the process
    at the other end. *)
Record WorkerLink := mkLink {
  wl_endpoint : string;
  wl_range : LayerRange;
  wl_worker : WorkerState;
  wl_enc_out : Encoding;
}.

Record PipelinedModel := mkPipelined {
  pm_head : QLlama;
  pm_kvs : gmap nat SeqKv;
  pm_workers : list WorkerLink;
  pm_encoding : Encoding;
  pm_max_seq_len : nat;
  pm_next_request_id : Z;
}.
Implicit Types pm : PipelinedModel.

(** The fate of one exchange with a worker: delivered both ways, lost before the
    worker saw it, or lost on the way back. *)
Inductive Delivery := Delivered | SendFailed | RecvFailed.

Definition set_worker (w : WorkerLink) ws : WorkerLink := mkLink (wl_endpoint w) (wl_range w) ws (wl_enc_out w).

Definition request_chunk (request_id : Z) (seq index_pos seq_len hidden_dim : nat) (enc : Encoding) (data : list Z) (scale : f32)
    : ActivationChunk :=
  mkChunk request_id seq (Z.of_nat index_pos mod 2 ^ 32) (Z.of_nat seq_len mod 2 ^ 32) (Z.of_nat hidden_dim mod 2 ^ 32)
    (AE_to_i32 (wire_encoding enc)) data scale "".

(** The exchange with one worker. *)
Definition call_worker (net : Delivery) (w : WorkerLink) (chunk : ActivationChunk) : WorkerLink * result Tensor Error :=
  match net with
  | SendFailed => (w, Err (Error_Unavailable "worker stream closed"))
  | RecvFailed => (set_worker w (worker_reply (wl_worker w) chunk (wl_enc_out w)).1, Err (Error_Unavailable "worker recv"))
  | Delivered =>
      let '(ws, reply) := worker_reply (wl_worker w) chunk (wl_enc_out w) in
      (set_worker w ws,
       if bool_decide (ch_error reply <> "") then Err (Error_Internal (ch_error reply))
       else decode_activation (ch_data reply) (AE_of_i32 (ch_encoding reply)) (ch_int8_scale reply)
              (Z.to_nat (ch_seq_len reply)) (Z.to_nat (ch_hidden reply)))
  end.

(** [for w in &mut self.workers]; [i] is the worker's place. *)
Fixpoint forward_workers (net : nat -> Delivery) (enc : Encoding) (request_id : Z) (seq index_pos seq_len hidden_dim i : nat)
    (ws : list WorkerLink) (current : Tensor) : list WorkerLink * result Tensor Error :=
  match ws with
  | [] => ([], Ok current)
  | w :: ws' =>
      match encode_activation current enc with
      | Err e => (ws, Err e)
      | Ok (data, scale) =>
          match call_worker (net i) w (request_chunk request_id seq index_pos seq_len hidden_dim enc data scale) with
          | (w, Err e) => (w :: ws', Err e)
          | (w, Ok current) =>
              let '(ws', r) := forward_workers net enc request_id seq index_pos seq_len hidden_dim (S i) ws' current in
              (w :: ws', r)
          end
      end
  end.

Definition with_workers pm (ws : list WorkerLink) : PipelinedModel :=
  mkPipelined (pm_head pm) (pm_kvs pm) ws (pm_encoding pm) (pm_max_seq_len pm) (add_u64 (pm_next_request_id pm) 1).

Definition forward_remote (net : nat -> Delivery) pm (hidden : Tensor) (seq index_pos seq_len : nat)
    : PipelinedModel * result Tensor Error :=
  let '(ws, r) := forward_workers net (pm_encoding pm) (pm_next_request_id pm) seq index_pos seq_len
                    (embedding_length (ql_cfg (pm_head pm))) 0 (pm_workers pm) hidden in
  (with_workers pm ws, r).

Definition put_kv pm (seq : nat) (kv : SeqKv) : PipelinedModel :=
  mkPipelined (pm_head pm) (<[seq := kv]> (pm_kvs pm)) (pm_workers pm) (pm_encoding pm) (pm_max_seq_len pm) (pm_next_request_id pm).

(** Local layers, then the workers; the caller puts the local cache back. *)
Definition run_stages (net : nat -> Delivery) pm (seq : nat) (tokens : list Z) (pos : nat) (kv : SeqKv)
    : PipelinedModel * SeqKv * result Tensor Error :=
  match embed_tokens (pm_head pm) tokens with
  | Err e => (pm, kv, Err e)
  | Ok hidden =>
      match forward_hidden (pm_head pm) hidden pos kv with
      | (Err e, kv) => (pm, kv, Err e)
      | (Ok hidden, kv) => let '(pm, r) := forward_remote net pm hidden seq pos (length tokens) in (pm, kv, r)
      end
  end.

Definition pm_prefill (net : nat -> Delivery) pm (seq : nat) (tokens : list Z) (start_pos : nat) (want_logits : bool)
    : PipelinedModel * result (option (list f32)) Error :=
  let pm := if (start_pos =? 0)%nat then put_kv pm seq (new_kv (pm_head pm)) else pm in
  match pm_kvs pm !! seq with
  | None => (pm, Err (Error_Internal "prefill of unknown seq"))
  | Some kv =>
      if negb (kv_tokens kv =? start_pos)%nat then (put_kv pm seq kv, Err (Error_Internal "prefill position mismatch"))
      else
        let '(pm, kv, r) := run_stages net pm seq tokens start_pos kv in
        (put_kv pm seq kv, let? hidden := r in last_logits (pm_head pm) hidden want_logits)
  end.

Definition pm_decode (net : nat -> Delivery) pm (batch : list (nat * Z)) : PipelinedModel * result (list (list f32)) Error :=
  match batch with
  | [] => (pm, Ok [])
  | [(seq, token)] =>
      match pm_kvs pm !! seq with
      | None => (pm, Err (Error_Internal "decode of unknown seq"))
      | Some kv =>
          let '(pm, kv, r) := run_stages net pm seq [token] (kv_tokens kv) kv in
          (put_kv pm seq kv,
           let? hidden := r in
           let? logits := output (pm_head pm) hidden in
           let? l := readback logits in
           Ok [l])
      end
  | _ => (pm, Err (Error_Internal "pipeline runtime cannot decode a batch larger than 1"))
  end.

(** [reset_remote]: a failed call is logged and skipped. *)
Definition reset_remote (net : nat -> Delivery) (seq : nat) (ws : list WorkerLink) : list WorkerLink :=
  imap (fun i w => match net i with SendFailed => w | _ => set_worker w (reset_sequence (wl_worker w) seq) end) ws.

Definition pm_drop_seq (net : nat -> Delivery) pm (seq : nat) : PipelinedModel :=
  match pm_kvs pm !! seq with
  | None => pm
  | Some _ =>
      mkPipelined (pm_head pm) (delete seq (pm_kvs pm)) (reset_remote net seq (pm_workers pm)) (pm_encoding pm)
        (pm_max_seq_len pm) (pm_next_request_id pm)
  end.

End codec.

(** ** Assembly *)

Section assembly.
Context `{Wire} `{!Gguf}.

(** [run_worker] up to serving: a middle slice of the file. *)
Definition load_worker (c : Content) (name : string) (layers : LayerRange) : option (result WorkerState Error) :=
  match QLlama_load c layers parts_middle with
  | None => None
  | Some r => Some (let? m := r in Ok (mkWorker m ∅ name))
  end.

Record CoordinatorConfig := mkCoordinator {
  cc_layers : LayerRange;
  cc_workers : list string;
  cc_encoding : Encoding;
}.

(** [connect_worker]: dialing an endpoint gives the worker behind it. *)
Definition connect_worker (dial : string -> option (WorkerState * Encoding)) (endpoint : string) : result WorkerLink Error :=
  match dial endpoint with
  | None => Err (Error_Unavailable "connect worker")
  | Some (ws, enc_out) =>
      let '(start, end_, _) := worker_info ws in
      let? range := LayerRange.new (Z.to_nat (Z.of_nat start mod 2 ^ 32)) (Z.to_nat (Z.of_nat end_ mod 2 ^ 32)) in
      Ok (mkLink endpoint range ws enc_out)
  end.

Fixpoint connect_workers (dial : string -> option (WorkerState * Encoding)) (endpoints : list string)
    : result (list WorkerLink) Error :=
  match endpoints with
  | [] => Ok []
  | e :: es => let? w := connect_worker dial e in let? ws := connect_workers dial es in Ok (w :: ws)
  end.

Definition pm_connect (c : Content) (ctx : nat) (cfg : CoordinatorConfig) (dial : string -> option (WorkerState * Encoding))
    : option (result PipelinedModel Error) :=
  if negb (lr_start (cc_layers cfg) =? 0)%nat then Some (Err (Error_Config "coordinator layer range must start at 0"))
  else
    match QLlama_load c (cc_layers cfg) parts_full with
    | None => None
    | Some r => Some (
        let? head := r in
        let max_seq_len := Nat.max (Nat.min ctx (context_length (ql_cfg head))) 1 in
        let? workers := connect_workers dial (cc_workers cfg) in
        let? _ := validate_coverage (n_layers (ql_cfg head)) (cc_layers cfg :: (wl_range <$> workers)) in
        Ok (mkPipelined head ∅ workers (cc_encoding cfg) max_seq_len 1))
    end.

End assembly.
