(* ===== verification/PipelineSpec.v ===== *)
(** * What the layer pipeline guarantees

    Over [Pipeline]: decoding an encoded activation, and the refinement: whatever
    the network does, an answer the pipelined model gives is the answer of the
    whole model on one machine. *)

From S2P Require Import Prelude Float32 Config Scheduler Layers Llama BatchSpec Pipeline.

(** ** Codecs *)

Section codec.
Context `{Wire}.

(** What a value becomes on the other side. *)
Definition wire_value (enc : Encoding) (scale v : f32) : f32 :=
  match enc with
  | EncF16 => let '(lo, hi) := f16_to_le_bytes v in f16_from_le_bytes lo hi
  | EncInt8 => dequantize scale (quantize scale v)
  end.

Definition wire_bytes (e : ActivationEncoding) (n : nat) : nat := match e with AE_F16 => n * 2 | _ => n end.

Lemma AE_of_to e : AE_of_i32 (AE_to_i32 e) = e.
Proof. by destruct e. Qed.

Lemma f16_values_encode vs :
  f16_values (concat ((fun v => let '(lo, hi) := f16_to_le_bytes v in [lo; hi]) <$> vs)) = wire_value EncF16 f32_zero <$> vs.
Proof. induction vs as [|v vs IH]; [done|]. cbn. destruct (f16_to_le_bytes v). by rw /= IH. Qed.

Lemma encode_values_length enc vs : length (encode_values vs enc).1 = wire_bytes (wire_encoding enc) (length vs).
Proof.
  destruct enc; cbn; [|by rw length_fmap]. induction vs as [|v vs IH]; [done|]. cbn. destruct (f16_to_le_bytes v).
  by rw /= IH.
Qed.

Lemma decode_encode_values enc vs t h : length vs = t * h ->
  decode_activation (encode_values vs enc).1 (wire_encoding enc) (encode_values vs enc).2 t h
    = internal "activation tensor" (c_from_vec (wire_value enc (encode_values vs enc).2 <$> vs) t h).
Proof.
  intros Hl. pose proof (encode_values_length enc vs) as Hlen. rw Hl in Hlen. rw /decode_activation.
  destruct enc; cbn in Hlen |- *; rw Hlen Nat.eqb_refl; cbn [result_bind].
  - by rw f16_values_encode.
  - by rw -list_fmap_compose.
Qed.

Lemma fmap_fixed {A} (f : A -> A) (l : list A) : (forall v, v ∈ l -> f v = v) -> f <$> l = l.
Proof. induction l as [|v l IH]; [done|]. intros Hf. cbn. rw Hf; [set_solver|]. f_equal. apply IH. set_solver. Qed.

Lemma quantize_range scale v : (0 <= quantize scale v < 256)%Z.
Proof. rw /quantize. apply Z.mod_pos_bound. lia. Qed.

(** What one side of the pipeline encodes the other side decodes: the
    encoding number survives the wire, the payload has the length the decoder
    asks for, and the tensor is rebuilt from the same values in the same order,
    each passed through half precision or through its quantized byte; when half
    precision loses nothing on them, from the very same values. A payload of any
    other length, and an unknown encoding, is an invalid argument. *)
Lemma activation_roundtrip x enc vs t h :
  c_flat x = Ok vs -> length vs = t * h ->
  (exists data scale,
    encode_activation x enc = Ok (data, scale) /\
    decode_activation data (AE_of_i32 (AE_to_i32 (wire_encoding enc))) scale t h
      = internal "activation tensor" (c_from_vec (wire_value enc scale <$> vs) t h) /\
    (enc = EncInt8 -> Forall (fun b => 0 <= b < 256)%Z data) /\
    (enc = EncF16 -> (forall v, v ∈ vs -> wire_value EncF16 scale v = v) ->
       decode_activation data AE_F16 scale t h = internal "activation tensor" (c_from_vec vs t h))) /\
  (forall data e scale, e = AE_Unspecified \/ length data <> wire_bytes e (t * h) ->
     exists msg, decode_activation data e scale t h = Err (Error_InvalidArgument msg)).
Proof.
  intros Hx Hl. split.
  - exists (encode_values vs enc).1, (encode_values vs enc).2. rw /encode_activation Hx /=. split; [by destruct encode_values|].
    pose proof (decode_encode_values enc vs t h Hl) as Hd. split_and!.
    + by rw AE_of_to.
    + intros ->. cbn. apply Forall_fmap, Forall_forall. intros v _. apply quantize_range.
    + intros -> Hex. change (decode_activation (encode_values vs EncF16).1 AE_F16 (encode_values vs EncF16).2 t h
        = internal "activation tensor" (c_from_vec vs t h)). rw Hd. do 2 f_equal. by apply fmap_fixed.
  - intros data e scale Hbad. rw /decode_activation. destruct e; [by eexists| |].
    + destruct (Nat.eqb_spec (length data) (t * h * 2)); [|by eexists]. cbn in Hbad. naive_solver lia.
    + destruct (Nat.eqb_spec (length data) (t * h)); [|by eexists]. cbn in Hbad. naive_solver lia.
Qed.

End codec.

(** ** Slices *)

Section slices.
Context `{Candle}.
Implicit Types m : QLlama.

(** What a layer reads of the model besides its own weights. *)
Definition same_params m m' : Prop :=
  ql_cfg m = ql_cfg m' /\ ql_cos m = ql_cos m' /\ ql_sin m = ql_sin m' /\ ql_neg_inf m = ql_neg_inf m'.

Lemma run_layers_params m m' bls slots x pos t mask :
  same_params m m' -> run_layers m bls slots x pos t mask = run_layers m' bls slots x pos t mask.
Proof.
  destruct m as [cfg r1 e1 b1 o1 cos sin inf], m' as [cfg' r2 e2 b2 o2 cos' sin' inf']. unfold same_params. cbn.
  intros (-> & -> & -> & ->). revert slots x. induction bls as [|bl bls IH]; intros [|s slots] x; cbn [run_layers]; try done.
  change (block_forward_single (mkQLlama cfg' r1 e1 b1 o1 cos' sin' inf') bl x pos t mask s)
    with (block_forward_single (mkQLlama cfg' r2 e2 b2 o2 cos' sin' inf') bl x pos t mask s).
  destruct (block_forward_single _ bl x pos t mask s) as [[x'|] s']; [|done]. by rw IH.
Qed.

(** Running a model's layers is running its slices one after the other. *)
Lemma run_layers_app m b1 b2 s1 s2 x pos t mask : length s1 = length b1 ->
  run_layers m (b1 ++ b2) (s1 ++ s2) x pos t mask =
    match run_layers m b1 s1 x pos t mask with
    | (Ok x', s1') => let '(r, s2') := run_layers m b2 s2 x' pos t mask in (r, s1' ++ s2')
    | (Err u, s1') => (Err u, s1' ++ s2)
    end.
Proof.
  revert s1 x. induction b1 as [|bl b1 IH]; intros [|s s1] x; try done.
  - intros _. cbn. by destruct (run_layers m b2 s2 x pos t mask).
  - intros [= Hl]. cbn. destruct (block_forward_single m bl x pos t mask s) as [[x'|] s']; [|done].
    rw IH //. destruct (run_layers m b1 s1 x' pos t mask) as [[x''|] s1']; [|done].
    by destruct (run_layers m b2 s2 x'' pos t mask).
Qed.

(** [forward_hidden] on a well-formed cache. *)
Lemma forward_hidden_run m x pos kv b t e mask : kv_typed m kv -> c_dims3 x = Ok (b, t, e) -> causal_mask t pos = Ok mask ->
  forward_hidden m x pos kv =
    match run_layers m (ql_blocks m) (kv_entries kv) x pos t mask with
    | (Err u, slots) => (Err (Error_Internal "layer forward"), mkSeqKv slots (kv_tokens kv))
    | (Ok x', slots) => (Ok x', mkSeqKv slots (pos + t))
    end.
Proof. intros Hk Hd Hm. by rw /forward_hidden Hk Nat.eqb_refl /= Hd /= Hm. Qed.

Lemma clear_entries m kv : kv_typed m kv -> kv_entries (SeqKv_clear kv) = replicate (length (ql_blocks m)) None.
Proof.
  rw /kv_typed /=. intros <-. generalize (kv_entries kv). induction l as [|s l IH]; [done|]. cbn. f_equal. exact IH.
Qed.

End slices.

(** ** Refinement of the whole model *)

(** The wire loses nothing on the activations this model produces: [Act t x] are
    hidden states of [t] positions, which embedding and layers produce and every
    encoding of [Encs] brings back. *)
Class ExactWire `{Wire} (full : QLlama) (Act : nat -> Tensor -> Prop) (Encs : Encoding -> Prop) : Prop := {
  act_dims t x : Act t x -> c_dims3 x = Ok (1, t, embedding_length (ql_cfg full));
  act_embed toks x : embed_tokens full toks = Ok x -> Act (length toks) x;
  act_block bl x pos t mask s x' s' : bl ∈ ql_blocks full -> Act t x ->
    block_forward_single full bl x pos t mask s = (Ok x', s') -> Act t x';
  act_wire enc t x : Encs enc -> Act t x -> exists data scale,
    encode_activation x enc = Ok (data, scale) /\
    decode_activation data (wire_encoding enc) scale t (embedding_length (ql_cfg full)) = Ok x;
  act_width : (Z.of_nat (embedding_length (ql_cfg full)) <= u32_max)%Z;
}.

Section refine.
Context `{HW : Wire} (full : QLlama) (Act : nat -> Tensor -> Prop) (Encs : Encoding -> Prop) {HE : ExactWire full Act Encs}.
Implicit Types (w : WorkerLink) (pm : PipelinedModel) (bm : BatchedLlama).

Definition w_model w : QLlama := ws_model (wl_worker w).
Definition w_kvs w : gmap nat SeqKv := ws_kvs (wl_worker w).

(** A worker of the model: its encoding, parameters, caches with a slot per
    layer, layers of the model. *)
Definition w_ok w : Prop :=
  Encs (wl_enc_out w) /\ same_params (w_model w) full /\ map_Forall (fun _ kv => kv_typed (w_model w) kv) (w_kvs w) /\
  (forall bl, bl ∈ ql_blocks (w_model w) -> bl ∈ ql_blocks full).

(** Everything but the cache of [seq] is kept. *)
Definition w_same (seq : nat) w w' : Prop :=
  w_model w' = w_model w /\ w_ok w' /\ forall s, s <> seq -> w_kvs w' !! s = w_kvs w !! s.

(** The cache a worker uses for a chunk at [pos]. *)
Definition w_cache w (seq pos : nat) : SeqKv :=
  let kv := match w_kvs w !! seq with Some kv => kv | None => new_kv (w_model w) end in
  if (pos =? 0)%nat then SeqKv_clear kv else kv.

Lemma w_cache_typed w seq pos : w_ok w -> kv_typed (w_model w) (w_cache w seq pos).
Proof.
  intros (_ & _ & Hty & _). rw /w_cache.
  assert (kv_typed (w_model w) (match w_kvs w !! seq with Some kv => kv | None => new_kv (w_model w) end)).
  { destruct (w_kvs w !! seq) as [kv|] eqn:E; [by apply (Hty seq)|apply new_kv_typed]. }
  destruct (pos =? 0)%nat; [by apply clear_typed|done].
Qed.

Lemma act_layers bls slots x pos t mask x' slots' :
  (forall bl, bl ∈ bls -> bl ∈ ql_blocks full) -> Act t x ->
  run_layers full bls slots x pos t mask = (Ok x', slots') -> Act t x'.
Proof.
  revert slots x slots'. induction bls as [|bl bls IH]; intros [|s slots] x slots' Hin Hx; cbn; try by intros [= <- _].
  destruct (block_forward_single full bl x pos t mask s) as [[x1|] s1] eqn:E; [|done].
  destruct (run_layers full bls slots x1 pos t mask) as [r slots1] eqn:E1. intros [= -> _].
  eapply IH; [..|exact E1]; [set_solver|]. eapply act_block; [..|exact E]; [set_solver|done].
Qed.

Lemma Error_to_string_ne e : Error_to_string e <> "".
Proof. by destruct e. Qed.

Lemma put_ok w seq kv : w_ok w -> kv_typed (w_model w) kv ->
  w_same seq w (set_worker w (ws_put (wl_worker w) seq kv)) /\
  w_kvs (set_worker w (ws_put (wl_worker w) seq kv)) !! seq = Some kv.
Proof.
  intros (Henc & Hp & Hty & Hb) Hkv. split; [|apply lookup_insert_eq]. split; [done|]. split.
  - split; [done|]. split; [done|]. split; [by apply map_Forall_insert_2|done].
  - intros s Hs. apply lookup_insert_ne. done.
Qed.

Lemma same_refl seq w : w_ok w -> w_same seq w w.
Proof. done. Qed.

(** What one exchange does. *)
Lemma worker_step_spec w seq pos t x enc rid data scale mask :
  w_ok w -> Act t x -> causal_mask t pos = Ok mask -> (Z.of_nat (pos + t) <= u32_max)%Z ->
  encode_activation x enc = Ok (data, scale) ->
  decode_activation data (wire_encoding enc) scale t (embedding_length (ql_cfg full)) = Ok x ->
  let chunk := request_chunk rid seq pos t (embedding_length (ql_cfg full)) enc data scale in
  let kv := w_cache w seq pos in
  let p := worker_reply (wl_worker w) chunk (wl_enc_out w) in
  w_same seq w (set_worker w p.1) /\
  if (kv_tokens kv =? pos)%nat then
    match run_layers full (ql_blocks (w_model w)) (kv_entries kv) x pos t mask with
    | (Ok y, slots) =>
        w_kvs (set_worker w p.1) !! seq = Some (mkSeqKv slots (pos + t)) /\ ch_error p.2 = "" /\
        decode_activation (ch_data p.2) (AE_of_i32 (ch_encoding p.2)) (ch_int8_scale p.2)
          (Z.to_nat (ch_seq_len p.2)) (Z.to_nat (ch_hidden p.2)) = Ok y
    | (Err _, _) => ch_error p.2 <> ""
    end
  else ch_error p.2 <> "".
Proof.
  intros Hw Hx Hm Hb He Hd chunk kv p. pose proof act_width as Hwd.
  assert (forall n, (Z.of_nat n <= u32_max)%Z -> (Z.of_nat n mod 2 ^ 32)%Z = Z.of_nat n) as Hmod.
  { intros n Hn. apply Z.mod_small. rw /u32_max in Hn. lia. }
  pose proof (w_cache_typed w seq pos Hw) as Hty. fold kv in Hty. pose proof Hw as (Henc & Hp & _ & Hbl).
  subst p. rw /worker_reply /worker_step. subst chunk. cbn [ch_data ch_encoding ch_int8_scale ch_seq_len ch_hidden
    ch_index_pos ch_seq_id ch_request_id request_chunk]. rw (Hmod pos ltac:(lia)) (Hmod t ltac:(lia)) (Hmod _ Hwd) AE_of_to !Nat2Z.id Hd.
  change (ws_model (wl_worker w)) with (w_model w). change (ws_kvs (wl_worker w)) with (w_kvs w).
  replace (if (Z.of_nat pos =? 0)%Z then _ else _) with kv by (subst kv; rw /w_cache; by destruct pos).
  destruct (Nat.eqb_spec (kv_tokens kv) pos) as [Hk|Hk]; cbn [negb].
  2:{ destruct (put_ok w seq kv Hw Hty) as [Hs _]. split; [exact Hs|]. apply Error_to_string_ne. }
  rw (forward_hidden_run _ _ _ _ _ _ _ _ Hty (act_dims _ _ Hx) Hm) (run_layers_params _ full) //.
  destruct (run_layers full (ql_blocks (w_model w)) (kv_entries kv) x pos t mask) as [[y|u] slots] eqn:Er.
  - pose proof (act_layers _ _ _ _ _ _ _ _ Hbl Hx Er) as Hy. destruct (act_wire (wl_enc_out w) t y Henc Hy) as (dy & sy & Hey & Hdy).
    rw /= Hey /=. destruct (put_ok w seq (mkSeqKv slots (pos + t)) Hw) as [Hs Hl].
    { pose proof (run_layers_length full (ql_blocks (w_model w)) (kv_entries kv) x pos t mask) as Hlen. rw Er /= in Hlen.
      by rw /kv_typed /= Hlen. }
    split_and!; [exact Hs|exact Hl|done|]. by rw AE_of_to !Nat2Z.id.
  - destruct (put_ok w seq (mkSeqKv slots (kv_tokens kv)) Hw) as [Hs Hl].
    { pose proof (run_layers_length full (ql_blocks (w_model w)) (kv_entries kv) x pos t mask) as Hlen. rw Er /= in Hlen.
      by rw /kv_typed /= Hlen. }
    split; [exact Hs|]. apply Error_to_string_ne.
Qed.

(** One exchange under any delivery. *)
Lemma call_worker_spec net w seq pos t x enc rid data scale mask :
  w_ok w -> Act t x -> causal_mask t pos = Ok mask -> (Z.of_nat (pos + t) <= u32_max)%Z ->
  encode_activation x enc = Ok (data, scale) ->
  decode_activation data (wire_encoding enc) scale t (embedding_length (ql_cfg full)) = Ok x ->
  exists w' r,
    call_worker net w (request_chunk rid seq pos t (embedding_length (ql_cfg full)) enc data scale) = (w', r) /\
    w_same seq w w' /\
    (forall y, r = Ok y -> kv_tokens (w_cache w seq pos) = pos /\ exists slots,
       run_layers full (ql_blocks (w_model w)) (kv_entries (w_cache w seq pos)) x pos t mask = (Ok y, slots) /\
       w_kvs w' !! seq = Some (mkSeqKv slots (pos + t))) /\
    (net = Delivered -> kv_tokens (w_cache w seq pos) = pos -> forall y slots,
       run_layers full (ql_blocks (w_model w)) (kv_entries (w_cache w seq pos)) x pos t mask = (Ok y, slots) -> r = Ok y).
Proof.
  intros Hw Hx Hm Hb He Hd. destruct (worker_step_spec w seq pos t x enc rid data scale mask Hw Hx Hm Hb He Hd) as [Hs Hr].
  set (chunk := request_chunk _ _ _ _ _ _ _ _) in *. rw /call_worker. destruct net.
  - destruct (worker_reply (wl_worker w) chunk (wl_enc_out w)) as [ws' reply]. cbn [fst snd] in Hs, Hr.
    eexists _, _. split; [done|]. split; [exact Hs|]. destruct (Nat.eqb_spec (kv_tokens (w_cache w seq pos)) pos) as [Hk|Hk].
    + destruct (run_layers full _ _ x pos t mask) as [[y|u] slots].
      * destruct Hr as (Hl & Herr & Hdec). rw Herr Hdec bool_decide_eq_false_2; [by intros []|].
        split; [intros ? [= <-]; split; [done|by eexists]|]. by intros _ _ ? ? [= <- _].
      * rw bool_decide_eq_true_2 //.
    + rw bool_decide_eq_true_2 //.
  - eexists _, _. split; [done|]. split; [by apply same_refl|]. done.
  - eexists _, _. split; [done|]. split; [exact Hs|]. done.
Qed.

Definition blocks_of (ws : list WorkerLink) : list Block := concat ((fun w => ql_blocks (w_model w)) <$> ws).
(** The slots of [seq] over the workers, in order; and that they are held, [n]
    positions each. *)
Definition caches (ws : list WorkerLink) (seq pos : nat) : list KvSlot := concat ((fun w => kv_entries (w_cache w seq pos)) <$> ws).
Definition ready (ws : list WorkerLink) (seq pos : nat) : Prop := Forall (fun w => kv_tokens (w_cache w seq pos) = pos) ws.
Inductive holds (seq n : nat) : list WorkerLink -> list KvSlot -> Prop :=
| holds_nil : holds seq n [] []
| holds_cons w ws s sl : w_kvs w !! seq = Some (mkSeqKv s n) -> holds seq n ws sl -> holds seq n (w :: ws) (s ++ sl).

Lemma forward_workers_spec net enc rid seq pos t i ws x mask :
  Encs enc -> Forall w_ok ws -> Act t x -> causal_mask t pos = Ok mask -> (Z.of_nat (pos + t) <= u32_max)%Z ->
  exists ws' r,
    forward_workers net enc rid seq pos t (embedding_length (ql_cfg full)) i ws x = (ws', r) /\
    Forall2 (w_same seq) ws ws' /\
    (forall y, r = Ok y -> ready ws seq pos /\ exists slots,
       run_layers full (blocks_of ws) (caches ws seq pos) x pos t mask = (Ok y, slots) /\ holds seq (pos + t) ws' slots) /\
    ((forall j, net j = Delivered) -> ready ws seq pos -> forall y slots,
       run_layers full (blocks_of ws) (caches ws seq pos) x pos t mask = (Ok y, slots) -> r = Ok y).
Proof.
  intros Henc Hall Hx Hm Hb. revert i x Hx. induction Hall as [|w ws Hw Hall IH]; intros i x Hx.
  - exists [], (Ok x). cbn. split_and!; try done; [|by intros _ _ ?? [= <- _]].
    intros y [= <-]. split; [by constructor|]. exists []. split; [done|constructor].
  - cbn [forward_workers]. destruct (act_wire enc t x Henc Hx) as (data & scale & He & Hd). rw He.
    destruct (call_worker_spec (net i) w seq pos t x enc rid data scale mask Hw Hx Hm Hb He Hd) as (w' & r & -> & Hs & Hok & Hdel).
    pose proof (w_cache_typed w seq pos Hw) as Hty.
    assert (forall y, run_layers full (blocks_of (w :: ws)) (caches (w :: ws) seq pos) x pos t mask = y ->
      match run_layers full (ql_blocks (w_model w)) (kv_entries (w_cache w seq pos)) x pos t mask with
      | (Ok x', s1') => let '(r, s2') := run_layers full (blocks_of ws) (caches ws seq pos) x' pos t mask in (r, s1' ++ s2')
      | (Err u, s1') => (Err u, s1' ++ caches ws seq pos)
      end = y) as Happ by (intros y <-; symmetry; by apply run_layers_app).
    destruct r as [x1|u].
    + destruct (Hok x1 eq_refl) as (Hk & slots1 & Hr1 & Hh1).
      pose proof (act_layers _ _ _ _ _ _ _ _ (proj2 (proj2 (proj2 Hw))) Hx Hr1) as Hx1.
      destruct (IH (S i) x1 Hx1) as (ws' & r' & -> & Hs' & Hok' & Hdel'). eexists _, _. split; [done|].
      split; [by constructor|]. split.
      * intros y Hy. destruct (Hok' y Hy) as (Hk' & slots2 & Hr2 & Hh2). split; [by constructor|].
        exists (slots1 ++ slots2). split; [|by constructor]. specialize (Happ _ eq_refl). rw Hr1 Hr2 in Happ. by rw Happ.
      * intros Hn Hrd y slots Hrun. apply Forall_cons in Hrd as [_ Hrd]. specialize (Happ _ Hrun). rw Hr1 in Happ.
        destruct (run_layers full (blocks_of ws) (caches ws seq pos) x1 pos t mask) as [r2 s2] eqn:E2.
        injection Happ as -> _. by eapply Hdel'.
    + eexists _, _. split; [done|]. split; [constructor; [done|]|].
      { apply Forall_Forall2_diag. by eapply Forall_impl; [exact Hall|]; intros ? ?; apply same_refl. }
      split; [done|]. intros Hn Hrd y slots Hrun. apply Forall_cons in Hrd as [Hk Hrd]. specialize (Happ _ Hrun).
      destruct (run_layers full (ql_blocks (w_model w)) _ x pos t mask) as [[x1|u1] s1] eqn:E1; [|done].
      by specialize (Hdel (Hn i) Hk _ _ eq_refl).
Qed.

(** ** The invariant *)

(** A pipeline of the whole model: its head and workers carry the model's
    parameters, and their layers are the model's, in order. *)
Record sliced pm bm : Prop := {
  sl_full : bl_model bm = full;
  sl_params : same_params (pm_head pm) full;
  sl_embed : ql_embed (pm_head pm) = ql_embed full;
  sl_out : ql_out (pm_head pm) = ql_out full;
  sl_blocks : ql_blocks full = ql_blocks (pm_head pm) ++ blocks_of (pm_workers pm);
  sl_workers : Forall w_ok (pm_workers pm);
  sl_encoding : Encs (pm_encoding pm);
}.

(** The cache the whole model has for [s] is the coordinator's followed by the
    workers', all of the same number of positions. *)
Definition in_sync pm bm (s : nat) : Prop :=
  match bl_kvs bm !! s with
  | None => pm_kvs pm !! s = None
  | Some K => exists k0 sl,
      pm_kvs pm !! s = Some (mkSeqKv k0 (kv_tokens K)) /\ length k0 = length (ql_blocks (pm_head pm)) /\
      holds s (kv_tokens K) (pm_workers pm) sl /\ kv_entries K = k0 ++ sl
  end.

(** Every sequence outside [B] is in step. *)
Definition sync (B : gset nat) pm bm : Prop := sliced pm bm /\ forall s, s ∉ B -> in_sync pm bm s.

(** What a step of the coordinator never changes. *)
Definition same_coord pm pm1 : Prop := pm_head pm1 = pm_head pm /\ pm_encoding pm1 = pm_encoding pm.

Lemma holds_same seq s n ws ws' sl : Forall2 (w_same seq) ws ws' -> s <> seq -> holds s n ws sl -> holds s n ws' sl.
Proof.
  intros Hs Hne Hh. revert ws' Hs. induction Hh as [|w ws e sl Hw Hh IH]; intros ws' Hs; inversion Hs as [|? w' ? ws1 H1 H2]; subst;
    constructor; [|by apply IH]. destruct H1 as (_ & _ & ->); done.
Qed.

Lemma blocks_same seq ws ws' : Forall2 (w_same seq) ws ws' -> blocks_of ws' = blocks_of ws.
Proof. rw /blocks_of. induction 1 as [|w w' ws ws' (Hm & _) _ IH]; [done|]. cbn. by rw Hm IH. Qed.

Lemma ok_same seq ws ws' : Forall2 (w_same seq) ws ws' -> Forall w_ok ws'.
Proof. induction 1 as [|w w' ws ws' (_ & Hok & _) _ IH]; by constructor. Qed.

Lemma holds_caches seq n ws sl : holds seq n ws sl -> 0 < n -> ready ws seq n /\ caches ws seq n = sl.
Proof.
  intros Hh Hn. induction Hh as [|w ws s sl Hw Hh [Hr Hc]]; [by split; [constructor|]|].
  assert (w_cache w seq n = mkSeqKv s n) as Hk by (rw /w_cache Hw; by destruct n; [lia|]).
  split; [constructor; [by rw Hk|done]|]. rw /caches fmap_cons Hk /=. by f_equal.
Qed.

Lemma caches_zero seq ws : Forall w_ok ws -> ready ws seq 0 /\ caches ws seq 0 = replicate (length (blocks_of ws)) None.
Proof.
  induction 1 as [|w ws Hw Hall [Hr Hc]]; [by split; [constructor|]|]. split; [by constructor|].
  rw /caches /blocks_of !fmap_cons /= length_app replicate_add. f_equal; [|exact Hc].
  pose proof (w_cache_typed w seq 0 Hw) as Hty. revert Hty. rw /kv_typed /w_cache /= length_fmap => Hty.
  by apply (clear_entries (w_model w)).
Qed.

Lemma caches_length seq pos ws : Forall w_ok ws -> length (caches ws seq pos) = length (blocks_of ws).
Proof.
  induction 1 as [|w ws Hw Hall IH]; [done|]. rw /caches /blocks_of !fmap_cons /= !length_app. f_equal; [|exact IH].
  apply (w_cache_typed w seq pos Hw).
Qed.

Lemma run_stages_spec net pm bm seq toks pos kv n :
  sliced pm bm -> kv_typed (pm_head pm) kv -> (Z.of_nat (pos + length toks) <= u32_max)%Z ->
  exists pm' kv' r,
    run_stages net pm seq toks pos kv = (pm', kv', r) /\
    same_coord pm pm' /\ pm_kvs pm' = pm_kvs pm /\ Forall2 (w_same seq) (pm_workers pm) (pm_workers pm') /\
    kv_typed (pm_head pm) kv' /\
    let K := mkSeqKv (kv_entries kv ++ caches (pm_workers pm) seq pos) n in
    (forall y, r = Ok y -> ready (pm_workers pm) seq pos /\ exists x slots,
       embed_tokens full toks = Ok x /\ holds seq (pos + length toks) (pm_workers pm') slots /\
       kv_tokens kv' = pos + length toks /\
       forward_hidden full x pos K = (Ok y, mkSeqKv (kv_entries kv' ++ slots) (pos + length toks))) /\
    ((forall j, net j = Delivered) -> ready (pm_workers pm) seq pos -> forall x y K',
       embed_tokens full toks = Ok x -> forward_hidden full x pos K = (Ok y, K') -> r = Ok y).
Proof.
  intros [Hbm Hp Hemb Hout Hblk Hws Henc] Hty Hb. rw /run_stages.
  assert (embed_tokens (pm_head pm) toks = embed_tokens full toks) as -> by (by rw /embed_tokens Hemb).
  assert (Forall2 (w_same seq) (pm_workers pm) (pm_workers pm)) as Hrefl.
  { apply Forall_Forall2_diag. eapply Forall_impl; [exact Hws|]. intros w. apply same_refl. }
  destruct (embed_tokens full toks) as [x|] eqn:Ex; [|by eexists _, _, _]. pose proof (act_embed _ _ Ex) as Hx.
  pose proof (act_dims _ _ Hx) as Hd. set (K := mkSeqKv _ n).
  assert (kv_typed full K) as HtyK.
  { rw /kv_typed /K /= Hblk !length_app Hty (caches_length seq pos _ Hws) //. }
  destruct (causal_mask (length toks) pos) as [mask|] eqn:Em.
  2:{ rw {1}/forward_hidden Hty Nat.eqb_refl /= Hd /= Em /=. eexists _, _, _. split; [done|]. split_and!; try done.
      intros _ _ x' y K' [= <-]. by rw {1}/forward_hidden HtyK Nat.eqb_refl /= Hd /= Em /=. }
  rw (forward_hidden_run _ _ _ _ _ _ _ _ Hty Hd Em) (run_layers_params _ full) //.
  pose proof (run_layers_length full (ql_blocks (pm_head pm)) (kv_entries kv) x pos (length toks) mask) as Hlen.
  assert (forall x', (Ok x : result Tensor Error) = Ok x' -> x' = x) as Hxx by (by intros x' [= ->]).
  pose proof (forward_hidden_run full x pos K _ _ _ _ HtyK Hd Em) as Hfull.
  pose proof (run_layers_app full (ql_blocks (pm_head pm)) (blocks_of (pm_workers pm)) (kv_entries kv)
    (caches (pm_workers pm) seq pos) x pos (length toks) mask Hty) as Happ.
  rw -Hblk in Happ. change (kv_entries kv ++ caches (pm_workers pm) seq pos) with (kv_entries K) in Happ. rw Happ in Hfull.
  destruct (run_layers full (ql_blocks (pm_head pm)) (kv_entries kv) x pos (length toks) mask) as [[x1|u] s1] eqn:E1; cbn in Hlen.
  2:{ eexists _, _, _. split; [done|]. split_and!; try done; [by rw /kv_typed /= Hlen|].
      intros _ _ x' y K' ->%Hxx. by rw Hfull. }
  assert (Act (length toks) x1) as Hx1.
  { eapply act_layers; [|exact Hx|exact E1]. intros bl Hbl. rw Hblk. set_solver. }
  rw /forward_remote. rw (_ : ql_cfg (pm_head pm) = ql_cfg full); [apply Hp|].
  destruct (forward_workers_spec net (pm_encoding pm) (pm_next_request_id pm) seq pos (length toks) 0 (pm_workers pm) x1 mask
    Henc Hws Hx1 Em Hb) as (ws' & r & -> & Hsame & Hok & Hdel).
  eexists _, _, _. split; [done|]. split_and!; try done; [by rw /kv_typed /= Hlen|..].
  - intros y Hy. destruct (Hok y Hy) as (Hr & slots & Hrun & Hh). split; [done|]. exists x, slots. split_and!; try done.
    by rw Hfull Hrun.
  - intros Hn Hr x' y K' ->%Hxx. rw Hfull.
    destruct (run_layers full (blocks_of (pm_workers pm)) _ x1 pos _ mask) as [[y2|] s2] eqn:E2; [|done].
    intros [= <- _]. by eapply Hdel.
Qed.

(** ** One operation *)

Lemma sliced_update pm bm s kvs pm1 :
  sliced pm bm -> same_coord pm pm1 -> Forall2 (w_same s) (pm_workers pm) (pm_workers pm1) ->
  sliced pm1 (with_kvs bm kvs).
Proof.
  intros [Hbm Hp Hemb Hout Hblk Hws Henc] [Hh He] Hs. split; rw ?Hh ?He //.
  - by rw (blocks_same _ _ _ Hs).
  - by eapply ok_same.
Qed.

(** The other sequences stay in step. *)
Lemma other_in_sync pm bm s s' kvs pm1 :
  in_sync pm bm s' -> s' <> s -> pm_head pm1 = pm_head pm -> pm_kvs pm1 !! s' = pm_kvs pm !! s' ->
  kvs !! s' = bl_kvs bm !! s' -> Forall2 (w_same s) (pm_workers pm) (pm_workers pm1) ->
  in_sync pm1 (with_kvs bm kvs) s'.
Proof.
  rw /in_sync /=. intros Hin Hne Hh -> -> Hs. destruct (bl_kvs bm !! s') as [K|]; [|done]. rw Hh.
  destruct Hin as (k0 & sl & Hk & Hl & Hho & He). exists k0, sl. split_and!; try done. by eapply holds_same.
Qed.

Lemma broken_sync B pm bm s kvs pm1 :
  sync B pm bm -> same_coord pm pm1 -> (forall s', s' <> s -> pm_kvs pm1 !! s' = pm_kvs pm !! s') ->
  (forall s', s' <> s -> kvs !! s' = bl_kvs bm !! s') -> Forall2 (w_same s) (pm_workers pm) (pm_workers pm1) ->
  sync (B ∪ {[s]}) pm1 (with_kvs bm kvs) /\
  (in_sync pm1 (with_kvs bm kvs) s -> sync (B ∖ {[s]}) pm1 (with_kvs bm kvs)).
Proof.
  intros [Hsl Hin] Hh Hk Hkb Hs. pose proof (sliced_update pm bm s kvs pm1 Hsl Hh Hs) as Hsl1.
  assert (forall s', s' ∉ B -> s' <> s -> in_sync pm1 (with_kvs bm kvs) s') as Hother.
  { intros s' HB Hne. apply (other_in_sync pm bm s); [by apply Hin|done|apply Hh|by apply Hk|by apply Hkb|done]. }
  split; [|intros H1]; (split; [done|]); intros s' HB.
  - apply Hother; set_solver.
  - destruct (decide (s' = s)) as [->|Hne]; [done|apply Hother; set_solver].
Qed.

Lemma workers_refl s pm bm : sliced pm bm -> Forall2 (w_same s) (pm_workers pm) (pm_workers pm).
Proof. intros Hsl. apply Forall_Forall2_diag. eapply Forall_impl; [apply (sl_workers _ _ Hsl)|]. intros w. apply same_refl. Qed.

Lemma update_sync B pm bm s kv' K' pm1 :
  sync B pm bm -> same_coord pm pm1 -> pm_kvs pm1 = <[s := kv']> (pm_kvs pm) ->
  Forall2 (w_same s) (pm_workers pm) (pm_workers pm1) -> kv_typed (pm_head pm) kv' ->
  let bm1 := with_kvs bm (<[s := K']> (bl_kvs bm)) in
  sync (B ∪ {[s]}) pm1 bm1 /\
  ((exists slots, holds s (kv_tokens kv') (pm_workers pm1) slots /\
      K' = mkSeqKv (kv_entries kv' ++ slots) (kv_tokens kv')) -> sync (B ∖ {[s]}) pm1 bm1).
Proof.
  intros Hsy Hh Hk Hs Hty bm1. destruct (broken_sync B pm bm s (<[s := K']> (bl_kvs bm)) pm1 Hsy Hh) as [H1 H2].
  - intros s' Hne. by rw Hk lookup_insert_ne.
  - intros s' Hne. by rw lookup_insert_ne.
  - done.
  - split; [exact H1|]. intros (slots & Hh1 & ->). apply H2.
    rw /in_sync /= lookup_insert_eq. exists (kv_entries kv'), slots. rw Hk lookup_insert_eq (proj1 Hh). by destruct kv'.
Qed.

Lemma output_head pm bm x : sliced pm bm -> output (pm_head pm) x = output full x.
Proof. intros Hsl. by rw /output (sl_out _ _ Hsl). Qed.

Lemma last_logits_head pm bm x want : sliced pm bm -> last_logits (pm_head pm) x want = last_logits full x want.
Proof. intros Hsl. by rw /last_logits (output_head pm bm). Qed.

Lemma run_put pm bm B s toks pos want net kv n :
  sync B pm bm -> kv_typed (pm_head pm) kv -> (Z.of_nat (pos + length toks) <= u32_max)%Z -> kv_tokens kv = pos ->
  let K := mkSeqKv (kv_entries kv ++ caches (pm_workers pm) s pos) n in
  let '(pm1, kv', r1) := run_stages net pm s toks pos kv in
  let r' := let? hidden := r1 in last_logits (pm_head pm) hidden want in
  let '(K', r) := match embed_tokens full toks with
                  | Err e => (K, Err e)
                  | Ok hidden => let '(r, K') := forward_hidden full hidden pos K in
                                 (K', let? hidden := r in last_logits full hidden want)
                  end in
  let bm1 := with_kvs bm (<[s := K']> (bl_kvs bm)) in
  sync (B ∪ {[s]}) (put_kv pm1 s kv') bm1 /\
  (forall v, r' = Ok v -> r = Ok v /\ sync (B ∖ {[s]}) (put_kv pm1 s kv') bm1) /\
  ((forall j, net j = Delivered) -> ready (pm_workers pm) s pos -> forall v, r = Ok v -> r' = Ok v) /\
  same_coord pm pm1.
Proof.
  intros Hsy Hty Hb Hkt K. pose proof (proj1 Hsy) as Hsl.
  destruct (run_stages_spec net pm bm s toks pos kv n Hsl Hty Hb) as (pm1 & kv' & r1 & -> & Hh & Hk & Hs & Hty' & Hok & Hdel).
  fold K in Hok, Hdel. set (p := match embed_tokens full toks with Ok _ => _ | Err _ => _ end).
  destruct p as [K' r] eqn:Ep. subst p.
  destruct (update_sync B pm bm s kv' K' (put_kv pm1 s kv') Hsy) as [H1 H2]; [done|by rw /= Hk|done..|].
  split; [exact H1|]. split_and!; [| |done].
  - intros v Hv. destruct r1 as [y|]; [|done]. cbn in Hv. rw (last_logits_head pm bm) // in Hv.
    destruct (Hok y eq_refl) as (_ & x & slots & Hx & Hho & Hkt' & Hf). rw Hx Hf /= in Ep. injection Ep as <- <-.
    split; [done|]. apply H2. exists slots. by rw Hkt'.
  - intros Hn Hr v Hv. destruct (embed_tokens full toks) as [x|] eqn:Ex; [|by injection Ep as _ <-].
    destruct (forward_hidden full x pos K) as [[y|] K2] eqn:Ef; [|by injection Ep as _ <-]. injection Ep as _ <-.
    rw (Hdel Hn Hr x y K2 eq_refl Ef) /=. by rw (last_logits_head pm bm).
Qed.

Lemma ready_cache pm bm s K : in_sync pm bm s -> bl_kvs bm !! s = Some K -> 0 < kv_tokens K ->
  exists k0, pm_kvs pm !! s = Some (mkSeqKv k0 (kv_tokens K)) /\ length k0 = length (ql_blocks (pm_head pm)) /\
    ready (pm_workers pm) s (kv_tokens K) /\ K = mkSeqKv (k0 ++ caches (pm_workers pm) s (kv_tokens K)) (kv_tokens K).
Proof.
  rw /in_sync. intros Hin HK Hpos. rw HK in Hin. destruct Hin as (k0 & sl & Hk & Hl & Hh & He).
  destruct (holds_caches _ _ _ _ Hh Hpos) as [Hr Hc]. exists k0. split_and!; try done. rw Hc -He. by destruct K.
Qed.

(** The two runs of a prefill whose caches are ready. *)
Lemma prefill_runs net pm bm B s toks pos want kv n :
  sync B pm bm -> kv_typed (pm_head pm) kv -> (Z.of_nat (pos + length toks) <= u32_max)%Z ->
  kv_tokens kv = pos -> n = pos -> ready (pm_workers pm) s pos ->
  pm_kvs pm !! s = Some kv ->
  forall bm1 r pm1 r',
  (let K := mkSeqKv (kv_entries kv ++ caches (pm_workers pm) s pos) n in
   match embed_tokens full toks with
   | Err e => (with_kvs bm (<[s := K]> (bl_kvs bm)), Err e)
   | Ok hidden => let '(r, K') := forward_hidden full hidden pos K in
                  (with_kvs bm (<[s := K']> (bl_kvs bm)), let? hidden := r in last_logits full hidden want)
   end) = (bm1, r) ->
  (let '(pm2, kv', r1) := run_stages net pm s toks pos kv in
   (put_kv pm2 s kv', let? hidden := r1 in last_logits (pm_head pm2) hidden want)) = (pm1, r') ->
  sync (B ∪ {[s]}) pm1 bm1 /\ (forall v, r' = Ok v -> r = Ok v /\ sync (B ∖ {[s]}) pm1 bm1) /\
  ((forall j, net j = Delivered) -> forall v, r = Ok v -> r' = Ok v).
Proof.
  intros Hsy Hty Hb Hkt -> Hr Hk bm1 r pm1 r'.
  pose proof (run_put pm bm B s toks pos want net kv pos Hsy Hty Hb Hkt) as Hrun.
  destruct (run_stages net pm s toks pos kv) as [[pm2 kv'] r1]. cbv zeta in Hrun |- *.
  destruct (embed_tokens full toks) as [x|]; [destruct (forward_hidden full x pos _) as [rf K']|];
    destruct Hrun as (H1 & H2 & H3 & Hh); intros [= <- <-] [= <- <-]; rw (proj1 Hh); (split; [exact H1|split; [exact H2|]]);
    intros Hn; by apply H3.
Qed.

Lemma prefill_sync net pm bm B s toks pos want bm1 r pm1 r' :
  sync B pm bm -> bl_typed bm -> s ∉ B \/ pos = 0 -> (Z.of_nat (pos + length toks) <= u32_max)%Z ->
  bl_prefill bm s toks pos want = (bm1, r) -> pm_prefill net pm s toks pos want = (pm1, r') ->
  sync (B ∪ {[s]}) pm1 bm1 /\ (forall v, r' = Ok v -> r = Ok v /\ sync (B ∖ {[s]}) pm1 bm1) /\
  ((forall j, net j = Delivered) -> forall v, r = Ok v -> r' = Ok v).
Proof.
  intros Hsy Hbt HB Hb. pose proof (proj1 Hsy) as Hsl. destruct (Nat.eqb_spec pos 0) as [->|Hpos].
  - rw /bl_prefill /pm_prefill (sl_full _ _ Hsl) /= lookup_insert_eq.
    set (kv0 := new_kv (pm_head pm)). destruct (caches_zero s _ (sl_workers _ _ Hsl)) as [Hr Hc].
    assert (SeqKv_clear (default (new_kv full) (bl_kvs bm !! s)) = mkSeqKv (kv_entries kv0 ++ caches (pm_workers pm) s 0) 0) as ->.
    { rw /SeqKv_clear. f_equal. rw Hc /= -replicate_add -length_app -(sl_blocks _ _ Hsl).
      apply (clear_entries full). destruct (bl_kvs bm !! s) as [kv|] eqn:E; [|apply new_kv_typed].
      rw -(sl_full _ _ Hsl). by apply (Hbt s). }
    assert (sync (B ∪ {[s]}) (put_kv pm s kv0) (with_kvs bm (bl_kvs bm))) as Hsy0.
    { refine (proj1 (broken_sync B pm bm s (bl_kvs bm) (put_kv pm s kv0) Hsy (conj eq_refl eq_refl) _ _ (workers_refl s pm bm Hsl))); [|done].
      intros s' Hne. by rw /= lookup_insert_ne. }
    assert (with_kvs bm (bl_kvs bm) = bm) as Hbm by (by destruct bm). rw Hbm in Hsy0.
    intros Hbl Hpm. destruct (prefill_runs net (put_kv pm s kv0) bm (B ∪ {[s]}) s toks 0 want kv0 0 Hsy0 (new_kv_typed _) Hb
      eq_refl eq_refl Hr (lookup_insert_eq _ _ _) bm1 r pm1 r') as (H1 & H2 & H3); [done|done|].
    rw (_ : B ∪ {[s]} = B ∪ {[s]} ∪ {[s]}); [set_solver|]. rw (_ : B ∖ {[s]} = (B ∪ {[s]}) ∖ {[s]}); [set_solver|]. done.
  - destruct HB as [HB|]; [|done]. pose proof (proj2 Hsy s HB) as Hin.
    assert (forall pm2 kvs, same_coord pm pm2 -> (forall s', s' <> s -> pm_kvs pm2 !! s' = pm_kvs pm !! s') ->
      (forall s', s' <> s -> kvs !! s' = bl_kvs bm !! s') -> pm_workers pm2 = pm_workers pm ->
      sync (B ∪ {[s]}) pm2 (with_kvs bm kvs)) as Herr.
    { intros pm2 kvs Hh Hk Hkb Hw. refine (proj1 (broken_sync B pm bm s kvs pm2 Hsy Hh Hk Hkb _)). rw Hw.
      by apply (workers_refl s pm bm). }
    rw /bl_prefill /pm_prefill (sl_full _ _ Hsl). destruct (Nat.eqb_spec pos 0); [lia|].
    destruct (bl_kvs bm !! s) as [K|] eqn:EK; cbn.
    + destruct (Nat.eqb_spec (kv_tokens K) pos) as [Hkp|Hkp]; cbn.
      * destruct (ready_cache pm bm s K Hin EK) as (k0 & Hk & Hl & Hr & HK); [lia|]. rw Hk /= Hkp Nat.eqb_refl /=.
        rw {1 2}HK Hkp. rw Hkp in Hr, Hk. intros Hbl Hpm.
        by apply (prefill_runs net pm bm B s toks pos want (mkSeqKv k0 pos) pos Hsy Hl Hb eq_refl eq_refl Hr Hk).
      * intros Hbl. injection Hbl as <- <-. rw /in_sync EK in Hin. destruct Hin as (k0 & sl & -> & _). cbn.
        destruct (Nat.eqb_spec (kv_tokens K) pos); [done|]. intros [= <- <-]. split; [|done].
        apply Herr; try done; intros s' Hne; by rw /= lookup_insert_ne.
    + destruct pos as [|pos']; [lia|]. intros Hbl. injection Hbl as <- <-. rw /in_sync EK in Hin. rw Hin. intros [= <- <-].
      split; [|done]. apply Herr; try done; intros s' Hne; by rw /= lookup_insert_ne.
Qed.

Lemma pm_decode_prefill net pm s tok kv : pm_kvs pm !! s = Some kv -> 0 < kv_tokens kv ->
  pm_decode net pm [(s, tok)] =
    let '(pm1, r) := pm_prefill net pm s [tok] (kv_tokens kv) true in
    (pm1, let? o := r in match o with Some l => Ok [l] | None => Ok [] end).
Proof.
  intros Hk Hpos. rw /pm_decode /pm_prefill Hk. destruct (Nat.eqb_spec (kv_tokens kv) 0); [lia|]. rw Hk Nat.eqb_refl /=.
  destruct (run_stages net pm s [tok] (kv_tokens kv) kv) as [[pm1 kv'] [y|]]; [|done]. cbn. f_equal.
  destruct (output (pm_head pm1) y) as [lg|]; [cbn|done]. by destruct (readback lg).
Qed.

Lemma decode_sync `{!CandleDim} `{!CandleRows} net pm bm B s tok K bm1 ls pm1 r' :
  sync B pm bm -> bl_typed bm -> s ∉ B -> bl_kvs bm !! s = Some K -> 0 < kv_tokens K ->
  (Z.of_nat (kv_tokens K + 1) <= u32_max)%Z ->
  bl_decode bm [(s, tok)] = Some (bm1, Ok ls) -> pm_decode net pm [(s, tok)] = (pm1, r') ->
  sync (B ∪ {[s]}) pm1 bm1 /\ (forall v, r' = Ok v -> v = ls /\ sync (B ∖ {[s]}) pm1 bm1) /\
  ((forall j, net j = Delivered) -> r' = Ok ls).
Proof.
  intros Hsy Hbt HB HK Hpos Hb Hdec Hpm. destruct (batched_decode_equiv bm _ bm1 ls Hbt Hdec) as (Hlen & Hoth & Hi).
  destruct (Hi 0 s tok eq_refl) as (K' & HK' & Hl). assert (K' = K) as -> by congruence.
  destruct (Hl Hpos) as (l & st1 & Hl0 & Hpre & Hs). destruct ls as [|l0 [|]]; try done. injection Hl0 as ->.
  assert (st1 = bm1) as ->.
  { revert Hpre. rw /bl_prefill HK /=. destruct (Nat.eqb_spec (kv_tokens K) 0); [lia|]. rw Nat.eqb_refl /=.
    destruct (embed_tokens _ _); [|done]. destruct (forward_hidden _ _ _ _) as [rf K2]. intros [= Hst _].
    revert Hdec. rw /bl_decode /= HK /=. destruct (decode_batch _ _ _) as [[rr l']|]; [|done]. intros [= Hbm _].
    subst st1 bm1. cbn in Hs, Hoth. rw lookup_insert_eq in Hs. f_equal. apply map_eq. intros s'.
    destruct (decide (s' = s)) as [->|Hne]; [by rw lookup_insert_eq|]. rw lookup_insert_ne // Hoth //. set_solver. }
  destruct (ready_cache pm bm s K (proj2 Hsy s HB) HK Hpos) as (k0 & Hk & _).
  rw (pm_decode_prefill net pm s tok _ Hk Hpos) in Hpm. cbn [kv_tokens] in Hpm.
  destruct (pm_prefill net pm s [tok] (kv_tokens K) true) as [pm2 r2] eqn:E2. injection Hpm as -> <-.
  destruct (prefill_sync net pm bm B s [tok] (kv_tokens K) true _ _ _ _ Hsy Hbt (or_introl HB) Hb Hpre E2) as (Hs1 & Hs2 & Hs3).
  split; [exact Hs1|]. split.
  - intros v Hv. destruct r2 as [o|]; [|done]. destruct (Hs2 o eq_refl) as [Ho Hsy']. injection Ho as <-. cbn in Hv.
    by injection Hv as <-.
  - intros Hn. by rw (Hs3 Hn _ eq_refl).
Qed.

Lemma reset_same net s ws j : Forall w_ok ws ->
  Forall2 (w_same s) ws (imap (fun i w => match net (j + i) with SendFailed => w | _ => set_worker w (reset_sequence (wl_worker w) s) end) ws).
Proof.
  intros Hall. revert j. induction Hall as [|w ws Hw Hall IH]; intros j; [constructor|]. cbn. constructor.
  - assert (w_same s w (set_worker w (reset_sequence (wl_worker w) s))) as Hr.
    { split; [done|]. destruct Hw as (Henc & Hp & Ht & Hb). split.
      - split; [done|]. split; [done|]. split; [by apply map_Forall_delete|done].
      - intros s' Hne. by apply lookup_delete_ne. }
    by destruct (net (j + 0)).
  - eapply Forall2_impl; [|done]. specialize (IH (S j)). erewrite imap_ext; [exact IH|]. intros i w' _. cbn.
    by rw Nat.add_succ_r.
Qed.

Lemma drop_sync net pm bm B s : sync B pm bm -> sync (B ∖ {[s]}) (pm_drop_seq net pm s) (bl_drop_seq bm s).
Proof.
  intros Hsy. pose proof (proj1 Hsy) as Hsl.
  assert (forall pm1, same_coord pm pm1 -> pm_kvs pm1 = delete s (pm_kvs pm) ->
    Forall2 (w_same s) (pm_workers pm) (pm_workers pm1) -> sync (B ∖ {[s]}) pm1 (bl_drop_seq bm s)) as Hd.
  { intros pm1 Hh Hk Hw. refine (proj2 (broken_sync B pm bm s (delete s (bl_kvs bm)) pm1 Hsy Hh _ _ Hw) _).
    - intros s' Hne. by rw Hk lookup_delete_ne.
    - intros s' Hne. by rw lookup_delete_ne.
    - by rw /in_sync /= lookup_delete_eq Hk lookup_delete_eq. }
  rw /pm_drop_seq. destruct (pm_kvs pm !! s) eqn:E.
  - apply Hd; [done|done|]. exact (reset_same net s _ 0 (sl_workers _ _ Hsl)).
  - apply Hd; [done| |by eapply workers_refl]. by rw delete_id.
Qed.

End refine.

(** ** Assembly *)

Section connect.
Context `{HC : Candle} `{HW : !Wire} `{HG : !Gguf}.

Lemma load_blocks_app c cfg l1 l2 b1 b2 :
  load_blocks c cfg l1 = Ok b1 -> load_blocks c cfg l2 = Ok b2 -> load_blocks c cfg (l1 ++ l2) = Ok (b1 ++ b2).
Proof.
  revert b1. induction l1 as [|i l1 IH]; intros b1; cbn; [by intros [= <-]|].
  destruct (load_block c cfg i) as [b|]; [cbn|done]. destruct (load_blocks c cfg l1) as [bs|]; [cbn|done].
  intros [= <-] H2. by rw (IH bs eq_refl H2).
Qed.

Lemma load_with_ok c cfg range parts m : load_with c cfg range parts = Ok m ->
  ql_cfg m = cfg /\ ql_range m = range /\ lr_end range <= n_layers cfg /\
  load_blocks c cfg (layers_of range) = Ok (ql_blocks m) /\
  exists cos sin inf, precompute_freqs (rope_dim cfg) (rope_freq_base cfg) (context_length cfg) = Ok (cos, sin) /\
    internal "weight load" (c_scalar (S754_infinity true)) = Ok inf /\
    ql_cos m = cos /\ ql_sin m = sin /\ ql_neg_inf m = inf /\
    (mp_embedding parts = true -> exists e, load_embed c cfg = Ok e /\ ql_embed m = Some e) /\
    (mp_output parts = true -> exists o, load_output c cfg = Ok o /\ ql_out m = Some o).
Proof.
  rw /load_with /layers_of. case_match eqn:El; [done|]. apply Nat.ltb_ge in El.
  destruct (precompute_freqs _ _ _) as [[cos sin]|]; [cbn|done]. destruct (internal _ (c_scalar _)) as [inf|]; [cbn|done].
  destruct parts as [pe po]; cbn.
  destruct pe; [destruct (load_embed c cfg) as [e|]; [cbn|done]|cbn];
    (destruct po; [destruct (load_output c cfg) as [o|]; [cbn|done]|cbn]);
    (destruct (load_blocks c cfg _) as [bs|]; [cbn|done]); intros [= <-]; cbn; split_and!; try done;
    exists cos, sin, inf; split_and!; try done; intros _; by eexists.
Qed.

(** Two slices of one file carry the same parameters. *)
Lemma load_same c cfg r1 r2 p1 p2 m1 m2 :
  load_with c cfg r1 p1 = Ok m1 -> load_with c cfg r2 p2 = Ok m2 -> same_params m1 m2.
Proof.
  intros (H1 & _ & _ & _ & cos1 & sin1 & inf1 & Hp1 & Hi1 & Hc1 & Hs1 & Hn1 & _)%load_with_ok
         (H2 & _ & _ & _ & cos2 & sin2 & inf2 & Hp2 & Hi2 & Hc2 & Hs2 & Hn2 & _)%load_with_ok.
  rw /same_params. split_and!; congruence.
Qed.

(** A dialed worker that loaded slice [r] of the file and has served nothing. *)
Definition fresh_worker (c : Content) (ws : WorkerState) : Prop :=
  exists name r, range_wf r /\ load_worker c name r = Some (Ok ws).

Lemma connect_workers_ok dial endpoints ws : connect_workers dial endpoints = Ok ws ->
  Forall2 (fun e w => dial e = Some (wl_worker w, wl_enc_out w) /\
    wl_range w = mkRange (Z.to_nat (Z.of_nat (lr_start (ql_range (w_model w))) mod 2 ^ 32))
                         (Z.to_nat (Z.of_nat (lr_end (ql_range (w_model w))) mod 2 ^ 32)) /\ range_wf (wl_range w)) endpoints ws.
Proof.
  revert ws. induction endpoints as [|e es IH]; intros ws; cbn; [by intros [= <-]|].
  rw /connect_worker. destruct (dial e) as [[w enc]|] eqn:Ed; [|done]. cbn.
  destruct (LayerRange.new _ _) as [r|] eqn:Er; [cbn|done]. destruct (connect_workers dial es) as [ws'|]; [cbn|done].
  intros [= <-]. apply range_new_ok in Er as [-> Hwf]. constructor; [by split|]. by apply IH.
Qed.

(** The blocks of the stages are the model's when their ranges tile it. *)
Lemma load_stages c cfg rs bs :
  Forall2 (fun r b => load_blocks c cfg (layers_of r) = Ok b) rs bs ->
  load_blocks c cfg (concat (layers_of <$> rs)) = Ok (concat bs).
Proof. induction 1 as [|r b rs bs Hb _ IH]; [done|]. cbn. by apply load_blocks_app. Qed.

(** What is known of a connected worker. *)
Definition loaded (Encs : Encoding -> Prop) c q (full : QLlama) (w : WorkerLink) : Prop :=
  load_blocks c q (layers_of (wl_range w)) = Ok (ql_blocks (w_model w)) /\
  same_params (w_model w) full /\ w_kvs w = ∅ /\ range_wf (wl_range w) /\ Encs (wl_enc_out w).

Lemma tiled_blocks Encs c q full n r0 b0 ws bs :
  range_wf r0 -> Forall (loaded Encs c q full) ws -> load_blocks c q (layers_of r0) = Ok b0 ->
  validate_coverage n (r0 :: (wl_range <$> ws)) = Ok tt -> load_blocks c q (seq 0 n) = Ok bs ->
  bs = b0 ++ blocks_of ws.
Proof.
  intros Hwf Hall Hb0 Hcov Hbs.
  assert (Forall range_wf (r0 :: (wl_range <$> ws))) as Hwfs.
  { constructor; [done|]. rw Forall_fmap. eapply Forall_impl; [exact Hall|]. by intros w (_ & _ & _ & ? & _). }
  apply (validate_coverage_spec _ _ Hwfs) in Hcov. rw -Hcov in Hbs.
  rw (load_stages c q _ (b0 :: ((fun w => ql_blocks (w_model w)) <$> ws))) in Hbs; [|by injection Hbs].
  constructor; [done|]. clear -Hall. induction Hall as [|w ws (Hw & _) _ IH]; by constructor.
Qed.

(** A connected pipeline of fresh workers is the whole model, cut. *)
Lemma connect_sync (Encs : Encoding -> Prop) c ctx ctx' max_batch cfg dial pm bm :
  range_wf (cc_layers cfg) -> Encs (cc_encoding cfg) ->
  (forall e ws enc, dial e = Some (ws, enc) -> fresh_worker c ws /\ Encs enc) ->
  BatchedLlama_load c ctx' max_batch = Some (Ok bm) -> (Z.of_nat (n_layers (ql_cfg (bl_model bm))) <= u32_max)%Z ->
  pm_connect c ctx cfg dial = Some (Ok pm) -> sync (bl_model bm) Encs ∅ pm bm /\ bl_typed bm.
Proof.
  intros Hwf Henc Hdial. rw /BatchedLlama_load /pm_connect /QLlama_load.
  destruct (from_gguf c) as [[q|]|] eqn:Eq; [|done..].
  destruct (LayerRange.new 0 (n_layers q)) as [r0|] eqn:Er0; [cbn|done]. apply range_new_ok in Er0 as [-> _].
  destruct (load_with c q (mkRange 0 (n_layers q)) parts_full) as [full|] eqn:Efull; [cbn|done].
  intros [= <-]. cbn. case_match eqn:Est; [done|].
  destruct (load_with c q (cc_layers cfg) parts_full) as [head|] eqn:Ehead; [cbn|done].
  destruct (connect_workers dial (cc_workers cfg)) as [ws|] eqn:Ews; [cbn|done].
  destruct (validate_coverage (n_layers (ql_cfg head)) (cc_layers cfg :: (wl_range <$> ws))) as [[]|] eqn:Ecov; [cbn|done].
  intros Hnl [= <-]. destruct (load_with_ok _ _ _ _ _ Efull) as (Hfc & _ & _ & Hfb & ? & ? & ? & _ & _ & _ & _ & _ & Hfe & Hfo).
  destruct (load_with_ok _ _ _ _ _ Ehead) as (Hhc & _ & _ & Hhb & ? & ? & ? & _ & _ & _ & _ & _ & Hhe & Hho).
  pose proof (connect_workers_ok _ _ _ Ews) as Hws.
  assert (Forall (loaded Encs c q full) ws) as Hall.
  { clear Ecov Ews. induction Hws as [|e w es ws (Hd & Hr & Hwr) _ IH]; constructor; [|exact IH].
    destruct (Hdial _ _ _ Hd) as ((name & r & Hrwf & Hload) & Hwe). revert Hload. rw /load_worker /QLlama_load Eq.
    destruct (load_with c q r parts_middle) as [m|] eqn:Em; [cbn|done]. intros [= Hw].
    destruct (load_with_ok _ _ _ _ _ Em) as (_ & Hmr & Hle & Hmb & _).
    assert (w_model w = m) as Hm by (by rw /w_model -Hw). assert (wl_range w = r) as Hwr'.
    { rw Hr Hm Hmr. rw Hfc in Hnl. rw /range_wf in Hrwf. rw /u32_max in Hnl. rw !Z.mod_small; [lia..|]. rw !Nat2Z.id. by destruct r. }
    rw /loaded Hm Hwr'. split_and!; [done|by eapply load_same|by rw /w_kvs -Hw|done|done]. }
  assert (ql_blocks full = ql_blocks head ++ blocks_of ws) as Hblk.
  { eapply (tiled_blocks Encs c q full (n_layers q)); [done..| |]; [by rw -Hhc|]. by rw -Hfb /layers_of /= Nat.sub_0_r. }
  split; [|by apply map_Forall_empty]. split.
  - split; cbn; try done.
    + by eapply load_same.
    + destruct (Hfe eq_refl) as (e & He & ->). destruct (Hhe eq_refl) as (e' & He' & ->). congruence.
    + destruct (Hfo eq_refl) as (o & Ho & ->). destruct (Hho eq_refl) as (o' & Ho' & ->). congruence.
    + apply Forall_forall. intros w Hw. rw Forall_forall in Hall. destruct (Hall w Hw) as (_ & Hp & Hk & _ & Hwe).
      split; [done|]. split; [done|]. rw Hk. split; [apply map_Forall_empty|]. intros bl Hbl. rw Hblk. apply elem_of_app. right.
      rw /blocks_of. apply list_elem_of_In, in_concat. exists (ql_blocks (w_model w)). rw -!list_elem_of_In. split; [|done].
      apply list_elem_of_fmap. by exists w.
  - intros s _. done.
Qed.

End connect.


(** ** Example: two machines with one layer each *)

Module PipelineExamples.
Import ToyCandle.

(** Bytes travel as half-precision values: exactly. *)
#[local] Instance toy_wire : Wire := {|
  f16_to_le_bytes v := (u64_of_float v, 0%Z);
  f16_from_le_bytes lo _ := f32_of_Z lo;
  c_flat x := Ok (floats (concat x));
  c_from_vec vs _ h := if (h =? 1)%nat then Ok ([u64_of_float <$> vs] : list (list Z)) else Err tt;
|}.

Definition header (k : string) : option Z :=
  if decide (k = "llama.block_count") then Some 2%Z
  else if decide (k = "llama.context_length") then Some 16%Z else Some 1%Z.

#[local] Instance toy_gguf : Gguf := {|
  Content := unit;
  QTensor := Z;
  g_string _ k := Some "llama";
  g_u32 _ := header;
  g_f32 _ _ := None;
  g_tensor _ name := Ok (Z.of_nat (String.length name));
  g_dequantize _ := Ok [];
  g_qmatmul z := Ok z;
  g_rmsnorm _ _ := Ok tt;
  g_embedding _ _ := tt;
|}.

Definition is_byte (z : Z) : Prop := (0 <= z < 256)%Z.
Definition act (t : nat) (x : Tensor) : Prop := exists r : list Z, x = [r] /\ length r = t /\ Forall is_byte r.

Lemma byte_exact z : is_byte z -> u64_of_float (f32_of_Z z) = z.
Proof.
  intros [Hz1 Hz2]. assert (Forall (fun n => u64_of_float (f32_of_Z (Z.of_nat n)) = Z.of_nat n) (seq 0 256)) as Hall by compute_dec.
  rw Forall_forall in Hall. specialize (Hall (Z.to_nat z)). rw Z2Nat.id // in Hall. apply Hall, elem_of_seq. lia.
Qed.

Lemma zip_bytes (r r' : list Z) : Forall is_byte (zip_with (fun a b => (a + b) mod 256)%Z r r').
Proof. revert r'. induction r as [|a r IH]; intros [|b r']; cbn; constructor; [|apply IH]. apply Z.mod_pos_bound. lia. Qed.

Lemma attend_act m q k v mask y : attend m ([q] : Tensor) k v mask = Ok y -> exists r, y = [r] /\ length r = length q.
Proof.
  rw /attend. cbn. destruct k as [|b [|]]; [done| |done]. cbn.
  destruct mask; cbn; (destruct v as [|b' [|]]; [done| |done]); cbn; intros [= <-]; eexists; (split; [done|]); by rw !length_fmap.
Qed.

Lemma finish_act bl r y b t e x' : finish bl ([r] : Tensor) ([y] : Tensor) b t e = Ok x' -> length y = length r -> act (length r) x'.
Proof.
  rw /finish /mlp. cbn. intros [= <-] Hl. eexists. split; [done|]. split; [|apply zip_bytes].
  rw !(length_zip_with, length_fmap). lia.
Qed.

Lemma ragged_one (r : list Z) : ragged [r] = false.
Proof. by rw /ragged /= Nat.eqb_refl. Qed.

#[local] Arguments grow : simpl never.
#[local] Arguments attend : simpl never.
#[local] Arguments finish : simpl never.

Lemma block_act m bl x pos t mask s x' s' : act t x ->
  block_forward_single m bl x pos t mask s = (Ok x', s') -> act t x'.
Proof.
  intros (r & -> & <- & Hr). rw /block_forward_single /project /qkv_forward /rope. cbn. rw ragged_one.
  destruct (qp_bias (wq bl)), (qp_bias (wk bl)), (qp_bias (wv bl)), (rope_style (ql_cfg m)); cbn;
    (match goal with |- context [grow s pos ?k ?v] => destruct (grow s pos k v) as [[k' v']|]; [|done] end); intros [= Hf _];
    (match type of Hf with context [attend m ?q ?k ?v mask] => destruct (attend m q k v mask) as [y|] eqn:Ea; [cbn in Hf|done] end);
    apply attend_act in Ea as (y' & -> & Hl); rw length_fmap in Hl; by eapply finish_act.
Qed.

Definition file : Content := tt.

Definition single : BatchedLlama :=
  match BatchedLlama_load file 16 4 with Some (Ok bm) => bm | _ => mkBatched (model []) ∅ 1 1 end.

Lemma single_load : BatchedLlama_load file 16 4 = Some (Ok single).
Proof. reflexivity. Qed.

Lemma values_exact (r : list Z) : Forall is_byte r ->
  u64_of_float <$> f16_values (concat ((fun z => [z; 0%Z]) <$> r)) = r.
Proof. induction 1 as [|z r Hz _ IH]; [done|]. cbn. rw byte_exact //. by f_equal. Qed.

#[local] Instance single_exact : ExactWire (bl_model single) act (fun e => e = EncF16).
Proof.
  split.
  - intros t x (r & -> & <- & _). cbn. by rw ragged_one.
  - intros toks x. cbn. intros [= <-]. eexists. split; [done|]. rw length_fmap. split; [done|].
    apply Forall_fmap, Forall_forall. intros z _. apply Z.mod_pos_bound. lia.
  - intros bl x pos t mask s x' s' _. apply block_act.
  - intros enc t x -> (r & -> & <- & Hr). eexists _, _. rw /encode_activation /=. split; [done|].
    rw app_nil_r. assert (concat ((fun v => [u64_of_float v; 0%Z]) <$> floats r) = concat ((fun z => [z; 0%Z]) <$> r)) as Hc.
    { induction Hr as [|z r Hz _ IH]; [done|]. cbn. rw byte_exact // IH //. }
    cbn in Hc. rw /encode_values /= Hc.
    rw /decode_activation Nat.mul_1_r.
    assert (length (concat ((fun z => [z; 0%Z]) <$> r)) = length r * 2) as -> by (clear; induction r as [|z r IH]; cbn in *; lia).
    rw Nat.eqb_refl. change (Ok [u64_of_float <$> f16_values (concat ((fun z => [z; 0%Z]) <$> r))] = (Ok [r] : result Tensor Error)).
    by rw values_exact.
  - vm_compute. discriminate.
Qed.

(** The coordinator runs layer 0, the worker behind the only endpoint layer 1. *)
Definition worker : WorkerState :=
  match load_worker file "m" (mkRange 1 2) with Some (Ok ws) => ws | _ => mkWorker (model []) ∅ "" end.
Definition cluster : CoordinatorConfig := mkCoordinator (mkRange 0 1) ["w"] EncF16.
Definition dial (e : string) : option (WorkerState * Encoding) := Some (worker, EncF16).
Definition assembled : PipelinedModel :=
  match pm_connect file 16 cluster dial with
  | Some (Ok pm) => pm
  | _ => mkPipelined (model []) ∅ [] EncF16 1 1
  end.

Lemma assembled_connect : pm_connect file 16 cluster dial = Some (Ok assembled).
Proof. reflexivity. Qed.

Lemma worker_fresh : fresh_worker file worker.
Proof. exists "m", (mkRange 1 2). split; [unfold range_wf; simpl; lia|reflexivity]. Qed.

Definition tokens : list Z := [5; 6]%Z.
Definition answers (r : result (option (list f32)) Error) : bool := match r with Ok (Some _) => true | _ => false end.


Definition sample : @Tensor candle := [[127; 5; 0]%Z].

Lemma activation_roundtrip_witness :
  exists data scale,
    encode_activation sample EncInt8 = Ok (data, scale) /\ data = [127; 5; 0]%Z /\
    decode_activation data AE_Int8 scale 3 1 = Ok sample /\
    (exists msg, decode_activation [127; 5]%Z AE_Int8 scale 3 1 = Err (Error_InvalidArgument msg)).
Proof.
  destruct (activation_roundtrip sample EncInt8 (floats (concat sample)) 3 1 ltac:(by vm_compute) ltac:(by vm_compute))
    as [(data & scale & E & D & _ & _) Hbad].
  exists data, scale. split; [exact E|]. assert (E' := E). vm_compute in E'. injection E' as <- <-.
  split_and!; [done| |apply Hbad; by right].
  etrans; [exact D|]. by vm_compute.
Defined.

End PipelineExamples.
