(* ===== verification/KvTransport.v ===== *)
(** * Moving blocks between daemons

    [cgn-kv/src/transport.rs], [cgn-kvcached/src/transport.rs] and
    [cgn-kvcached/src/grpc.rs]: the frame codec over a byte stream, one side of a
    QUIC connection, the client's push and pull, and the RPC handlers, over
    [KvStore]. [bincode] is the class [Bincode]. A stream is what is still to be
    read and what was written; a peer that goes away is a stream that takes a
    limited number of writes. Endpoints, certificates and TLS are left out, up to
    the policy that decides whether peers are authenticated. *)

From S2P Require Import Prelude Hash Float32 Config KvStore.

(** ** Frames *)

Inductive Op := Op_Pull | Op_Push | Op_Ack.

Record Frame := mkFrame { fr_op : Op; fr_addr : BlockAddress; fr_body_len : Z }.

Definition frame_valid (fr : Frame) : Prop := addr_valid (fr_addr fr) /\ is_u64 (fr_body_len fr).

Class Bincode := {
  bincode_serialize : Frame -> list Z;
  bincode_deserialize : list Z -> option Frame;
}.

(** [bincode] gives back what it wrote; its encoding of this frame has a fixed
    size, well below the limit of the reader. *)
Class BincodeLaws `{Bincode} : Prop := {
  bincode_roundtrip fr : frame_valid fr -> bincode_deserialize (bincode_serialize fr) = Some fr;
  bincode_size fr : frame_valid fr -> length (bincode_serialize fr) <= 16 * 1024;
}.

Definition MAX_BLOCK_BYTES : Z := 16 * 1024 * 1024.

(** [u32::to_be_bytes] and [u32::from_be_bytes]. *)
Definition to_be_bytes (t : Z) : list Z := rev (to_le_bytes t).
Definition from_be_bytes (b : list Z) : Z := from_le_bytes (rev b).

(** ** Streams *)

(** [read_exact]: the bytes and the rest, or an error at the end of the stream. *)
Definition read_exact (n : nat) (what : string) (inp : list Z) : result (list Z * list Z) Error :=
  if (length inp <? n)%nat then Err (Error_Internal what) else Ok (take n inp, drop n inp).

(** The sending half: bytes written, and how many more calls succeed. *)
Record SendStream := mkSend { snd_out : list Z; snd_left : nat }.

(** [write_all], also [finish] with no bytes: what it leaves and whether it failed. *)
Definition write_all (bytes : list Z) (what : string) (s : SendStream) : SendStream * result unit Error :=
  match snd_left s with
  | O => (s, Err (Error_Internal what))
  | S n => (mkSend (snd_out s ++ bytes) n, Ok tt)
  end.

Section codec.
Context `{Bincode}.

Definition read_frame (inp : list Z) : result (Frame * list Z) Error :=
  let? (hdr, inp) := read_exact 4 "read hdr" inp in
  let len := from_be_bytes hdr in
  if (16 * 1024 <? len)%Z then Err (Error_InvalidArgument "frame header too big")
  else
    let? (payload, inp) := read_exact (Z.to_nat len) "read frame" inp in
    match bincode_deserialize payload with
    | Some fr => Ok (fr, inp)
    | None => Err (Error_InvalidArgument "decode frame")
    end.

Definition frame_header (fr : Frame) : list Z := to_be_bytes (Z.of_nat (length (bincode_serialize fr)) mod 2 ^ 32).

Definition write_frame (fr : Frame) (s : SendStream) : SendStream * result unit Error :=
  match write_all (frame_header fr) "write hdr" s with
  | (s, Err e) => (s, Err e)
  | (s, Ok _) => write_all (bincode_serialize fr) "write frame" s
  end.

End codec.

(** ** The server *)

Section server.
Context `{Bincode} `{BlockIndex}.
Implicit Types s : Store.

Definition add_pushed (n : Z) s : Store :=
  let k := st_stats s in
  set_stats (mkKvStats (hits k) (misses k) (evictions k) (spills k) (add_u64 (bytes_pushed k) n) (bytes_pulled k)) s.
Definition add_pulled (n : Z) s : Store :=
  let k := st_stats s in
  set_stats (mkKvStats (hits k) (misses k) (evictions k) (spills k) (bytes_pushed k) (add_u64 (bytes_pulled k) n)) s.

(** [Op::Pull]: the block's bytes if it is in RAM, nothing otherwise. *)
Definition serve_pull (now : Z) (addr : BlockAddress) (snd : SendStream) s : Store * SendStream * result unit Error :=
  let (r, b) := RamTier_get_bytes now addr (st_ram s) in
  let s := set_ram r s in
  let bytes := default [] b in
  match write_frame (mkFrame Op_Push addr (blen bytes)) snd with
  | (snd, Err e) => (s, snd, Err e)
  | (snd, Ok _) =>
      let s := add_pushed (blen bytes) s in
      match write_all bytes "quic write body" snd with
      | (snd, Err e) => (s, snd, Err e)
      | (snd, Ok _) => let (snd, r) := write_all [] "quic finish" snd in (s, snd, r)
      end
  end.

(** [Op::Push]. *)
Definition serve_push (f : Faults) (now : Z) (fr : Frame) (inp : list Z) (snd : SendStream) s
    : Store * SendStream * result unit Error :=
  if (MAX_BLOCK_BYTES <? fr_body_len fr)%Z then (s, snd, Err (Error_InvalidArgument "push body exceeds max"))
  else
    match read_exact (Z.to_nat (fr_body_len fr)) "quic read body" inp with
    | Err e => (s, snd, Err e)
    | Ok (bytes, _) =>
        let s := add_pulled (blen bytes) s in
        let (s, ok) := put_ram f now (fr_addr fr) bytes "" s in
        if ok then
          match write_frame (mkFrame Op_Ack (fr_addr fr) 0) snd with
          | (snd, Err e) => (s, snd, Err e)
          | (snd, Ok _) => let (snd, r) := write_all [] "quic finish" snd in (s, snd, r)
          end
        else (s, snd, Err (Error_Internal "index put"))
    end.

(** One bidirectional stream: what the peer sent, and the sending half. *)
Definition serve_stream (f : Faults) (now : Z) (inp : list Z) (snd : SendStream) s : Store * SendStream * result unit Error :=
  match read_frame inp with
  | Err e => (s, snd, Err e)
  | Ok (fr, inp) =>
      match fr_op fr with
      | Op_Pull => serve_pull now (fr_addr fr) snd s
      | Op_Push => serve_push f now fr inp snd s
      | Op_Ack => (s, snd, Ok tt)
      end
  end.

(** [handle_connection] over the streams a peer opens before it closes; an error
    ends the connection. The answers, one list of bytes per stream served. *)
Fixpoint handle_connection (f : Faults) (streams : list (Z * list Z * nat)) s : Store * list (list Z) * result unit Error :=
  match streams with
  | [] => (s, [], Ok tt)
  | (now, inp, calls) :: streams' =>
      match serve_stream f now inp (mkSend [] calls) s with
      | (s, snd, Err e) => (s, [snd_out snd], Err e)
      | (s, snd, Ok _) => let '(s, outs, r) := handle_connection f streams' s in (s, snd_out snd :: outs, r)
      end
  end.

End server.

(** ** The client *)

Section client.
Context `{Bincode}.

(** The request of a pull, and the reading of its answer. *)
Definition pull_request (addr : BlockAddress) (snd : SendStream) : SendStream * result unit Error :=
  match write_frame (mkFrame Op_Pull addr 0) snd with
  | (snd, Err e) => (snd, Err e)
  | (snd, Ok _) => write_all [] "finish" snd
  end.

Definition pull_answer (inp : list Z) : result (list Z) Error :=
  let? (resp, inp) := read_frame inp in
  if (MAX_BLOCK_BYTES <? fr_body_len resp)%Z then Err (Error_InvalidArgument "peer pulled too much")
  else if (0 <? fr_body_len resp)%Z then
    let? (body, _) := read_exact (Z.to_nat (fr_body_len resp)) "read body" inp in Ok body
  else Ok [].

Definition push_request (addr : BlockAddress) (bytes : list Z) (snd : SendStream) : SendStream * result unit Error :=
  match write_frame (mkFrame Op_Push addr (blen bytes)) snd with
  | (snd, Err e) => (snd, Err e)
  | (snd, Ok _) =>
      match write_all bytes "write body" snd with
      | (snd, Err e) => (snd, Err e)
      | (snd, Ok _) => write_all [] "finish" snd
      end
  end.

(** Whatever frame comes back is taken for the acknowledgement. *)
Definition push_answer (inp : list Z) : result unit Error :=
  let? _ := read_frame inp in Ok tt.

End client.

(** A pull or a push against a daemon: its own sending half takes [calls] calls,
    the daemon's [calls']. The daemon serves what was sent, also when the sender
    failed. *)
Section exchange.
Context `{Bincode} `{BlockIndex}.

Definition peer_pull (f : Faults) (now : Z) (addr : BlockAddress) (calls calls' : nat) (remote : Store) : Store * result (list Z) Error :=
  match pull_request addr (mkSend [] calls) with
  | (snd, Err e) => ((serve_stream f now (snd_out snd) (mkSend [] calls') remote).1.1, Err e)
  | (snd, Ok _) =>
      let '(remote, rsnd, _) := serve_stream f now (snd_out snd) (mkSend [] calls') remote in
      (remote, pull_answer (snd_out rsnd))
  end.

Definition peer_push (f : Faults) (now : Z) (addr : BlockAddress) (bytes : list Z) (calls calls' : nat) (remote : Store)
    : Store * result unit Error :=
  match push_request addr bytes (mkSend [] calls) with
  | (snd, Err e) => ((serve_stream f now (snd_out snd) (mkSend [] calls') remote).1.1, Err e)
  | (snd, Ok _) =>
      let '(remote, rsnd, _) := serve_stream f now (snd_out snd) (mkSend [] calls') remote in
      (remote, push_answer (snd_out rsnd))
  end.

End exchange.

(** ** Who may connect *)

Inductive IpAddr := V4 (octets : list Z) | V6 (segments : list Z).

Definition is_loopback (ip : IpAddr) : bool :=
  match ip with
  | V4 o => bool_decide (head o = Some 127%Z)
  | V6 s => bool_decide (s = [0; 0; 0; 0; 0; 0; 0; 1]%Z)
  end.

Inductive QuicSecurity := Mtls (ca cert key server_name : string) | Insecure.

Definition QuicSecurity_from_config (cfg : Config) (listen : IpAddr) : result QuicSecurity Error :=
  let sec := cfg_security cfg in
  if sec_require_mtls sec then
    match sec_ca_file sec, sec_cert_file sec, sec_key_file sec with
    | Some ca, Some cert, Some key => Ok (Mtls ca cert key (kv_quic_server_name (cfg_kv cfg)))
    | _, _, _ => Err (Error_Config "require_mtls=true but [security].ca_file/cert_file/key_file are not set")
    end
  else if is_loopback listen then Ok Insecure
  else if kv_allow_insecure_quic (cfg_kv cfg) then Ok Insecure
  else Err (Error_Config "kv.quic_listen is not loopback and [security].require_mtls is false").

Definition quic_server_name (sec : QuicSecurity) : string :=
  match sec with Mtls _ _ _ name => name | Insecure => "cognitora" end.

(** The process-wide [OnceLock]. *)
Definition install_security (sec : QuicSecurity) (cell : option QuicSecurity) : option QuicSecurity :=
  match cell with Some _ => cell | None => Some sec end.
Definition security (cell : option QuicSecurity) : result QuicSecurity Error :=
  match cell with Some sec => Ok sec | None => Err (Error_Internal "quic security policy not installed") end.

(** ** RPC handlers *)

(** [Status::invalid_argument] is the error; the codes are gRPC's. *)
Record PStatus := mkStatus { ps_code : Z; ps_message : string }.

Inductive PTier := PTier_Unspecified | PTier_Gpu | PTier_Ram | PTier_Ssd.

Definition tier_to_proto (t : TierKind) : PTier :=
  match t with Gpu => PTier_Gpu | Ram => PTier_Ram | Ssd => PTier_Ssd end.

Record BlockInfo := mkInfo {
  bi_prefix_hash : list Z;
  bi_tier : PTier;
  bi_size_bytes : Z;
  bi_owner_node : string;
  bi_last_access_unix_ms : Z;
}.

Definition digest_from_bytes (b : list Z) : result (list Z) Error :=
  if (length b =? 32)%nat then Ok b else Err (Error_InvalidArgument "hash must be 32 bytes").

(** [last_seen_unix * 1000] on [u64]. *)
Definition info_of (d : list Z) (h : BlockHandle) : BlockInfo :=
  mkInfo d (tier_to_proto (bm_tier (bh_meta h))) (bm_bytes (bh_meta h)) ""
    ((bm_last_seen_unix (bh_meta h) * 1000) mod 2 ^ 64)%Z.

Section rpc.
Context `{BlockIndex} `{RamIter}.
Implicit Types s : Store.

Definition kv_lookup (f : Faults) (now : Z) (value : list Z) s : Store * result BlockInfo Error :=
  match digest_from_bytes value with
  | Err e => (s, Err e)
  | Ok d =>
      let (s, h) := Store_lookup f now (mkAddr d 0) s in
      (s, Ok match h with Some h => info_of d h | None => mkInfo d PTier_Unspecified 0 "" 0 end)
  end.

(** [filter_map]: digests of a wrong length and misses are skipped. *)
Fixpoint kv_batch_lookup (f : Faults) (now : Z) (values : list (list Z)) s : Store * list BlockInfo :=
  match values with
  | [] => (s, [])
  | v :: vs =>
      match digest_from_bytes v with
      | Err _ => kv_batch_lookup f now vs s
      | Ok d =>
          let (s, h) := Store_lookup f now (mkAddr d 0) s in
          let (s, infos) := kv_batch_lookup f now vs s in
          (s, match h with Some h => info_of d h :: infos | None => infos end)
      end
  end.

Definition kv_promote (f : Faults) (now : Z) (value : list Z) s : Store * result PStatus Error :=
  match digest_from_bytes value with
  | Err e => (s, Err e)
  | Ok d =>
      let (s, b) := lookup_with_promote f now (mkAddr d 0) s in
      (s, Ok match b with Some _ => mkStatus 0 "promoted" | None => mkStatus 5 "miss" end)
  end.

Definition kv_put_block (f : Faults) (now : Z) (prefix_hash : list Z) (layer : Z) (model : string) (payload : list Z) s
    : Store * result PStatus Error :=
  match digest_from_bytes prefix_hash with
  | Err e => (s, Err e)
  | Ok d =>
      match payload with
      | [] => (s, Ok (mkStatus 3 "empty payload"))
      | _ =>
          let (s, ok) := put_ram f now (mkAddr d layer) payload model s in
          (s, Ok (if ok then mkStatus 0 "stored" else mkStatus 13 "put"))
      end
  end.

(** [target]: the parsed endpoint, if it parses; [send]: the outcome of
    [peer_push] to it. *)
Definition kv_push {A} (now : Z) (prefix_hash : list Z) (target : option A) (send : A -> BlockAddress -> list Z -> result unit Error) s
    : Store * result PStatus Error :=
  match digest_from_bytes prefix_hash with
  | Err e => (s, Err e)
  | Ok d =>
      let addr := mkAddr d 0 in
      let (r, b) := RamTier_get_bytes now addr (st_ram s) in
      let s := set_ram r s in
      match b with
      | None => (s, Ok (mkStatus 5 "block not resident"))
      | Some bytes =>
          match target with
          | None => (s, Ok (mkStatus 3 "bad target_endpoint"))
          | Some remote =>
              match send remote addr bytes with
              | Ok _ => (add_pushed (blen bytes) s, Ok (mkStatus 0 "pushed"))
              | Err _ => (s, Ok (mkStatus 14 "push"))
              end
          end
      end
  end.

Definition kv_pull {A} (f : Faults) (now : Z) (prefix_hash : list Z) (source : option A)
    (fetch : A -> BlockAddress -> result (list Z) Error) s : Store * result PStatus Error :=
  match digest_from_bytes prefix_hash with
  | Err e => (s, Err e)
  | Ok d =>
      let addr := mkAddr d 0 in
      match source with
      | None => (s, Ok (mkStatus 3 "bad source_endpoint"))
      | Some remote =>
          match fetch remote addr with
          | Ok [] => (s, Ok (mkStatus 5 "peer returned empty"))
          | Ok bytes =>
              let (s, ok) := put_ram f now addr bytes "" s in
              if ok then (add_pulled (blen bytes) s, Ok (mkStatus 0 "pulled"))
              else (s, Ok (mkStatus 13 "local insert"))
          | Err _ => (s, Ok (mkStatus 14 "pull"))
          end
      end
  end.

Record StatsResponse := mkStatsResponse {
  sr_ram_used_bytes : Z;
  sr_ram_cap_bytes : Z;
  sr_ssd_used_bytes : Z;
  sr_ssd_cap_bytes : Z;
  sr_hot_blocks : Z;
  sr_warm_blocks : Z;
  sr_cold_blocks : Z;
  sr_hits : Z;
  sr_misses : Z;
  sr_evictions : Z;
  sr_bytes_pushed : Z;
  sr_bytes_pulled : Z;
}.

Definition kv_stats s : StatsResponse :=
  let k := st_stats s in
  mkStatsResponse (ram_used (st_ram s)) (ram_capacity (st_ram s)) (SsdTier_used_bytes (st_ssd s)) (ssd_capacity (st_ssd s))
    0 (Z.of_nat (block_count (st_ram s))) (Z.of_nat (cold_block_count s)) (hits k) (misses k)
    (add_u64 (evictions k) (spills k)) (bytes_pushed k) (bytes_pulled k).

End rpc.

(** ** The codec *)

Section codec_facts.
Context `{Bincode} `{!BincodeLaws}.

Lemma length_to_be t : length (to_be_bytes t) = 4.
Proof. by rw /to_be_bytes length_rev. Qed.

Lemma from_to_be t : is_u32 t -> from_be_bytes (to_be_bytes t) = t.
Proof. intros Ht. rw /from_be_bytes /to_be_bytes rev_involutive. by apply from_to_le_bytes. Qed.

Lemma read_exact_app n what a b : length a = n -> read_exact n what (a ++ b) = Ok (a, b).
Proof.
  intros <-. rw /read_exact length_app. case_match eqn:E; [apply Nat.ltb_lt in E; lia|].
  by rw take_app_length drop_app_length.
Qed.

Lemma read_exact_all what b : read_exact (Z.to_nat (blen b)) what b = Ok (b, []).
Proof. rw -{2}(app_nil_r b) read_exact_app //. by rw /blen Nat2Z.id. Qed.

Lemma read_exact_ok n what inp a b : read_exact n what inp = Ok (a, b) -> inp = a ++ b /\ length a = n.
Proof.
  rw /read_exact. case_match eqn:E; [done|]. apply Nat.ltb_ge in E. intros [= <- <-].
  by rw take_drop length_take_le.
Qed.

Definition frame_bytes (fr : Frame) : list Z := frame_header fr ++ bincode_serialize fr.

Lemma frame_len fr : frame_valid fr ->
  from_be_bytes (frame_header fr) = Z.of_nat (length (bincode_serialize fr)) /\
  (Z.of_nat (length (bincode_serialize fr)) <= 16 * 1024)%Z.
Proof.
  intros Hv. pose proof (bincode_size fr Hv) as Hs. rw /frame_header Z.mod_small; [lia|].
  split; [|lia]. apply from_to_be. rw /is_u32 /u32_max. lia.
Qed.

Lemma read_frame_app fr rest : frame_valid fr -> read_frame (frame_bytes fr ++ rest) = Ok (fr, rest).
Proof.
  intros Hv. destruct (frame_len fr Hv) as [Hl Hle]. rw /read_frame /frame_bytes -assoc read_exact_app; [apply length_to_be|].
  cbn [result_bind]. rw Hl. case_match eqn:E; [apply Z.ltb_lt in E; lia|]. rw Nat2Z.id read_exact_app //=.
  by rw bincode_roundtrip.
Qed.

Lemma read_frame_used inp fr rest : read_frame inp = Ok (fr, rest) ->
  exists used, inp = used ++ rest /\ 4 <= length used /\ (Z.of_nat (length used) <= 4 + 16 * 1024)%Z.
Proof.
  rw /read_frame. destruct (read_exact 4 "read hdr" inp) as [[hdr inp1]|] eqn:E1; [cbn|discriminate].
  destruct (_ <? _)%Z eqn:El; [discriminate|]. apply Z.ltb_ge in El.
  destruct (read_exact _ "read frame" inp1) as [[payload inp2]|] eqn:E2; [cbn|discriminate].
  destruct (bincode_deserialize payload) as [fr'|]; [|discriminate]. intros [= _ <-].
  apply read_exact_ok in E1 as [-> Hl1], E2 as [-> Hl2]. exists (hdr ++ payload). rw -assoc length_app. split; [done|]. lia.
Qed.

Lemma read_frame_ok inp fr rest : read_frame inp = Ok (fr, rest) ->
  exists used, inp = used ++ rest /\ 4 <= length used <= 4 + 16 * 1024.
Proof. intros (used & -> & H1 & H2)%read_frame_used. exists used. split; [done|]. split; [exact H1|]. lia. Qed.

Lemma write_frame_ok fr s : 2 <= snd_left s ->
  write_frame fr s = (mkSend (snd_out s ++ frame_bytes fr) (snd_left s - 2), Ok tt).
Proof.
  destruct s as [out [|[|n]]]; cbn [snd_left]; try lia. intros _.
  rw /write_frame /write_all /frame_bytes. cbn [snd_out snd_left Nat.sub]. by rw assoc Nat.sub_0_r.
Qed.

(** A frame written to a stream is read back, and the reader stops exactly
    where the frame ends, whatever follows it; a stream cut anywhere inside the
    frame gives an error, not a frame. Whatever a peer sends, the reader takes at
    most 4 bytes and 16 KiB for a frame. *)
Lemma frame_roundtrip fr s :
  frame_valid fr -> 2 <= snd_left s ->
  exists w, write_frame fr s = (mkSend (snd_out s ++ w) (snd_left s - 2), Ok tt) /\
    (forall rest, read_frame (w ++ rest) = Ok (fr, rest)) /\
    (forall k, k < length w -> exists e, read_frame (take k w) = Err e) /\
    (forall inp fr' rest, read_frame inp = Ok (fr', rest) ->
       exists used, inp = used ++ rest /\ length used <= 4 + 16 * 1024).
Proof.
  intros Hv Hl. exists (frame_bytes fr). split; [by apply write_frame_ok|]. split; [intros rest; by apply read_frame_app|]. split.
  - intros k Hk. destruct (frame_len fr Hv) as [Hlen Hle]. rw /frame_bytes length_app length_to_be in Hk.
    rw /read_frame /frame_bytes. destruct (decide (k < 4)) as [Hk4|Hk4].
    + rw /read_exact length_take_le; [rw length_app length_to_be; lia|]. case_match eqn:E; [by eexists|].
      apply Nat.ltb_ge in E. lia.
    + rw take_app_ge; [rw length_to_be; lia|]. rw read_exact_app ?length_to_be //. cbn [result_bind]. rw Hlen.
      case_match eqn:E; [apply Z.ltb_lt in E; lia|]. rw Nat2Z.id /read_exact length_take_le; [lia|].
      case_match eqn:E2; [by eexists|]. apply Nat.ltb_ge in E2. lia.
  - intros inp fr' rest Hr. destruct (read_frame_ok _ _ _ Hr) as (used & -> & Hu). exists used. split; [done|lia].
Qed.

End codec_facts.

(** ** Transfers *)

#[local] Opaque frame_bytes.

Section transfer.
Context `{Bincode} `{!BincodeLaws} `{BlockIndex} `{!BlockIndexLaws} `{RamIter}.
Implicit Types s : Store.

(** The contents of a store: RAM bytes, files and index. *)
Definition same_contents s s' : Prop :=
  (forall b, rb s' b = rb s b) /\ st_ssd s' = st_ssd s /\ st_index s' = st_index s.

Lemma pull_sent addr calls : addr_valid addr -> 3 <= calls ->
  exists snd, pull_request addr (mkSend [] calls) = (snd, Ok tt) /\ snd_out snd = frame_bytes (mkFrame Op_Pull addr 0).
Proof.
  intros Ha Hc. rw /pull_request write_frame_ok //=; [lia|]. rw /write_all /=.
  destruct (calls - 2) as [|n] eqn:E; [lia|]. eexists. split; [done|]. by rw /= app_nil_r.
Qed.

Lemma frame_ok op addr n : addr_valid addr -> is_u64 n -> frame_valid (mkFrame op addr n).
Proof. done. Qed.

Lemma pull_served f now addr calls' s : addr_valid addr -> 4 <= calls' -> (blen (default [] (rb s addr)) <= u64_max)%Z ->
  exists s' snd, serve_stream f now (frame_bytes (mkFrame Op_Pull addr 0)) (mkSend [] calls') s = (s', snd, Ok tt) /\
    snd_out snd = frame_bytes (mkFrame Op_Push addr (blen (default [] (rb s addr)))) ++ default [] (rb s addr) /\
    same_contents s s' /\ bytes_pushed (st_stats s') = add_u64 (bytes_pushed (st_stats s)) (blen (default [] (rb s addr))).
Proof.
  intros Ha Hc Hb. rw /serve_stream -(app_nil_r (frame_bytes _)) read_frame_app; [by apply frame_ok|]. cbn [fr_op fr_addr].
  rw /serve_pull. destruct (RamTier_get_bytes_spec now addr (st_ram s)) as (Hget & Hsame & _).
  destruct (RamTier_get_bytes now addr (st_ram s)) as [r ob]. cbn in Hget, Hsame. rw -/(rb s addr) in Hget. subst ob.
  rw write_frame_ok //=; [lia|]. rw /write_all /=. destruct (calls' - 2) as [|[|n]] eqn:E; [lia..|].
  eexists _, _. split; [done|]. cbn. rw app_nil_r. split; [done|]. split; [|done]. by split.
Qed.

Lemma push_sent addr bytes calls : addr_valid addr -> 4 <= calls ->
  exists snd, push_request addr bytes (mkSend [] calls) = (snd, Ok tt) /\
    snd_out snd = frame_bytes (mkFrame Op_Push addr (blen bytes)) ++ bytes.
Proof.
  intros Ha Hc. rw /push_request write_frame_ok //=; [lia|]. rw /write_all /=.
  destruct (calls - 2) as [|[|n]] eqn:E; [lia..|]. eexists. split; [done|]. by rw /= app_nil_r.
Qed.

(** C19. Blocks cross between daemons unchanged. When neither side goes away:
    pulling an address gives exactly the bytes the peer has in RAM for it, or
    nothing when it has none there, also when the block sits on its disk, and
    changes nothing of what the peer holds; pushing a block of at most 16 MiB
    stores it on the peer and touches no other block, and is acknowledged exactly
    when the peer's index took it; a larger block is refused both ways, and a
    refused push stores nothing. *)
Theorem transfer_correct f now addr calls calls' remote :
  addr_valid addr -> 4 <= calls -> 4 <= calls' -> (blen (default [] (rb remote addr)) <= u64_max)%Z ->
  (let p := peer_pull f now addr calls calls' remote in
   same_contents remote p.1 /\
   p.2 = (if (MAX_BLOCK_BYTES <? blen (default [] (rb remote addr)))%Z
          then Err (Error_InvalidArgument "peer pulled too much") else Ok (default [] (rb remote addr)))) /\
  (forall bytes, (blen bytes <= u64_max)%Z ->
   let p := peer_push f now addr bytes calls calls' remote in
   if (blen bytes <=? MAX_BLOCK_BYTES)%Z then
     (forall b, rb p.1 b = if decide (addr = b) then Some bytes else rb remote b) /\ st_ssd p.1 = st_ssd remote /\
     (p.2 = Ok tt <-> f_index f = true)
   else p.1 = remote /\ exists e, p.2 = Err e).
Proof.
  intros Ha Hc Hc' Hb. split.
  - rw /peer_pull. destruct (pull_sent addr calls Ha) as (sn & -> & ->); [lia|].
    destruct (pull_served f now addr calls' remote Ha Hc' Hb) as (s' & sn' & -> & -> & Hs & _). cbn zeta. split; [exact Hs|].
    cbn [fst snd]. set (bytes := default [] (rb remote addr)) in *. rw /pull_answer read_frame_app.
    { apply frame_ok; [done|]. rw /is_u64 /blen. split; [lia|done]. }
    cbn [result_bind fr_body_len]. case_match; [done|]. case_match eqn:Ez.
    + by rw read_exact_all.
    + apply Z.ltb_ge in Ez. rw /blen in Ez. destruct bytes; [done|]. cbn in Ez. lia.
  - intros bytes Hbl. rw /peer_push. destruct (push_sent addr bytes calls Ha Hc) as (sn & -> & ->). cbn zeta.
    assert (frame_valid (mkFrame Op_Push addr (blen bytes))) as Hv by (apply frame_ok; [done|]; rw /is_u64 /blen; split; [lia|done]).
    rw /serve_stream read_frame_app //=. rw /serve_push /=.
    destruct (Z.leb_spec (blen bytes) MAX_BLOCK_BYTES) as [Hle|Hgt]; destruct (Z.ltb_spec MAX_BLOCK_BYTES (blen bytes)); try lia.
    2:{ cbn. split; [done|by eexists]. }
    + rw read_exact_all.
      set (s1 := add_pulled (blen bytes) remote). pose proof (put_ram_view f now addr bytes "" s1) as Hput. cbn zeta in Hput.
      assert ((put_ram f now addr bytes "" s1).2 = f_index f) as Hok by (rw /put_ram /index_put; by destruct (f_index f)).
      destruct (put_ram f now addr bytes "" s1) as [s2 ok]. cbn in Hput, Hok. subst ok. destruct Hput as (Hrb & Hssd & _).
      destruct (f_index f); cbn.
      * rw write_frame_ok //=; [lia|]. rw /write_all /=. destruct (calls' - 2) as [|n] eqn:E; [lia|]. cbn. rw app_nil_r.
        split; [exact Hrb|]. split; [done|]. rw /push_answer -(app_nil_r (frame_bytes _)) read_frame_app //=.
      * split; [exact Hrb|]. split; [done|]. by rw /push_answer /read_frame /=.
Qed.

(** A block on disk is found by [lookup] and is not there for a peer. *)
Lemma spilled_not_pulled f now addr calls calls' s m :
  addr_valid addr -> 4 <= calls -> 4 <= calls' -> rb s addr = None -> f_index f = true -> ix_get addr (st_index s) = Some m ->
  (Store_lookup f now addr s).2 = Some (mkHandle m addr) /\ (peer_pull f now addr calls calls' s).2 = Ok [].
Proof.
  intros Ha Hc Hc' Hr Hf Hi. split.
  - destruct (lookup_view f now addr s) as (_ & _ & _ & _ & ->). by rw Hr /index_get Hf Hi.
  - destruct (transfer_correct f now addr calls calls' s Ha Hc Hc') as [[_ ->] _]; by rw Hr.
Qed.

End transfer.

(** ** Authentication *)

(** The QUIC endpoint fails closed: whenever [from_config] lets the daemon
    start without authenticating its peers, mTLS is not required and the listener
    is loopback or the operator opted in; when it authenticates them, it does so
    with the configured files; and it never starts when mTLS is required and a
    file is missing. *)
Lemma quic_fails_closed cfg listen :
  (QuicSecurity_from_config cfg listen = Ok Insecure <->
     sec_require_mtls (cfg_security cfg) = false /\
     (is_loopback listen = true \/ kv_allow_insecure_quic (cfg_kv cfg) = true)) /\
  (forall ca cert key name, QuicSecurity_from_config cfg listen = Ok (Mtls ca cert key name) <->
     sec_require_mtls (cfg_security cfg) = true /\ sec_ca_file (cfg_security cfg) = Some ca /\
     sec_cert_file (cfg_security cfg) = Some cert /\ sec_key_file (cfg_security cfg) = Some key /\
     name = kv_quic_server_name (cfg_kv cfg)).
Proof.
  rw /QuicSecurity_from_config. destruct (sec_require_mtls _); [|destruct (is_loopback listen), (kv_allow_insecure_quic _); naive_solver].
  destruct (sec_ca_file _), (sec_cert_file _), (sec_key_file _); naive_solver.
Qed.

(** The default configuration listens on every address, without mTLS: the daemon
    does not start on it. *)
Lemma default_config_refused cfg :
  cfg_security cfg = SecurityConfig_default -> cfg_kv cfg = KvConfig_default ->
  exists msg, QuicSecurity_from_config cfg (V4 [0; 0; 0; 0]%Z) = Err (Error_Config msg).
Proof. intros Hs Hk. rw /QuicSecurity_from_config Hs Hk. by eexists. Qed.

(** ** RPCs *)

Section rpc_facts.
Context `{BlockIndex} `{!BlockIndexLaws}.
Implicit Types s : Store.

Lemma digest_ok h : length h = 32 -> digest_from_bytes h = Ok h.
Proof. intros Hl. by rw /digest_from_bytes Hl. Qed.

(** A block put at layer 0 is found and promoted under its hash. *)
Lemma put_then_lookup now now' h model b bytes s :
  length h = 32 -> let s1 := (kv_put_block no_faults now h 0 model (b :: bytes) s).1 in
  (kv_put_block no_faults now h 0 model (b :: bytes) s).2 = Ok (mkStatus 0 "stored") /\
  (kv_lookup no_faults now' h s1).2 = Ok (mkInfo h PTier_Ram (blen (b :: bytes)) "" ((now' * 1000) mod 2 ^ 64)%Z) /\
  (kv_promote no_faults now' h s1).2 = Ok (mkStatus 0 "promoted").
Proof.
  intros Hl s1. subst s1. rw /kv_put_block /kv_lookup /kv_promote digest_ok //.
  pose proof (put_ram_view no_faults now (mkAddr h 0) (b :: bytes) model s) as Hv. cbn zeta in Hv.
  assert ((put_ram no_faults now (mkAddr h 0) (b :: bytes) model s).2 = true) as Hok by done.
  destruct (put_ram no_faults now (mkAddr h 0) (b :: bytes) model s) as [s1 ok]. cbn [fst snd] in Hok, Hv |- *. subst ok.
  destruct Hv as (Hrb & _). split; [done|]. specialize (Hrb (mkAddr h 0)). rw decide_True // in Hrb. split.
  - destruct (lookup_view no_faults now' (mkAddr h 0) s1) as (_ & _ & _ & _ & Hlk). rw Hrb in Hlk.
    destruct (Store_lookup _ _ _ s1) as [s2 r]. cbn in Hlk. by subst r.
  - destruct (promote_view no_faults now' (mkAddr h 0) s1) as (Hp & _). rw Hrb in Hp.
    destruct (lookup_with_promote _ _ _ s1) as [s2 r]. cbn in Hp. by subst r.
Qed.

(** A block put at another layer is acknowledged and cannot be reached: the
    other RPCs take a hash and look at layer 0 only. After [put_block] of a
    non-empty payload at a layer other than 0 reports "stored", [lookup] of its
    hash reports no block and [promote] a miss, unless layer 0 had one. *)
Lemma put_layer_unreachable now now' h layer model b bytes s :
  addr_valid (mkAddr h layer) -> layer <> 0%Z ->
  rb s (mkAddr h 0) = None -> fl s (mkAddr h 0) = None -> ix_get (mkAddr h 0) (st_index s) = None ->
  let s1 := (kv_put_block no_faults now h layer model (b :: bytes) s).1 in
  (kv_put_block no_faults now h layer model (b :: bytes) s).2 = Ok (mkStatus 0 "stored") /\
  rb s1 (mkAddr h layer) = Some (b :: bytes) /\
  (kv_lookup no_faults now' h s1).2 = Ok (mkInfo h PTier_Unspecified 0 "" 0) /\
  (kv_promote no_faults now' h s1).2 = Ok (mkStatus 5 "miss").
Proof.
  intros Hv Hne Hr Hf Hi s1. subst s1. pose proof Hv as (Hl & Hb & _). cbn [digest KvStore.layer] in Hl, Hb.
  assert (addr_valid (mkAddr h 0)) as Hv0 by (split; [done|]; split; [done|]; rw /is_u32 /u32_max /=; lia).
  rw /kv_put_block /kv_lookup /kv_promote digest_ok //.
  pose proof (put_ram_view no_faults now (mkAddr h layer) (b :: bytes) model s) as Hput. cbn zeta in Hput.
  assert ((put_ram no_faults now (mkAddr h layer) (b :: bytes) model s).2 = true) as Hok by done.
  destruct (put_ram no_faults now (mkAddr h layer) (b :: bytes) model s) as [s1 ok]. cbn [fst snd] in Hok, Hput |- *. subst ok.
  destruct Hput as (Hrb & Hssd & Hix & _). cbn in Hix. assert (mkAddr h layer <> mkAddr h 0) as Hne' by congruence.
  split; [done|]. split; [by rw Hrb decide_True|]. pose proof (Hrb (mkAddr h 0)) as Hr0. rw decide_False // Hr in Hr0. split.
  - destruct (lookup_view no_faults now' (mkAddr h 0) s1) as (_ & _ & _ & _ & Hlk).
    rw Hr0 /index_get /= Hix ix_get_put // decide_False // Hi in Hlk.
    destruct (Store_lookup _ _ _ s1) as [s2 r]. cbn in Hlk. by subst r.
  - destruct (promote_view no_faults now' (mkAddr h 0) s1) as (Hp & _). rw Hr0 /= /fl Hssd -/(fl s (mkAddr h 0)) Hf in Hp.
    destruct (lookup_with_promote _ _ _ s1) as [s2 r]. cbn in Hp. by subst r.
Qed.

End rpc_facts.

(** ** Examples *)

Module TransportExamples.
#[local] Existing Instance DashIndex.

(** Variant, digest, layer and length, little-endian: 48 bytes. *)
Definition op_tag (o : Op) : Z := match o with Op_Pull => 0 | Op_Push => 1 | Op_Ack => 2 end.
Definition op_of (z : Z) : option Op := if (z =? 0)%Z then Some Op_Pull else if (z =? 1)%Z then Some Op_Push else if (z =? 2)%Z then Some Op_Ack else None.

#[local] Instance bincode48 : Bincode := {|
  bincode_serialize fr :=
    to_le_bytes (op_tag (fr_op fr)) ++ key_of (fr_addr fr) ++ to_le_bytes (fr_body_len fr mod 2 ^ 32) ++ to_le_bytes (fr_body_len fr / 2 ^ 32);
  bincode_deserialize b :=
    o ← op_of (from_le_bytes (take 4 b));
    a ← addr_of_key (take 36 (drop 4 b));
    Some (mkFrame o a (from_le_bytes (take 4 (drop 36 (drop 4 b))) + 2 ^ 32 * from_le_bytes (drop 4 (drop 36 (drop 4 b)))));
|}.

#[local] Instance bincode48_laws : BincodeLaws.
Proof.
  split; intros [o a n] [Ha Hn]; cbn [fr_addr fr_body_len] in Ha, Hn; destruct Ha as (Hd & Hb & Hl).
  - assert (length (key_of a) = 36) as Hk by (by rw /key_of length_app Hd).
    rw /bincode_deserialize /bincode_serialize /bincode48. cbn [fr_op fr_addr fr_body_len].
    rw (take_app_length' (to_le_bytes _)) // (drop_app_length' (to_le_bytes _)) // (take_app_length' (key_of a)) //
      (drop_app_length' (key_of a)) // (take_app_length' (to_le_bytes _)) // (drop_app_length' (to_le_bytes _)) //.
    rw /is_u64 /u64_max in Hn. pose proof (Z.mod_pos_bound n (2 ^ 32) ltac:(lia)) as Hmod.
    assert (0 <= n / 2 ^ 32)%Z by (apply Z.div_pos; lia). assert (n / 2 ^ 32 < 2 ^ 32)%Z by (apply Z.div_lt_upper_bound; lia).
    rw (addr_of_key_of a (conj Hd (conj Hb Hl))) (from_to_le_bytes (n mod 2 ^ 32)); [rw /is_u32 /u32_max; lia|].
    rw (from_to_le_bytes (n / 2 ^ 32)); [rw /is_u32 /u32_max; lia|]. rw (from_to_le_bytes (op_tag o)); [by destruct o|].
    replace (op_of (op_tag o)) with (Some o) by (by destruct o). cbn [mbind option_bind]. do 2 f_equal.
    pose proof (Z.div_mod n (2 ^ 32)). lia.
  - cbn [bincode_serialize bincode48 fr_op fr_addr fr_body_len]. rw /key_of !length_app Hd. cbn [length to_le_bytes]. lia.
Qed.

Definition a1 : BlockAddress := mkAddr (replicate 32 7%Z) 0.
Definition a2 : BlockAddress := mkAddr (replicate 32 9%Z) 0.
Definition secret : list Z := [115; 101; 99; 114; 101; 116]%Z.
(** One block in RAM, one spilled to disk. *)
Definition store : Store :=
  (spill_to_ssd no_faults 2 a2 "m" (put_ram no_faults 1 a2 secret "m" (put_ram no_faults 0 a1 secret "m" (Store_open 1 1)).1).1).1.

Lemma a1_valid : addr_valid a1.
Proof. compute_dec. Qed.
Lemma a2_valid : addr_valid a2.
Proof. compute_dec. Qed.

Lemma frame_roundtrip_witness :
  exists w, write_frame (mkFrame Op_Push a1 6) (mkSend [] 2) = (mkSend w 0, Ok tt) /\
    read_frame (w ++ secret) = Ok (mkFrame Op_Push a1 6, secret).
Proof.
  destruct (frame_roundtrip (mkFrame Op_Push a1 6) (mkSend [] 2)) as (w & Hw & Hr & _).
  - split; [exact a1_valid|]. vm_compute. split; discriminate.
  - simpl. lia.
  - exists w. split; [exact Hw|apply Hr].
Defined.

Lemma transfer_correct_witness :
  (peer_pull no_faults 3 a1 4 4 store).2 = Ok secret /\ (peer_pull no_faults 3 a2 4 4 store).2 = Ok [] /\
  rb (peer_push no_faults 3 a2 [1; 2]%Z 4 4 store).1 a2 = Some [1; 2]%Z.
Proof.
  split; [|split].
  - refine (proj2 (proj1 (transfer_correct no_faults 3 a1 4 4 store a1_valid _ _ _))); [lia|lia|vm_compute; discriminate].
  - refine (proj2 (proj1 (transfer_correct no_faults 3 a2 4 4 store a2_valid _ _ _))); [lia|lia|vm_compute; discriminate].
  - destruct (proj2 (transfer_correct no_faults 3 a2 4 4 store a2_valid ltac:(lia) ltac:(lia) ltac:(vm_compute; discriminate)) [1; 2]%Z
      ltac:(vm_compute; discriminate)) as (Hrb & _).
    etransitivity; [exact (Hrb a2)|vm_compute; reflexivity].
Defined.

Lemma put_layer_unreachable_witness :
  (kv_lookup no_faults 5 (digest a1) (kv_put_block no_faults 4 (digest a1) 3 "m" secret (Store_open 1 1)).1).2
    = Ok (mkInfo (digest a1) PTier_Unspecified 0 "" 0).
Proof.
  refine (proj1 (proj2 (proj2 (put_layer_unreachable 4 5 (digest a1) 3 "m" 115 [101; 99; 114; 101; 116]%Z (Store_open 1 1) _ _ _ _ _)))).
  - compute_dec.
  - discriminate.
  - reflexivity.
  - reflexivity.
  - reflexivity.
Defined.

End TransportExamples.
