(* ===== verification/Spawn.v ===== *)
(** * The engine's command line

    [cgn-agent/src/engine/spawn.rs] and [ModelSpec] of [engine/mod.rs]: which
    process an engine configuration starts, with which arguments and which
    environment. [serde_json] prints a value (class [SerdeJson]); the one file
    that is read is the argument [read_to_string]. Error messages are shortened
    where they print a path. *)

From stdpp Require Import pretty.
From S2P Require Import Prelude Float32 Config BTree Json.

(** ** Strings *)

Section scan.
Context (pat : string).

(** [str::replace] with a non-empty pattern: [skip] characters of a match are
    still to be dropped. *)
Fixpoint replace_go (to : string) (skip : nat) (s : string) : string :=
  match s with
  | EmptyString => EmptyString
  | String a s' =>
      match skip with
      | S k => replace_go to k s'
      | O => if String.prefix pat s then to +:+ replace_go to (String.length pat - 1) s'
             else String a (replace_go to 0 s')
      end
  end.

(** [str::split]. *)
Fixpoint split_go (skip : nat) (cur : string) (s : string) : list string :=
  match s with
  | EmptyString => [cur]
  | String a s' =>
      match skip with
      | S k => split_go k cur s'
      | O => if String.prefix pat s then cur :: split_go (String.length pat - 1) "" s'
             else split_go 0 (cur +:+ String a "") s'
      end
  end.

End scan.

Definition replace (s pat to : string) : string := replace_go pat to 0 s.
Definition split (s pat : string) : list string := split_go pat 0 "" s.

(** [format!("{:.3}", x)]: the exact value, rounded half to even. *)
Definition round_div_even (n d : Z) : Z :=
  let q := (n / d)%Z in
  let r := (2 * (n mod d))%Z in
  if (r <? d)%Z then q else if (d <? r)%Z then (q + 1)%Z else if Z.even q then q else (q + 1)%Z.

Definition pad3 (n : Z) : string :=
  (if (n <? 10)%Z then "00" else if (n <? 100)%Z then "0" else "") +:+ pretty n.

Definition format_fixed3 (x : f32) : string :=
  let sign (s : bool) := if s then "-" else "" in
  match x with
  | S754_nan => "NaN"
  | S754_infinity s => sign s +:+ "inf"
  | S754_zero s => sign s +:+ "0.000"
  | S754_finite s m e =>
      let n := (1000 * Z.pos m)%Z in
      let q := if (0 <=? e)%Z then Z.shiftl n e else round_div_even n (2 ^ (- e)) in
      sign s +:+ pretty (q / 1000)%Z +:+ "." +:+ pad3 (q mod 1000)
  end.

Example format_mem_fraction : format_fixed3 (f32_lit 85 100) = "0.850".
Proof. vm_compute. reflexivity. Qed.

(** [slice::join]. *)
Definition join (sep : string) (l : list string) : string :=
  match l with [] => "" | x :: l' => foldl (fun acc y => acc +:+ sep +:+ y) x l' end.

(** ** Data *)

Record ModelSpec := mkModelSpec {
  ms_name : string;
  ms_tp : Z;
  ms_max_model_len : option Z;
  ms_extra_args : list string;
  ms_path : option string;
  ms_lora : gmap string string;
  ms_pipeline : option PipelineTopologyConfig;
}.

Abbreviation Argv := (list string).

(** [cfg.kind], [cfg.kv_offload] against a constructor. *)
Definition kind_is (k : EngineKind) (cfg : EngineConfig) : bool := bool_decide (en_kind cfg = k).
Definition offload_is (o : KvOffload) (cfg : EngineConfig) : bool := bool_decide (en_kv_offload cfg = o).
Definition mode_is (m : LmcacheMode) (cfg : EngineConfig) : bool := bool_decide (lm_mode (en_lmcache cfg) = m).

Definition is_empty_str (s : string) : bool := String.eqb s "".
Definition is_nil {A} (l : list A) : bool := match l with [] => true | _ => false end.

(** An optional flag with its value. *)
Definition flag (name : string) (v : option Z) : Argv :=
  match v with Some n => [name; pretty n] | None => [] end.

(** ** Validation *)

Definition should_spawn (cfg : EngineConfig) : bool := negb (kind_is EngineKind_OpenaiCompat cfg).

Definition engine_kind_name (k : EngineKind) : string :=
  match k with
  | EngineKind_Vllm => "vllm"
  | EngineKind_Sglang => "sglang"
  | EngineKind_LlamaCpp => "llama_cpp"
  | EngineKind_Mlx => "mlx"
  | EngineKind_TensorrtLlm => "tensorrt_llm"
  | EngineKind_CgnInfer => "cgn_infer"
  | EngineKind_OpenaiCompat => "openai_compat"
  end.

Definition pairing_ok (k : EngineKind) (o : KvOffload) : bool :=
  match k, o with
  | _, KvOffload_None
  | EngineKind_Vllm, KvOffload_Nixl
  | EngineKind_Vllm, KvOffload_Lmcache
  | EngineKind_Vllm, KvOffload_Kvbm
  | EngineKind_Vllm, KvOffload_Cgn
  | EngineKind_Sglang, KvOffload_Hicache
  | EngineKind_Sglang, KvOffload_Nixl
  | EngineKind_Sglang, KvOffload_Lmcache => true
  | _, _ => false
  end.

Definition validate_kv_offload (cfg : EngineConfig) : result unit Error :=
  if negb (pairing_ok (en_kind cfg) (en_kv_offload cfg)) then
    Err (Error_Config ("engine.kv_offload = " +:+ KvOffload_as_str (en_kv_offload cfg)
      +:+ " is not supported with engine.kind = " +:+ engine_kind_name (en_kind cfg)))
  else if kind_is EngineKind_Sglang cfg && offload_is KvOffload_Lmcache cfg && mode_is LmcacheMode_Mp cfg then
    Err (Error_Config "engine.lmcache.mode = mp renders vLLM's LMCacheMPConnector")
  else Ok tt.

(** ** KV transfer *)

Section transfer.
Context `{SerdeJson}.

(** [LMCacheMPConnector] with its extra configuration. *)
Definition mp_connector_value (cfg : LmcacheEngineConfig) : Json :=
  let extra :=
    (if negb (is_empty_str (lm_server_urls cfg))
     then [("lmcache.mp.server_urls", JString (lm_server_urls cfg))]
     else [("lmcache.mp.host", JString (lm_host cfg)); ("lmcache.mp.port", JNumber (lm_port cfg))])
    ++ (if lm_isolated_ipc cfg then [("lmcache.mp.isolated_ipc", JBool true)] else []) in
  JObject
    ([("kv_connector", JString "LMCacheMPConnector"); ("kv_role", JString "kv_both")]
     ++ (if is_empty_str (lm_connector_module_path cfg) then []
         else [("kv_connector_module_path", JString (lm_connector_module_path cfg))])
     ++ [("kv_connector_extra_config", JObject extra)]).

(** A double quote cannot stand in a literal here: the source's raw strings are
    written with single quotes, which [raw] turns into double ones. *)
Definition squote : Ascii.ascii := Ascii.Ascii true true true false false true false false.
Definition dquote : Ascii.ascii := Ascii.Ascii false true false false false true false false.
Fixpoint raw (s : string) : string :=
  match s with
  | EmptyString => EmptyString
  | String a s' => String (if Ascii.eqb a squote then dquote else a) (raw s')
  end.

Definition nixl (kv_role : string) : string :=
  raw ("{'kv_connector':'NixlConnector','kv_role':'" +:+ kv_role +:+ "'}").
Definition kvbm (kv_role : string) : string :=
  raw ("{'kv_connector':'DynamoConnector','kv_role':'" +:+ kv_role
       +:+ "','kv_connector_module_path':'kvbm.vllm_integration.connector'}").
Definition cgn_both : string :=
  "{'kv_connector':'CognitoraConnector','kv_role':'kv_both','kv_connector_module_path':'cgn_kv_connector.connector'}".

Definition connector (name : string) : Json :=
  JObject [("kv_connector", JString name); ("kv_role", JString "kv_both")].

Definition vllm_kv_transfer_config (read_to_string : string -> option string) (role : NodeRoleCfg)
    (cfg : EngineConfig) : result (option string) Error :=
  if offload_is KvOffload_Lmcache cfg && negb (is_empty_str (lm_config_file (en_lmcache cfg))) then
    match read_to_string (lm_config_file (en_lmcache cfg)) with
    | None => Err (Error_Config "engine.lmcache.config_file could not be read")
    | Some json =>
        let json := trim json in
        if is_empty_str json then Err (Error_Config "engine.lmcache.config_file is empty") else Ok (Some json)
    end
  else
    match role, en_kv_offload cfg with
    | _, KvOffload_None => Ok None
    | _, KvOffload_Hicache => Ok None
    | NodeRoleCfg_Both, KvOffload_Nixl => Ok (Some (nixl "kv_both"))
    | NodeRoleCfg_Prefill, KvOffload_Nixl => Ok (Some (nixl "kv_producer"))
    | NodeRoleCfg_Decode, KvOffload_Nixl => Ok (Some (nixl "kv_consumer"))
    | NodeRoleCfg_Both, KvOffload_Lmcache =>
        match lm_mode (en_lmcache cfg) with
        | LmcacheMode_V1 => Ok (Some (raw "{'kv_connector':'LMCacheConnectorV1','kv_role':'kv_both'}"))
        | LmcacheMode_Mp => Ok (Some (json_to_string (mp_connector_value (en_lmcache cfg))))
        end
    | NodeRoleCfg_Prefill, KvOffload_Lmcache =>
        let lmcache :=
          match lm_mode (en_lmcache cfg) with
          | LmcacheMode_V1 => connector "LMCacheConnectorV1"
          | LmcacheMode_Mp => mp_connector_value (en_lmcache cfg)
          end in
        Ok (Some (json_to_string (JObject
          [("kv_connector", JString "PdConnector"); ("kv_role", JString "kv_both");
           ("kv_connector_extra_config",
             JObject [("connectors", JArray [lmcache; connector "NixlConnector"])])])))
    | NodeRoleCfg_Decode, KvOffload_Lmcache => Ok (Some (nixl "kv_both"))
    | NodeRoleCfg_Both, KvOffload_Kvbm => Ok (Some (kvbm "kv_both"))
    | NodeRoleCfg_Prefill, KvOffload_Kvbm => Ok (Some (kvbm "kv_producer"))
    | NodeRoleCfg_Decode, KvOffload_Kvbm => Ok (Some (kvbm "kv_consumer"))
    | NodeRoleCfg_Both, KvOffload_Cgn => Ok (Some (raw cgn_both))
    | NodeRoleCfg_Prefill, KvOffload_Cgn =>
        Ok (Some (raw ("{'kv_connector':'PdConnector','kv_role':'kv_both','kv_connector_extra_config':{'connectors':["
          +:+ cgn_both +:+ ",{'kv_connector':'NixlConnector','kv_role':'kv_both'}]}}")))
    | NodeRoleCfg_Decode, KvOffload_Cgn => Ok (Some (nixl "kv_both"))
    end.

End transfer.

(** ** LMCache and SGLang *)

Definition lmcache_server_argv (cfg : LmcacheEngineConfig) : Argv :=
  [lm_server_binary cfg; "server"; "--host";
   (if String.prefix "tcp://" (lm_host cfg) || String.prefix "grpc://" (lm_host cfg)
    then default "localhost" (split (lm_host cfg) "://" !! 1)
    else lm_host cfg);
   "--port"; pretty (lm_port cfg);
   "--http-port"; pretty (lm_http_port cfg);
   "--l1-size-gb"; pretty (lm_l1_size_gb cfg);
   "--eviction-policy"; lm_eviction_policy cfg;
   "--chunk-size"; pretty (lm_chunk_size cfg)]
  ++ (if lm_isolated_ipc cfg then ["--isolated-ipc"] else [])
  ++ lm_server_extra_args cfg.

Definition should_spawn_lmcache_server (cfg : EngineConfig) : bool :=
  kind_is EngineKind_Vllm cfg && offload_is KvOffload_Lmcache cfg && mode_is LmcacheMode_Mp cfg
  && lm_spawn_server (en_lmcache cfg).

Definition engine_child_env (cfg : EngineConfig) : list (string * string) :=
  if negb (offload_is KvOffload_Lmcache cfg) then []
  else ("PYTHONHASHSEED", "0")
    :: (if kind_is EngineKind_Sglang cfg && negb (is_empty_str (lm_config_file (en_lmcache cfg)))
        then [("LMCACHE_CONFIG_FILE", lm_config_file (en_lmcache cfg))] else []).

Definition sglang_hicache_args (o : KvOffload) : Argv :=
  match o with
  | KvOffload_Hicache =>
      ["--enable-hierarchical-cache"; "--hicache-ratio"; "2"; "--hicache-write-policy"; "write_through";
       "--hicache-storage-backend"; "nixl"]
  | _ => []
  end.

Definition sglang_lmcache_args (o : KvOffload) : Argv :=
  match o with KvOffload_Lmcache => ["--enable-lmcache"] | _ => [] end.

(** ** Renderers *)

(** The local path when there is one, the model's name otherwise. *)
Definition path_or_name (spec : ModelSpec) : string := default (ms_name spec) (ms_path spec).

Definition lora_pairs (spec : ModelSpec) : list string :=
  map (fun p => fst p +:+ "=" +:+ snd p) (btree_iter (ms_lora spec)).

Definition lora_args (names : Argv) (spec : ModelSpec) : Argv :=
  if bool_decide (ms_lora spec = ∅) then [] else names ++ lora_pairs spec.

Definition render_tensorrt_llm (cfg : EngineConfig) (spec : ModelSpec) : Argv :=
  let t := en_tensorrt_llm cfg in
  [tr_binary t; path_or_name spec; "--host"; tr_host t; "--port"; pretty (tr_port t); "--tp_size"; pretty (ms_tp spec)]
  ++ flag "--max_seq_len" (ms_max_model_len spec)
  ++ tr_extra_args t ++ ms_extra_args spec.

Definition render_vllm `{SerdeJson} (read_to_string : string -> option string) (cfg : EngineConfig)
    (spec : ModelSpec) (role : NodeRoleCfg) : result Argv Error :=
  let v := en_vllm cfg in
  let? json := vllm_kv_transfer_config read_to_string role cfg in
  Ok ([vl_binary v; "serve"; ms_name spec; "--tensor-parallel-size"; pretty (ms_tp spec)]
      ++ flag "--max-model-len" (ms_max_model_len spec)
      ++ match json with Some j => ["--kv-transfer-config"; j] | None => [] end
      ++ (if offload_is KvOffload_Lmcache cfg then
            (if lm_disable_prefix_caching (en_lmcache cfg) then ["--no-enable-prefix-caching"] else [])
            ++ (if lm_disable_hybrid_kv_cache_manager (en_lmcache cfg) then ["--disable-hybrid-kv-cache-manager"] else [])
          else [])
      ++ lora_args ["--enable-lora"; "--lora-modules"] spec
      ++ vl_extra_args v ++ ms_extra_args spec).

Definition render_sglang (cfg : EngineConfig) (spec : ModelSpec) : Argv :=
  let g := en_sglang cfg in
  [sg_binary g; "-m"; "sglang.launch_server"; "--model-path"; path_or_name spec;
   "--served-model-name"; ms_name spec; "--tp"; pretty (ms_tp spec);
   "--host"; sg_host g; "--port"; pretty (sg_port g);
   "--context-length"; pretty (default (sg_context_length g) (ms_max_model_len spec));
   "--mem-fraction-static"; format_fixed3 (sg_mem_fraction_static g)]
  ++ sglang_hicache_args (en_kv_offload cfg)
  ++ sglang_lmcache_args (en_kv_offload cfg)
  ++ lora_args ["--lora-paths"] spec
  ++ sg_extra_args g ++ ms_extra_args spec.

Definition render_llama_cpp (cfg : EngineConfig) (spec : ModelSpec) : result Argv Error :=
  let c := en_llama_cpp cfg in
  match ms_path spec with
  | None => Err (Error_Config ("engine.kind = llama_cpp requires [models." +:+ ms_name spec +:+ "].path = <gguf>"))
  | Some path =>
      let n_ctx := pretty (default (lc_n_ctx c) (ms_max_model_len spec)) in
      let argv :=
        match lc_mode c with
        | LlamaCppMode_PythonServer =>
            [lc_binary c; "-m"; "llama_cpp.server"; "--host"; lc_host c; "--port"; pretty (lc_port c);
             "--model"; path; "--model_alias"; ms_name spec; "--n_ctx"; n_ctx;
             "--n_threads"; pretty (lc_n_threads c); "--n_gpu_layers"; pretty (lc_n_gpu_layers c)]
        | LlamaCppMode_Binary =>
            [lc_binary c; "--model"; path; "--host"; lc_host c; "--port"; pretty (lc_port c);
             "--ctx-size"; n_ctx; "--threads"; pretty (lc_n_threads c); "--n-gpu-layers"; pretty (lc_n_gpu_layers c)]
        end in
      Ok (argv ++ lc_extra_args c ++ ms_extra_args spec)
  end.

Definition render_mlx (cfg : EngineConfig) (spec : ModelSpec) : Argv :=
  let m := en_mlx_lm cfg in
  [mx_binary m; "-m"; "mlx_lm.server"; "--model"; path_or_name spec; "--host"; mx_host m; "--port"; pretty (mx_port m)]
  ++ mx_extra_args m ++ ms_extra_args spec.

Definition cgn_infer_model_path (spec : ModelSpec) : result string Error :=
  match ms_path spec with
  | Some p => Ok p
  | None => Err (Error_Config ("engine.kind = cgn_infer requires [models." +:+ ms_name spec +:+ "].path = <gguf>"))
  end.

Definition worker_endpoint (w : PipelineWorkerConfig) : string :=
  default ("http://" +:+ pw_listen w) (pw_endpoint w).

Definition coordinator_args (spec : ModelSpec) : result Argv Error :=
  match ms_pipeline spec with
  | None => Ok []
  | Some pipe =>
      if is_empty_str (pt_coordinator_layers pipe) || is_nil (pt_workers pipe) then
        Err (Error_Config ("[models." +:+ ms_name spec
          +:+ "].pipeline requires coordinator_layers and at least one worker"))
      else Ok ["--role"; "coordinator"; "--layers"; pt_coordinator_layers pipe;
               "--workers"; join "," (map worker_endpoint (pt_workers pipe));
               "--activation-encoding"; pt_activation_encoding pipe]
  end.

Definition render_cgn_infer (cfg : EngineConfig) (spec : ModelSpec) : result Argv Error :=
  let c := en_cgn_infer cfg in
  let? path := cgn_infer_model_path spec in
  let? pipeline := coordinator_args spec in
  Ok ([ci_binary_path c; "serve"; "--model"; path; "--host"; ci_host c; "--port"; pretty (ci_port c)]
      ++ flag "--ctx" (match ms_max_model_len spec with Some n => Some n | None => ci_ctx c end)
      ++ flag "--threads" (ci_threads c)
      ++ pipeline
      ++ ci_extra_args c ++ ms_extra_args spec).

(** The loop over the workers to spawn, in the order of the configuration. *)
Fixpoint render_workers (c : CgnInferEngineConfig) (name path encoding : string) (ws : list PipelineWorkerConfig)
    : result (list Argv) Error :=
  match ws with
  | [] => Ok []
  | w :: ws' =>
      if negb (pw_spawn w) then render_workers c name path encoding ws'
      else if is_empty_str (pw_listen w) || is_empty_str (pw_layers w) then
        Err (Error_Config ("[models." +:+ name +:+ "].pipeline.workers entries need listen and layers"))
      else
        let argv := [ci_binary_path c; "worker"; "--model"; path; "--layers"; pw_layers w;
                     "--listen"; pw_listen w; "--activation-encoding"; encoding]
                    ++ flag "--threads" (ci_threads c) in
        let? rest := render_workers c name path encoding ws' in
        Ok (argv :: rest)
  end.

Definition render_pipeline_workers (cfg : EngineConfig) (spec : ModelSpec) : result (list Argv) Error :=
  match ms_pipeline spec with
  | None => Ok []
  | Some pipe =>
      if negb (kind_is EngineKind_CgnInfer cfg) then
        Err (Error_Config "[models.*.pipeline] requires engine.kind = cgn_infer")
      else
        let? path := cgn_infer_model_path spec in
        render_workers (en_cgn_infer cfg) (ms_name spec) path (pt_activation_encoding pipe) (pt_workers pipe)
  end.

Definition render_legacy (template : Argv) (spec : ModelSpec) : Argv :=
  map (fun a => replace (replace a "{model}" (ms_name spec)) "{tp}" (pretty (ms_tp spec))) template
  ++ flag "--max-model-len" (ms_max_model_len spec)
  ++ ms_extra_args spec.

Definition render_argv `{SerdeJson} (read_to_string : string -> option string) (cfg : EngineConfig)
    (spec : ModelSpec) (role : NodeRoleCfg) (legacy_cmd : option Argv) : result Argv Error :=
  let? _ := validate_kv_offload cfg in
  match legacy_cmd with
  | Some ((_ :: _) as legacy) => Ok (render_legacy legacy spec)
  | _ =>
      match en_kind cfg with
      | EngineKind_Vllm => render_vllm read_to_string cfg spec role
      | EngineKind_Sglang => Ok (render_sglang cfg spec)
      | EngineKind_LlamaCpp => render_llama_cpp cfg spec
      | EngineKind_Mlx => Ok (render_mlx cfg spec)
      | EngineKind_TensorrtLlm => Ok (render_tensorrt_llm cfg spec)
      | EngineKind_CgnInfer => render_cgn_infer cfg spec
      | EngineKind_OpenaiCompat => Err (Error_Config "engine.kind = openai_compat does not spawn")
      end
  end.

(** ** Properties *)

(** The arguments an operator adds: the engine's, then the model's. *)
Definition engine_extra_args (cfg : EngineConfig) : Argv :=
  match en_kind cfg with
  | EngineKind_Vllm => vl_extra_args (en_vllm cfg)
  | EngineKind_Sglang => sg_extra_args (en_sglang cfg)
  | EngineKind_LlamaCpp => lc_extra_args (en_llama_cpp cfg)
  | EngineKind_Mlx => mx_extra_args (en_mlx_lm cfg)
  | EngineKind_TensorrtLlm => tr_extra_args (en_tensorrt_llm cfg)
  | EngineKind_CgnInfer => ci_extra_args (en_cgn_infer cfg)
  | EngineKind_OpenaiCompat => []
  end.

(** The program that is started. *)
Definition engine_binary (cfg : EngineConfig) : string :=
  match en_kind cfg with
  | EngineKind_Vllm => vl_binary (en_vllm cfg)
  | EngineKind_Sglang => sg_binary (en_sglang cfg)
  | EngineKind_LlamaCpp => lc_binary (en_llama_cpp cfg)
  | EngineKind_Mlx => mx_binary (en_mlx_lm cfg)
  | EngineKind_TensorrtLlm => tr_binary (en_tensorrt_llm cfg)
  | EngineKind_CgnInfer => ci_binary_path (en_cgn_infer cfg)
  | EngineKind_OpenaiCompat => ""
  end.

(** The same configuration without them. *)
Definition without_extra_args (cfg : EngineConfig) : EngineConfig :=
  let v := en_vllm cfg in let g := en_sglang cfg in let c := en_llama_cpp cfg in
  let m := en_mlx_lm cfg in let t := en_tensorrt_llm cfg in let i := en_cgn_infer cfg in
  mkEngineConfig (en_kind cfg) (en_url cfg) (en_kv_offload cfg)
    (mkVllmEngineConfig (vl_binary v) [])
    (mkSglangEngineConfig (sg_binary g) (sg_host g) (sg_port g) (sg_context_length g) (sg_mem_fraction_static g) [])
    (mkLlamaCppEngineConfig (lc_binary c) (lc_mode c) (lc_host c) (lc_port c) (lc_n_ctx c) (lc_n_threads c)
       (lc_n_gpu_layers c) [])
    (mkMlxLmEngineConfig (mx_binary m) (mx_host m) (mx_port m) [])
    (mkTensorrtLlmEngineConfig (tr_binary t) (tr_host t) (tr_port t) [])
    (mkCgnInferEngineConfig (ci_binary_path i) (ci_host i) (ci_port i) (ci_ctx i) (ci_threads i) [])
    (en_lmcache cfg).

Definition spec_without_extra_args (spec : ModelSpec) : ModelSpec :=
  mkModelSpec (ms_name spec) (ms_tp spec) (ms_max_model_len spec) [] (ms_path spec) (ms_lora spec) (ms_pipeline spec).

(** What a configuration must have for its engine to have a command line. *)
Definition connection_file_ok (read_to_string : string -> option string) (cfg : EngineConfig) : bool :=
  if offload_is KvOffload_Lmcache cfg && negb (is_empty_str (lm_config_file (en_lmcache cfg))) then
    match read_to_string (lm_config_file (en_lmcache cfg)) with
    | Some json => negb (is_empty_str (trim json))
    | None => false
    end
  else true.

Definition renderable (read_to_string : string -> option string) (cfg : EngineConfig) (spec : ModelSpec) : bool :=
  match en_kind cfg with
  | EngineKind_Vllm => connection_file_ok read_to_string cfg
  | EngineKind_LlamaCpp => bool_decide (is_Some (ms_path spec))
  | EngineKind_CgnInfer =>
      bool_decide (is_Some (ms_path spec))
      && match ms_pipeline spec with
         | Some p => negb (is_empty_str (pt_coordinator_layers p)) && negb (is_nil (pt_workers p))
         | None => true
         end
  | EngineKind_OpenaiCompat => false
  | _ => true
  end.

Definition is_ok {T E} (r : result T E) : bool := match r with Ok _ => true | Err _ => false end.

Section argv.
Context `{SerdeJson} (rd : string -> option string).
Implicit Types (cfg : EngineConfig) (spec : ModelSpec) (role : NodeRoleCfg).

Lemma validate_without cfg : validate_kv_offload (without_extra_args cfg) = validate_kv_offload cfg.
Proof. done. Qed.

Lemma transfer_is_ok role cfg : is_ok (vllm_kv_transfer_config rd role cfg) = connection_file_ok rd cfg.
Proof.
  rw /vllm_kv_transfer_config /connection_file_ok. destruct (_ && _).
  - destruct (rd _); [|done]. cbv zeta. by destruct (is_empty_str (trim s)).
  - by destruct role, (en_kv_offload cfg), (lm_mode (en_lmcache cfg)).
Qed.

Lemma coordinator_is_ok spec :
  is_ok (coordinator_args spec) =
  match ms_pipeline spec with
  | Some p => negb (is_empty_str (pt_coordinator_layers p)) && negb (is_nil (pt_workers p))
  | None => true
  end.
Proof. rw /coordinator_args. destruct (ms_pipeline spec) as [p|]; [|done]. by destruct (is_empty_str (pt_coordinator_layers p)), (is_nil (pt_workers p)). Qed.

(** Without a legacy template the operator's arguments are the last ones. *)
Lemma render_argv_extra cfg spec role :
  render_argv rd cfg spec role None =
  (let? base := render_argv rd (without_extra_args cfg) (spec_without_extra_args spec) role None in
   Ok (base ++ engine_extra_args cfg ++ ms_extra_args spec)).
Proof.
  rw /render_argv validate_without. destruct (validate_kv_offload cfg) as [[]|]; [|done]. cbn.
  rw /engine_extra_args. destruct (en_kind cfg) eqn:Ek; cbn.
  - rw /render_vllm /=. change (vllm_kv_transfer_config rd role (without_extra_args cfg)) with (vllm_kv_transfer_config rd role cfg).
    destruct (vllm_kv_transfer_config rd role cfg) as [j|]; [|done]. cbn. rw app_nil_r. by rw -?app_assoc.
  - f_equal. rw /render_sglang /= !app_nil_r. by rw -?app_assoc.
  - rw /render_llama_cpp /=. destruct (ms_path spec); [|done]. cbn. destruct (lc_mode _); cbn; by rw ?app_nil_r.
  - done.
  - f_equal. rw /render_tensorrt_llm /= !app_nil_r. by rw -?app_assoc.
  - rw /render_cgn_infer /cgn_infer_model_path /=. destruct (ms_path spec); [|done]. cbn.
    change (coordinator_args (spec_without_extra_args spec)) with (coordinator_args spec).
    destruct (coordinator_args spec); [|done]. cbn. rw !app_nil_r. by rw -?app_assoc.
  - done.
Qed.

Lemma render_argv_is_ok cfg spec role :
  is_ok (render_argv rd cfg spec role None) = is_ok (validate_kv_offload cfg) && renderable rd cfg spec.
Proof.
  rw /render_argv /renderable. destruct (validate_kv_offload cfg) as [[]|]; [|done]. cbn.
  destruct (en_kind cfg); try done.
  - rw -(transfer_is_ok role) /render_vllm. by destruct (vllm_kv_transfer_config rd role cfg).
  - rw /render_llama_cpp. by destruct (ms_path spec).
  - rw -coordinator_is_ok /render_cgn_infer /cgn_infer_model_path. destruct (ms_path spec); [|done]. cbn.
    by destruct (coordinator_args spec).
Qed.

Lemma render_argv_head cfg spec role argv :
  render_argv rd cfg spec role None = Ok argv -> head argv = Some (engine_binary cfg).
Proof.
  rw /render_argv /engine_binary. destruct (validate_kv_offload cfg) as [[]|]; [|done]. cbn. destruct (en_kind cfg).
  - rw /render_vllm. destruct (vllm_kv_transfer_config rd role cfg); [|done]. by intros [= <-].
  - by intros [= <-].
  - rw /render_llama_cpp. destruct (ms_path spec); [|done]. destruct (lc_mode _); by intros [= <-].
  - by intros [= <-].
  - by intros [= <-].
  - rw /render_cgn_infer /cgn_infer_model_path. destruct (ms_path spec); [|done]. cbn.
    destruct (coordinator_args spec); [|done]. by intros [= <-].
  - done.
Qed.

(** The table of the source gives the decode side of [cgn] the consumer role. *)
Lemma decode_cgn_is_both cfg :
  en_kv_offload cfg = KvOffload_Cgn ->
  vllm_kv_transfer_config rd NodeRoleCfg_Decode cfg = Ok (Some (nixl "kv_both")).
Proof. intros Ho. by rw /vllm_kv_transfer_config /offload_is bool_decide_false Ho. Qed.

(** C18. Without a legacy template: the operator's extra arguments, the engine's and
    then the model's, come after everything the agent derives, which does not
    depend on them; a command line exists exactly when the engine and its KV
    offload go together and what the engine needs is there (a readable connection
    file for LMCache, a model path for llama.cpp and cgn-infer, layers and workers
    for a pipeline); and it starts with the configured program. *)
Theorem render_argv_correct cfg spec role :
  render_argv rd cfg spec role None =
    (let? base := render_argv rd (without_extra_args cfg) (spec_without_extra_args spec) role None in
     Ok (base ++ engine_extra_args cfg ++ ms_extra_args spec)) /\
  is_ok (render_argv rd cfg spec role None) = is_ok (validate_kv_offload cfg) && renderable rd cfg spec /\
  match render_argv rd cfg spec role None with
  | Ok argv => head argv = Some (engine_binary cfg)
  | Err _ => True
  end.
Proof.
  split_and!; [apply render_argv_extra|apply render_argv_is_ok|].
  destruct (render_argv rd cfg spec role None) eqn:E; [by eapply render_argv_head|done].
Qed.

End argv.
