(* ===== verification/EngineServer.v ===== *)
(** * The engine's HTTP server

    [cgn-infer/src/server/mod.rs] and [server/types.rs], with [generate] of
    [cgn-infer/src/engine.rs]: OpenAI requests become requests to the scheduler,
    the scheduler's events become one JSON answer or an event stream. The stream
    is what the agent's adapter ([OpenAi]) reads. *)

From S2P Require Import Prelude StringFacts Float32 KvPool Scheduler Sampling Config Text Json.

(** ** Requests *)

Inductive StopField := Stop_One (s : string) | Stop_Many (v : list string).
Definition StopField_into_vec (s : StopField) : list string := match s with Stop_One s => [s] | Stop_Many v => v end.

Inductive PromptField := Prompt_One (s : string) | Prompt_Many (v : list string).
Definition PromptField_into_string (p : PromptField) : string :=
  match p with Prompt_One s => s | Prompt_Many v => foldr String.append "" v end.

Record ChatTurn := mkTurn { turn_role : string; turn_content : string }.

(** The sampling part that both request bodies share. *)
Record Knobs := mkKnobs {
  kn_model : option string;
  kn_max_tokens : Z;
  kn_temperature : option f32;
  kn_top_p : option f32;
  kn_top_k : option Z;
  kn_repetition_penalty : option f32;
  kn_seed : option Z;
  kn_stop : option StopField;
  kn_stream : bool;
}.

Record ChatCompletionRequest := mkChatCompletion { cc_messages : list ChatTurn; cc_knobs : Knobs }.
Record CompletionRequest := mkCompletion { cp_prompt : PromptField; cp_knobs : Knobs }.

Definition default_max_tokens : Z := 512.

(** [#[serde(untagged)]]: the first variant that fits. *)
Definition de_strings : Json -> option (list string) := de_vec de_string.
Definition de_stop (v : Json) : option StopField :=
  match de_string v with Some s => Some (Stop_One s) | None => Stop_Many <$> de_strings v end.
Definition de_prompt (v : Json) : option PromptField :=
  match de_string v with Some s => Some (Prompt_One s) | None => Prompt_Many <$> de_strings v end.

Definition de_chat_message (v : Json) : option ChatTurn :=
  struct_members ["role"; "content"] v ≫= fun f =>
  r ← required de_string "role" f; c ← required de_string "content" f; Some (mkTurn r c).

Definition de_knobs (f : list (string * Json)) : option Knobs :=
  m ← member (de_option de_string) None "model" f;
  n ← member de_u64 default_max_tokens "max_tokens" f;
  t ← member (de_option de_f32) None "temperature" f;
  p ← member (de_option de_f32) None "top_p" f;
  k ← member (de_option de_u64) None "top_k" f;
  r ← member (de_option de_f32) None "repetition_penalty" f;
  s ← member (de_option de_u64) None "seed" f;
  stop ← member (de_option de_stop) None "stop" f;
  stream ← member de_bool false "stream" f;
  Some (mkKnobs m n t p k r s stop stream).

Definition knob_names : list string := ["max_tokens"; "temperature"; "top_p"; "top_k"; "repetition_penalty"; "seed"; "stop"; "stream"].

Definition de_chat_completion_request (v : Json) : option ChatCompletionRequest :=
  struct_members ("model" :: "messages" :: knob_names) v ≫= fun f =>
  ms ← required (de_vec de_chat_message) "messages" f; k ← de_knobs f; Some (mkChatCompletion ms k).

Definition de_completion_request (v : Json) : option CompletionRequest :=
  struct_members ("model" :: "prompt" :: knob_names) v ≫= fun f =>
  p ← required de_prompt "prompt" f; k ← de_knobs f; Some (mkCompletion p k).

(** ** Errors *)

(** [ApiError::into_response]: status and type. *)
Definition api_error (e : Error) : Z * string :=
  match e with
  | Error_InvalidArgument _ | Error_Config _ | Error_Json => (400, "invalid_request_error")
  | Error_NotFound _ => (404, "invalid_request_error")
  | Error_Unavailable _ => (503, "server_error")
  | _ => (500, "server_error")
  end%Z.

(** ** Generation *)

(** [engine::GenerateRequest]. *)
Record GenerateRequest := mkGenerateRequest {
  gr_prompt : string;
  gr_max_tokens : Z;
  gr_stop : list string;
  gr_params : SamplingParams;
}.

(** What [Engine] holds beside the scheduler: the chat template and the
    tokenizer are third-party. *)
Record Engine := mkEngine {
  render_chat : list ChatTurn -> result string Error;
  tokenize : string -> result (list Z) string;
  detokenize : list Z -> option string;
  eos_token_id : option Z;
  model_id : string;
}.

Definition knob_params (k : Knobs) : SamplingParams :=
  sampling_params (kn_temperature k) (kn_top_p k) (Z.to_nat <$> kn_top_k k) (kn_repetition_penalty k) (kn_seed k).

Definition generate_request (prompt : string) (k : Knobs) : GenerateRequest :=
  mkGenerateRequest prompt (kn_max_tokens k) (default [] (StopField_into_vec <$> kn_stop k)) (knob_params k).

(** [chat_completions] and [completions] up to the start of generation. *)
Definition chat_completions (eng : Engine) (req : ChatCompletionRequest) : result GenerateRequest Error :=
  match cc_messages req with
  | [] => Err (Error_InvalidArgument "messages must not be empty")
  | _ => let? prompt := render_chat eng (cc_messages req) in Ok (generate_request prompt (cc_knobs req))
  end.
Definition completions (req : CompletionRequest) : GenerateRequest :=
  generate_request (PromptField_into_string (cp_prompt req)) (cp_knobs req).

Section generate.
Context `{BatchModel} `{SamplerOps} (params_of : SamplingParams -> sm_params).

(** [Engine::generate]: the request the scheduler gets. *)
Definition engine_generate (eng : Engine) (req : GenerateRequest) : result Request Error :=
  match tokenize eng (gr_prompt req) with
  | Err m => Err (Error_InvalidArgument ("tokenize: " +:+ m))
  | Ok ids => Ok (mkRequest ids (Z.to_nat (gr_max_tokens req)) (gr_stop req) (params_of (gr_params req)) (detokenize eng) (eos_token_id eng))
  end.
End generate.

(** [start_generation]: an error after the stream was opened is one event. *)
Definition start_generation (r : result (list StreamEvent) Error) : list StreamEvent :=
  match r with Ok evs => evs | Err _ => [mkStreamEvent "" (Some "error") 0 0] end.

(** [collect]: text, finish reason, prompt and completion tokens. *)
Fixpoint collect_loop (evs : list StreamEvent) (text : string) (pt ct : nat) : string * string * nat * nat :=
  match evs with
  | [] => (text, "stop", pt, ct)
  | ev :: evs' =>
      let text := text +:+ ev_delta ev in
      match ev_finish_reason ev with
      | Some f => (text, f, ev_prompt_tokens ev, ev_completion_tokens ev)
      | None => collect_loop evs' text (ev_prompt_tokens ev) (ev_completion_tokens ev)
      end
  end.
Definition collect (evs : list StreamEvent) : result (string * string * nat * nat) Error :=
  let '(text, finish, pt, ct) := collect_loop evs "" 0 0 in
  if String.eqb finish "error" then Err (Error_Internal "generation failed") else Ok (text, finish, pt, ct).

(** ** Answers *)

(** A member with [skip_serializing_if = "Option::is_none"]. *)
Definition json_opt (k : string) (v : option string) : list (string * Json) :=
  match v with Some s => [(k, JString s)] | None => [] end.

Definition envelope (id object : string) (created : Z) (model : string) (choice : list (string * Json)) : list (string * Json) :=
  [("id", JString id); ("object", JString object); ("created", JNumber created); ("model", JString model);
   ("choices", JArray [JObject (("index", JNumber 0) :: choice)])].

Definition usage_json (pt ct : nat) : Json :=
  JObject [("prompt_tokens", JNumber (Z.of_nat pt)); ("completion_tokens", JNumber (Z.of_nat ct));
           ("total_tokens", JNumber (Z.of_nat (pt + ct)))].

(** [ChatChunk] and [CompletionChunk]. *)
Definition chat_chunk (id : string) (created : Z) (model : string) (role content finish : option string) : Json :=
  JObject (envelope id "chat.completion.chunk" created model
    (("delta", JObject (json_opt "role" role ++ json_opt "content" content)) :: json_opt "finish_reason" finish)).
Definition completion_chunk (id : string) (created : Z) (model text : string) (finish : option string) : Json :=
  JObject (envelope id "text_completion" created model (("text", JString text) :: json_opt "finish_reason" finish)).

(** [ChatCompletionResponse] and [CompletionResponse]. *)
Definition chat_response (id : string) (created : Z) (model : string) (r : string * string * nat * nat) : Json :=
  let '(content, finish, pt, ct) := r in
  JObject (envelope id "chat.completion" created model
    [("message", JObject [("role", JString "assistant"); ("content", JString content)]); ("finish_reason", JString finish)]
    ++ [("usage", usage_json pt ct)]).
Definition completion_response (id : string) (created : Z) (model : string) (r : string * string * nat * nat) : Json :=
  let '(text, finish, pt, ct) := r in
  JObject (envelope id "text_completion" created model [("text", JString text); ("finish_reason", JString finish)]
    ++ [("usage", usage_json pt ct)]).

Section sse.
Context `{SerdeJson} (id : string) (created : Z) (model : string).

Definition with_done (ev : StreamEvent) (chunk : Json) : list string :=
  json_to_string chunk :: match ev_finish_reason ev with Some _ => ["[DONE]"] | None => [] end.

Definition event_chunk (ev : StreamEvent) : Json :=
  chat_chunk id created model None (if is_empty (ev_delta ev) then None else Some (ev_delta ev)) (ev_finish_reason ev).

(** The data of the events, in order. *)
Definition chat_sse_stream (evs : list StreamEvent) : list string :=
  json_to_string (chat_chunk id created model (Some "assistant") None None) :: concat (map (fun ev => with_done ev (event_chunk ev)) evs).

Definition completion_sse_stream (evs : list StreamEvent) : list string :=
  concat (map (fun ev => with_done ev (completion_chunk id created model (ev_delta ev) (ev_finish_reason ev))) evs).
End sse.

(** ** Server-sent events

    axum's rendering: an event is its data line and an empty line, a keep-alive
    is a comment. *)

Class AxumSse := { sse_event : string -> list Z; sse_keep_alive : list Z }.

Class AxumSseLaws `{AxumSse} : Prop := {
  sse_event_line s l : as_bytes s = utf8 l -> one_line l -> sse_event s = utf8 (lit "data: " ++ l ++ [10; 10]%Z);
  sse_comment_line : exists l, sse_keep_alive = utf8 (58 :: l ++ [10; 10])%Z /\ one_line l;
}.

(** The bytes of a response: the events, keep-alives wherever time passed. *)
Definition wire `{AxumSse} (items : list (option string)) : list Z :=
  concat (map (fun i => match i with Some s => sse_event s | None => sse_keep_alive end) items).
