(* ===== verification/EngineLink.v ===== *)
(** * The agent's adapter against the engine's server

    [OpenAi] and [EngineServer] meet on the wire: what the adapter posts is what
    the server reads, and what the server streams is what the adapter turns into
    tokens. *)

From S2P Require Import Prelude StringFacts Float32 KvPool Scheduler Sampling Config Proto Text Json EngineServer OpenAi.

(** ** Decoding what was printed *)

Lemma blind_stop : blind de_stop.
Proof. intros w v Hs. rw /de_stop (blind_string w v Hs) /de_strings. by rw (blind_vec _ blind_string w v Hs). Qed.

Lemma blind_prompt : blind de_prompt.
Proof. intros w v Hs. rw /de_prompt (blind_string w v Hs) /de_strings. by rw (blind_vec _ blind_string w v Hs). Qed.

Lemma blind_chat_message : blind de_chat_message.
Proof. apply blind_struct. intros f g Hf. rw !(blind_required _ _ f g); auto with cgn. Qed.

#[export] Hint Resolve blind_stop blind_prompt blind_chat_message : cgn.

Lemma blind_knobs f g : same_members f g -> de_knobs f = de_knobs g.
Proof. intros Hf. rw /de_knobs !(blind_member _ _ _ f g); auto with cgn. Qed.

Lemma blind_chat_request : blind de_chat_completion_request.
Proof. apply blind_struct. intros f g Hf. rw (blind_required _ _ f g) ?(blind_knobs f g); auto with cgn. Qed.

Lemma blind_completion_request : blind de_completion_request.
Proof. apply blind_struct. intros f g Hf. rw (blind_required _ _ f g) ?(blind_knobs f g); auto with cgn. Qed.

(** ** What the adapter posts *)

Definition knob_keys : list string := "model" :: "messages" :: "prompt" :: knob_names.

(** The floats of a request are numbers: JSON has no others. *)
Definition floats_ok (req : GenerateReq) : Prop :=
  Forall (fun x => f32_valid x /\ is_finite x = true) [OpenAi.temperature req; OpenAi.top_p req; OpenAi.repetition_penalty req].

(** Counts as the wire protocol has them. *)
Definition counts_ok (req : GenerateReq) : Prop :=
  is_u32 (max_tokens req) /\ is_u32 (OpenAi.top_k req) /\ (forall s, OpenAi.seed req = Some s -> is_u32 s).

Definition posted_knobs (req : GenerateReq) : Knobs :=
  mkKnobs (Some (model req)) (if (0 <? max_tokens req)%Z then max_tokens req else 512%Z)
    (Some (OpenAi.temperature req)) (Some (OpenAi.top_p req))
    (if (0 <? OpenAi.top_k req)%Z then Some (OpenAi.top_k req) else None)
    (if nonzero (OpenAi.repetition_penalty req) && negb (SFeqb (OpenAi.repetition_penalty req) f32_one)
     then Some (OpenAi.repetition_penalty req) else None)
    (OpenAi.seed req) (Some (Stop_Many (stop req))) true.

Section post.
Context `{SerdeJson} (e : OpenAiHttpEngine) (req : GenerateReq).

Lemma posted_field k : Forall (fun k => k ∉ knob_keys) (extension_keys req) -> k ∈ knob_keys ->
  field k (post_fields e req) = field k (apply_sampling req (chat_mode req) (base_body req)).
Proof.
  intros Hext Hk. apply field_post_fields.
  - intros Hin. rw Forall_forall in Hext. by eapply Hext.
  - intros ->. rw /knob_keys /knob_names in Hk. by repeat (apply elem_of_cons in Hk as [Hk|Hk]; [discriminate|]); apply not_elem_of_nil in Hk.
Qed.

Lemma de_unsigned_u32 max n : is_u32 n -> (u32_max <= max)%Z -> de_unsigned max (JNumber n) = Some n.
Proof. rw /is_u32 /de_unsigned => Hn Hm. by rw (proj2 (Z.leb_le 0 n) ltac:(lia)) (proj2 (Z.leb_le n max) ltac:(lia)). Qed.

(** The value of a key after [apply_sampling]. *)
Definition sampling_value (k : string) : option Json :=
  let given (b : bool) (v : Json) := if b then Some v else None in
  if String.eqb k "temperature" then Some (json_f32 (OpenAi.temperature req))
  else if String.eqb k "top_p" then Some (json_f32 (OpenAi.top_p req))
  else if String.eqb k "stop" then Some (json_strings (stop req))
  else if String.eqb k "stream" then Some (JBool true)
  else if String.eqb k "max_tokens" then given (0 <? max_tokens req)%Z (JNumber (max_tokens req))
  else if String.eqb k "seed" then JNumber <$> OpenAi.seed req
  else if String.eqb k "repetition_penalty" then
    given (nonzero (OpenAi.repetition_penalty req) && negb (SFeqb (OpenAi.repetition_penalty req) f32_one)) (json_f32 (OpenAi.repetition_penalty req))
  else if String.eqb k "top_k" then given (0 <? OpenAi.top_k req)%Z (JNumber (OpenAi.top_k req))
  else field k (base_body req).

Lemma field_sampling k : k ∈ knob_keys -> field k (apply_sampling req (chat_mode req) (base_body req)) = sampling_value k.
Proof.
  intros Hk. rw /apply_sampling. set (f := base_body req).
  assert (Hf : forall k, k ∈ knob_names -> field k f = None).
  { intros x Hx. rw /f /base_body /knob_names in Hx *. destruct (chat_mode req);
      repeat (apply elem_of_cons in Hx as [->|Hx]; [done|]); by apply not_elem_of_nil in Hx. }
  rw /apply_sampling. destruct (OpenAi.seed req) as [sd|] eqn:Es; repeat (rw !field_put_if || rw !field_obj_insert);
    rw /knob_keys /knob_names in Hk;
    (repeat (apply elem_of_cons in Hk as [->|Hk]); [..|by apply not_elem_of_nil in Hk]);
    cbn [String.eqb Ascii.eqb Bool.eqb]; rw ?andb_false_r ?andb_true_r;
    try (rw Hf; [compute_dec|]); rw /sampling_value; cbn [String.eqb Ascii.eqb Bool.eqb]; by rw ?Es.
Qed.

Lemma posted_de_knobs : Forall (fun k => k ∉ knob_keys) (extension_keys req) -> floats_ok req -> counts_ok req ->
  de_knobs (post_fields e req) = Some (posted_knobs req).
Proof.
  intros Hext Hf (Hn & Hk & Hs). rw /floats_ok !Forall_cons in Hf. destruct Hf as ((Ht & Ht') & (Hp & Hp') & (Hr & Hr') & _).
  assert (Hx : forall k, k ∈ knob_keys -> field k (post_fields e req) = sampling_value k).
  { intros k Hin. by rw posted_field // field_sampling. }
  rw /de_knobs /member !Hx; try compute_dec. rw /sampling_value. cbn [String.eqb Ascii.eqb Bool.eqb].
  rw /posted_knobs /de_u64. assert (Hm : field "model" (base_body req) = Some (JString (model req))).
  { rw /base_body. by destruct (chat_mode req). }
  assert (Hfl : forall x, f32_valid x -> is_finite x = true -> de_option de_f32 (json_f32 x) = Some (Some x)).
  { intros x Hv Hfin. pose proof (de_json_f32 x Hv Hfin) as E. rw /json_f32 Hfin in E *. by rw /de_option E. }
  assert (Hst : de_option de_stop (json_strings (stop req)) = Some (Some (Stop_Many (stop req)))).
  { rw /de_option /json_strings /de_stop /de_strings /=. induction (stop req) as [|x l IH]; [done|]. cbn in *.
    destruct (mapM de_string (map JString l)); by simplify_eq/=. }
  assert (Hu : forall n, is_u32 n -> de_option (de_unsigned u64_max) (JNumber n) = Some (Some n)).
  { intros n Hin. by rw /de_option (de_unsigned_u32 u64_max). }
  rw Hm Hst !Hfl //. cbn [mbind option_bind].
  change (de_option de_string (JString ?s)) with (Some (Some s)). cbn [mbind option_bind].
  replace (match (if (0 <? max_tokens req)%Z then _ else _) with Some v => _ | None => _ end)
    with (Some (if (0 <? max_tokens req)%Z then max_tokens req else 512%Z)) by (case_match; by rw ?de_unsigned_u32).
  cbn [mbind option_bind].
  replace (match (if (0 <? OpenAi.top_k req)%Z then _ else _) with Some v => _ | None => _ end)
    with (Some (if (0 <? OpenAi.top_k req)%Z then Some (OpenAi.top_k req) else None)) by (case_match; by rw ?Hu).
  cbn [mbind option_bind]. destruct (nonzero _ && _); rw ?Hfl //; cbn [mbind option_bind];
    (destruct (OpenAi.seed req) as [sd|] eqn:Es; [cbn [fmap option_fmap option_map]; rw Hu; [by apply Hs|]|]; done).
Qed.
End post.

Definition plain (m : ChatMessage) : Prop := content_json m = "".
Definition turn_of (m : ChatMessage) : ChatTurn := mkTurn (OpenAi.role m) (content m).

Lemma message_decoded `{SerdeJson} m : plain m -> de_chat_message (message_json m) = Some (turn_of m).
Proof.
  rw /plain => Hm. rw /message_json Hm. change (negb (is_empty "")) with false. cbv iota. set (f0 := json_object _).
  set (f1 := if negb (is_empty (tool_calls_json m)) then _ else _). set (f2 := if negb (is_empty (tool_call_id m)) then _ else f1).
  assert (Hs0 : sorted_keys f0) by apply json_object_sorted.
  assert (H1 : sorted_keys f1 /\ field "role" f1 = field "role" f0 /\ field "content" f1 = field "content" f0).
  { rw /f1. destruct (negb _); [|by split_and!]. destruct (json_from_str _); [|by split_and!].
    split; [by apply obj_insert_sorted|]. by rw !field_obj_insert. }
  assert (H2 : sorted_keys f2 /\ field "role" f2 = field "role" f0 /\ field "content" f2 = field "content" f0).
  { rw /f2. destruct (negb (is_empty (tool_call_id m))); [|exact H1]. destruct H1 as (Hs1 & Hr & Hc).
    split; [by apply obj_insert_sorted|]. by rw !field_obj_insert Hr Hc. }
  destruct H2 as (Hs2 & Hr & Hc). by rw /de_chat_message struct_members_sorted //= /required Hr Hc.
Qed.

Lemma chat_body_read `{SerdeJsonPrint} e req :
  json_ok (post_body (generate_post e req)) = true ->
  Forall (fun k => k ∉ knob_keys) (extension_keys req) -> floats_ok req -> counts_ok req -> Forall plain (messages req) -> chat_mode req = true ->
  json_tree (json_to_string (post_body (generate_post e req))) ≫= de_chat_completion_request
  = Some (mkChatCompletion (map turn_of (messages req)) (posted_knobs req)).
Proof.
  intros Hok Hext Hf Hc Hm Ec. pose proof (posted_de_knobs e req Hext Hf Hc) as Hk. pose proof (post_fields_sorted e req) as Hs.
  rw de_printed //; [apply blind_chat_request|]. cbn [post_body generate_post].
  rw /de_chat_completion_request struct_members_sorted //= /required posted_field //; [compute_dec|].
  rw field_sampling; [compute_dec|]. rw /sampling_value. cbn [String.eqb Ascii.eqb Bool.eqb]. rw /base_body Ec /=.
  assert (E : mapM de_chat_message (map message_json (messages req)) = Some (map turn_of (messages req))).
  { clear -Hm. induction Hm as [|m l Hm _ IH]; [done|]. cbn [map mapM]. by rw (message_decoded m Hm) /= IH. }
  by rw E /= Hk.
Qed.

Lemma completion_body_read `{SerdeJsonPrint} e req :
  json_ok (post_body (generate_post e req)) = true ->
  Forall (fun k => k ∉ knob_keys) (extension_keys req) -> floats_ok req -> counts_ok req -> chat_mode req = false ->
  json_tree (json_to_string (post_body (generate_post e req))) ≫= de_completion_request
  = Some (mkCompletion (Prompt_One (prompt req)) (posted_knobs req)).
Proof.
  intros Hok Hext Hf Hc Ec. pose proof (posted_de_knobs e req Hext Hf Hc) as Hk. pose proof (post_fields_sorted e req) as Hs.
  rw de_printed //; [apply blind_completion_request|]. cbn [post_body generate_post].
  rw /de_completion_request struct_members_sorted //= /required posted_field //; [compute_dec|].
  rw field_sampling; [compute_dec|]. rw /sampling_value. cbn [String.eqb Ascii.eqb Bool.eqb]. by rw /base_body Ec /= Hk.
Qed.

(** What the adapter posts is what the engine's server reads: the messages
    or the prompt, and every sampling parameter, digit for digit; a limit, a
    [top_k] and a seed that were not set are left to the engine, a repetition
    penalty of zero or one is not sent. Extensions change nothing of it as long
    as they name none of these fields. *)
Lemma engine_reads_request `{SerdeJsonPrint} e req :
  json_ok (post_body (generate_post e req)) = true ->
  Forall (fun k => k ∉ knob_keys) (extension_keys req) -> floats_ok req -> counts_ok req -> Forall plain (messages req) ->
  let text := json_to_string (post_body (generate_post e req)) in
  if chat_mode req
  then json_tree text ≫= de_chat_completion_request = Some (mkChatCompletion (map turn_of (messages req)) (posted_knobs req))
  else json_tree text ≫= de_completion_request = Some (mkCompletion (Prompt_One (prompt req)) (posted_knobs req)).
Proof.
  intros Hok Hext Hf Hc Hm text. destruct (chat_mode req) eqn:Ec; [by apply chat_body_read|by apply completion_body_read].
Qed.

(** ** What the server streams *)

Section stream.
Context `{SerdeJsonPrint} `{AxumSseLaws} (id : string) (created : Z) (model : string).
Hypothesis head_ok : utf8_ok id && utf8_ok model && ((- 2 ^ 63 <=? created)%Z && (created <=? u64_max)%Z) = true.

Definition opt_ok (s : option string) : bool := match s with Some s => utf8_ok s | None => true end.
Definition event_ok (ev : StreamEvent) : bool := utf8_ok (ev_delta ev) && opt_ok (ev_finish_reason ev).

(** A payload on one line. *)
Definition item_ok (i : option string) : Prop :=
  forall s, i = Some s -> exists l, as_bytes s = utf8 l /\ one_line l /\ l <> [] /\ visible_ends l.

Definition item_event (i : option string) : FrameEvent :=
  match i with
  | None => Skip
  | Some s => if decide (s = "[DONE]") then Done else match json_tree s ≫= de_stream_frame with Some f => Data f | None => Skip end
  end.

Lemma to_string_text s l : as_bytes s = utf8 l -> to_string l = s.
Proof. intros E. by rw /to_string -E of_as_bytes. Qed.

Lemma item_frame i : item_ok i -> exists b,
  wire [i] = utf8 b ++ [10; 10]%Z /\ one_line b /\ frame_event (utf8 b ++ [10; 10]%Z) = item_event i.
Proof.
  intros Hi. rw /wire /= app_nil_r. destruct i as [s|].
  - destruct (Hi s eq_refl) as (l & E & Hl & Hne & Hv). exists (lit "data: " ++ l).
    rw (sse_event_line s l E Hl) app_assoc utf8_app utf8_blank. split; [done|].
    split; [apply one_line_app; split; [exact one_line_lit_data|done]|].
    rw /frame_event -utf8_blank -utf8_app payload_of_data // (to_string_text s l E) /item_event.
    assert (Hd : l = lit "[DONE]" <-> s = "[DONE]").
    { split; [intros ->; by rw -(to_string_text s _ E)|intros ->].
      assert (from_utf8 (utf8 l) = Some l) as Hf by (by apply from_utf8_utf8, one_line_scalar).
      rw -E in Hf. vm_compute in Hf. by injection Hf as <-. }
    do 2 case_decide; tauto.
  - destruct sse_comment_line as (l & E & Hl). exists (58%Z :: l).
    change (58%Z :: l ++ [10; 10]%Z) with ((58%Z :: l) ++ [10; 10]%Z) in E. rw E utf8_app utf8_blank. split; [done|].
    split; [apply (one_line_app [58%Z]); split; [compute_dec|done]|].
    by rw /frame_event -utf8_blank -utf8_app payload_of_comment.
Qed.

(** The frames of a response are its events and keep-alives. *)
Lemma wire_events items : Forall item_ok items -> frame_event <$> frames (wire items) = item_event <$> items.
Proof.
  induction 1 as [|i items Hi _ IH]; [done|].
  destruct (item_frame i Hi) as (b & E & Hb & Hev).
  assert (wire (i :: items) = utf8 b ++ [10; 10]%Z ++ wire items) as ->.
  { rw app_assoc -E /wire /= app_nil_r //. }
  rw frames_block; [by apply utf8_one_line|]. by rw !fmap_cons Hev IH.
Qed.

(** Keep-alives change nothing. *)
Lemma comments_before_done items : before_done (item_event <$> items) = before_done (item_event ∘ Some <$> omap Datatypes.id items).
Proof. induction items as [|[s|] items IH]; cbn; [done| |exact IH]. by case_decide; [|destruct (json_tree s ≫= de_stream_frame); cbn; rw IH]. Qed.

Lemma comments_has_done items : has_done (item_event <$> items) = has_done (item_event ∘ Some <$> omap Datatypes.id items).
Proof.
  rw /has_done. induction items as [|[s|] items IH]; cbn; [done| |exact IH].
  by case_decide; [|destruct (json_tree s ≫= de_stream_frame); cbn; rw IH].
Qed.

(** An object prints to one visible line that is not the end marker. *)
Lemma object_line f : json_ok (JObject f) = true -> item_ok (Some (json_to_string (JObject f))) /\ json_to_string (JObject f) <> "[DONE]".
Proof.
  intros Hf. destruct (json_print_line f Hf) as (s & E & Hs). split.
  - intros x [= <-]. exists (lit "{" ++ s ++ lit "}"). split; [exact E|]. split; [|split; [done|split]].
    + rw !one_line_app. split; [compute_dec|]. split; [|compute_dec].
      eapply Forall_impl; [exact Hs|]. cbn. intros c [Hc Hge]. split; [done|lia].
    + by intros c [= <-].
    + intros c. rw app_assoc last_snoc. by intros [= <-].
  - intros Hd. rw Hd in E. cbn in E. by destruct s as [|c s].
Qed.

Definition chunk_frame (text content role finish : option string) (chat : bool) : StreamFrame :=
  OpenAi.mkFrame [mkChoice text (if chat then Some (mkDelta content None role) else None) finish None] None.

Lemma chat_chunk_ok role content finish : opt_ok role && opt_ok content && opt_ok finish = true ->
  json_ok (chat_chunk id created model role content finish) = true /\
  item_event (Some (json_to_string (chat_chunk id created model role content finish))) = Data (chunk_frame None content role finish true).
Proof.
  intros Ho. assert (Hok : json_ok (chat_chunk id created model role content finish) = true).
  { apply andb_true_iff in head_ok as [[Hi Hm]%andb_true_iff Hc]. apply andb_true_iff in Ho as [[Hr Hco]%andb_true_iff Hf].
    cbn. rw Hi Hm Hc. destruct role, content, finish; cbn in *; by rw ?Hr ?Hco ?Hf. }
  split; [exact Hok|]. cbn [item_event]. rw decide_False; [by apply object_line|].
  rw printed_tree //; [by destruct role, content, finish|]. by destruct role, content, finish.
Qed.

Lemma completion_chunk_ok text finish : utf8_ok text && opt_ok finish = true ->
  json_ok (completion_chunk id created model text finish) = true /\
  item_event (Some (json_to_string (completion_chunk id created model text finish))) = Data (chunk_frame (Some text) None None finish false).
Proof.
  intros Ho. assert (Hok : json_ok (completion_chunk id created model text finish) = true).
  { apply andb_true_iff in head_ok as [[Hi Hm]%andb_true_iff Hc]. apply andb_true_iff in Ho as [Ht Hf].
    cbn. rw Hi Hm Hc Ht. by destruct finish; cbn in *; rw ?Hf. }
  split; [exact Hok|]. cbn [item_event]. rw decide_False; [by apply object_line|].
  rw printed_tree //; by destruct finish.
Qed.

(** The server's event as the adapter's frame and token. *)
Definition surface_chunk (chat : bool) (ev : StreamEvent) : Json :=
  if chat then event_chunk id created model ev else completion_chunk id created model (ev_delta ev) (ev_finish_reason ev).
Definition surface_frame (chat : bool) (ev : StreamEvent) : StreamFrame :=
  if chat then chunk_frame None (if is_empty (ev_delta ev) then None else Some (ev_delta ev)) None (ev_finish_reason ev) true
  else chunk_frame (Some (ev_delta ev)) None None (ev_finish_reason ev) false.
Definition surface_stream (chat : bool) (evs : list StreamEvent) : list string :=
  if chat then chat_sse_stream id created model evs else completion_sse_stream id created model evs.

Definition event_token (rid : string) (ev : StreamEvent) : option Token :=
  let finish := default "" (ev_finish_reason ev) in
  if is_empty (ev_delta ev) && is_empty finish then None else Some (mkToken rid (ev_delta ev) finish f32_zero "" "" 0 0).

Lemma surface_chunk_ok chat ev : event_ok ev = true ->
  item_ok (Some (json_to_string (surface_chunk chat ev))) /\ item_event (Some (json_to_string (surface_chunk chat ev))) = Data (surface_frame chat ev).
Proof.
  intros [Hd Hf]%andb_true_iff. destruct chat; cbn [surface_chunk surface_frame].
  - destruct (chat_chunk_ok None (if is_empty (ev_delta ev) then None else Some (ev_delta ev)) (ev_finish_reason ev)) as [Hok He].
    { cbn. rw Hf. by destruct (is_empty (ev_delta ev)); cbn; rw ?Hd. }
    split; [by apply object_line|exact He].
  - destruct (completion_chunk_ok (ev_delta ev) (ev_finish_reason ev)) as [Hok He]; [by rw Hd Hf|].
    split; [by apply object_line|exact He].
Qed.

Lemma surface_frame_token chat rid fw ev :
  omap (M:=list) (choice_token rid fw) (sf_choices (surface_frame chat ev)) = option_list (event_token rid ev).
Proof.
  rw /surface_frame /event_token. destruct chat, fw, (is_empty (ev_delta ev)) eqn:Ed, (ev_finish_reason ev) as [f|];
    cbn; rw /choice_token /= ?Ed; try (apply String.eqb_eq in Ed; rw Ed); cbn; rw ?andb_true_r; try done;
    destruct (is_empty f) eqn:Ef; rw /is_empty in Ef; by rw ?Ef.
Qed.


Definition body_payloads (chat : bool) (evs : list StreamEvent) : list string :=
  concat (map (fun ev => with_done ev (surface_chunk chat ev)) evs).

Lemma done_ok : item_ok (Some "[DONE]").
Proof. intros s [= <-]. exists (lit "[DONE]"). split; [done|]. split; [compute_dec|]. split; [done|split]; by intros c [= <-]. Qed.

Lemma body_payloads_events chat init l r : Forall (fun ev => event_ok ev = true) (init ++ [l]) ->
  Forall (fun ev => ev_finish_reason ev = None) init -> ev_finish_reason l = Some r ->
  let evs := item_event ∘ Some <$> body_payloads chat (init ++ [l]) in
  Forall item_ok (Some <$> body_payloads chat (init ++ [l])) /\
  before_done evs = surface_frame chat <$> (init ++ [l]) /\ has_done evs = true.
Proof.
  intros Hok Hnone Hl. induction Hnone as [|ev init Hev _ IH]; cbn [app] in *; apply Forall_cons in Hok as [Hok1 Hok];
    destruct (surface_chunk_ok chat _ Hok1) as [Hi He]; rw /body_payloads; cbn [map concat]; rw /with_done ?Hl ?Hev.
  - cbn [app map concat fmap list_fmap]. rw /compose. cbv beta. rw He. split_and!; [|done|done].
    constructor; [exact Hi|]. constructor; [exact done_ok|constructor].
  - destruct (IH Hok) as (Hf & Hb & Hd). cbn [app fmap list_fmap]. split; [by constructor|].
    change ((item_event ∘ Some) ?x) with (item_event (Some x)). rw He. cbn [before_done]. split; [by rw -Hb|exact Hd].
Qed.

Lemma surface_stream_events chat init l r : Forall (fun ev => event_ok ev = true) (init ++ [l]) ->
  Forall (fun ev => ev_finish_reason ev = None) init -> ev_finish_reason l = Some r ->
  let evs := item_event ∘ Some <$> surface_stream chat (init ++ [l]) in
  Forall item_ok (Some <$> surface_stream chat (init ++ [l])) /\ has_done evs = true /\
  (forall rid fw, tokens_of rid fw (before_done evs) = omap (M:=list) (event_token rid) (init ++ [l])) /\
  usage_of (0, 0)%Z (before_done evs) = (0, 0)%Z.
Proof.
  intros Hok Hnone Hl. destruct (body_payloads_events chat init l r Hok Hnone Hl) as (Hf & Hb & Hd). cbn zeta in *.
  assert (Ht : forall rid fw, tokens_of rid fw (surface_frame chat <$> (init ++ [l])) = omap (M:=list) (event_token rid) (init ++ [l])).
  { clear. intros rid fw. rw /tokens_of. induction (init ++ [l]) as [|ev evs IH]; [done|]. cbn [fmap list_fmap map concat].
    rw surface_frame_token IH. cbn. by destruct (event_token rid ev). }
  assert (Hu : usage_of (0, 0)%Z (surface_frame chat <$> (init ++ [l])) = (0, 0)%Z).
  { clear. induction (init ++ [l]) as [|ev evs IH]; [done|]. destruct chat; exact IH. }
  destruct chat; [|by rw Hb].
  destruct (chat_chunk_ok (Some "assistant") None None eq_refl) as [Hok0 He0].
  cbn [surface_stream]. rw /chat_sse_stream. rw /body_payloads in Hf Hb Hd. cbn [surface_chunk] in Hf, Hb, Hd.
  cbn [fmap list_fmap]. split; [constructor; [by apply object_line|exact Hf]|].
  change ((item_event ∘ Some) (json_to_string ?x)) with (item_event (Some (json_to_string x))). rw He0. cbn [before_done has_done existsb]. rw Hb. split; [exact Hd|].
  split; [|exact Hu]. intros rid fw. rw -(Ht rid fw). done.
Qed.
End stream.

(** ** End to end *)

Definition text_of (ts : list Token) : string := foldr String.append "" (map t_text ts).
Definition deltas_of (evs : list StreamEvent) : string := foldr String.append "" (map ev_delta evs).

Lemma event_tokens_text rid evs : text_of (omap (M:=list) (event_token rid) evs) = deltas_of evs.
Proof.
  induction evs as [|ev evs IH]; [done|]. cbn [omap list_omap]. rw /deltas_of /= -/(deltas_of evs) -IH /event_token.
  destruct (is_empty (ev_delta ev)) eqn:Ed; [|done]. apply String.eqb_eq in Ed. rw Ed.
  by destruct (is_empty (default "" (ev_finish_reason ev))).
Qed.

Lemma last_event_finished rid init l r : ev_finish_reason l = Some r -> r <> "" ->
  finished (omap (M:=list) (event_token rid) (init ++ [l])) = true.
Proof.
  intros Hl Hr. rw omap_app finished_app. apply orb_true_iff. right. cbn. rw /event_token Hl /=.
  assert (E : is_empty r = false) by by apply String.eqb_neq. rw E andb_false_r /finished /=. by rw E.
Qed.

(** C32. What the engine's server streams is what the adapter turns into tokens:
    one token for every event that carries text or a finish reason, in order,
    then a terminal token without usage, and no error; keep-alives and the way
    the network cuts the bytes make no difference. The client reads exactly the
    text the engine produced. *)
Theorem engine_stream_read `{SerdeJsonPrint} `{AxumSseLaws} `{Reqwest} e post req status chat cid created mid init l r items cs n :
  utf8_ok cid && utf8_ok mid && ((- 2 ^ 63 <=? created)%Z && (created <=? u64_max)%Z) = true ->
  let evs := init ++ [l] in
  Forall (fun ev => event_ok ev = true) evs ->
  Forall (fun ev => ev_finish_reason ev = None) init -> ev_finish_reason l = Some r -> r <> "" ->
  omap Datatypes.id items = surface_stream cid created mid chat evs -> concat cs = wire items ->
  post (generate_post e req) = Ok (mkResponse status (Ok <$> cs)) -> is_success status = true -> length evs < n ->
  let (c, res) := generate e post req (mkTx [] n) in
  tx_sent c = omap (M:=list) (event_token (id req)) evs ++ [terminal_token (id req) true (0, 0)%Z] /\ res = Ok tt /\
  text_of (tx_sent c) = deltas_of evs.
Proof.
  intros Hhead evs Hok Hnone Hl Hr Hitems Hcs Hpost Hs Hn.
  destruct (surface_stream_events cid created mid Hhead chat init l r Hok Hnone Hl) as (Hi & Hd & Ht & Hu).
  assert (Hall : Forall item_ok items).
  { rw -Hitems in Hi. clear -Hi. induction items as [|[s|] items IH]; [done| |].
    - cbn in Hi. apply Forall_cons in Hi as [Hs Hi]. constructor; [exact Hs|by apply IH].
    - constructor; [by intros s|by apply IH]. }
  pose proof (read_chunks_answer (id req) (logprobs req) (kind e) cs None n) as Ha. rw app_nil_r in Ha.
  rw /generate Hpost /= Hs /=. destruct (read_chunks _ _ _ _ _ _) as [st res]. rw /answer Hcs in Ha.
  rw (wire_events items Hall) comments_before_done comments_has_done Hitems Hd Ht Hu in Ha.
  assert (Hlen : length (omap (M:=list) (event_token (id req)) evs) <= length evs).
  { clear. induction evs as [|ev evs IH]; [done|]. cbn. destruct (event_token (id req) ev); cbn; lia. }
  rw (last_event_finished (id req) init l r Hl Hr) in Ha. fold evs in Ha. rw decide_False in Ha; [lia|].
  rw take_ge in Ha; [rw length_app /=; lia|]. injection Ha as -> ->. split; [done|]. split; [done|].
  rw /text_of map_app foldr_app /= string_app_nil_r -/(text_of _). apply event_tokens_text.
Qed.

(** ** Instances *)

Module LinkExamples.
Import ToyJson.

#[local] Instance toy_sse : AxumSse := {| sse_event s := as_bytes ("data: " +:+ s) ++ [10; 10]%Z; sse_keep_alive := [58; 10; 10]%Z |}.
#[local] Instance toy_sse_laws : AxumSseLaws.
Proof.
  split.
  - intros s l E _. cbn [sse_event toy_sse]. by rw as_bytes_app E !utf8_app.
  - exists []. split; [reflexivity|compute_dec].
Qed.
#[local] Instance toy_reqwest : Reqwest := {| status_display _ := ""; decode_text _ := ""; decode_error _ := "" |}.

Definition engine : OpenAiHttpEngine := OpenAiHttpEngine_new "cgn_infer" "http://127.0.0.1:8000/".
Definition request : GenerateReq :=
  mkReq "r1" "m" [mkChat "user" "hi" "" "" ""] "" 16 f32_one (f32_lit 1 2) ["END"] true (Some 7%Z) f32_zero f32_zero (f32_lit 11 10) 40 false "" [] [].

Lemma engine_reads_request_witness :
  json_tree (json_to_string (post_body (generate_post engine request))) ≫= de_chat_completion_request
  = Some (mkChatCompletion [mkTurn "user" "hi"]
      (mkKnobs (Some "m") 16 (Some f32_one) (Some (f32_lit 1 2)) (Some 40%Z) (Some (f32_lit 11 10)) (Some 7%Z) (Some (Stop_Many ["END"])) true)).
Proof.
  apply (engine_reads_request engine request).
  - by vm_compute.
  - by vm_compute.
  - repeat constructor.
  - split; [rw /is_u32; cbn; rw /u32_max; lia|]. split; [rw /is_u32; cbn; rw /u32_max; lia|].
    intros s [= <-]. rw /is_u32 /u32_max. lia.
  - repeat constructor.
Defined.

Definition events : list StreamEvent := [mkStreamEvent "He" None 3 1; mkStreamEvent "" None 3 2; mkStreamEvent "llo" (Some "stop") 3 3].
Definition items : list (option string) :=
  match surface_stream "chatcmpl-1" 0 "m" true events with a :: b :: rest => Some a :: None :: Some b :: None :: map Some rest | _ => [] end.

(** Seven bytes at a time. *)
Lemma engine_stream_read_witness :
  exists c, generate engine (fun _ => Ok (mkResponse 200 (Ok <$> chunks 7 (wire items)))) request (mkTx [] 9) = (c, Ok tt) /\
  text_of (tx_sent c) = "Hello".
Proof.
  pose proof (engine_stream_read engine (fun _ => Ok (mkResponse 200 (Ok <$> chunks 7 (wire items)))) request 200 true
    "chatcmpl-1" 0 "m" [mkStreamEvent "He" None 3 1; mkStreamEvent "" None 3 2] (mkStreamEvent "llo" (Some "stop") 3 3)
    "stop" items (chunks 7 (wire items)) 9 eq_refl) as Hr. cbn zeta in Hr.
  destruct (generate _ _ _ _) as [c res]. exists c. destruct Hr as (_ & -> & ->); [..|done].
  - by repeat constructor.
  - by repeat constructor.
  - done.
  - done.
  - by vm_compute.
  - apply concat_chunks. lia.
  - done.
  - done.
  - cbn. lia.
Defined.

(** A generation that failed in the engine is an answer with the finish reason
    [error]: neither the adapter nor the router take it for an error. *)
Example failed_generation_answers :
  let evs := start_generation (Err (Error_Internal "step failed")) in
  let wire := wire (Some <$> surface_stream "chatcmpl-1" 0 "m" true evs) in
  let (c, res) := generate engine (fun _ => Ok (mkResponse 200 [Ok wire])) request (mkTx [] 9) in
  res = Ok tt /\ map t_finish (tx_sent c) = ["error"; ""].
Proof. by vm_compute. Qed.

(** A channel that closes early is a complete answer when it is collected. *)
Example collect_truncated : EngineServer.collect [mkStreamEvent "He" None 3 1] = Ok ("He", "stop", 3, 1).
Proof. done. Qed.

End LinkExamples.
