(* ===== verification/Launch.v ===== *)
(** * From the launcher to the engine

    The start of [cgn-infer/src/main.rs]: the options its two subcommands take,
    [TlsArgs::resolve] and the checks [serve] makes on its role, read against the
    command lines [Spawn] renders for a layer pipeline. [clap], which turns the
    command line into values, is third-party: it is represented by the list of
    declared options and by reading an option's value off the arguments. *)

From Stdlib Require Import Ascii.
From stdpp Require Import pretty.
From S2P Require Import Prelude StringFacts Float32 Config Text Layers Llama Pipeline Json Spawn.

(** ** The command line of [cgn-infer] *)

Definition TLS_OPTIONS : list string := ["--tls-ca"; "--tls-cert"; "--tls-key"; "--tls-domain"].

(** The long options of [Command::Serve] and of [Command::Worker]. *)
Definition SERVE_OPTIONS : list string :=
  ["--model"; "--host"; "--port"; "--ctx"; "--threads"; "--backend"; "--model-id"; "--max-batch"; "--prefill-chunk";
   "--kv-pool-tokens"; "--role"; "--layers"; "--workers"; "--activation-encoding"] ++ TLS_OPTIONS.

Definition WORKER_OPTIONS : list string :=
  ["--model"; "--layers"; "--listen"; "--threads"; "--backend"; "--activation-encoding"] ++ TLS_OPTIONS.

Inductive Role := Role_Standalone | Role_Coordinator.

Record TlsArgs := mkTlsArgs { tls_ca : option string; tls_cert : option string; tls_key : option string; tls_domain : string }.
Record TlsPaths := mkTlsPaths { tp_ca : string; tp_cert : string; tp_key : string; tp_domain : string }.

Definition TlsArgs_resolve (a : TlsArgs) : result (option TlsPaths) Error :=
  match tls_ca a, tls_cert a, tls_key a with
  | None, None, None => Ok None
  | Some ca, Some cert, Some key => Ok (Some (mkTlsPaths ca cert key (tls_domain a)))
  | _, _, _ => Err (Error_Config "--tls-ca, --tls-cert and --tls-key must be given together")
  end.

(** The [pipeline] of the engine's configuration, with its TLS paths. *)
Definition serve_pipeline (role : Role) (layers : option string) (workers : list string) (encoding : Encoding)
    (tls : TlsArgs) : result (option (CoordinatorConfig * option TlsPaths)) Error :=
  match role with
  | Role_Standalone =>
      if negb (is_nil workers) || bool_decide (is_Some layers)
      then Err (Error_Config "--workers/--layers require --role coordinator") else Ok None
  | Role_Coordinator =>
      match layers with
      | None => Err (Error_Config "--role coordinator requires --layers A:B")
      | Some layers =>
          if is_nil workers then Err (Error_Config "--role coordinator requires at least one --workers endpoint")
          else
            let? range := LayerRange.parse (lit layers) in
            let? tls := TlsArgs_resolve tls in
            Ok (Some (mkCoordinator range workers encoding, tls))
      end
  end.

(** ** Reading a command line *)

(** Program, subcommand, then options with their values. *)
Fixpoint pairs (l : list string) : list (string * string) :=
  match l with
  | k :: v :: l' => (k, v) :: pairs l'
  | _ => []
  end.
Definition options (argv : Argv) : list (string * string) := pairs (drop 2 argv).

Fixpoint assoc (name : string) (l : list (string * string)) : option string :=
  match l with
  | [] => None
  | (k, v) :: l' => if String.eqb k name then Some v else assoc name l'
  end.
Definition opt (argv : Argv) (name : string) : option string := assoc name (options argv).

(** Each option is declared and given once, as [clap] requires. *)
Definition accepted (declared : list string) (argv : Argv) : Prop :=
  NoDup (fst <$> options argv) /\ Forall (fun k => k ∈ declared) (fst <$> options argv) /\ length argv = 2 + 2 * length (options argv).

(** ** Splitting what was joined *)

Definition comma_free (s : string) : bool :=
  forallb (fun a => negb (Ascii.eqb a ","%char)) (String.list_ascii_of_string s).

Lemma join_cons sep x y l : join sep (x :: y :: l) = x +:+ sep +:+ join sep (y :: l).
Proof.
  rw /join /=. revert x y. induction l as [|z l IH]; intros x y; cbn; [done|].
  rw -!IH. f_equal. by rw !string_app_assoc.
Qed.

Lemma split_go_step cur a s :
  Ascii.eqb a ","%char = false -> split_go "," 0 cur (String a s) = split_go "," 0 (cur +:+ String a "") s.
Proof.
  intros Ha. cbn -[Ascii.ascii_dec String.app]. destruct (Ascii.ascii_dec ","%char a) as [<-|_]; [done|by destruct s].
Qed.

Lemma split_go_comma cur s : split_go "," 0 cur (String ","%char s) = cur :: split_go "," 0 "" s.
Proof. by destruct s. Qed.

Lemma split_go_free cur x s :
  comma_free x = true -> split_go "," 0 cur (x +:+ s) = split_go "," 0 (cur +:+ x) s.
Proof.
  revert cur. induction x as [|a x IH]; intros cur; [by rw string_app_nil_r|].
  intros [Ha Hx]%andb_true_iff. rw string_app_cons split_go_step; [by apply negb_true_iff|].
  rw IH //. by rw -string_app_assoc.
Qed.

Lemma split_go_join cur l :
  l <> [] -> Forall (fun x => comma_free x = true) l ->
  split_go "," 0 cur (join "," l) = match l with x :: l' => (cur +:+ x) :: l' | [] => [] end.
Proof.
  revert cur. induction l as [|x [|y l] IH]; intros cur Hne Hl; [done| |].
  - rw -{1}(string_app_nil_r x) split_go_free; [by inversion Hl|done].
  - apply Forall_cons in Hl as [Hx Hl]. rw join_cons split_go_free // string_app_cons split_go_comma. f_equal. by rw IH.
Qed.

Lemma split_join l : l <> [] -> Forall (fun x => comma_free x = true) l -> split (join "," l) "," = l.
Proof. intros Hne Hl. rw /split split_go_join //. by destruct l. Qed.

(** ** The process group of a pipeline *)

Ltac accepted := split_and!; [compute_dec|compute_dec|done].

Definition worker_matches (coord : Argv) (w : PipelineWorkerConfig) (argv : Argv) : Prop :=
  accepted WORKER_OPTIONS argv /\
  opt argv "--listen" = Some (pw_listen w) /\ opt argv "--layers" = Some (pw_layers w) /\
  opt argv "--model" = opt coord "--model" /\
  opt argv "--activation-encoding" = opt coord "--activation-encoding".

Lemma render_workers_match c name path enc coord ws l :
  opt coord "--model" = Some path -> opt coord "--activation-encoding" = Some enc ->
  render_workers c name path enc ws = Ok l -> Forall2 (worker_matches coord) (List.filter pw_spawn ws) l.
Proof.
  intros Hm He. revert l. induction ws as [|w ws IH]; intros l; cbn; [by intros [= <-]|].
  destruct (pw_spawn w); cbn; [|by apply IH]. destruct (_ || _); [done|].
  destruct (render_workers c name path enc ws) as [rest|]; [|done]. intros [= <-]. constructor; [|by apply IH].
  rw /worker_matches Hm He /flag. destruct (ci_threads c); split_and!; by [accepted|].
Qed.

Lemma coordinator_argv rd cfg spec role pipe coord `{SerdeJson} :
  en_kind cfg = EngineKind_CgnInfer -> ms_pipeline spec = Some pipe ->
  engine_extra_args cfg = [] -> ms_extra_args spec = [] ->
  render_argv rd cfg spec role None = Ok coord ->
  exists path, ms_path spec = Some path /\ pt_workers pipe <> [] /\ accepted SERVE_OPTIONS coord /\
  opt coord "--model" = Some path /\ opt coord "--role" = Some "coordinator" /\
  opt coord "--layers" = Some (pt_coordinator_layers pipe) /\
  opt coord "--workers" = Some (join "," (map worker_endpoint (pt_workers pipe))) /\
  opt coord "--activation-encoding" = Some (pt_activation_encoding pipe).
Proof.
  intros Hk Hp Hx Hy. rw /render_argv. destruct (validate_kv_offload cfg) as [[]|]; [|done]. cbn.
  rw /engine_extra_args Hk in Hx. rw Hk /render_cgn_infer /cgn_infer_model_path Hx Hy.
  destruct (ms_path spec) as [path|]; [|done]. cbn. rw /coordinator_args Hp.
  destruct (is_empty_str _); [done|]. destruct (is_nil (pt_workers pipe)) eqn:En; [done|].
  generalize (join "," (map worker_endpoint (pt_workers pipe))) as e. intros e [= <-].
  exists path. split; [done|]. split; [by intros E; rw E in En|].
  rw /flag. by destruct (ms_max_model_len spec), (ci_ctx (en_cgn_infer cfg)), (ci_threads (en_cgn_infer cfg));
    split_and!; first [done|accepted].
Qed.

(** For a layer pipeline the launcher's command lines fit together and fit the
    engine that reads them. Each process gets only options its subcommand
    declares, each once. The coordinator's [--workers], split at the commas, are
    the endpoints of all configured workers in order; the locally spawned workers
    are exactly those marked so, in order, each with its own address and layers
    and with the coordinator's model and encoding. The coordinator's start-up
    checks then give the configured layers and endpoints. *)
Lemma pipeline_group_agrees rd cfg spec role pipe coord ws encoding tls `{SerdeJson} :
  en_kind cfg = EngineKind_CgnInfer -> ms_pipeline spec = Some pipe ->
  engine_extra_args cfg = [] -> ms_extra_args spec = [] ->
  Forall (fun w => comma_free (worker_endpoint w) = true) (pt_workers pipe) ->
  render_pipeline_workers cfg spec = Ok ws -> render_argv rd cfg spec role None = Ok coord ->
  let endpoints := default [] ((fun e => split e ",") <$> opt coord "--workers") in
  endpoints = map worker_endpoint (pt_workers pipe) /\
  accepted SERVE_OPTIONS coord /\ opt coord "--role" = Some "coordinator" /\
  Forall2 (worker_matches coord) (List.filter pw_spawn (pt_workers pipe)) ws /\
  serve_pipeline Role_Coordinator (opt coord "--layers") endpoints encoding tls =
    (let? range := LayerRange.parse (lit (pt_coordinator_layers pipe)) in
     let? tls := TlsArgs_resolve tls in
     Ok (Some (mkCoordinator range (map worker_endpoint (pt_workers pipe)) encoding, tls))).
Proof.
  intros Hk Hp Hx Hy Hcomma Hws Hcoord endpoints.
  destruct (coordinator_argv _ _ _ _ _ _ Hk Hp Hx Hy Hcoord) as (path & Hpath & Hne & Hacc & Hm & Hr & Hl & Hw & He).
  assert (Hends : endpoints = map worker_endpoint (pt_workers pipe)).
  { rw /endpoints Hw /=. apply split_join; [by destruct (pt_workers pipe)|]. by apply Forall_map. }
  split_and!; [done|done|done| |].
  - rw /render_pipeline_workers Hp /cgn_infer_model_path Hpath in Hws.
    destruct (negb _) in Hws; [done|]. cbn in Hws. by eapply render_workers_match.
  - rw Hends Hl /=. by destruct (pt_workers pipe).
Qed.

Module LaunchExamples.

#[local] Instance no_json : SerdeJson := {| json_to_string _ := ""; json_tree _ := None |}.

Definition topology : PipelineTopologyConfig :=
  mkPipelineTopologyConfig "0:8"
    [mkPipelineWorkerConfig "127.0.0.1:9101" "8:16" None true;
     mkPipelineWorkerConfig "" "16:24" (Some "http://10.0.0.3:9101") false;
     mkPipelineWorkerConfig "127.0.0.1:9102" "24:32" None true] "int8".
Definition cfg : EngineConfig :=
  mkEngineConfig EngineKind_CgnInfer "http://127.0.0.1:8000" KvOffload_None VllmEngineConfig_default
    SglangEngineConfig_default LlamaCppEngineConfig_default MlxLmEngineConfig_default TensorrtLlmEngineConfig_default
    CgnInferEngineConfig_default LmcacheEngineConfig_default.
Definition spec : ModelSpec := mkModelSpec "m" 1 (Some 2048%Z) [] (Some "/m.gguf") ∅ (Some topology).
Definition coord : Argv := match render_argv (fun _ => None) cfg spec NodeRoleCfg_Both None with Ok a => a | Err _ => [] end.
Definition workers : list Argv := match render_pipeline_workers cfg spec with Ok l => l | Err _ => [] end.

Example coord_line : coord =
  ["cgn-infer"; "serve"; "--model"; "/m.gguf"; "--host"; "127.0.0.1"; "--port"; "8000"; "--ctx"; "2048";
   "--role"; "coordinator"; "--layers"; "0:8";
   "--workers"; "http://127.0.0.1:9101,http://10.0.0.3:9101,http://127.0.0.1:9102"; "--activation-encoding"; "int8"].
Proof. vm_compute. reflexivity. Qed.

Lemma pipeline_group_agrees_witness :
  exists range, LayerRange.parse (lit "0:8") = Ok range /\ lr_end range = 8 /\ length workers = 2 /\
  serve_pipeline Role_Coordinator (opt coord "--layers") (default [] ((fun e => split e ",") <$> opt coord "--workers"))
    EncInt8 (mkTlsArgs None None None "cognitora")
  = Ok (Some (mkCoordinator range (map worker_endpoint (pt_workers topology)) EncInt8, None)).
Proof.
  eexists (mkRange 0 8). split_and!; [by vm_compute..|].
  destruct (pipeline_group_agrees (fun _ => None) cfg spec NodeRoleCfg_Both topology coord workers EncInt8
    (mkTlsArgs None None None "cognitora") eq_refl eq_refl eq_refl eq_refl) as (_ & _ & _ & _ & Hs).
  - repeat constructor; by vm_compute.
  - by vm_compute.
  - by vm_compute.
  - exact Hs.
Defined.

End LaunchExamples.
