(* ===== verification/Supervisor.v ===== *)
(** * Supervising the engine processes

    [cgn-agent/src/supervisor.rs]: spawning the process group of the default
    model, restarting it with back-off, the waits with a deadline, draining and
    shutdown. What the operating system answers is the class [Os]: a function of
    everything the agent has done so far, the log of actions (newest first). A
    child is the number of processes started before it. *)

From stdpp Require Import pretty.
From S2P Require Import Prelude Float32 Config Json Spawn.

(** ** The operating system *)

Record Cmd := mkCmd { program : string; cmd_args : Argv; cmd_env : list (string * string) }.

Inductive Action :=
| Spawned (c : nat) (cmd : Cmd)
| SpawnFailed (cmd : Cmd)
| StartKill (c : nat)
| WaitChild (c : nat)
| Sleep (ns : Z)
| Get (url : string)
| AskReady
| NotifyDrain.

Abbreviation Log := (list Action).

(** [Child::try_wait]: [Ok(None)], [Ok(Some(_))], [Err(_)]. *)
Inductive TryWait := Running | Exited | WaitError.

Class Os := {
  os_spawn : Log -> Cmd -> bool;
  try_wait : Log -> nat -> TryWait;
  http_ok : Log -> string -> bool;
  engine_ready : Log -> bool;
  inflight : Log -> Z;
  now : Log -> Z;
  env_set : string -> bool;
  http_client : bool;
  models_iter : gmap string ModelConfig -> list (string * ModelConfig);
  read_to_string : string -> option string;
}.

(** The clock never goes back and a sleep takes at least its time; the iterator
    of a [HashMap] gives its entries, each once. *)
Class OsLaws `{Os} : Prop := {
  now_mono a log : (now log <= now (a :: log))%Z;
  now_sleep d log : (now log + d <= now (Sleep d :: log))%Z;
  models_iter_perm m : models_iter m ≡ₚ map_to_list m;
}.

(** Processes started so far. *)
Fixpoint spawned (log : Log) : nat :=
  match log with
  | Spawned _ _ :: log' => S (spawned log')
  | _ :: log' => spawned log'
  | [] => 0
  end.

(** ** State *)

Record Supervisor := mkSupervisor { sv_cfg : Config; sv_engine_cfg : EngineConfig }.
Record State := mkState { children : list nat; log : Log }.

Definition act (a : Action) (st : State) : State := mkState (children st) (a :: log st).

(** Dropping children started with [kill_on_drop]. *)
Definition drop_children (cs : list nat) (l : Log) : Log := foldl (fun l c => StartKill c :: l) l cs.

Section supervisor.
Context `{Os} `{SerdeJson}.
Implicit Types (st : State) (s : Supervisor) (l : Log).

(** [resolve_engine_config]: the deprecated URL stands in for the default one. *)
Definition resolve_engine_config (cfg : Config) : EngineConfig :=
  let e := cfg_engine cfg in
  match ag_vllm_url (cfg_agent cfg) with
  | Some u =>
      if negb (is_empty_str u) && String.eqb (en_url e) (en_url EngineConfig_default) then
        mkEngineConfig (en_kind e) u (en_kv_offload e) (en_vllm e) (en_sglang e) (en_llama_cpp e) (en_mlx_lm e)
          (en_tensorrt_llm e) (en_cgn_infer e) (en_lmcache e)
      else e
  | None => e
  end.

Definition default_model_spec s : option ModelSpec :=
  match models_iter (cfg_models (sv_cfg s)) with
  | [] => None
  | (name, m) :: _ =>
      Some (mkModelSpec name (mo_tp m) (mo_max_model_len m) (mo_extra_args m) (mo_path m) (mo_lora m) (mo_pipeline m))
  end.

(** ** Starting processes *)

(** The variables set on the child: what the operator has set already wins. *)
Definition child_env (gpu_index : option Z) (extra_env : list (string * string)) : list (string * string) :=
  List.filter (fun kv => negb (env_set (fst kv))) extra_env
  ++ match gpu_index with
     | Some idx =>
         (if env_set "CUDA_VISIBLE_DEVICES" then [] else [("CUDA_VISIBLE_DEVICES", pretty idx)])
         ++ (if env_set "HIP_VISIBLE_DEVICES" then [] else [("HIP_VISIBLE_DEVICES", pretty idx)])
     | None => []
     end.

(** [None]: [argv[0]] panics. *)
Definition spawn_child (argv : Argv) (gpu_index : option Z) (extra_env : list (string * string)) l
    : option (Log * result nat Error) :=
  match argv with
  | [] => None
  | prog :: args =>
      let cmd := mkCmd prog args (child_env gpu_index extra_env) in
      if os_spawn l cmd then Some (Spawned (spawned l) cmd :: l, Ok (spawned l))
      else Some (SpawnFailed cmd :: l, Err (Error_Internal "spawn engine"))
  end.

(** [wait_lmcache_server]: [None] when the fuel runs out. *)
Fixpoint wait_lmcache_loop (fuel : nat) (start : Z) (child : nat) (url : string) l : Log * option (result unit Error) :=
  match fuel with
  | O => (l, None)
  | S fuel' =>
      match try_wait l child with
      | Exited => (l, Some (Err (Error_Unavailable "lmcache server exited before it was healthy")))
      | _ =>
          let l' := Get url :: l in
          if http_ok l url then (l', Some (Ok tt))
          else if (secs 60 <? now l' - start)%Z
          then (l', Some (Err (Error_Unavailable "lmcache server never became healthy")))
          else wait_lmcache_loop fuel' start child url (Sleep (secs 1) :: l')
      end
  end.

Definition LMCACHE_FUEL : nat := 62.

Definition wait_lmcache_server (child : nat) (http_port : Z) l : Log * option (result unit Error) :=
  if http_client
  then wait_lmcache_loop LMCACHE_FUEL (now l) child ("http://127.0.0.1:" +:+ pretty http_port +:+ "/healthcheck") l
  else (l, Some (Err (Error_Internal "lmcache health client"))).

(** The loop over the command lines; [acc] holds the children started so far. *)
Fixpoint spawn_all (argvs : list Argv) (gpu : option Z) (env : list (string * string)) (acc : list nat) l
    : option (Log * list nat * result unit Error) :=
  match argvs with
  | [] => Some (l, acc, Ok tt)
  | argv :: argvs' =>
      match spawn_child argv gpu env l with
      | None => None
      | Some (l, Ok c) => spawn_all argvs' gpu env (acc ++ [c]) l
      | Some (l, Err e) => Some (l, acc, Err e)
      end
  end.

(** The LMCache server of the group, if it needs one: the log, the children so
    far, whether it is up. *)
Definition start_lmcache s (env : list (string * string)) l : option (Log * list nat * result unit Error) :=
  if should_spawn_lmcache_server (sv_engine_cfg s) then
    let lm := en_lmcache (sv_engine_cfg s) in
    match spawn_child (lmcache_server_argv lm) (ag_gpu_index (cfg_agent (sv_cfg s))) env l with
    | None => None
    | Some (l, Err e) => Some (l, [], Err e)
    | Some (l, Ok c) =>
        match wait_lmcache_server c (lm_http_port lm) l with
        | (_, None) => None
        | (l, Some (Ok _)) => Some (l, [c], Ok tt)
        | (l, Some (Err e)) => Some (WaitChild c :: StartKill c :: l, [], Err e)
        end
    end
  else Some (l, [], Ok tt).

(** The workers' command lines, then the engine's. *)
Definition group_argvs s (spec : ModelSpec) : result (list Argv) Error :=
  let? workers := render_pipeline_workers (sv_engine_cfg s) spec in
  let? argv := render_argv read_to_string (sv_engine_cfg s) spec (ag_role (cfg_agent (sv_cfg s)))
                 (ag_vllm_cmd (cfg_agent (sv_cfg s))) in
  Ok (workers ++ [argv]).

(** On an error the children already started are dropped, hence killed. *)
Definition spawn_engine_for_default_model s st : option (State * result unit Error) :=
  if negb (should_spawn (sv_engine_cfg s)) then Some (st, Ok tt)
  else
    match default_model_spec s with
    | None => Some (st, Ok tt)
    | Some spec =>
        let env := engine_child_env (sv_engine_cfg s) in
        match start_lmcache s env (log st) with
        | None => None
        | Some (l, cs, Err e) => Some (mkState (children st) (drop_children cs l), Err e)
        | Some (l, cs, Ok _) =>
            match group_argvs s spec with
            | Err e => Some (mkState (children st) (drop_children cs l), Err e)
            | Ok argvs =>
                match spawn_all argvs (ag_gpu_index (cfg_agent (sv_cfg s))) env cs l with
                | None => None
                | Some (l, cs, Err e) => Some (mkState (children st) (drop_children cs l), Err e)
                | Some (l, cs, Ok _) => Some (mkState cs (drop_children (children st) l), Ok tt)
                end
            end
        end
    end.

(** [Supervisor::new]; on an error the supervisor is dropped. *)
Definition Supervisor_new (cfg : Config) (l : Log) : option (State * result Supervisor Error) :=
  let s := mkSupervisor cfg (resolve_engine_config cfg) in
  if http_client then
    match spawn_engine_for_default_model s (mkState [] l) with
    | None => None
    | Some (st, Ok _) => Some (st, Ok s)
    | Some (st, Err e) => Some (mkState [] (drop_children (children st) (log st)), Err e)
    end
  else Some (mkState [] l, Err (Error_Internal "http client")).

(** ** Supervision *)

Definition kill_children st : State :=
  mkState [] (foldl (fun l c => WaitChild c :: StartKill c :: l) (log st) (children st)).

Definition child_died l (c : nat) : bool :=
  match try_wait l c with Running => false | Exited | WaitError => true end.

(** One turn of [supervise]; the result of a respawn is only logged. *)
Definition supervise_step s (p : State * Z) : option (State * Z) :=
  let (st, backoff) := p in
  let st := act (Sleep (secs 1)) st in
  match children st with
  | [] => Some (st, backoff)
  | cs =>
      if negb (existsb (child_died (log st)) cs) then Some (st, secs 1)
      else
        let st := act (Sleep backoff) (kill_children st) in
        match spawn_engine_for_default_model s st with
        | None => None
        | Some (st, _) => Some (st, Z.min (backoff * 2) (secs 30))
        end
  end.

Fixpoint supervise (turns : nat) s (p : State * Z) : option (State * Z) :=
  match turns with
  | O => Some p
  | S n => match supervise_step s p with Some p => supervise n s p | None => None end
  end.

Definition shutdown st : State := kill_children st.

(** [Drop for Supervisor]. *)
Definition Supervisor_drop st : State := mkState [] (drop_children (children st) (log st)).

(** ** Waiting *)

(** [drain]: polls the number of running generations until it is zero or the
    deadline is reached. *)
Fixpoint drain_loop (fuel : nat) (deadline : Z) l : Log * option Z :=
  match fuel with
  | O => (l, None)
  | S fuel' =>
      if (inflight l =? 0)%Z || (deadline <=? now l)%Z then (l, Some (inflight l))
      else drain_loop fuel' deadline (Sleep (millis 100) :: l)
  end.

Definition poll_fuel (timeout : Z) : nat := Z.to_nat (timeout / millis 100) + 2.

Definition drain (timeout : Z) l : Log * option Z :=
  let l := NotifyDrain :: l in
  drain_loop (poll_fuel timeout) (now l + timeout) l.

Fixpoint wait_ready_loop (fuel : nat) (start max delay : Z) l : Log * option (result unit Error) :=
  match fuel with
  | O => (l, None)
  | S fuel' =>
      let l' := AskReady :: l in
      if engine_ready l then (l', Some (Ok tt))
      else if (max <? now l' - start)%Z then (l', Some (Err (Error_Unavailable "engine never became ready")))
      else wait_ready_loop fuel' start max (Z.min (delay * 2) (secs 2)) (Sleep delay :: l')
  end.

Definition wait_ready (max : Z) l : Log * option (result unit Error) :=
  wait_ready_loop (poll_fuel max) (now l) max (millis 100) l.

End supervisor.

(** [InflightGuard]: one generation, counted from [new] to [drop]. *)
Definition InflightGuard_new (n : Z) : Z := add_u64 n 1.
Definition InflightGuard_drop (n : Z) : Z := sub_u64 n 1.

(** ** Every process is accounted for *)

(** The command line a child was started with. *)
Fixpoint argv_of (l : Log) (c : nat) : option Argv :=
  match l with
  | Spawned c' cmd :: l' => if (c' =? c)%nat then Some (program cmd :: cmd_args cmd) else argv_of l' c
  | _ :: l' => argv_of l' c
  | [] => None
  end.

(** Each process started is one of [cs] or was sent a kill. *)
Definition covered (cs : list nat) (l : Log) : Prop := forall c, c < spawned l -> c ∈ cs \/ StartKill c ∈ l.

(** [cs] are the running children, started in this order with these arguments. *)
Definition tracked (cs : list nat) (l : Log) (argvs : list Argv) : Prop :=
  covered cs l /\ Forall (fun c => c < spawned l) cs /\ NoDup cs /\ argv_of l <$> cs = Some <$> argvs.

Definition quiet (a : Action) : bool := match a with Spawned _ _ => false | _ => true end.

Lemma tracked_act a cs l argvs : quiet a = true -> tracked cs l argvs -> tracked cs (a :: l) argvs.
Proof.
  intros Ha (Hc & Hf & Hn & Hv). assert (Hs : spawned (a :: l) = spawned l) by by destruct a.
  assert (Hav : argv_of (a :: l) = argv_of l) by by destruct a.
  rw /tracked /covered Hs Hav. split_and!; [|done..].
  intros c Hlt. destruct (Hc c Hlt); [by left|by right; apply list_elem_of_further].
Qed.

(** Only such actions in between. *)
Definition quietly (l l' : Log) : Prop := exists q, l' = q ++ l /\ Forall (fun a => quiet a = true) q.

Lemma quietly_app q l : Forall (fun a => quiet a = true) q -> quietly l (q ++ l).
Proof. by exists q. Qed.

Lemma quietly_trans q l l' : Forall (fun a => quiet a = true) q -> quietly (q ++ l) l' -> quietly l l'.
Proof. intros Hq (q' & -> & Hq'). exists (q' ++ q). rw app_assoc. split; [done|]. by apply Forall_app. Qed.

Lemma tracked_quietly cs l l' argvs : quietly l l' -> tracked cs l argvs -> tracked cs l' argvs.
Proof.
  intros (q & -> & Hq) Ht. induction Hq as [|a q Ha _ IH]; [done|]. by apply tracked_act.
Qed.

Lemma tracked_drop cs l argvs : tracked cs l argvs -> tracked [] (drop_children cs l) [].
Proof.
  intros (Hc & _). rw /tracked. split_and!; [|constructor|constructor|done]. revert l Hc.
  induction cs as [|c cs IH]; intros l Hc; [done|]. apply (IH (StartKill c :: l)). intros d Hd.
  destruct (Hc d Hd) as [[->|Hin]%elem_of_cons|Hk]; [right; by apply list_elem_of_here|by left|right; by apply list_elem_of_further].
Qed.

Lemma tracked_kill st argvs : tracked (children st) (log st) argvs -> tracked [] (log (kill_children st)) [].
Proof.
  intros (Hc & _). rw /tracked. split_and!; [|constructor|constructor|done]. destruct st as [cs l]. cbn in *. revert l Hc.
  induction cs as [|c cs IH]; intros l Hc; [done|]. apply (IH (WaitChild c :: StartKill c :: l)). intros d Hd.
  destruct (Hc d Hd) as [[->|Hin]%elem_of_cons|Hk]; [|by left|].
  - right. apply list_elem_of_further, list_elem_of_here.
  - right. by do 2 apply list_elem_of_further.
Qed.

Lemma tracked_spawn cs l argvs cmd :
  tracked cs l argvs ->
  tracked (cs ++ [spawned l]) (Spawned (spawned l) cmd :: l) (argvs ++ [program cmd :: cmd_args cmd]).
Proof.
  intros (Hc & Hf & Hn & Hv). split_and!.
  - intros c Hlt. cbn in Hlt. rw elem_of_app list_elem_of_singleton.
    destruct (decide (c = spawned l)) as [->|Hne]; [by left; right|].
    destruct (Hc c) as [?|?]; [lia|by left; left|by right; apply list_elem_of_further].
  - cbn. rw Forall_app Forall_singleton. split; [|lia]. eapply Forall_impl; [exact Hf|]. cbn. lia.
  - apply NoDup_app. split_and!; [done| |apply NoDup_singleton].
    intros c Hin ->%list_elem_of_singleton. rw Forall_forall in Hf. by apply Hf, Nat.lt_irrefl in Hin.
  - rw !fmap_app /= Nat.eqb_refl. f_equal. rw -Hv. apply list_fmap_ext. intros i c Hi.
    rw Forall_lookup in Hf. apply Hf in Hi. by case_match eqn:E; [apply Nat.eqb_eq in E; lia|].
Qed.

(** ** The waits end *)

Section waits.
Context `{OsLaws}.

Lemma wait_lmcache_loop_some fuel start child url l :
  (0 < fuel)%nat -> (start + secs (62 - Z.of_nat fuel) <= now l)%Z ->
  exists l' r, wait_lmcache_loop fuel start child url l = (l', Some r) /\ quietly l l'.
Proof.
  rw /secs. revert l. induction fuel as [|fuel IH]; intros l Hf Hl; [lia|]. cbn [wait_lmcache_loop].
  assert (Hgo : exists l' r, (let l' := Get url :: l in
      if http_ok l url then (l', Some (Ok tt))
      else if (secs 60 <? now l' - start)%Z
      then (l', Some (Err (Error_Unavailable "lmcache server never became healthy")))
      else wait_lmcache_loop fuel start child url (Sleep (secs 1) :: l')) = (l', Some r) /\ quietly l l').
  { cbv zeta. pose proof (now_mono (Get url) l). pose proof (now_sleep (secs 1) (Get url :: l)) as Hsleep.
    assert (quietly l (Get url :: l)) by (apply (quietly_app [Get url]); repeat constructor).
    destruct (http_ok l url); [by eauto|]. destruct (Z.ltb_spec (secs 60) (now (Get url :: l) - start)) as [|Hle]; [by eauto|].
    rw /secs in Hle, Hsleep. destruct (IH (Sleep (secs 1) :: Get url :: l)) as (l' & r & E & Hq); [lia|rw /secs; lia|].
    exists l', r. split; [done|]. apply (quietly_trans [Sleep (secs 1); Get url]); [by repeat constructor|done]. }
  destruct (try_wait l child); [exact Hgo| |exact Hgo]. do 2 eexists. split; [done|]. by apply (quietly_app []).
Qed.

Lemma wait_lmcache_server_some child port l :
  exists l' r, wait_lmcache_server child port l = (l', Some r) /\ quietly l l'.
Proof.
  rw /wait_lmcache_server. destruct http_client; [|do 2 eexists; split; [done|by apply (quietly_app [])]].
  apply wait_lmcache_loop_some; rw /LMCACHE_FUEL /secs; lia.
Qed.

(** What a wait for running generations ends with. *)
Definition drained (deadline : Z) (r : Log * option Z) : Prop :=
  match r with
  | (l, Some n) => n = inflight l /\ (n = 0 \/ deadline <= now l)%Z
  | (_, None) => False
  end.

Lemma drain_loop_some fuel deadline l :
  (0 < fuel)%nat -> (deadline - now l <= (Z.of_nat fuel - 1) * millis 100)%Z -> drained deadline (drain_loop fuel deadline l).
Proof.
  rw /millis. revert l. induction fuel as [|fuel IH]; intros l Hf Hl; [lia|]. cbn [drain_loop].
  destruct (_ || _) eqn:E.
  - apply orb_true_iff in E. split; [done|]. rw -Z.eqb_eq -Z.leb_le. exact E.
  - apply orb_false_iff in E as [_ E%Z.leb_gt]. pose proof (now_sleep (millis 100) l) as Hsleep. rw /millis in Hsleep.
    apply IH; rw /millis; lia.
Qed.

(** What a wait for the engine ends with: the last probe said yes, or the time is over. *)
Definition settled (start max : Z) (r : Log * option (result unit Error)) : Prop :=
  match r with
  | (AskReady :: l, Some (Ok _)) => engine_ready l = true
  | (AskReady :: l, Some (Err _)) => engine_ready l = false /\ (max < now (AskReady :: l) - start)%Z
  | _ => False
  end.

Lemma wait_ready_loop_some fuel start max delay l :
  (0 < fuel)%nat -> (millis 100 <= delay)%Z -> (start + max - now l < (Z.of_nat fuel - 1) * millis 100)%Z ->
  settled start max (wait_ready_loop fuel start max delay l).
Proof.
  rw /millis. revert delay l. induction fuel as [|fuel IH]; intros delay l Hf Hd Hl; [lia|]. cbn [wait_ready_loop].
  destruct (engine_ready l) eqn:Er; [done|]. cbv zeta.
  destruct (Z.ltb_spec max (now (AskReady :: l) - start)) as [Hlt|Hge]; [done|].
  pose proof (now_mono AskReady l). pose proof (now_sleep delay (AskReady :: l)).
  apply IH; rw /secs; lia.
Qed.

Lemma poll_fuel_enough timeout : (0 <= timeout)%Z -> (timeout < (Z.of_nat (poll_fuel timeout) - 1) * millis 100)%Z.
Proof. rw /poll_fuel /millis => ?. pose proof (Z.div_mod timeout (100 * 1000000)). pose proof (Z.mod_pos_bound timeout (100 * 1000000)). lia. Qed.

(** C24. The agent's waits end. Whatever the engine, the LMCache server and the
    running generations do, [wait_ready], [drain] and the wait for the LMCache
    server return, the clock law given: [wait_ready] with success only if the last
    probe succeeded and with an error only once the time is over; [drain] with the
    number still running, zero unless the deadline has passed. *)
Theorem waits_end timeout child port l :
  (0 <= timeout)%Z ->
  settled (now l) timeout (wait_ready timeout l) /\
  drained (now (NotifyDrain :: l) + timeout) (drain timeout l) /\
  is_Some (snd (wait_lmcache_server child port l)).
Proof.
  intros Ht. pose proof (poll_fuel_enough timeout Ht) as Hfuel. assert (0 < poll_fuel timeout) by (rw /poll_fuel; lia).
  split_and!.
  - apply wait_ready_loop_some; [done|done|lia].
  - apply drain_loop_some; [done|lia].
  - destruct (wait_lmcache_server_some child port l) as (l' & r & E & _). by rw E.
Qed.

End waits.

(** ** The process group *)

Section group.
Context `{OsLaws} `{SerdeJson}.
Implicit Types (st : State) (s : Supervisor) (l : Log).

Definition lmcache_argvs s : list Argv :=
  if should_spawn_lmcache_server (sv_engine_cfg s) then [lmcache_server_argv (en_lmcache (sv_engine_cfg s))] else [].

(** The command lines of a whole group. *)
Definition is_group s (argvs : list Argv) : Prop :=
  exists spec rest, default_model_spec s = Some spec /\ group_argvs s spec = Ok rest /\ argvs = lmcache_argvs s ++ rest.

(** Every process is accounted for, and the children are a whole group or none. *)
Definition group_ok s st : Prop :=
  exists argvs, tracked (children st) (log st) argvs /\ (argvs = [] \/ is_group s argvs).

Lemma render_workers_nonempty c name path enc ws argvs :
  render_workers c name path enc ws = Ok argvs -> Forall (fun a => a <> []) argvs.
Proof.
  revert argvs. induction ws as [|w ws IH]; intros argvs; cbn; [by intros [= <-]|].
  destruct (pw_spawn w); cbn; [|by apply IH]. destruct (_ || _); [done|].
  destruct (render_workers c name path enc ws) as [rest|]; [|done]. intros [= <-]. constructor; [done|by apply IH].
Qed.

Lemma render_argv_nonempty cfg spec role legacy argv :
  render_argv read_to_string cfg spec role legacy = Ok argv -> argv <> [].
Proof.
  destruct legacy as [[|x legacy]|].
  - intros E. change (render_argv read_to_string cfg spec role None = Ok argv) in E.
    apply render_argv_head in E. by destruct argv.
  - rw /render_argv. destruct (validate_kv_offload cfg) as [[]|]; [|done]. by intros [= <-].
  - intros E. apply render_argv_head in E. by destruct argv.
Qed.

Lemma group_argvs_nonempty s spec argvs : group_argvs s spec = Ok argvs -> Forall (fun a => a <> []) argvs.
Proof.
  rw /group_argvs. destruct (render_pipeline_workers _ _) as [ws|] eqn:Ew; [|done]. cbn.
  destruct (render_argv _ _ _ _ _) as [argv|] eqn:Ea; [|done]. intros [= <-]. apply Forall_app. split.
  - rw /render_pipeline_workers in Ew. destruct (ms_pipeline spec) as [p|]; [|by injection Ew as <-].
    destruct (negb _); [done|]. destruct (cgn_infer_model_path spec); [|done]. by eapply render_workers_nonempty.
  - constructor; [by eapply render_argv_nonempty|done].
Qed.

Lemma spawn_child_tracked argv gpu env cs l argvs :
  argv <> [] -> tracked cs l argvs ->
  exists l' r, spawn_child argv gpu env l = Some (l', r) /\
  match r with Ok c => tracked (cs ++ [c]) l' (argvs ++ [argv]) | Err _ => tracked cs l' argvs end.
Proof.
  intros Hne Ht. destruct argv as [|prog args]; [done|]. cbn. destruct (os_spawn _ _).
  - do 2 eexists. split; [done|]. by apply (tracked_spawn _ _ _ (mkCmd prog args (child_env gpu env))).
  - do 2 eexists. split; [done|]. by apply tracked_act.
Qed.

Lemma spawn_all_tracked todo gpu env cs l argvs :
  Forall (fun a => a <> []) todo -> tracked cs l argvs ->
  exists l' cs' r, spawn_all todo gpu env cs l = Some (l', cs', r) /\
  match r with Ok _ => tracked cs' l' (argvs ++ todo) | Err _ => exists argvs', tracked cs' l' argvs' end.
Proof.
  intros Hne. revert cs l argvs. induction Hne as [|argv todo Ha _ IH]; intros cs l argvs Ht; cbn [spawn_all].
  - do 3 eexists. split; [done|]. by rw app_nil_r.
  - destruct (spawn_child_tracked argv gpu env cs l argvs Ha Ht) as (l1 & [c|e] & -> & Ht1).
    + destruct (IH _ _ _ Ht1) as (l2 & cs2 & r & -> & Hr). do 3 eexists. split; [done|]. by rw -app_assoc in Hr.
    + do 3 eexists. split; [done|]. by eexists.
Qed.

Lemma start_lmcache_tracked s env l :
  tracked [] l [] ->
  exists l' cs r, start_lmcache s env l = Some (l', cs, r) /\
  match r with Ok _ => tracked cs l' (lmcache_argvs s) | Err _ => tracked cs l' [] /\ cs = [] end.
Proof.
  intros Ht. rw /start_lmcache /lmcache_argvs. destruct (should_spawn_lmcache_server _); [|by do 3 eexists].
  destruct (spawn_child_tracked (lmcache_server_argv (en_lmcache (sv_engine_cfg s)))
    (ag_gpu_index (cfg_agent (sv_cfg s))) env [] l [] ltac:(done) Ht) as (l1 & [c|e] & -> & Ht1); [|by do 3 eexists].
  destruct (wait_lmcache_server_some c (lm_http_port (en_lmcache (sv_engine_cfg s))) l1) as (l2 & [[]|e] & -> & Hq).
  - do 3 eexists. split; [done|]. by apply (tracked_quietly _ _ _ _ Hq) in Ht1.
  - do 3 eexists. split; [done|]. split; [|done].
    apply (tracked_kill (mkState [c] l2) [lmcache_server_argv (en_lmcache (sv_engine_cfg s))]).
    by apply (tracked_quietly _ _ _ _ Hq) in Ht1.
Qed.

Lemma spawn_engine_ok s st :
  children st = [] -> tracked [] (log st) [] ->
  exists st' r, spawn_engine_for_default_model s st = Some (st', r) /\ group_ok s st' /\
  (is_ok r = false -> children st' = []).
Proof.
  destruct st as [cs0 l]. cbn. intros -> Ht. rw /spawn_engine_for_default_model. cbv zeta. cbn [log].
  assert (Hid : group_ok s (mkState [] l)) by by exists []; split; [|left].
  destruct (negb _); [by do 2 eexists|]. destruct (default_model_spec s) as [spec|] eqn:Es; [|by do 2 eexists].
  destruct (start_lmcache_tracked s (engine_child_env (sv_engine_cfg s)) l Ht) as (l1 & cs & [[]|e] & -> & Hl); cbn [children].
  - destruct (group_argvs s spec) as [todo|e] eqn:Eg.
    + destruct (spawn_all_tracked todo (ag_gpu_index (cfg_agent (sv_cfg s))) (engine_child_env (sv_engine_cfg s)) cs l1 (lmcache_argvs s))
        as (l2 & cs2 & [[]|e] & -> & Hr); [by eapply group_argvs_nonempty|done| |].
      * do 2 eexists. split; [done|]. split; [|done]. eexists. split; [exact Hr|]. right. by exists spec, todo.
      * destruct Hr as [argvs' Hr]. do 2 eexists. split; [done|]. split; [|done].
        exists []. split; [by eapply tracked_drop|by left].
    + do 2 eexists. split; [done|]. split; [|done]. exists []. split; [by eapply tracked_drop|by left].
  - destruct Hl as [Hl ->]. do 2 eexists. split; [done|]. split; [|done]. exists []. split; [done|by left].
Qed.

Lemma group_ok_act s st a : quiet a = true -> group_ok s st -> group_ok s (act a st).
Proof. intros Ha (argvs & Ht & Hg). exists argvs. split; [by apply tracked_act|done]. Qed.

Lemma kill_children_tracked s st : group_ok s st -> tracked [] (log (kill_children st)) [].
Proof. intros (argvs & Ht & _). by eapply tracked_kill. Qed.

Abbreviation backoff_ok b := (secs 1 <= b <= secs 30)%Z.

Lemma supervise_step_ok s st b :
  group_ok s st -> backoff_ok b ->
  exists st' b', supervise_step s (st, b) = Some (st', b') /\ group_ok s st' /\ backoff_ok b'.
Proof.
  intros Hg Hb. apply (group_ok_act _ _ (Sleep (secs 1))) in Hg; [|done]. rw /supervise_step. cbv zeta.
  set (st1 := act _ st) in *. clearbody st1.
  destruct (children st1) as [|c cs] eqn:Ec; [by do 2 eexists|]. rw -Ec.
  destruct (negb _); [do 2 eexists; split_and!; [done|done|rw /secs; lia..]|].
  destruct (spawn_engine_ok s (act (Sleep b) (kill_children st1))) as (st2 & r & -> & Hg2 & _); [done| |].
  - apply tracked_act; [done|]. by eapply kill_children_tracked.
  - do 2 eexists. split_and!; [done|done|..]; rw /secs in Hb |- *; lia.
Qed.

Lemma supervise_ok s n st b :
  group_ok s st -> backoff_ok b ->
  exists st' b', supervise n s (st, b) = Some (st', b') /\ group_ok s st' /\ backoff_ok b'.
Proof.
  revert st b. induction n as [|n IH]; intros st b Hg Hb; [by do 2 eexists|]. cbn [supervise].
  destruct (supervise_step_ok s st b Hg Hb) as (st1 & b1 & -> & Hg1 & Hb1). by apply IH.
Qed.

Lemma supervise_idle s n l b :
  supervise n s (mkState [] l, b) = Some (mkState [] (replicate n (Sleep (secs 1)) ++ l), b).
Proof.
  revert l. induction n as [|n IH]; intros l; [done|]. cbn [supervise].
  change (supervise_step s (mkState [] l, b)) with (Some (mkState [] (Sleep (secs 1) :: l), b)).
  cbv iota. rw IH. do 3 f_equal. by rw (app_assoc _ [_] l) -replicate_cons_app.
Qed.

(** Nothing the agent has started is left without a kill. *)
Definition all_killed (l : Log) : Prop := forall c, c < spawned l -> StartKill c ∈ l.

Lemma tracked_killed l argvs : tracked [] l argvs -> all_killed l.
Proof. intros (Hc & _) c Hlt. by destruct (Hc c Hlt) as [?%elem_of_nil|?]. Qed.

(** C17. No process is lost. Starting the agent does not panic; if it fails,
    everything that was started has been killed. If it succeeds, then after any
    number of turns of the supervision loop, whatever the operating system
    answers, every process started is a supervised child or has been killed, the
    children are one whole group in its order, LMCache server, workers, engine, or
    none at all, and the back-off lies between one and thirty seconds; shutting
    down or dropping the supervisor leaves nothing without a kill. *)
Theorem no_process_lost cfg :
  exists st r, Supervisor_new cfg [] = Some (st, r) /\
  match r with
  | Err _ => all_killed (log st)
  | Ok s => forall turns, exists st' b,
      supervise turns s (st, secs 1) = Some (st', b) /\ group_ok s st' /\ backoff_ok b /\
      all_killed (log (shutdown st')) /\ all_killed (log (Supervisor_drop st'))
  end.
Proof.
  assert (Ht : tracked [] [] []) by (split_and!; [by intros c Hc%Nat.nlt_0_r|constructor|constructor|done]).
  rw /Supervisor_new. destruct http_client; [|by do 2 eexists; split; [done|eapply tracked_killed]].
  destruct (spawn_engine_ok (mkSupervisor cfg (resolve_engine_config cfg)) (mkState [] [])) as (st & [[]|e] & -> & Hg & Hr); [done|done| |].
  - do 2 eexists. split; [done|]. intros turns.
    destruct (supervise_ok _ turns st (secs 1) Hg) as (st' & b & E & Hg' & Hb); [by rw /secs|].
    exists st', b. do 3 (split; [done|]). split.
    + by eapply tracked_killed, kill_children_tracked.
    + destruct Hg' as (argvs & Ht' & _). by eapply tracked_killed, tracked_drop.
  - do 2 eexists. split; [done|]. destruct Hg as (argvs & Ht' & _). by eapply tracked_killed, tracked_drop.
Qed.

(** A failed restart is final. When a child has died and starting the group
    again fails, the loop logs that it will retry, but there are no children any
    more and every further turn only sleeps: nothing is started again. *)
Lemma failed_respawn_is_final s st b st1 e :
  existsb (child_died (Sleep (secs 1) :: log st)) (children st) = true ->
  spawn_engine_for_default_model s (act (Sleep b) (kill_children (act (Sleep (secs 1)) st))) = Some (st1, Err e) ->
  group_ok s st ->
  forall turns, supervise (S turns) s (st, b)
    = Some (mkState [] (replicate turns (Sleep (secs 1)) ++ log st1), Z.min (b * 2) (secs 30)).
Proof.
  intros Hd Hs Hg turns. cbn [supervise].
  destruct (spawn_engine_ok s (act (Sleep b) (kill_children (act (Sleep (secs 1)) st)))) as (st2 & r & E & _ & Hr); [done| |].
  { apply tracked_act; [done|]. by eapply kill_children_tracked, group_ok_act. }
  rw Hs in E. injection E as <- <-. specialize (Hr eq_refl).
  assert (Hstep : supervise_step s (st, b) = Some (st1, Z.min (b * 2) (secs 30))).
  { clear Hg Hr. destruct st as [[|c cs] l]; [done|].
    change (supervise_step s (mkState (c :: cs) l, b)) with
      (if negb (existsb (child_died (Sleep (secs 1) :: l)) (c :: cs)) then Some (act (Sleep (secs 1)) (mkState (c :: cs) l), secs 1)
       else match spawn_engine_for_default_model s (act (Sleep b) (kill_children (act (Sleep (secs 1)) (mkState (c :: cs) l)))) with
            | None => None
            | Some (st, _) => Some (st, Z.min (b * 2) (secs 30))
            end).
    by rw Hd Hs. }
  rw Hstep. destruct st1 as [cs1 l1]. cbn in Hr. subst cs1. apply supervise_idle.
Qed.

End group.

Module SupervisorExamples.

#[local] Instance no_json : SerdeJson := {| json_to_string _ := ""; json_tree _ := None |}.

(** The time slept so far. *)
Fixpoint slept (l : Log) : Z :=
  match l with
  | Sleep d :: l' => Z.max 0 d + slept l'
  | _ :: l' => slept l'
  | [] => 0
  end.

(** A machine on which [spawns] processes can be started and every process has
    exited two seconds after the agent came up. *)
#[local] Instance machine (spawns : nat) : Os := {|
  os_spawn l _ := (spawned l <? spawns)%nat;
  try_wait l _ := if (slept l <? secs 2)%Z then Running else Exited;
  http_ok _ _ := false;
  engine_ready l := (secs 1 <=? slept l)%Z;
  inflight l := (if slept l <? millis 300 then 2 else 0)%Z;
  now := slept;
  env_set _ := false;
  http_client := true;
  models_iter m := map_to_list m;
  read_to_string _ := None;
|}.

Lemma machine_laws spawns : @OsLaws (machine spawns).
Proof. split; [|intros d l; cbn; lia|done]. intros [] l; cbn; lia. Qed.

Definition config : Config :=
  let d := Config_default (mkHostEnv (Some "h") None "0") in
  mkConfig (cfg_cluster d) (cfg_router d) (cfg_agent d) (cfg_engine d) (cfg_kv d) (cfg_security d) (cfg_metrics d)
    (cfg_auth d) (cfg_carbon d) {["m" := ModelConfig_default]}.
Definition sv : Supervisor := mkSupervisor config (resolve_engine_config config).

(** The state after [Supervisor::new] and a first quiet second. *)
Definition started (spawns : nat) : State :=
  match @Supervisor_new (machine spawns) _ config [] with
  | Some (st, _) => act (Sleep (secs 1)) st
  | None => mkState [] []
  end.

Lemma waits_end_witness :
  (0 <= secs 5)%Z /\ @drained (machine 1) (secs 5) (@drain (machine 1) (secs 5) []) /\
  @drain (machine 1) (secs 5) [] = ([Sleep (millis 100); Sleep (millis 100); Sleep (millis 100); NotifyDrain], Some 0%Z).
Proof.
  split_and!; [done| |by vm_compute].
  destruct (@waits_end (machine 1) (machine_laws 1) (secs 5) 0 8080%Z []) as (_ & Hd & _); [done|exact Hd].
Defined.

Lemma no_process_lost_witness :
  exists st s st' b, @Supervisor_new (machine 9) _ config [] = Some (st, Ok s) /\
  @supervise (machine 9) _ 3 s (st, secs 1) = Some (st', b) /\ spawned (log st') = 3 /\ children st' = [2] /\
  @all_killed (log (shutdown st')).
Proof.
  destruct (@no_process_lost (machine 9) (machine_laws 9) _ config) as (st & r & E & Hr).
  assert (E' := E). vm_compute in E'. injection E' as <- <-.
  destruct (Hr 3) as (st' & b & Es & _ & _ & Hk & _).
  assert (Es' := Es). vm_compute in Es'. injection Es' as <- <-.
  do 4 eexists. split; [exact E|]. split; [exact Es|]. split_and!; [done|done|exact Hk].
Defined.

Definition died : bool := @existsb nat (@child_died (machine 1) (Sleep (secs 1) :: log (started 1))) (children (started 1)).

Lemma failed_respawn_is_final_witness :
  died = true /\ exists l,
  @supervise (machine 1) _ 1000 sv (started 1, secs 4)
    = Some (mkState [] (replicate 999 (Sleep (secs 1)) ++ l), secs 8) /\ spawned l = 1.
Proof.
  split; [by vm_compute|].
  destruct (@spawn_engine_for_default_model (machine 1) _ sv
    (act (Sleep (secs 4)) (kill_children (act (Sleep (secs 1)) (started 1))))) as [[st1 [[]|e]]|] eqn:E.
  - by vm_compute in E.
  - exists (log st1). split.
    + apply (@failed_respawn_is_final (machine 1) (machine_laws 1) _ sv (started 1) (secs 4) st1 e); [by vm_compute|exact E|].
      exists [["vllm"; "serve"; "m"; "--tensor-parallel-size"; "1"; "--enable-chunked-prefill"]].
      split; [|right; eexists _, [["vllm"; "serve"; "m"; "--tensor-parallel-size"; "1"; "--enable-chunked-prefill"]]; split; [vm_compute; reflexivity|split; by vm_compute]].
      split_and!; [intros [|c] Hc; [by left; left|by vm_compute in Hc; lia]|repeat constructor|apply NoDup_singleton|by vm_compute].
    + assert (E' := E). vm_compute in E'. by injection E' as <- <-.
  - by vm_compute in E.
Defined.

End SupervisorExamples.
