(* ===== verification/Auth.v ===== *)
(** * Authentication and rate-limit keys

    [cgn-auth/src/lib.rs], [api_key.rs], [middleware.rs], [oidc.rs],
    [build_auth_state] of [cgn-router/src/gateway/mod.rs], and the choice of the
    bucket in [cgn-ratelimit/src/lib.rs]. SHA-256 is the class [Sha256], JSON web
    tokens and the identity provider the class [Jwt]; parsing an address is an
    argument. The token buckets themselves are the governor crate. *)

From S2P Require Import Prelude Hash Config Text BTree KvTransport.

(** ** Principals *)

Inductive PrincipalKind := Kind_ApiKey | Kind_Oidc | Kind_Anonymous.
#[export] Instance PrincipalKind_eq_dec : EqDecision PrincipalKind.
Proof. solve_decision. Defined.

Record Principal := mkPrincipal { subject : str; scopes : list str; kind : PrincipalKind }.

Definition anonymous : Principal := mkPrincipal (lit "anonymous") [] Kind_Anonymous.

Definition has_scope (p : Principal) (scope : str) : bool :=
  existsb (fun s => bool_decide (s = scope) || bool_decide (s = lit "*")) (scopes p).

Definition model_hit (model pat : str) : bool :=
  match strip_suffix_char 42 pat with
  | Some prefix => starts_with prefix model
  | None => bool_decide (pat = model)
  end.

Fixpoint allows_loop (model : str) (restricted : bool) (pats : list str) : bool * bool :=
  match pats with
  | [] => (false, restricted)
  | pat :: pats' => if model_hit model pat then (true, true) else allows_loop model true pats'
  end.

Definition allows_model (p : Principal) (model : str) : bool :=
  let (hit, restricted) := allows_loop model false (omap (strip_prefix (lit "model:")) (scopes p)) in
  hit || negb restricted || has_scope p (lit "*").

Definition tenant (p : Principal) : str :=
  if decide (kind p = Kind_Anonymous) then []
  else default (subject p) (find_map (strip_prefix (lit "tenant:")) (scopes p)).

Definition limit_scope (name s : str) : option Z :=
  match strip_prefix name s with
  | Some s => match strip_prefix (lit ":") s with Some s => parse_u64 s | None => None end
  | None => None
  end.
Definition limit (p : Principal) (name : str) : option Z := find_map (limit_scope name) (scopes p).

(** ** API keys *)

Class Sha256 := {
  sha256 : list Z -> list Z;
  sha256_length m : length (sha256 m) = 32;
  sha256_bytes m : Forall (fun b => (0 <= b < 256)%Z) (sha256 m);
}.

Definition is_hexdigit (c : Z) : bool :=
  is_digit c || ((65 <=? c) && (c <=? 70) || (97 <=? c) && (c <=? 102))%Z.
Definition hex_value (c : Z) : Z :=
  (if is_digit c then c - 48 else if c <=? 70 then c - 55 else c - 87)%Z.

(** [chunks(2)] and [from_str_radix(_, 16)] on hexadecimal digits. *)
Fixpoint from_hex (s : str) : list Z :=
  match s with
  | a :: b :: s' => (16 * hex_value a + hex_value b)%Z :: from_hex s'
  | _ => []
  end.

Abbreviation KeyMap := (gmap (list Z) (list str)).

Record ApiKeyStore := mkKeyStore { ks_inner : KeyMap; ks_path : option string }.

Section keys.
Context `{Sha256}.

Definition key_digest (token : str) : list Z :=
  if (length (utf8 token) =? 64)%nat && forallb is_hexdigit (utf8 token) then from_hex (utf8 token)
  else sha256 (utf8 token).

Definition scope_list (s : str) : list str := List.filter (fun x => negb (bool_decide (x = []))) (trim <$> split_char 44 s).

(** One line of the file: a key and its scopes, or nothing. *)
Definition parse_line (raw : str) : option (list Z * list str) :=
  match split_whitespace (trim (default [] (head (split_char 35 raw)))) with
  | [] => None
  | [token] => Some (key_digest token, [])
  | token :: scopes :: _ => Some (key_digest token, scope_list scopes)
  end.

Definition parse_keys (txt : str) : KeyMap :=
  foldl (fun m raw => match parse_line raw with Some (d, sc) => <[d := sc]> m | None => m end) ∅ (lines txt).

(** [from_file] and [reload] with what reading the file gives. *)
Definition ApiKeyStore_from_file (path : string) (read : option str) : result ApiKeyStore Error :=
  match read with
  | None => Err (Error_Config "api keys file")
  | Some txt => Ok (mkKeyStore (parse_keys txt) (Some path))
  end.

Definition ApiKeyStore_reload (read : option str) (ks : ApiKeyStore) : ApiKeyStore * result unit Error :=
  match ks_path ks with
  | None => (ks, Ok tt)
  | Some _ =>
      match read with
      | None => (ks, Err (Error_Config "api keys file"))
      | Some txt => (mkKeyStore (parse_keys txt) (ks_path ks), Ok tt)
      end
  end.

Definition ApiKeyStore_check (presented : str) (ks : ApiKeyStore) : option Principal :=
  let digest := sha256 (utf8 presented) in
  match ks_inner ks !! digest with
  | Some sc => Some (mkPrincipal (lit "apikey:" ++ lit (short digest)) sc Kind_ApiKey)
  | None => None
  end.

End keys.

(** ** OIDC *)

Inductive Algorithm := RS256 | RS384 | RS512 | ES256 | ES384.

Record Jwk := mkJwk {
  jwk_kid : str; jwk_alg : option str; jwk_n : option str; jwk_e : option str;
  jwk_x : option str; jwk_y : option str; jwk_kty : str;
}.

(** A claim the verifier does not know, as far as it looks at it. *)
Inductive ClaimValue :=
| Claim_Array (items : list (option str))
| Claim_String (s : str)
| Claim_Other.

Record Claims := mkClaims { cl_sub : str; cl_scope : option str; cl_extra : list (str * ClaimValue) }.

Class Jwt := {
  DecodingKey : Type;
  from_rsa_components : str -> str -> option DecodingKey;
  from_ec_components : str -> str -> option DecodingKey;
  decode_header : str -> option (option str);
  jwt_decode : str -> DecodingKey -> Algorithm -> string -> option string -> option Claims;
}.

Section oidc.
Context `{Jwt}.

Record JwkEntry := mkJwkEntry { je_kid : str; je_alg : Algorithm; je_key : DecodingKey }.

Record OidcVerifier := mkOidc {
  ov_issuer : string;
  ov_audience : option string;
  ov_group_to_scope : option (list (str * str));
  ov_groups_claim : str;
  ov_jwks : list JwkEntry;
  ov_refresh : Z;
}.

Definition OidcVerifier_new (issuer : string) (audience : option string) (now : Z) : OidcVerifier :=
  mkOidc issuer audience None (lit "groups") [] (now - secs 86400)%Z.
Definition with_group_scope_map (m : list (str * str)) (v : OidcVerifier) : OidcVerifier :=
  mkOidc (ov_issuer v) (ov_audience v) (Some m) (ov_groups_claim v) (ov_jwks v) (ov_refresh v).
Definition with_groups_claim (c : str) (v : OidcVerifier) : OidcVerifier :=
  mkOidc (ov_issuer v) (ov_audience v) (ov_group_to_scope v) c (ov_jwks v) (ov_refresh v).
Definition set_jwks (keys : list JwkEntry) (now : Z) (v : OidcVerifier) : OidcVerifier :=
  mkOidc (ov_issuer v) (ov_audience v) (ov_group_to_scope v) (ov_groups_claim v) keys now.

Definition alg_of (s : option str) : option Algorithm :=
  match s with
  | None => None
  | Some s =>
      if decide (s = lit "RS256") then Some RS256 else if decide (s = lit "RS384") then Some RS384
      else if decide (s = lit "RS512") then Some RS512 else if decide (s = lit "ES256") then Some ES256
      else if decide (s = lit "ES384") then Some ES384 else None
  end.

Definition build_entry (k : Jwk) : option JwkEntry :=
  match alg_of (jwk_alg k) with
  | None => None
  | Some alg =>
      let key :=
        if decide (jwk_kty k = lit "RSA") then
          match jwk_n k, jwk_e k with Some n, Some e => from_rsa_components n e | _, _ => None end
        else if decide (jwk_kty k = lit "EC") then
          match jwk_x k, jwk_y k with Some x, Some y => from_ec_components x y | _, _ => None end
        else None in
      match key with Some key => Some (mkJwkEntry (jwk_kid k) alg key) | None => None end
  end.

(** What the identity provider answers to a refresh: its keys or an error. *)
Definition refresh_jwks (fetched : result (list Jwk) Error) (now : Z) (v : OidcVerifier) : OidcVerifier * result unit Error :=
  match fetched with
  | Err e => (v, Err e)
  | Ok keys => (set_jwks (omap build_entry keys) now v, Ok tt)
  end.

Definition KID_MISS_COOLDOWN : Z := secs 30.

Definition may_refresh_on_miss (now : Z) (v : OidcVerifier) : OidcVerifier * bool :=
  if (now - ov_refresh v <? KID_MISS_COOLDOWN)%Z then (v, false) else (set_jwks (ov_jwks v) now v, true).

Fixpoint assoc_str {A} (k : str) (l : list (str * A)) : option A :=
  match l with [] => None | (k', a) :: l' => if decide (k' = k) then Some a else assoc_str k l' end.

Definition extract_groups (extra : list (str * ClaimValue)) (claim : str) : list str :=
  match assoc_str claim extra with
  | Some (Claim_Array items) => omap id items
  | Some (Claim_String s) => split_whitespace s
  | _ => []
  end.

Definition add_scope (groups : list str) (scopes : list str) (gs : str * str) : list str :=
  if bool_decide (gs.1 ∈ groups) && negb (bool_decide (gs.2 ∈ scopes)) then scopes ++ [gs.2] else scopes.

Definition scopes_of (v : OidcVerifier) (c : Claims) : list str :=
  let scopes := default [] (split_whitespace <$> cl_scope c) in
  match ov_group_to_scope v with
  | Some mapping => foldl (add_scope (extract_groups (cl_extra c) (ov_groups_claim v))) scopes mapping
  | None => scopes
  end.

Definition find_key (kid : str) (v : OidcVerifier) : option JwkEntry :=
  list_find (fun k => je_kid k = kid) (ov_jwks v) ≫= fun p => Some p.2.

(** [verify]; [fetch1] and [fetch2] answer the two refreshes it may make. *)
Definition oidc_verify (now : Z) (fetch1 fetch2 : result (list Jwk) Error) (token : str) (v : OidcVerifier)
    : OidcVerifier * result Principal Error :=
  let (v, r) :=
    if bool_decide (ov_jwks v = [] \/ (secs 3600 < now - ov_refresh v)%Z) then refresh_jwks fetch1 now v else (v, Ok tt) in
  match r with
  | Err e => (v, Err e)
  | Ok _ =>
      match decode_header token with
      | None => (v, Err (Error_InvalidArgument "oidc header"))
      | Some None => (v, Err (Error_InvalidArgument "oidc: no kid"))
      | Some (Some kid) =>
          let (v, r) :=
            match find_key kid v with
            | Some _ => (v, Ok tt)
            | None => let (v, may) := may_refresh_on_miss now v in if may then refresh_jwks fetch2 now v else (v, Ok tt)
            end in
          match r with
          | Err e => (v, Err e)
          | Ok _ =>
              match find_key kid v with
              | None => (v, Err (Error_InvalidArgument "oidc: kid not in jwks"))
              | Some entry =>
                  match jwt_decode token (je_key entry) (je_alg entry) (ov_issuer v) (ov_audience v) with
                  | None => (v, Err (Error_InvalidArgument "oidc verify"))
                  | Some c => (v, Ok (mkPrincipal (cl_sub c) (scopes_of v c) Kind_Oidc))
                  end
              end
          end
      end
  end.

(** ** The middleware *)

Record AuthState := mkAuthState { as_api_keys : option ApiKeyStore; as_oidc : option OidcVerifier; as_required : bool }.

Definition AuthState_anonymous : AuthState := mkAuthState None None false.

Definition group_scope_pairs (m : gmap string (list string)) : list (str * str) :=
  concat (map (fun gs : string * list string => map (fun s => (lit gs.1, lit s)) gs.2) (btree_iter m)).

(** [build_auth_state]: [keys_read] is what reading the keys file gives, the time
    is that of start-up. *)
Definition build_auth_state `{Sha256} (cfg : Config) (keys_read : option str) (now : Z) : AuthState :=
  let auth := cfg_auth cfg in
  if negb (au_enabled auth) then AuthState_anonymous
  else
    let keys :=
      match au_api_keys_file auth with
      | Some path => match ApiKeyStore_from_file path keys_read with Ok ks => Some ks | Err _ => None end
      | None => None
      end in
    let oidc :=
      match au_oidc_issuer auth with
      | Some issuer =>
          let v := OidcVerifier_new issuer (au_oidc_audience auth) now in
          let v := if bool_decide (btree_iter (au_oidc_group_scopes auth) = []) then v
                   else with_group_scope_map
(group_scope_pairs (au_oidc_group_scopes auth)) v in
          Some (match au_oidc_groups_claim auth with Some c => with_groups_claim (lit c) v | None => v end)
      | None => None
      end in
    mkAuthState keys oidc true.

Definition bearer (header : option str) : option str :=
  match header with Some h => trim <$> strip_prefix (lit "Bearer ") h | None => None end.

(** [auth_middleware]: the principal of the request, or 401. *)
Definition auth_middleware `{Sha256} (now : Z) (fetch1 fetch2 : result (list Jwk) Error) (header : option str)
    (st : AuthState) : AuthState * option Principal :=
  let (st, principal) :=
    match bearer header with
    | None => (st, None)
    | Some token =>
        match as_api_keys st ≫= ApiKeyStore_check token with
        | Some p => (st, Some p)
        | None =>
            match as_oidc st with
            | None => (st, None)
            | Some v =>
                let (v, r) := oidc_verify now fetch1 fetch2 token v in
                (mkAuthState (as_api_keys st) (Some v) (as_required st), match r with Ok p => Some p | Err _ => None end)
            end
        end
    end in
  if bool_decide (principal = None) && as_required st then (st, None)
  else (st, Some (default anonymous principal)).

End oidc.

(** ** The rate limiter's bucket *)

Record Cidr := mkCidr { net : IpAddr; bits : Z }.

Section ratelimit.
Context (parse_ip : str -> option IpAddr) (show_ip : IpAddr -> str).

Definition is_ipv4 (ip : IpAddr) : bool := match ip with V4 _ => true | V6 _ => false end.
Definition width (ip : IpAddr) : Z := (if is_ipv4 ip then 32 else 128)%Z.

(** [u32::from] and [u128::from]. *)
Definition ip_value (ip : IpAddr) : Z :=
  match ip with
  | V4 o => foldl (fun acc b => Z.lor (Z.shiftl acc 8) b) 0%Z o
  | V6 s => foldl (fun acc w => Z.lor (Z.shiftl acc 16) w) 0%Z s
  end.

Definition Cidr_parse (s : str) : option Cidr :=
  match
    match split_once 47 s with
    | Some (ip, bits) => match parse_ip ip, parse_u32 bits with Some ip, Some bits => Some (ip, bits) | _, _ => None end
    | None => match parse_ip s with Some ip => Some (ip, width ip) | None => None end
    end
  with
  | Some (ip, bits) => if (bits <=? width ip)%Z then Some (mkCidr ip bits) else None
  | None => None
  end.

Definition shifted (c : Cidr) (v w : Z) : Z := if (bits c =? 0)%Z then 0%Z else Z.shiftr v (w - bits c).

Definition Cidr_contains (c : Cidr) (ip : IpAddr) : bool :=
  if bool_decide (is_ipv4 (net c) = is_ipv4 ip)
  then (shifted c (ip_value (net c)) (width ip) =? shifted c (ip_value ip) (width ip))%Z
  else false.

Definition trusted_proxies (proxies : list str) : list Cidr := omap Cidr_parse proxies.
Definition is_trusted (trusted : list Cidr) (ip : IpAddr) : bool := existsb (fun c => Cidr_contains c ip) trusted.

(** The loop over the hops, right to left. *)
Fixpoint client_loop (trusted : IpAddr -> bool) (client : IpAddr) (hops : list str) : IpAddr :=
  match hops with
  | [] => client
  | hop :: hops' =>
      match parse_ip (trim hop) with
      | Some ip => if trusted ip then client_loop trusted ip hops' else ip
      | None => client
      end
  end.

Definition client_ip (peer : option IpAddr) (xff : option str) (trusted : IpAddr -> bool) : option IpAddr :=
  match peer with
  | None => None
  | Some peer => if negb (trusted peer) then Some peer else Some (client_loop trusted peer (rsplit_char 44 (default [] xff)))
  end.

Definition ip_key (ip : option IpAddr) : str := match ip with Some ip => lit "ip:" ++ show_ip ip | None => lit "anonymous" end.

Definition key_for (trusted : list Cidr) (principal : option Principal) (peer : option IpAddr) (xff : option str) : str :=
  match principal with
  | Some p => if negb (bool_decide (kind p = Kind_Anonymous)) then lit "sub:" ++ subject p
              else ip_key (client_ip peer xff (is_trusted trusted))
  | None => ip_key (client_ip peer xff (is_trusted trusted))
  end.

(** ** Properties of the bucket *)

(** The walk stops at this hop. *)
Definition stops (trusted : IpAddr -> bool) (hop : str) : bool :=
  match parse_ip (trim hop) with Some ip => negb (trusted ip) | None => true end.

Lemma client_loop_app trusted client l1 l2 :
  existsb (stops trusted) l1 = true -> client_loop trusted client (l1 ++ l2) = client_loop trusted client l1.
Proof.
  revert client. induction l1 as [|h l1 IH]; intros client; cbn; [done|]. rw /stops.
  destruct (parse_ip (trim h)) as [ip|]; [|done]. destruct (trusted ip); cbn; [by apply IH|done].
Qed.

(** Two addresses of a family are in the same network when their first [bits]
    bits agree. *)
Lemma Cidr_contains_prefix c ip :
  (0 <= bits c <= width ip)%Z -> (0 <= ip_value (net c) < 2 ^ width ip)%Z -> (0 <= ip_value ip < 2 ^ width ip)%Z ->
  is_ipv4 (net c) = is_ipv4 ip ->
  Cidr_contains c ip = true <->
  forall i, (width ip - bits c <= i < width ip)%Z -> Z.testbit (ip_value (net c)) i = Z.testbit (ip_value ip) i.
Proof.
  intros Hb Hn Hi Hf. rw /Cidr_contains bool_decide_true // /shifted.
  assert (high : forall v i, (0 <= v < 2 ^ width ip)%Z -> (width ip <= i)%Z -> Z.testbit v i = false).
  { intros v i Hv Hw. destruct (decide (v = 0)%Z) as [->|]; [apply Z.bits_0|]. apply Z.bits_above_log2; [lia|].
    apply Z.log2_lt_pow2; [lia|]. eapply Z.lt_le_trans; [apply Hv|]. apply Z.pow_le_mono_r; lia. }
  destruct (Z.eqb_spec (bits c) 0) as [Hz|Hz]; [split; [intros _ i Hi'; lia|done]|]. rw Z.eqb_eq. split.
  - intros E i Hi'. apply (f_equal (fun z => Z.testbit z (i - (width ip - bits c)))) in E.
    rw !Z.shiftr_spec in E; [lia..|]. by rw Z.sub_add in E.
  - intros E. apply Z.bits_inj'. intros i Hi0. rw !Z.shiftr_spec //.
    destruct (Z.lt_ge_cases (i + (width ip - bits c)) (width ip)); [apply E; lia|]. by rw !high //; lia.
Qed.

(** A client cannot choose its rate-limit bucket. An authenticated request is
    counted under its subject, whatever its address and headers; a request from a
    peer that is not a trusted proxy under that peer's address, whatever its
    [X-Forwarded-For]; and behind trusted proxies whatever a client writes before
    the hops the proxies have added changes nothing, as soon as one of those is
    not itself trusted or not an address. *)
Lemma bucket_unspoofable trusted principal peer :
  (forall p xff, principal = Some p -> kind p <> Kind_Anonymous ->
     key_for trusted principal (Some peer) xff = lit "sub:" ++ subject p) /\
  (forall xff xff', is_trusted trusted peer = false ->
     key_for trusted principal (Some peer) xff = key_for trusted principal (Some peer) xff') /\
  (forall forged added, existsb (stops (is_trusted trusted)) (rsplit_char 44 added) = true ->
     key_for trusted principal (Some peer) (Some (forged ++ 44%Z :: added))
     = key_for trusted principal (Some peer) (Some added)).
Proof.
  split_and!.
  - intros p xff -> Hk. by rw /key_for bool_decide_false.
  - intros xff xff' Ht. rw /key_for /client_ip Ht. done.
  - intros forged added Hs. rw /key_for /client_ip /=. destruct (negb (is_trusted trusted peer)); [done|].
    rw /rsplit_char split_char_app reverse_app client_loop_app //.
Qed.

End ratelimit.

(** ** Properties of authentication *)

Section authentication.
Context `{Sha256} `{Jwt}.

(** The records of a key file, in order. *)
Definition key_records (txt : str) : list (list Z * list str) := omap (M := list) parse_line (lines txt).

Lemma foldl_records (ls : list str) (m : KeyMap) :
  foldl (fun (m : KeyMap) raw => match parse_line raw with Some (d, sc) => <[d := sc]> m | None => m end) m ls
  = foldl (fun (m : KeyMap) r => <[r.1 := r.2]> m) m (omap (M := list) parse_line ls).
Proof. revert m. induction ls as [|l ls IH]; intros m; [done|]. cbn. rw IH. by destruct (parse_line l) as [[d sc]|]. Qed.

(** The last record of a key counts. *)
Lemma parse_keys_lookup txt d :
  parse_keys txt !! d = last (snd <$> filter (fun r => r.1 = d) (key_records txt)).
Proof.
  rw /parse_keys foldl_records -/(key_records txt). induction (key_records txt) as [|[d' sc] l IH] using rev_ind; [done|].
  rw foldl_snoc filter_app fmap_app. destruct (decide (d' = d)) as [->|Hne].
  - by rw lookup_insert_eq filter_cons_True // last_snoc.
  - by rw lookup_insert_ne // filter_cons_False // filter_nil app_nil_r.
Qed.

Lemma refresh_verifier f now v v' r : refresh_jwks f now v = (v', r) ->
  ov_issuer v' = ov_issuer v /\ ov_audience v' = ov_audience v /\ ov_group_to_scope v' = ov_group_to_scope v /\
  ov_groups_claim v' = ov_groups_claim v.
Proof. destruct f; cbn; by intros [= <- _]. Qed.

(** A token stands for a principal: its digest is in the key store, or a key of
    the issuer verifies it. *)
Definition by_key (st : AuthState) (token : str) (p : Principal) : Prop :=
  exists ks sc, as_api_keys st = Some ks /\ ks_inner ks !! sha256 (utf8 token) = Some sc /\
  scopes p = sc /\ kind p = Kind_ApiKey.

Definition by_oidc (st' : AuthState) (token : str) (p : Principal) : Prop :=
  exists v entry c, as_oidc st' = Some v /\ entry ∈ ov_jwks v /\ decode_header token = Some (Some (je_kid entry)) /\
  jwt_decode token (je_key entry) (je_alg entry) (ov_issuer v) (ov_audience v) = Some c /\
  subject p = cl_sub c /\ scopes p = scopes_of v c /\ kind p = Kind_Oidc.

Lemma find_key_Some kid v e : find_key kid v = Some e -> e ∈ ov_jwks v /\ je_kid e = kid.
Proof.
  rw /find_key. destruct (list_find _ _) as [[i e']|] eqn:E; [|done]. cbn. intros [= ->].
  apply list_find_Some in E as (Hl & Hk & _). split; [by eapply list_elem_of_lookup_2|done].
Qed.

Lemma oidc_verify_ok now f1 f2 token v v' p :
  oidc_verify now f1 f2 token v = (v', Ok p) ->
  exists entry c, entry ∈ ov_jwks v' /\ decode_header token = Some (Some (je_kid entry)) /\
  jwt_decode token (je_key entry) (je_alg entry) (ov_issuer v') (ov_audience v') = Some c /\
  subject p = cl_sub c /\ scopes p = scopes_of v' c /\ kind p = Kind_Oidc.
Proof.
  rw /oidc_verify. destruct (if bool_decide _ then _ else _) as [v1 [[]|e]]; [|done].
  destruct (decode_header token) as [[kid|]|]; [|done|done].
  destruct (match find_key kid v1 with Some _ => _ | None => _ end) as [v2 [[]|e]]; [|done].
  destruct (find_key kid v2) as [entry|] eqn:Ef; [|done]. destruct (jwt_decode _ _ _ _ _) as [c|] eqn:Ed; [|done].
  intros [= <- <-]. apply find_key_Some in Ef as [Hin <-]. by exists entry, c.
Qed.

(** Authentication fails closed. When it is enabled, a request reaches its
    handler only with a bearer token, and as the principal of a record of the key
    file with that token's digest, the last one, or as the subject of a token some
    current key of the configured issuer verifies; never anonymously. This holds
    when the key file cannot be read and when the issuer does not answer, and the
    state stays the one of an enabled gateway. *)
Lemma auth_fails_closed cfg keys_read now0 st now f1 f2 header st' p :
  au_enabled (cfg_auth cfg) = true ->
  as_required st = true -> as_api_keys st = as_api_keys (build_auth_state cfg keys_read now0) ->
  auth_middleware now f1 f2 header st = (st', Some p) ->
  as_required st' = true /\ as_api_keys st' = as_api_keys st /\ kind p <> Kind_Anonymous /\
  exists token, bearer header = Some token /\ (by_key st token p \/ by_oidc st' token p) /\
  (by_key st token p -> exists txt, keys_read = Some txt /\
     last (snd <$> filter (fun r => r.1 = sha256 (utf8 token)) (key_records txt)) = Some (scopes p)).
Proof.
  intros Hen Hreq Hkeys. rw /auth_middleware.
  destruct (bearer header) as [token|]; [|by rw Hreq].
  assert (Hfile : by_key st token p -> exists txt, keys_read = Some txt /\
    last (snd <$> filter (fun r => r.1 = sha256 (utf8 token)) (key_records txt)) = Some (scopes p)).
  { intros (ks & sc & Hks & Hl & Hs & _). rw Hkeys /build_auth_state Hen /= in Hks.
    destruct (au_api_keys_file _) as [path|]; [|done]. destruct keys_read as [txt|]; [|done].
    cbn in Hks. injection Hks as <-. exists txt. split; [done|]. by rw -parse_keys_lookup Hs. }
  destruct (as_api_keys st ≫= ApiKeyStore_check token) as [q|] eqn:Ek.
  - cbn. intros [= <- <-]. destruct (as_api_keys st) as [ks|] eqn:Eks; [|done]. cbn in Ek.
    rw /ApiKeyStore_check in Ek. destruct (ks_inner ks !! _) as [sc|] eqn:El; [|done]. injection Ek as <-.
    assert (Hby : by_key st token (mkPrincipal (lit "apikey:" ++ lit (short (sha256 (utf8 token)))) sc Kind_ApiKey))
      by by exists ks, sc.
    split_and!; [done|done|done|]. exists token. by split_and!; [|left|].
  - destruct (as_oidc st) as [v|]; [|by rw Hreq].
    destruct (oidc_verify now f1 f2 token v) as [v' [q|e]] eqn:Ev; cbn; [|by rw Hreq].
    intros [= <- <-]. apply oidc_verify_ok in Ev as (entry & c & Hin & Hd & Hj & Hs & Hsc & Hk).
    split_and!; [done|done|by rw Hk|]. exists token. split_and!; [done| |done].
    right. by exists v', entry, c.
Qed.

End authentication.

Module AuthExamples.

#[local] Instance toy_sha : Sha256.
Proof.
  refine {| sha256 m := take 32 (map (fun b => (b mod 256)%Z) m ++ replicate 32 0%Z) |}.
  - intros m. rw length_take length_app length_replicate. lia.
  - intros m. apply Forall_take, Forall_app. split; [|by apply Forall_replicate].
    apply Forall_map, Forall_forall. intros b _. by apply Z.mod_pos_bound.
Defined.

#[local] Instance toy_jwt : Jwt := {|
  DecodingKey := unit;
  from_rsa_components _ _ := Some tt;
  from_ec_components _ _ := None;
  decode_header _ := None;
  jwt_decode _ _ _ _ _ := None;
|}.

(** An address is written as its first octet. *)
Definition parse_octet (s : str) : option IpAddr :=
  match parse_u32 s with Some n => if (n <? 256)%Z then Some (V4 [n; 0; 0; 0]%Z) else None | None => None end.
Definition show_octet (ip : IpAddr) : str := match ip with V4 (n :: _) => dec n | _ => [] end.
Definition proxies : list Cidr := trusted_proxies parse_octet [lit "10/8"; lit "junk"].

Lemma bucket_unspoofable_witness :
  is_trusted proxies (V4 [10; 0; 0; 2]%Z) = true /\
  key_for parse_octet show_octet proxies None (Some (V4 [10; 0; 0; 2]%Z)) (Some (lit "6, 7, 198 , 10")) = lit "ip:198".
Proof.
  split; [by vm_compute|].
  destruct (bucket_unspoofable parse_octet show_octet proxies None (V4 [10; 0; 0; 2]%Z)) as (_ & _ & Hs).
  etrans; [apply (Hs (lit "6, 7") (lit " 198 , 10")); by vm_compute|by vm_compute].
Defined.

Definition key_file : str := lit "# keys" ++ [10%Z] ++ lit "cgn-a chat,model:m* # first" ++ [10%Z] ++ lit "cgn-a embed".
Definition config : Config :=
  let d := Config_default (mkHostEnv (Some "h") None "0") in
  mkConfig (cfg_cluster d) (cfg_router d) (cfg_agent d) (cfg_engine d) (cfg_kv d) (cfg_security d) (cfg_metrics d)
    (mkAuthConfig true None None (Some "keys") true None ∅ None) (cfg_carbon d) ∅.
Definition state : AuthState := build_auth_state config (Some key_file) 0.

Lemma auth_fails_closed_witness :
  (auth_middleware 0 (Err Error_Other) (Err Error_Other) None state).2 = None /\
  exists p, (auth_middleware 0 (Err Error_Other) (Err Error_Other) (Some (lit "Bearer cgn-a ")) state).2 = Some p /\
  scopes p = [lit "embed"] /\ kind p <> Kind_Anonymous.
Proof.
  split; [by vm_compute|].
  destruct (auth_middleware 0 (Err Error_Other) (Err Error_Other) (Some (lit "Bearer cgn-a ")) state) as [st' [p|]] eqn:E.
  - destruct (auth_fails_closed config (Some key_file) 0 state 0 (Err Error_Other) (Err Error_Other) _ st' p eq_refl eq_refl eq_refl E)
      as (_ & _ & Hk & _).
    exists p. split_and!; [done| |exact Hk]. assert (E' := f_equal snd E). vm_compute in E'. by injection E' as <-.
  - assert (E' := f_equal snd E). by vm_compute in E'.
Defined.

End AuthExamples.
