(* ===== verification/Usage.v ===== *)
(** * Token accounting and the gate of a request

    [cgn-router/src/usage.rs] and [gateway/authz.rs], and the order of the layers
    a request passes in [router] of [gateway/mod.rs]. The text of the usage file
    is the class [UsageFormat]; a file system is a map from paths to contents.
    Metrics are left out. *)

From S2P Require Import Prelude Hash Config Text BTree KvTransport Auth.

(** ** The ledger *)

Definition MINUTE_SECS : Z := 60.

(** [window] is the number of a minute and the tokens charged in it. *)
Record Entry := mkEntry { total : Z; window : Z * Z }.
Definition Entry_default : Entry := mkEntry 0 (0, 0)%Z.

Abbreviation Ledger := (gmap str Entry).

Record Exceeded := mkExceeded { ex_limit : string; ex_message : str; retry_after_secs : Z }.

Definition check_at (p : Principal) (now : Z) (l : Ledger) : result unit Exceeded :=
  match limit p (lit "tpm"), limit p (lit "budget") with
  | None, None => Ok tt
  | tpm, budget =>
      match l !! subject p with
      | None => Ok tt
      | Some e =>
          let? _ :=
            match budget with
            | Some budget =>
                if (budget <=? total e)%Z
                then Err (mkExceeded "budget" (lit "token budget of " ++ dec budget ++ lit " exhausted") 0)
                else Ok tt
            | None => Ok tt
            end in
          match tpm with
          | Some tpm =>
              if ((window e).1 =? now / MINUTE_SECS)%Z && (tpm <=? (window e).2)%Z
              then Err (mkExceeded "tpm" (lit "rate of " ++ dec tpm ++ lit " tokens per minute exceeded")
                          (MINUTE_SECS - now mod MINUTE_SECS))
              else Ok tt
          | None => Ok tt
          end
      end
  end.

Definition charge_entry (tokens now : Z) (e : Entry) : Entry :=
  let minute := (now / MINUTE_SECS)%Z in
  let w := if ((window e).1 =? minute)%Z then window e else (minute, 0%Z) in
  mkEntry (add_u64 (total e) tokens) (w.1, add_u64 w.2 tokens).

Definition charge_at (subject : str) (prompt completion now : Z) (l : Ledger) : Ledger :=
  <[subject := charge_entry (prompt + completion) now (default Entry_default (l !! subject))]> l.

(** What [GET /v1/usage] reports of the ledger: total and tokens of this minute. *)
Definition report (p : Principal) (now : Z) (l : Ledger) : Z * Z :=
  match l !! subject p with
  | Some e => (total e, if ((window e).1 =? now / MINUTE_SECS)%Z then (window e).2 else 0%Z)
  | None => (0, 0)%Z
  end.

Definition is_ok' {T E} (r : result T E) : bool := match r with Ok _ => true | Err _ => false end.

(** ** The usage file *)

Class UsageFormat := {
  to_vec_pretty : gmap str Z -> list Z;
  from_slice : list Z -> option (gmap str Z);
}.
Class UsageFormatLaws `{UsageFormat} : Prop := { usage_roundtrip m : from_slice (to_vec_pretty m) = Some m }.

Abbreviation Fs := (gmap str (list Z)).

(** [Path::with_extension] of the last component. *)
Definition file_split (path : str) : str * str :=
  match rsplit_char 47 path with
  | name :: rest => (concat (reverse (map (fun d => d ++ [47%Z]) rest)), name)
  | [] => ([], path)
  end.
Definition file_stem (name : str) : str :=
  match rsplit_char 46 name with
  | ext :: (_ :: _) as parts =>
      let stem := take (length name - length ext - 1) name in
      match stem with [] => name | _ => stem end
  | _ => name
  end.
Definition with_extension (path ext : str) : str :=
  let (dir, name) := file_split path in dir ++ file_stem name ++ 46%Z :: ext.

(** What fails of [create_dir_all], [write] and [rename]; a write that fails
    leaves something behind. *)
Record FsFaults := mkFsFaults { dir_fails : bool; write_leaves : option (list Z); rename_fails : bool }.

Section files.
Context `{UsageFormat}.

Definition totals (l : Ledger) : gmap str Z := total <$> l.
Definition restore (saved : gmap str Z) : Ledger := (fun n => mkEntry n (0, 0)%Z) <$> saved.

(** [open]: [read] is what reading an existing file gives. *)
Definition UsageLedger_open (path : option str) (fs : Fs) (readable : bool) : result Ledger Error :=
  match path with
  | None => Ok ∅
  | Some path =>
      match fs !! path with
      | None => Ok ∅
      | Some bytes =>
          if negb readable then Err (Error_Io false)
          else match from_slice bytes with Some saved => Ok (restore saved) | None => Err (Error_Io false) end
      end
  end.

Definition persist (path : option str) (f : FsFaults) (l : Ledger) (fs : Fs) : Fs * result unit Error :=
  match path with
  | None => (fs, Ok tt)
  | Some path =>
      if dir_fails f then (fs, Err (Error_Io false))
      else
        let tmp := with_extension path (lit "tmp") in
        match write_leaves f with
        | Some partial => (<[tmp := partial]> fs, Err (Error_Io false))
        | None =>
            let bytes := to_vec_pretty (totals l) in
            let fs := <[tmp := bytes]> fs in
            if rename_fails f then (fs, Err (Error_Io false)) else (<[path := bytes]> (delete tmp fs), Ok tt)
        end
  end.

End files.

(** ** Authorization *)

Record Caller := mkCaller { caller_subject : str; caller_tenant : str }.
Definition Caller_default : Caller := mkCaller [] [].

Definition Caller_charge (c : Caller) (prompt completion now : Z) (l : Ledger) : Ledger :=
  match caller_subject c with [] => l | s => charge_at s prompt completion now l end.

(** Status, OpenAI's error type and [Retry-After] of a refusal. *)
Record Refusal := mkRefusal { rf_status : Z; rf_type : string; rf_retry_after : option Z }.

Definition forbidden : Refusal := mkRefusal 403 "permission_error" None.

Definition authorize (cfg : Config) (l : Ledger) (principal : option Principal) (scope model : str) (now : Z)
    : result Caller Refusal :=
  match principal with
  | None => Ok Caller_default
  | Some p =>
      if au_enforce_scopes (cfg_auth cfg) && negb (has_scope p scope) then Err forbidden
      else if negb (allows_model p model) then Err forbidden
      else
        match check_at p now l with
        | Err e => Err (mkRefusal 429 "insufficient_quota" (if (0 <? retry_after_secs e)%Z then Some (retry_after_secs e) else None))
        | Ok _ => Ok (mkCaller (subject p) (tenant p))
        end
  end.

(** ** The layers of a request *)

Section gate.
Context `{Sha256} `{Jwt} (parse_ip : str -> option IpAddr) (show_ip : IpAddr -> str).

Record HttpRequest := mkHttp { rq_authorization : option str; rq_peer : option IpAddr; rq_xff : option str; rq_model : str }.

(** [router]: the authentication layer is mounted when something of it is
    configured; it comes before the rate limiter, whose buckets are the argument
    [allow], and the handler's [authorize] comes last. *)
Definition auth_active (st : AuthState) : bool :=
  as_required st || bool_decide (is_Some (as_api_keys st)) || bool_decide (is_Some (as_oidc st)).

Definition gate (cfg : Config) (trusted : list Cidr) (allow : str -> bool) (scope : str) (now : Z)
    (f1 f2 : result (list Jwk) Error) (rq : HttpRequest) (st : AuthState) (l : Ledger) : AuthState * result Caller Refusal :=
  let (st, principal) :=
    if auth_active st then
      let (st, p) := auth_middleware now f1 f2 (rq_authorization rq) st in
      (st, match p with Some p => Ok (Some p) | None => Err (mkRefusal 401 "" None) end)
    else (st, Ok None) in
  match principal with
  | Err r => (st, Err r)
  | Ok principal =>
      if negb (allow (key_for parse_ip show_ip trusted principal (rq_peer rq) (rq_xff rq)))
      then (st, Err (mkRefusal 429 "" (Some 1%Z)))
      else (st, authorize cfg l principal scope (rq_model rq) now)
  end.

End gate.

(** ** What a passed check means *)

Definition below_limits (p : Principal) (now : Z) (l : Ledger) : Prop :=
  forall e, l !! subject p = Some e ->
  (forall b, limit p (lit "budget") = Some b -> (total e < b)%Z) /\
  (forall t, limit p (lit "tpm") = Some t -> (window e).1 = (now / MINUTE_SECS)%Z -> ((window e).2 < t)%Z).

Lemma if_err_ok {E} (c : bool) (x : E) : (if c then Err x else Ok tt) = Ok tt <-> c = false.
Proof. by destruct c. Qed.

Lemma bind_ok {E} (r1 r2 : result unit E) : result_bind r1 (fun _ => r2) = Ok tt <-> r1 = Ok tt /\ r2 = Ok tt.
Proof. destruct r1 as [[]|]; cbn; naive_solver. Qed.

Lemma some_forall {A} (P : A -> Prop) a : (forall x, Some a = Some x -> P x) <-> P a.
Proof. naive_solver. Qed.

Lemma check_ok p now l : check_at p now l = Ok tt <-> below_limits p now l.
Proof.
  rw /check_at /below_limits. destruct (l !! subject p) as [e|]; last by split; [|repeat case_match].
  rw some_forall. destruct (limit p (lit "tpm")) as [t|], (limit p (lit "budget")) as [b|];
    rw ?bind_ok ?if_err_ok ?some_forall ?andb_false_iff ?Z.leb_gt ?Z.eqb_neq.
  - split; [intros [? ?]; split; [done|lia]|intros [? ?]; split; [done|lia]].
  - split; [intros [_ ?]; split; [done|lia]|intros [_ ?]; split; [done|lia]].
  - split; [intros [? _]; by split|intros [? _]; by split].
  - done.
Qed.

(** ** The gate *)

Section gate_facts.
Context `{Sha256} `{Jwt} (parse_ip : str -> option IpAddr) (show_ip : IpAddr -> str).

(** C15. What a request has passed when its handler goes on, authentication being
    enabled: it carries a token of the key file or of the configured issuer; the
    rate limiter let the bucket of that very subject through, not one chosen by
    address or headers; the principal has the scope, unless scopes are not
    enforced, and may use the model; its budget and this minute's tokens are not
    spent; and it is charged to that principal and its server-assigned tenant.
    Everything else is refused with 401, 403 or 429. *)
Theorem gate_correct cfg trusted allow scope now f1 f2 rq st l st' r keys_read now0 :
  au_enabled (cfg_auth cfg) = true ->
  as_required st = true -> as_api_keys st = as_api_keys (build_auth_state cfg keys_read now0) ->
  gate parse_ip show_ip cfg trusted allow scope now f1 f2 rq st l = (st', r) ->
  as_required st' = true /\ as_api_keys st' = as_api_keys st /\
  match r with
  | Ok c => exists token p,
      bearer (rq_authorization rq) = Some token /\ (by_key st token p \/ by_oidc st' token p) /\
      allow (lit "sub:" ++ subject p) = true /\
      (au_enforce_scopes (cfg_auth cfg) = true -> has_scope p scope = true) /\ allows_model p (rq_model rq) = true /\
      below_limits p now l /\ c = mkCaller (subject p) (tenant p)
  | Err e => rf_status e ∈ [401; 403; 429]%Z
  end.
Proof.
  intros Hen Hreq Hkeys. rw /gate /auth_active Hreq /=.
  destruct (auth_middleware now f1 f2 (rq_authorization rq) st) as [st1 [p|]] eqn:Ea.
  - destruct (auth_fails_closed cfg keys_read now0 st now f1 f2 _ st1 p Hen Hreq Hkeys Ea) as (Hr & Hk & Hkind & token & Hb & Hby & _).
    rw {1}/key_for bool_decide_false //=. destruct (allow _) eqn:Eal; cbn; intros [= <- <-]; (split_and!; [done|done|]); [|set_solver].
    rw /authorize. destruct (au_enforce_scopes (cfg_auth cfg)) eqn:Ee, (has_scope p scope) eqn:Eh; cbn; try set_solver.
    all: destruct (allows_model p (rq_model rq)) eqn:Em; cbn; [|set_solver].
    all: destruct (check_at p now l) as [[]|x] eqn:Ec; [|cbn; set_solver].
    all: apply check_ok in Ec; exists token, p; by split_and!.
  - intros [= <- <-]. rw /auth_middleware in Ea.
    destruct (bearer (rq_authorization rq)) as [token|]; [|rw Hreq in Ea; injection Ea as <-; by split_and!; [..|set_solver]].
    destruct (as_api_keys st ≫= ApiKeyStore_check token); [done|].
    destruct (as_oidc st) as [v|]; [|rw Hreq in Ea; injection Ea as <-; by split_and!; [..|set_solver]].
    destruct (oidc_verify now f1 f2 token v) as [v' [q|e]]; cbn in Ea; [done|]. rw Hreq in Ea. injection Ea as <-.
    by split_and!; [..|set_solver].
Qed.

End gate_facts.

(** ** Budgets *)

(** Requests of one key come and go: a start is checked, an end is charged. *)
Inductive Event :=
| Start (now prompt completion : Z)
| Finish (i : nat) (now : Z)
| Elsewhere (other : str) (prompt completion now : Z).

Abbreviation Running := (list (Z * Z)).

Section budget.
Context (p : Principal).

Definition total_of (l : Ledger) : Z := match l !! subject p with Some e => total e | None => 0%Z end.

Definition budget_step (s : Ledger * Running) (ev : Event) : Ledger * Running :=
  let (l, running) := s in
  match ev with
  | Start now prompt completion =>
      match check_at p now l with Ok _ => (l, running ++ [(prompt, completion)]) | Err _ => s end
  | Finish i now =>
      match running !! i with
      | Some (prompt, completion) => (charge_at (subject p) prompt completion now l, delete i running)
      | None => s
      end
  | Elsewhere other prompt completion now =>
      if decide (other = subject p) then s else (charge_at other prompt completion now l, running)
  end.

Definition run_events (evs : list Event) (l : Ledger) : Ledger * Running := foldl budget_step (l, []) evs.

Definition size (r : Z * Z) : Z := r.1 + r.2.
Definition sizes (running : Running) : Z := foldr (fun r acc => size r + acc)%Z 0%Z running.

Lemma sizes_app a b : sizes (a ++ b) = (sizes a + sizes b)%Z.
Proof. induction a as [|x a IH]; [done|]. change (size x + sizes (a ++ b) = size x + sizes a + sizes b)%Z. lia. Qed.

Lemma sizes_delete i running r : running !! i = Some r -> sizes running = (size r + sizes (delete i running))%Z.
Proof.
  revert i. induction running as [|x running IH]; intros [|i] Hi; [done|done|by injection Hi as ->|].
  change (size x + sizes running = size r + (size x + sizes (delete i running)))%Z. rw (IH i) //. lia.
Qed.

Lemma sizes_bound running m :
  Forall (fun r => 0 <= size r <= m)%Z running -> (0 <= sizes running <= Z.of_nat (length running) * m)%Z.
Proof.
  induction 1 as [|r running Hr _ IH]; [done|]. change (sizes (r :: running)) with (size r + sizes running)%Z.
  cbn [length]. rw Nat2Z.inj_succ. lia.
Qed.

#[local] Arguments sizes : simpl never.

Lemma total_of_charge prompt completion now l :
  (0 <= total_of l)%Z -> (0 <= prompt + completion)%Z -> (total_of l + (prompt + completion) <= u64_max)%Z ->
  total_of (charge_at (subject p) prompt completion now l) = (total_of l + (prompt + completion))%Z.
Proof.
  rw /total_of /charge_at lookup_insert_eq. intros H1 H2 H3. cbn. rw add_u64_small.
  all: destruct (l !! subject p); cbn in *; lia.
Qed.

Lemma total_of_other other prompt completion now l :
  other <> subject p -> total_of (charge_at other prompt completion now l) = total_of l.
Proof. intros Hne. by rw /total_of /charge_at lookup_insert_ne. Qed.

Lemma passed_total now l b : limit p (lit "budget") = Some b -> check_at p now l = Ok tt -> (total_of l <= Z.max 1 b - 1)%Z.
Proof.
  intros Hb Hc. apply check_ok in Hc. rw /total_of. destruct (l !! subject p) as [e|] eqn:E; [|lia].
  destruct (Hc e E) as [Ht _]. specialize (Ht b Hb). lia.
Qed.

(** How far a budget can be overshot. A request is refused once the budget is
    spent, but what is in flight is not counted, so with at most [k] requests of a
    key in flight at a time, each of at most [m] tokens, the tokens charged to it
    stay below the budget plus [k * m], whatever the order in which requests
    start and end; one request at a time overshoots by its own size at most. *)
Lemma budget_overshoot_bounded evs l0 b k m :
  limit p (lit "budget") = Some b ->
  (0 <= total_of l0)%Z -> (0 <= m)%Z ->
  (Z.max (total_of l0) (Z.max 1 b - 1 + Z.of_nat k * m) <= u64_max)%Z ->
  Forall (fun ev => match ev with Start _ pr co => 0 <= pr + co <= m | _ => True end)%Z evs ->
  (forall n, length (run_events (take n evs) l0).2 <= k) ->
  let l := (run_events evs l0).1 in
  (total_of l0 <= total_of l <= Z.max (total_of l0) (Z.max 1 b - 1 + Z.of_nat k * m))%Z.
Proof.
  intros Hb H0 Hm Hmax Hev Hk. set (bound := Z.max _ _) in *.
  enough (Hinv : let s := run_events evs l0 in
    (total_of l0 <= total_of s.1)%Z /\ Forall (fun r => 0 <= size r <= m)%Z s.2 /\ (total_of s.1 + sizes s.2 <= bound)%Z).
  { destruct Hinv as (Hlo & Hf & Hs). cbv zeta. pose proof (sizes_bound _ _ Hf). lia. }
  induction evs as [|ev evs IH] using rev_ind; [split_and!; [done|by apply Forall_nil|rw /sizes /=; lia]|].
  apply Forall_app in Hev as [Hev [Hlast _]%Forall_cons].
  assert (Hpre : forall n, length (run_events (take n evs) l0).2 <= k).
  { intros n. destruct (decide (n <= length evs)).
    - specialize (Hk n). by rw take_app_le in Hk.
    - specialize (Hk (length evs)). rw take_app_length in Hk. by rw take_ge; [lia|]. }
  specialize (IH Hev Hpre). specialize (Hk (length (evs ++ [ev]))). rw take_ge // in Hk.
  rw /run_events foldl_snoc -/(run_events evs l0) in Hk |- *. destruct (run_events evs l0) as [l running]. cbn in IH.
  destruct IH as (Hlo & Hf & Hs). pose proof (sizes_bound _ _ Hf). cbn [budget_step] in Hk |- *.
  destruct ev as [now pr co|i now|other pr co now].
  - destruct (check_at p now l) as [[]|] eqn:Ec; [|by split_and!]. cbn in Hk |- *.
    assert (Hf' : Forall (fun r => 0 <= size r <= m)%Z (running ++ [(pr, co)])) by (apply Forall_app; split; [done|by constructor]).
    split_and!; [done|done|]. pose proof (passed_total _ _ _ Hb Ec). pose proof (sizes_bound _ _ Hf') as Hsz.
    assert (Z.of_nat (length (running ++ [(pr, co)])) * m <= Z.of_nat k * m)%Z by (apply Z.mul_le_mono_nonneg_r; lia). lia.
  - destruct (running !! i) as [[pr co]|] eqn:Ei; [|by split_and!]. cbn.
    assert (Hr : (0 <= pr + co <= m)%Z) by (rw Forall_lookup in Hf; by apply Hf in Ei).
    assert (Hf' : Forall (fun r => 0 <= size r <= m)%Z (delete i running)) by by apply Forall_delete.
    pose proof (sizes_bound _ _ Hf'). pose proof (sizes_delete _ _ _ Ei) as Hd. rw {1}/size /= in Hd.
    rw total_of_charge; [lia|lia|lia|]. split_and!; [lia|done|lia].
  - destruct (decide (other = subject p)) as [|Hne]; [by split_and!|]. cbn.
    by rw total_of_other.
Qed.

End budget.

(** ** The file survives *)

Section restart.
Context `{UsageFormatLaws}.

Lemma totals_restore m : totals (restore m) = m.
Proof. rw /totals /restore -map_fmap_compose. by rw map_fmap_id. Qed.

(** Budgets survive a restart. Whatever fails while the totals are written, the
    usage file is either exactly what it was, or, and only then is success
    reported, opening it gives back every subject's total with an empty window, so
    that what a budget refused it still refuses, and reports show the same total.
    Only that file and its temporary sibling change, and a file that cannot be
    read or parsed is an error, not an empty ledger. *)
Lemma usage_survives_restart path f l fs :
  with_extension path (lit "tmp") <> path ->
  let (fs', r) := persist (Some path) f l fs in
  match r with
  | Ok _ => exists l', UsageLedger_open (Some path) fs' true = Ok l' /\ totals l' = totals l /\
      (forall p now, (report p now l').1 = (report p now l).1) /\
      (forall p now, limit p (lit "tpm") = None -> is_ok' (check_at p now l') = is_ok' (check_at p now l))
  | Err _ => fs' !! path = fs !! path
  end /\
  (forall q, q <> path -> q <> with_extension path (lit "tmp") -> fs' !! q = fs !! q) /\
  (forall bytes, fs' !! path = Some bytes ->
     is_ok' (UsageLedger_open (Some path) fs' false) = false /\
     (from_slice bytes = None -> is_ok' (UsageLedger_open (Some path) fs' true) = false)).
Proof.
  intros Hne. destruct (persist (Some path) f l fs) as [fs' r] eqn:E. split_and!.
  - rw /persist in E. destruct (dir_fails f); [by injection E as <- <-|].
    destruct (write_leaves f) as [w|]; [injection E as <- <-; by rw lookup_insert_ne|].
    destruct (rename_fails f); [injection E as <- <-; by rw lookup_insert_ne|]. injection E as <- <-.
    exists (restore (totals l)). rw /UsageLedger_open lookup_insert_eq /= usage_roundtrip.
    assert (Hl : forall s, (restore (totals l)) !! s = (fun e => mkEntry (total e) (0, 0)%Z) <$> l !! s).
    { intros s. rw /restore /totals !lookup_fmap. by destruct (l !! s). }
    split_and!; [done|apply totals_restore| |].
    + intros p now. rw /report Hl. by destruct (l !! subject p).
    + intros p now Ht. rw /check_at Ht Hl. destruct (limit p (lit "budget")) as [b|]; [|done].
      destruct (l !! subject p); [|done]. cbn. by destruct (_ <=? _)%Z.
  - intros q Hq Ht. rw /persist in E. destruct (dir_fails f); [by injection E as <- <-|].
    destruct (write_leaves f) as [w|]; [injection E as <- <-; by rw lookup_insert_ne|].
    destruct (rename_fails f); injection E as <- <-; by rw ?lookup_insert_ne ?lookup_delete_ne ?lookup_insert_ne.
  - intros bytes Hb. rw /UsageLedger_open Hb. split; [done|]. intros Hs. by rw Hs.
Qed.

End restart.

(** What is in flight adds up, and a budget of zero lets a first request through. *)
Module UsageExamples.

Definition key (scope : string) : Principal := mkPrincipal (lit "k") [lit "chat"; lit scope] Kind_ApiKey.
Definition spent (n : Z) : Ledger := {[lit "k" := mkEntry n (0, 0)%Z]}.

Example overshoot_adds_up :
  let evs := [Start 0 10 40; Start 0 10 40; Start 0 10 40; Finish 0 1; Finish 0 2; Finish 0 3] in
  total_of (key "budget:100") (run_events (key "budget:100") evs (spent 99)).1 = 249%Z.
Proof. vm_compute. reflexivity. Qed.

Example zero_budget_admits : check_at (key "budget:0") 0 ∅ = Ok tt /\ check_at (key "budget:0") 0 (spent 0) <> Ok tt.
Proof. split; by vm_compute. Qed.

Lemma budget_overshoot_bounded_witness :
  limit (key "budget:100") (lit "budget") = Some 100%Z /\
  (total_of (key "budget:100") (run_events (key "budget:100") [Start 0 10 40; Start 60 0 50; Finish 0 1; Start 61 1 1; Finish 0 62] (spent 99)).1
   <= 199)%Z.
Proof.
  split; [by vm_compute|].
  assert (Hb : limit (key "budget:100") (lit "budget") = Some 100%Z) by by vm_compute.
  destruct (budget_overshoot_bounded (key "budget:100") [Start 0 10 40; Start 60 0 50; Finish 0 1; Start 61 1 1; Finish 0 62]
    (spent 99) 100 2 50 Hb) as [_ Hle]; [by vm_compute|done|by vm_compute|repeat constructor; lia| |].
  - intros n. destruct (decide (n <= 5)) as [Hn|Hn].
    + assert (Hall : Forall (fun n => length (run_events (key "budget:100")
        (take n [Start 0 10 40; Start 60 0 50; Finish 0 1; Start 61 1 1; Finish 0 62]) (spent 99)).2 <= 2) (seq 0 6)) by compute_dec.
      rw Forall_forall in Hall. apply Hall, elem_of_seq. lia.
    + rw take_ge; [cbn; lia|]. by vm_compute; lia.
  - eapply Z.le_trans; [exact Hle|]. by vm_compute.
Defined.

(** A file that lists subjects of one character and their totals. *)
Definition toy_enc (m : gmap str Z) : list Z :=
  concat ((fun kv : str * Z => Z.of_nat (length kv.1) :: kv.1 ++ [kv.2]) <$> map_to_list m).
Fixpoint toy_dec (fuel : nat) (b : list Z) : gmap str Z :=
  match fuel, b with
  | S f, n :: b' => <[take (Z.to_nat n) b' := default 0%Z (b' !! Z.to_nat n)]> (toy_dec f (drop (S (Z.to_nat n)) b'))
  | _, _ => ∅
  end.

#[local] Instance toy_format : UsageFormat := {| to_vec_pretty := toy_enc; from_slice b := Some (toy_dec (length b) b) |}.

Lemma toy_dec_enc (l : list (str * Z)) fuel :
  length (concat ((fun kv : str * Z => Z.of_nat (length kv.1) :: kv.1 ++ [kv.2]) <$> l)) <= fuel ->
  toy_dec fuel (concat ((fun kv : str * Z => Z.of_nat (length kv.1) :: kv.1 ++ [kv.2]) <$> l)) = list_to_map l.
Proof.
  revert fuel. induction l as [|[k v] l IH]; intros fuel Hf; [by destruct fuel|].
  cbn in Hf |- *. rw !length_app /= in Hf. destruct fuel as [|fuel]; [lia|]. cbn [toy_dec].
  rw Nat2Z.id -!app_assoc take_app_length lookup_app_r // Nat.sub_diag /=. f_equal.
  rw -{1}(Nat.add_1_r (length k)) -drop_drop drop_app_length /=. rw IH //. lia.
Qed.

#[local] Instance toy_format_laws : UsageFormatLaws.
Proof. split. intros m. cbn. rw toy_dec_enc //. by rw list_to_map_to_list. Qed.

Lemma usage_survives_restart_witness :
  exists l', UsageLedger_open (Some (lit "/var/usage.json"))
    (persist (Some (lit "/var/usage.json")) (mkFsFaults false None false) (spent 99) ∅).1 true = Ok l' /\
  (report (key "chat") 0 l').1 = 99%Z.
Proof.
  assert (Hne : with_extension (lit "/var/usage.json") (lit "tmp") <> lit "/var/usage.json") by by vm_compute.
  pose proof (usage_survives_restart (lit "/var/usage.json") (mkFsFaults false None false) (spent 99) ∅ Hne) as Hs.
  destruct (persist (Some (lit "/var/usage.json")) (mkFsFaults false None false) (spent 99) ∅) as [fs' [[]|e]] eqn:E.
  - destruct Hs as [(l' & Ho & _ & Hr & _) _]. exists l'. split; [exact Ho|].
    etrans; [apply Hr|]. by vm_compute.
  - discriminate E.
Defined.

#[local] Existing Instance AuthExamples.toy_sha.
#[local] Existing Instance AuthExamples.toy_jwt.

Definition request (token model : string) : HttpRequest :=
  mkHttp (Some (lit "Bearer " ++ lit token)) (Some (V4 [203; 0; 0; 9]%Z)) None (lit model).
Definition gated (rq : HttpRequest) : AuthState * result Caller Refusal :=
  gate AuthExamples.parse_octet AuthExamples.show_octet AuthExamples.config AuthExamples.proxies (fun _ => true)
    (lit "embed") 0 (Err Error_Other) (Err Error_Other) rq AuthExamples.state ∅.

Lemma gate_correct_witness :
  (gated (request "wrong" "m")).2 = Err (mkRefusal 401 "" None) /\
  exists c p, (gated (request "cgn-a" "m")).2 = Ok c /\ c = mkCaller (subject p) (tenant p) /\ has_scope p (lit "embed") = true.
Proof.
  split; [by vm_compute|].
  destruct (gated (request "cgn-a" "m")) as [st' r] eqn:E.
  destruct (gate_correct AuthExamples.parse_octet AuthExamples.show_octet AuthExamples.config AuthExamples.proxies (fun _ => true)
    (lit "embed") 0 (Err Error_Other) (Err Error_Other) (request "cgn-a" "m") AuthExamples.state ∅ st' r
    (Some AuthExamples.key_file) 0 eq_refl eq_refl eq_refl E) as (_ & _ & Hr).
  destruct r as [c|e].
  - destruct Hr as (token & p & _ & _ & _ & Hs & _ & _ & Hc). exists c, p. split_and!; [done|exact Hc|by apply Hs].
  - assert (E' := f_equal snd E). by vm_compute in E'.
Defined.

End UsageExamples.
