(* ===== verification/KeyFile.v ===== *)
(** * API-key files

    [cgn-ctl/src/key.rs]: the commands that create, revoke and lock the records of
    a key file, and what the store of [cgn-auth] ([Auth]) makes of the file then.
    What reading or writing the file gives is an argument. *)

From S2P Require Import Prelude Text Auth.

(** ** [key.rs] *)

Definition hex_char (d : Z) : Z := (if d <? 10 then 48 + d else 87 + d)%Z.
(** [hex::encode]. *)
Definition hex_encode (b : list Z) : str := concat (map (fun x => [hex_char (x / 16); hex_char (x mod 16)]) b).

(** [to_ascii_lowercase]. *)
Definition lower (s : str) : str := map (fun c => if (65 <=? c)%Z && (c <=? 90)%Z then (c + 32)%Z else c) s.

(** Writing a file: done, not opened, or broken off after some characters. *)
Inductive WriteOutcome := Written | Not_Opened | Broken_At (n : nat).

(** The first word of a line. *)
Definition first_word (l : str) : str := default [] (head (split_whitespace l)).

(** A word that stands for a digest. *)
Definition is_digest_text (token : str) : bool := (length (utf8 token) =? 64)%nat && forallb is_hexdigit (utf8 token).

Section key.
Context `{Sha256}.

Definition sha_hex (s : str) : str := hex_encode (sha256 (utf8 s)).

(** [create]: [uuid] is the fresh identifier, [file] the content if there is one. *)
Definition create (uuid scopes : str) (file : option str) (w : WriteOutcome) : option str * option str :=
  let secret := lit "cgn-" ++ uuid in
  let line := sha_hex secret ++ 32%Z :: scopes ++ [10%Z] in
  match w with
  | Written => (Some (default [] file ++ line), Some secret)
  | Not_Opened => (file, None)
  | Broken_At n => (Some (default [] file ++ take n line), None)
  end.

(** Overwriting truncates first. *)
Definition overwrite (text : str) (file : option str) (w : WriteOutcome) : option str * bool :=
  match w with Written => (Some text, true) | Not_Opened => (file, false) | Broken_At n => (Some (take n text), false) end.

Definition revoke_text (sha txt : str) : str :=
  join_lines (List.filter (fun l => negb (starts_with (lower sha) (first_word l))) (lines txt)).

Definition revoke (sha : str) (file : option str) (w : WriteOutcome) : option str * bool :=
  match file with Some txt => overwrite (revoke_text sha txt) file w | None => (None, false) end.

Definition lock_line (line : str) : str :=
  match split_whitespace line with
  | [] => []
  | token :: rest => if is_digest_text token then line else sha_hex token ++ 32%Z :: default [] (head rest)
  end.

Definition lock_text (txt : str) : str := concat (map (fun l => lock_line l ++ [10%Z]) (lines txt)).

Definition lock (file : option str) (w : WriteOutcome) : option str * bool :=
  match file with Some txt => overwrite (lock_text txt) file w | None => (None, false) end.

End key.

(** * Properties *)

(** ** Hexadecimal *)

Lemma hex_char_spec d : (0 <= d < 16)%Z -> is_hexdigit (hex_char d) = true /\ hex_value (hex_char d) = d /\ (48 <= hex_char d < 128)%Z
  /\ is_whitespace (hex_char d) = false /\ hex_char d <> 35%Z.
Proof.
  intros Hd. assert (Hin : d ∈ seqZ 0 16) by (apply elem_of_seqZ; lia). cbn in Hin. rw !elem_of_cons in Hin.
  repeat destruct Hin as [->|Hin]; [by split_and! ..|]. by apply not_elem_of_nil in Hin.
Qed.

Lemma hex_encode_chars b : Forall (fun x => (0 <= x < 256)%Z) b ->
  Forall (fun c => is_hexdigit c = true /\ (0 <= c < 128)%Z /\ is_whitespace c = false /\ c <> 35%Z) (hex_encode b).
Proof.
  induction 1 as [|x b Hx _ IH]; [done|]. rw /hex_encode /=.
  destruct (hex_char_spec (x / 16)) as (? & _ & ? & ? & ?); [split; [apply Z.div_pos|apply Z.div_lt_upper_bound]; lia|].
  destruct (hex_char_spec (x mod 16)) as (? & _ & ? & ? & ?); [by apply Z.mod_pos_bound|].
  repeat constructor; try done; lia.
Qed.

Lemma hex_encode_length b : length (hex_encode b) = 2 * length b.
Proof. induction b as [|x b IH]; [done|]. rw /hex_encode /= in IH |- *. lia. Qed.

Lemma from_hex_encode b : Forall (fun x => (0 <= x < 256)%Z) b -> from_hex (hex_encode b) = b.
Proof.
  induction 1 as [|x b Hx _ IH]; [done|]. rw /hex_encode /= -/(hex_encode b) IH. f_equal.
  destruct (hex_char_spec (x / 16)) as (_ & -> & _); [split; [apply Z.div_pos|apply Z.div_lt_upper_bound]; lia|].
  destruct (hex_char_spec (x mod 16)) as (_ & -> & _); [by apply Z.mod_pos_bound|]. pose proof (Z.div_mod x 16). lia.
Qed.

(** ** Words *)

Lemma words_go_word w cur rest : Forall (fun c => is_whitespace c = false) w -> w <> [] ->
  words_go cur (w ++ rest) = words_go (reverse w ++ cur) rest.
Proof.
  intros Hw _. revert cur. induction Hw as [|c w Hc Hw IH]; intros cur; [done|]. cbn [app words_go]. rw Hc IH reverse_cons -app_assoc. done.
Qed.

Lemma words_go_snoc cur s c : is_whitespace c = true -> words_go cur (s ++ [c]) = words_go cur s.
Proof.
  intros Hc. revert cur. induction s as [|x s IH]; intros cur; cbn [app words_go]; [rw Hc; by destruct cur|].
  destruct (is_whitespace x); [destruct cur|]; by rw IH.
Qed.

Lemma trim_end_snoc s c : trim_end (s ++ [c]) = if is_whitespace c then trim_end s else s ++ [c].
Proof. rw /trim_end reverse_snoc /=. case_match; [done|]. by rw reverse_cons reverse_involutive. Qed.

(** Trimming changes no words. *)
Lemma words_trim s : split_whitespace (trim s) = split_whitespace s.
Proof.
  rw /trim /split_whitespace. trans (words_go [] (trim_start s)).
  - induction (trim_start s) as [|c t IH] using rev_ind; [done|]. rw trim_end_snoc. destruct (is_whitespace c) eqn:E; [|done].
    by rw IH words_go_snoc.
  - induction s as [|c s IH]; [done|]. cbn [trim_start words_go]. by destruct (is_whitespace c) eqn:E; [|cbn [words_go]; rw E].
Qed.

(** A carriage return at the end changes no record. *)
Section records.
Context `{Sha256}.

Lemma parse_line_words l : parse_line l =
  match split_whitespace (default [] (head (split_char 35 l))) with
  | [] => None
  | [token] => Some (key_digest token, [])
  | token :: scopes :: _ => Some (key_digest token, scope_list scopes)
  end.
Proof. by rw /parse_line words_trim. Qed.

Lemma head_split_snoc l c : c <> 35%Z ->
  let h := default [] (head (split_char 35 l)) in default [] (head (split_char 35 (l ++ [c]))) ∈ [h; h ++ [c]].
Proof.
  intros Hc. cbn zeta. induction l as [|x l IH]; cbn [app split_char].
  - rw (proj2 (Z.eqb_neq c 35) Hc). right. left.
  - destruct (x =? 35)%Z; [by left|]. destruct (split_char_nonempty 35 (l ++ [c])) as (p & ps & Ep).
    destruct (split_char_nonempty 35 l) as (q & qs & Eq). rw Ep Eq in IH |- *. cbn in IH |- *.
    rw !elem_of_cons in IH |- *. destruct IH as [->|[->|IH]]; [by left|by right; left|by apply not_elem_of_nil in IH].
Qed.

Lemma words_cut l : split_whitespace (cut_cr l) = split_whitespace l.
Proof.
  rw /cut_cr. destruct (reverse l) as [|c r] eqn:E; [done|]. destruct (c =? 13)%Z eqn:Ec; [|done].
  apply Z.eqb_eq in Ec as ->. apply (f_equal reverse) in E. rw reverse_involutive reverse_cons in E. subst l.
  by rw /split_whitespace words_go_snoc.
Qed.

Lemma parse_line_cut l : parse_line (cut_cr l) = parse_line l.
Proof.
  rw /cut_cr. destruct (reverse l) as [|c r] eqn:E; [done|]. destruct (c =? 13)%Z eqn:Ec; [|done].
  apply Z.eqb_eq in Ec as ->. apply (f_equal reverse) in E. rw reverse_involutive reverse_cons in E. subst l.
  rw !parse_line_words. pose proof (head_split_snoc (reverse r) 13 ltac:(done)) as Hin. cbn zeta in Hin.
  rw !elem_of_cons in Hin. destruct Hin as [->|[->|Hin]]; [done| |by apply not_elem_of_nil in Hin].
  by rw /split_whitespace words_go_snoc.
Qed.

Lemma parse_line_empty : parse_line [] = None.
Proof. done. Qed.

Lemma key_records_join ls : Forall no_newline ls -> key_records (join_lines ls) = omap (M := list) parse_line ls.
Proof.
  intros Hls. rw /key_records. destruct (lines_join ls Hls) as (ls' & l & -> & Hl). rw omap_app.
  assert (Ec : omap (M := list) parse_line (cut_cr <$> ls') = omap (M := list) parse_line ls').
  { clear. induction ls' as [|l ls IH]; [done|]. cbn [fmap list_fmap omap list_omap]. by rw parse_line_cut IH. }
  rw Ec. destruct Hl as [[-> _]|[-> ->]]; by rw omap_app.
Qed.

Lemma key_records_ended a b : ended a -> key_records (a ++ b) = key_records a ++ key_records b.
Proof. intros Ha. by rw /key_records lines_ended // omap_app. Qed.

(** ** Single lines *)

Definition plain (s : str) : Prop := Forall (fun c => is_whitespace c = false /\ c <> 35%Z) s.

Lemma sha_hex_chars s : Forall (fun c => is_hexdigit c = true /\ (0 <= c < 128)%Z /\ is_whitespace c = false /\ c <> 35%Z) (sha_hex s).
Proof. apply hex_encode_chars, sha256_bytes. Qed.

Lemma sha_hex_plain s : plain (sha_hex s).
Proof. eapply Forall_impl; [apply sha_hex_chars|]. by intros c (_ & _ & ? & ?). Qed.

Lemma sha_hex_ascii s : utf8 (sha_hex s) = sha_hex s.
Proof. apply utf8_ascii. eapply Forall_impl; [apply sha_hex_chars|]. by intros c (_ & ? & _). Qed.

Lemma sha_hex_length s : length (sha_hex s) = 64.
Proof. by rw /sha_hex hex_encode_length sha256_length. Qed.

Lemma sha_hex_digest s : is_digest_text (sha_hex s) = true /\ key_digest (sha_hex s) = sha256 (utf8 s).
Proof.
  assert (E : is_digest_text (sha_hex s) = true).
  { rw /is_digest_text sha_hex_ascii sha_hex_length /=. apply forallb_forall. intros c Hc%list_elem_of_In.
    pose proof (sha_hex_chars s) as Hs. rw Forall_forall in Hs. by apply Hs in Hc as [? _]. }
  split; [done|]. rw /key_digest -/(is_digest_text (sha_hex s)) E sha_hex_ascii. apply from_hex_encode, sha256_bytes.
Qed.

Lemma sha_hex_nonempty s : sha_hex s <> [].
Proof. intros E. pose proof (sha_hex_length s) as Hl. by rw E in Hl. Qed.

Lemma plain_no_char c s : (c = 35%Z \/ is_whitespace c = true) -> plain s -> Forall (fun x => x <> c) s.
Proof. intros Hc Hs. eapply Forall_impl; [exact Hs|]. intros x [Hw H35] ->. destruct Hc as [->|Hc]; [done|congruence]. Qed.

Lemma plain_word s : plain s -> Forall (fun c => is_whitespace c = false) s.
Proof. intros Hs. eapply Forall_impl; [exact Hs|]. by intros c [? _]. Qed.

Lemma record_words token sc : plain token -> token <> [] -> plain sc ->
  split_whitespace (token ++ 32%Z :: sc) = token :: (if bool_decide (sc = []) then [] else [sc]).
Proof.
  intros Ht Hne Hs. rw /split_whitespace (words_go_word token) //; [by apply plain_word|]. rw app_nil_r. cbn [words_go is_whitespace].
  replace (match reverse token with [] => words_go [] sc | _ => reverse (reverse token) :: words_go [] sc end) with (token :: words_go [] sc).
  2: { destruct (reverse token) as [|c r] eqn:E; [by apply (f_equal reverse) in E; rw reverse_involutive in E|]. by rw -E reverse_involutive. }
  f_equal. destruct (decide (sc = [])) as [->|Hsc]; [done|]. rw bool_decide_false //. rw -{1}(app_nil_r sc) words_go_word //; [by apply plain_word|].
  rw app_nil_r. cbn [words_go]. destruct (reverse sc) as [|c r] eqn:E; [by apply (f_equal reverse) in E; rw reverse_involutive in E|].
  by rw -E reverse_involutive.
Qed.

(** A line of [create] or [lock] is the record of its key. *)
Lemma parse_record s sc : plain sc -> parse_line (sha_hex s ++ 32%Z :: sc) = Some (sha256 (utf8 s), scope_list sc).
Proof.
  intros Hs. rw parse_line_words split_char_none.
  - apply Forall_app. split; [apply plain_no_char; [auto|apply sha_hex_plain]|]. constructor; [done|]. apply plain_no_char; auto.
  - cbn [head default from_option id]. rw record_words //; [apply sha_hex_plain|apply sha_hex_nonempty|].
    destruct (decide (sc = [])) as [->|Hne]; [rw bool_decide_true //|rw bool_decide_false //]; by rw (proj2 (sha_hex_digest s)).
Qed.

(** ** [lock] *)

Lemma words_chars (P : Z -> Prop) cur l : Forall P cur -> Forall P l -> Forall (fun c => is_whitespace c = false) cur ->
  Forall (fun w => Forall P w /\ Forall (fun c => is_whitespace c = false) w) (words_go cur l).
Proof.
  intros Hcur Hl. revert cur Hcur. induction Hl as [|x l Hx Hl IH]; intros cur Hcur Hw; cbn [words_go].
  - destruct cur; [constructor|]. constructor; [|constructor]. by rw !Forall_reverse.
  - destruct (is_whitespace x) eqn:E; [|apply IH; by constructor]. destruct cur; [by apply IH; constructor|].
    constructor; [by rw !Forall_reverse|]. by apply IH; constructor.
Qed.

Lemma words_plain l w : Forall (fun c => c <> 35%Z) l -> w ∈ split_whitespace l -> plain w.
Proof.
  intros Hl Hw. assert (Hc := words_chars (fun c => c <> 35%Z) [] l (Forall_nil_2 _) Hl (Forall_nil_2 _)).
  rw Forall_forall in Hc. apply Hc in Hw as [H35 Hws]. apply Forall_and. by split.
Qed.

Lemma plain_newline s : plain s -> no_newline s.
Proof. apply plain_no_char. by right. Qed.

Lemma lock_line_newline l : Forall (fun c => c <> 35%Z) l -> no_newline l -> no_newline (lock_line l).
Proof.
  intros H35 Hl. rw /lock_line. destruct (split_whitespace l) as [|token rest] eqn:E; [done|]. case_match; [done|].
  apply Forall_app. split; [apply plain_newline, sha_hex_plain|]. constructor; [done|]. apply plain_newline.
  destruct rest as [|w rest]; [by constructor|]. apply (words_plain l); [done|]. rw E. by right; left.
Qed.

Lemma lock_line_record l : Forall (fun c => c <> 35%Z) l -> parse_line (lock_line l) = parse_line l.
Proof.
  intros H35. rw /lock_line. assert (Ep : parse_line l = match split_whitespace l with [] => None | [token] => Some (key_digest token, [])
    | token :: scopes :: _ => Some (key_digest token, scope_list scopes) end).
  { by rw parse_line_words (split_char_none 35 l H35). }
  destruct (split_whitespace l) as [|token rest] eqn:E; [done|]. destruct (is_digest_text token) eqn:Ed; [done|].
  rw parse_record; [destruct rest as [|w rest]; [by constructor|]; apply (words_plain l); [done|]; rw E; by right; left|].
  rw Ep /key_digest -/(is_digest_text token) Ed. by destruct rest.
Qed.

(** No line of the file names its key in clear. *)
Definition locked (txt : str) : Prop := Forall (fun l => first_word l = [] \/ is_digest_text (first_word l) = true) (lines txt).

Lemma lock_line_locked l : Forall (fun c => c <> 35%Z) l -> first_word (lock_line l) = [] \/ is_digest_text (first_word (lock_line l)) = true.
Proof.
  intros H35. rw /lock_line /first_word. destruct (split_whitespace l) as [|token rest] eqn:E; [by left|].
  destruct (is_digest_text token) eqn:Ed; [by rw E; right|]. right. rw record_words.
  - apply sha_hex_plain.
  - apply sha_hex_nonempty.
  - destruct rest as [|w rest]; [by constructor|]. apply (words_plain l); [done|]. rw E. by right; left.
  - apply sha_hex_digest.
Qed.

Lemma lock_lines txt : Forall (fun c => c <> 35%Z) txt -> lines (lock_text txt) = cut_cr <$> map lock_line (lines txt).
Proof.
  intros H35. rw /lock_text -(map_map lock_line (fun l => l ++ [10%Z])) lines_terminated //. apply Forall_fmap, Forall_forall. intros l Hl.
  apply lock_line_newline; [|by apply (proj1 (Forall_forall _ _) (lines_newline txt))].
  by apply (proj1 (Forall_forall _ _) (lines_forall _ txt H35)).
Qed.

Lemma lock_records txt : Forall (fun c => c <> 35%Z) txt -> key_records (lock_text txt) = key_records txt /\ locked (lock_text txt) /\ ended (lock_text txt).
Proof.
  intros H35. pose proof (lines_forall _ txt H35) as Hls. rw /locked /key_records lock_lines //. split_and!.
  - induction Hls as [|l ls Hl _ IH]; [done|]. cbn [map fmap list_fmap omap list_omap]. by rw parse_line_cut lock_line_record // IH.
  - apply Forall_fmap, Forall_fmap. eapply Forall_impl; [exact Hls|]. intros l Hl. cbn. rw /first_word words_cut. by apply lock_line_locked.
  - rw /lock_text. destruct (lines txt) as [|l ls _] using rev_ind; [by left|]. right. by rw map_app concat_app /= app_nil_r app_assoc last_snoc.
Qed.

(** ** [revoke] *)

Definition revoked (sha : str) (d : list Z) : bool := starts_with (lower sha) (hex_encode d).

(** Every record names its key by the digest in lower case, as [create] does. *)
Definition canonical (txt : str) : Prop := Forall (fun l => forall d sc, parse_line l = Some (d, sc) -> first_word l = hex_encode d) (lines txt).

Lemma revoke_records sha txt : canonical txt ->
  key_records (revoke_text sha txt) = filter (fun r => revoked sha r.1 = false) (key_records txt).
Proof.
  intros Hc. rw /revoke_text key_records_join.
  { apply Forall_forall. intros l [Hl _]%elem_of_bool_filter. by apply (proj1 (Forall_forall _ _) (lines_newline txt)). }
  rw /key_records. induction Hc as [|l ls Hl _ IH]; [done|]. cbn [List.filter omap list_omap].
  destruct (parse_line l) as [[d sc]|] eqn:Ep.
  - specialize (Hl d sc eq_refl). rw Hl -/(revoked sha d). destruct (revoked sha d) eqn:Er; cbn [negb omap list_omap].
    + by rw filter_cons_False //= Er.
    + by rw Ep filter_cons_True //= IH.
  - case_match; cbn [omap list_omap]; [by rw Ep|done].
Qed.

Lemma revoke_lookup sha txt d : canonical txt ->
  parse_keys (revoke_text sha txt) !! d = if revoked sha d then None else parse_keys txt !! d.
Proof.
  intros Hc. rw !parse_keys_lookup revoke_records // list_filter_filter. destruct (revoked sha d) eqn:Er.
  - rw (list_filter_iff _ (fun _ => False)); [intros r; split; [|done]; intros [-> E]; congruence|]. by induction (key_records txt).
  - f_equal. f_equal. apply list_filter_iff. intros r. split; [by intros [-> _]|]. by intros ->.
Qed.

(** ** The commands *)

Definition store_of (path : option string) (file : option str) : ApiKeyStore := mkKeyStore (parse_keys (default [] file)) path.

Lemma created_records uuid scopes txt : ended txt -> plain scopes ->
  let line := sha_hex (lit "cgn-" ++ uuid) ++ 32%Z :: scopes in
  lines (txt ++ line ++ [10%Z]) = lines txt ++ [cut_cr line]
  /\ key_records (txt ++ line ++ [10%Z]) = key_records txt ++ [(sha256 (utf8 (lit "cgn-" ++ uuid)), scope_list scopes)].
Proof.
  intros Ht Hs line. assert (E : lines (line ++ [10%Z]) = [cut_cr line]).
  { apply lines_one, Forall_app. split; [apply plain_newline, sha_hex_plain|]. constructor; [done|]. by apply plain_newline. }
  split; [by rw lines_ended // E|]. rw key_records_ended // /key_records E. cbn [omap list_omap]. by rw parse_line_cut parse_record.
Qed.

Lemma created_text uuid scopes txt :
  create uuid scopes (Some txt) Written
  = (Some (txt ++ (sha_hex (lit "cgn-" ++ uuid) ++ 32%Z :: scopes) ++ [10%Z]), Some (lit "cgn-" ++ uuid)).
Proof. by rw /create -(app_assoc (sha_hex _)). Qed.


End records.

(** ** Examples *)

Module KeyFileExamples.
#[local] Existing Instance AuthExamples.toy_sha.

Definition NL : str := [10%Z].
Definition two_keys : str := sha_hex (lit "one") ++ lit " chat,embed" ++ NL ++ sha_hex (lit "two") ++ lit " chat" ++ NL.
Definition accepts (file : option str) (token : string) : option (list str) := Auth.scopes <$> ApiKeyStore_check (lit token) (store_of None file).

#[local] Instance canonical_dec l : Decision (forall d sc, parse_line l = Some (d, sc) -> first_word l = hex_encode d).
Proof.
  destruct (parse_line l) as [[d sc]|]; [|by left]. destruct (decide (first_word l = hex_encode d)) as [E|E].
  - left. by intros ? ? [= <- <-].
  - right. intros Hall. apply E. by eapply Hall.
Defined.


(** A revocation leaves no line feed at the end, so the record of the next key is
    glued to the last one: the new key is not accepted, and the key before it has
    lost its scopes. *)
Example create_after_revoke :
  let file := Some (revoke_text (sha_hex (lit "one")) two_keys) in
  accepts file "two" = Some [lit "chat"] /\
  let '(file', secret) := create (lit "three") (lit "embed") file Written in
  secret = Some (lit "cgn-three") /\ accepts file' "cgn-three" = None /\
  accepts file' "two" = Some [lit "chat" ++ sha_hex (lit "cgn-three")].
Proof. by vm_compute. Qed.

(** Locking a file with a comment makes the number sign a key, with the words of
    the comment as its scopes. *)
Example lock_opens_comment :
  let txt := lit "# chat keys" ++ NL ++ sha_hex (lit "one") ++ lit " embed" ++ NL in
  accepts (Some txt) "#" = None /\ accepts (Some (lock_text txt)) "#" = Some [lit "chat"].
Proof. by vm_compute. Qed.

(** A broken write loses the keys that were not written again: both commands
    overwrite the file in place. *)
Example broken_lock : accepts (fst (lock (Some two_keys) (Broken_At 20))) "two" = None.
Proof. by vm_compute. Qed.

End KeyFileExamples.
