(* ===== verification/Recipe.v ===== *)
(** * Recipes

    [cgn-ctl/src/recipe.rs]: finding the recipes folder, listing what is below it
    and starting or stopping a recipe. The file system is a tree of what names
    lead to, so that a symbolic link is what it points at; a path is the list of
    its components. What a script that is run exits with is an argument. *)

From Stdlib Require Import Ascii.
From S2P Require Import Prelude StringFacts Config.

#[local] Set Warnings "-register-all".

Inductive Node :=
| File
| Folder (readable : bool) (entries : list (string * Node)).

Fixpoint assoc {A} (k : string) (l : list (string * A)) : option A :=
  match l with [] => None | (k', x) :: l => if String.eqb k' k then Some x else assoc k l end.

Definition child (n : Node) (c : string) : option Node := match n with Folder _ es => assoc c es | File => None end.
Definition is_folder (n : Node) : bool := match n with Folder _ _ => true | File => false end.

(** [path.join("up.sh").is_file()]. *)
Definition has_up (n : Node) : bool := match child n "up.sh" with Some File => true | _ => false end.

(** ** Paths *)

Abbreviation Path := (list string).

Fixpoint split_path (s : string) : list string :=
  match s with
  | EmptyString => [""]
  | String c s' =>
      match split_path s' with
      | p :: ps => if Ascii.eqb c "/"%char then "" :: p :: ps else String c p :: ps
      | [] => []
      end
  end.

(** [Path::components], without the names that stand for the folder itself. *)
Definition components (s : string) : Path := List.filter (fun c => negb (String.eqb c "" || String.eqb c ".")) (split_path s).
(** [Path::join]: an absolute path replaces. *)
Definition join (base : Path) (s : string) : Path := if String.prefix "/" s then components s else base ++ components s.

(** What a path leads to, from the root. *)
Fixpoint walk (parents : list Node) (cur : Node) (p : Path) : option Node :=
  match p with
  | [] => Some cur
  | c :: p =>
      if String.eqb c ".." then match parents with [] => walk [] cur p | up :: ps => walk ps up p end
      else match child cur c with Some n => walk (cur :: parents) n p | None => None end
  end.

(** ** [recipe.rs] *)

Section recipe.
Variable (fs : Node).

Definition is_dir (p : Path) : bool := match walk [] fs p with Some n => is_folder n | None => false end.
Definition is_file (p : Path) : bool := match walk [] fs p with Some File => true | _ => false end.

(** A path as it is written, from the working folder; the empty one is none. *)
Definition dir_arg (cwd : Path) (s : string) : option Path :=
  if negb (String.eqb s "") && is_dir (join cwd s) then Some (join cwd s) else None.

(** A folder and those above it. *)
Definition ancestors (p : Path) : list Path := map (fun k => take k p) (reverse (seq 0 (S (length p)))).

(** [cwd] and [exe] are what [current_dir] and [current_exe] give. *)
Definition walk_up_for_recipes (cwd exe : option Path) : option Path :=
  let bases := option_list cwd ++ match exe with Some (c :: p) => [take (length p) (c :: p)] | _ => [] end in
  (fun d => d ++ ["recipes"]) <$> List.find (fun d => is_file (d ++ ["recipes"; "_lib"; "recipe.sh"])) (concat (map ancestors bases)).

Definition resolve_root (arg env : option string) (cwd exe : option Path) : result Path Error :=
  let here := default [] cwd in
  match arg with
  | Some s => match dir_arg here s with Some p => Ok p | None => Err (Error_Config ("--root " +:+ s +:+ " is not a directory")) end
  | None =>
      match env ≫= dir_arg here with
      | Some p => Ok p
      | None =>
          match walk_up_for_recipes cwd exe with
          | Some p => Ok p
          | None => Err (Error_Config "could not locate the recipes/ directory; pass --root or set CGN_RECIPES_DIR")
          end
      end
  end.

Definition recipe_dir (root : Path) (name : string) : result Path Error :=
  let p := join root name in
  if negb (is_dir p) then Err (Error_Config ("no recipe `" +:+ name +:+ "`"))
  else if negb (is_file (p ++ ["up.sh"])) then Err (Error_Config "does not look like a recipe (no up.sh)")
  else Ok p.

Definition hidden (name : string) : bool := String.prefix "_" name || String.prefix "." name.

(** An entry of a folder: a recipe is found, another folder is pushed. *)
Definition visit (rel : Path) (acc : list Path * list (Path * Node)) (e : string * Node) : list Path * list (Path * Node) :=
  if negb (is_folder e.2) then acc
  else if hidden e.1 then acc
  else if has_up e.2 then (acc.1 ++ [rel ++ [e.1]], acc.2)
  else (acc.1, (rel ++ [e.1], e.2) :: acc.2).

Fixpoint ls_loop (fuel : nat) (stack : list (Path * Node)) (found : list Path) : option (list Path) :=
  match stack with
  | [] => Some found
  | (rel, dir) :: stack =>
      match fuel with
      | O => None
      | S fuel =>
          match dir with
          | Folder true es => let (found, stack) := foldl (visit rel) (found, stack) es in ls_loop fuel stack found
          | _ => ls_loop fuel stack found
          end
      end
  end.

(** The folders of a tree. *)
Fixpoint folders (n : Node) : nat :=
  match n with
  | File => 0
  | Folder _ es => S ((fix sum es := match es with [] => 0 | (_, x) :: es => folders x + sum es end) es)
  end.

(** [sort] on the names. *)
Definition string_le (a b : string) : Prop := Is_true (String.leb a b).
#[local] Instance string_le_dec : RelDecision string_le.
Proof. intros a b. rw /string_le. apply _. Defined.

Definition display (p : Path) : string := String.concat "/" p.

(** What [ls] prints below a root; [None] if it never ended. *)
Definition ls (root : Path) : option (list string) :=
  match walk [] fs root with
  | Some n => (fun found => merge_sort string_le (map display found)) <$> ls_loop (folders n) [([], n)] []
  | None => Some []
  end.

(** [show]: the files of a recipe. *)
Definition show (root : Path) (name : string) : result (list string) Error :=
  let? dir := recipe_dir root name in
  match walk [] fs dir with
  | Some (Folder true es) => Ok (map fst es)
  | _ => Err (Error_Io false)
  end.

(** [bash script]: whether it succeeds, if it can be started. *)
Variable (bash : Path -> option bool).

Definition run_script (what : string) (script : Path) : result unit Error :=
  match bash script with
  | None => Err (Error_Internal "spawn bash")
  | Some false => Err (Error_Internal (what +:+ " exited with status"))
  | Some true => Ok tt
  end.

Definition up (root : Path) (name : string) : result unit Error :=
  let? dir := recipe_dir root name in run_script "recipe up" (dir ++ ["up.sh"]).

Definition down (root : Path) (name : string) : result unit Error :=
  let? _ := recipe_dir root name in
  match root with
  | [] => Err (Error_Config "recipes root has no parent (cannot find down.sh)")
  | c :: p =>
      let down_sh := take (length p) (c :: p) ++ ["scripts"; "run"; "down.sh"] in
      if negb (is_file down_sh) then Err (Error_Config "down.sh not found") else run_script "recipe down" down_sh
  end.
End recipe.

(** * Properties *)

(** ** Listing *)

(** What is below a folder, entry by entry. *)
Fixpoint recipes (n : Node) : list Path :=
  match n with
  | Folder true es =>
      (fix below es :=
         match es with
         | [] => []
         | (c, x) :: es => (if negb (is_folder x) || hidden c then [] else if has_up x then [[c]] else map (cons c) (recipes x)) ++ below es
         end) es
  | _ => []
  end.

Definition entry_recipes (e : string * Node) : list Path :=
  if negb (is_folder e.2) || hidden e.1 then [] else if has_up e.2 then [[e.1]] else map (cons e.1) (recipes e.2).
Definition entry_folders (e : string * Node) : nat := folders e.2.

Lemma recipes_folder es : recipes (Folder true es) = concat (map entry_recipes es).
Proof. induction es as [|[c x] es IH]; [done|]. cbn in IH |- *. by rw IH. Qed.

Lemma folders_folder b es : folders (Folder b es) = S (list_sum (map entry_folders es)).
Proof. cbn. f_equal. induction es as [|[c x] es IH]; [done|]. cbn. by rw IH. Qed.

(** What is left to find, and how many folders it is in. *)
Definition pending (stack : list (Path * Node)) : list Path := concat (map (fun rn => map (app rn.1) (recipes rn.2)) stack).
Definition load (stack : list (Path * Node)) : nat := list_sum (map (fun rn => folders rn.2) stack).

Definition folders_only (stack : list (Path * Node)) : Prop := Forall (fun rn => is_folder rn.2 = true) stack.

Lemma visit_all rel es : forall found stack, folders_only stack -> let '(found', stack') := foldl (visit rel) (found, stack) es in
  folders_only stack' /\
  found' ++ pending stack' ≡ₚ found ++ map (app rel) (concat (map entry_recipes es)) ++ pending stack /\ load stack' <= load stack + list_sum (map entry_folders es).
Proof.
  induction es as [|[c x] es IH]; intros found stack Hf; cbn [foldl]; [cbn; split_and!; [done|done|lia]|].
  assert (Ev : exists found1 stack1, visit rel (found, stack) (c, x) = (found1, stack1) /\ folders_only stack1 /\
    found1 ++ pending stack1 ≡ₚ found ++ map (app rel) (entry_recipes (c, x)) ++ pending stack /\ load stack1 <= load stack + entry_folders (c, x)).
  { rw /visit /entry_recipes /entry_folders. cbn [fst snd]. destruct (is_folder x) eqn:Ex; cbn [negb orb]; [|eexists _, _; split_and!; [done|done|done|lia]].
    destruct (hidden c); [eexists _, _; split_and!; [done|done|done|lia]|]. destruct (has_up x); eexists _, _; (split; [done|]).
    - split_and!; [done|by rw -app_assoc|lia].
    - split; [by constructor|]. split; [|rw /load /=; lia]. rw /pending. cbn [map concat fst snd]. rw !map_map. do 2 f_equiv. apply reflexive_eq, map_ext. intros p. by rw -app_assoc. }
  destruct Ev as (found1 & stack1 & -> & Hf1 & Hp & Hl). specialize (IH found1 stack1 Hf1). destruct (foldl _ _ _) as [found' stack'].
  destruct IH as (Hf' & IHp & IHl). split; [done|]. split; [|rw /load /= in Hl IHl |- *; lia]. cbn [map concat]. rw map_app IHp.
  trans (map (app rel) (concat (map entry_recipes es)) ++ found1 ++ pending stack1); [apply Permutation_app_swap_app|].
  rw Hp -!app_assoc. rw (Permutation_app_swap_app _ found). f_equiv. apply Permutation_app_swap_app.
Qed.

(** The loop ends, and finds what is there. *)
Lemma ls_loop_total fuel : forall stack found, folders_only stack -> load stack <= fuel ->
  exists l, ls_loop fuel stack found = Some l /\ l ≡ₚ found ++ pending stack.
Proof.
  assert (Hc : forall rel b es stack, load ((rel, Folder b es) :: stack) = S (list_sum (map entry_folders es)) + load stack) by (intros; rw {1}/load; cbn [map list_sum foldr snd]; by rw folders_folder).
  induction fuel as [|fuel IH]; intros [|[rel dir] stack] found Hf Hl; try (exists found; split; [done|by rw app_nil_r]);
    apply Forall_cons in Hf as [Hd Hf]; destruct dir as [|b es]; try done; rw Hc in Hl; [lia|]. cbn [ls_loop]. destruct b.
  - pose proof (visit_all rel es found stack Hf) as Hv. destruct (foldl _ _ _) as [found' stack']. destruct Hv as (Hf' & Hp & Hl').
    destruct (IH stack' found') as (l & -> & El); [done|lia|]. exists l. split; [done|]. rw El Hp. rw {2}/pending. cbn [map concat fst snd]. by rw recipes_folder.
  - destruct (IH stack found) as (l & -> & El); [done|lia|]. by exists l.
Qed.

(** A recipe below a folder: neither it nor a folder above it is hidden, no folder
    above it is a recipe, and they can be read. *)
Inductive recipe_at : Node -> Path -> Prop :=
| recipe_here es c x : (c, x) ∈ es -> is_folder x = true -> hidden c = false -> has_up x = true -> recipe_at (Folder true es) [c]
| recipe_below es c x p : (c, x) ∈ es -> is_folder x = true -> hidden c = false -> has_up x = false -> recipe_at x p -> recipe_at (Folder true es) (c :: p).

Lemma child_smaller b es c x : (c, x) ∈ es -> folders x < folders (Folder b es).
Proof.
  intros Hin. assert (Hl : folders x <= list_sum (map entry_folders es)); [|rw folders_folder; lia].
  induction es as [|e es IH]; [by apply elem_of_nil in Hin|]. change (list_sum (map entry_folders (e :: es))) with (entry_folders e + list_sum (map entry_folders es)).
  apply elem_of_cons in Hin as [<-|Hin]; [rw /entry_folders /=; lia|]. specialize (IH Hin). lia.
Qed.

Lemma recipes_spec n p : p ∈ recipes n <-> recipe_at n p.
Proof.
  remember (folders n) as k eqn:Ek. revert n p Ek. induction (lt_wf k) as [k _ IH]. intros n p ->.
  destruct n as [|b es]; [split; [by intros ?%elem_of_nil|intros Hr; inversion Hr]|]. destruct b; [|split; [by intros ?%elem_of_nil|intros Hr; inversion Hr]].
  rw recipes_folder list_elem_of_In in_concat. split.
  - intros (l & ([c x] & <- & Hin)%in_map_iff & Hp). apply list_elem_of_In in Hin. rw /entry_recipes in Hp. cbn [fst snd] in Hp.
    destruct (is_folder x) eqn:Ex; [|done]. destruct (hidden c) eqn:Eh; [done|]. cbn in Hp. destruct (has_up x) eqn:Eu.
    + destruct Hp as [<-|[]]. by eapply recipe_here.
    + apply in_map_iff in Hp as (q & <- & Hq). apply list_elem_of_In in Hq. eapply recipe_below; try done.
      eapply IH; [by eapply child_smaller|done|done].
  - intros Hr. inversion Hr as [es' c x Hin Hx Hh Hu|es' c x q Hin Hx Hh Hu Hq]; subst; exists (entry_recipes (c, x));
      (split; [apply in_map_iff; exists (c, x); split; [done|by apply list_elem_of_In]|]); rw /entry_recipes /= Hx Hh Hu /=; [by left|].
    apply in_map_iff. exists q. split; [done|]. apply list_elem_of_In. eapply IH; [by eapply child_smaller|done|done].
Qed.

(** ** Names *)

Definition no_slash (c : string) : bool := negb (existsb (fun a => Ascii.eqb a "/"%char) (String.list_ascii_of_string c)).
Definition name_ok (c : string) : bool := negb (String.eqb c "" || String.eqb c ".") && negb (String.eqb c "..") && no_slash c.

(** A tree as a file system has it. *)
Fixpoint tree_ok (n : Node) : bool :=
  match n with
  | File => true
  | Folder _ es => bool_decide (NoDup (map fst es)) && (fix all es := match es with [] => true | (c, x) :: es => name_ok c && tree_ok x && all es end) es
  end.

Lemma tree_ok_child b es c x : tree_ok (Folder b es) = true -> (c, x) ∈ es -> assoc c es = Some x /\ name_ok c = true /\ tree_ok x = true.
Proof.
  cbn. intros [Hn%bool_decide_eq_true Hall]%andb_true_iff. induction es as [|[d y] es IH]; [by intros ?%elem_of_nil|].
  cbn in Hn. apply NoDup_cons in Hn as [Hd Hn]. apply andb_true_iff in Hall as [[Hc Hy]%andb_true_iff Hall]. cbn [assoc].
  intros [[= -> ->]|Hin]%elem_of_cons; [by rw String.eqb_refl|]. destruct (String.eqb_spec d c) as [->|_]; [|by apply IH].
  destruct Hd. apply list_elem_of_In, in_map_iff. exists (c, x). split; [done|by apply list_elem_of_In].
Qed.

Lemma walk_app p : forall ps n x, walk ps n p = Some x -> exists ps', forall q, walk ps n (p ++ q) = walk ps' x q.
Proof.
  induction p as [|c p IH]; intros ps n x; cbn [walk app]; [intros [= ->]; by exists ps|].
  destruct (String.eqb c ".."); [destruct ps; apply IH|]. destruct (child n c); [apply IH|done].
Qed.

Lemma recipe_walk n p : tree_ok n = true -> recipe_at n p -> Forall (fun c => name_ok c = true) p /\
  exists x, is_folder x = true /\ has_up x = true /\ forall ps, walk ps n p = Some x.
Proof.
  intros Hok Hr. assert (Hdots : forall c, name_ok c = true -> String.eqb c ".." = false).
  { intros c. rw /name_ok. destruct (String.eqb c ".."); [by rw andb_false_r|done]. }
  induction Hr as [es c x Hin Hx Hh Hu|es c x p Hin Hx Hh Hu Hq IH]; destruct (tree_ok_child _ _ _ _ Hok Hin) as (Ha & Hc & Ht).
  - split; [by repeat constructor|]. exists x. split; [done|]. split; [done|]. intros ps. cbn [walk child]. by rw Hdots // Ha.
  - destruct (IH Ht) as (Hp & y & Hy & Hyu & Hw). split; [by constructor|]. exists y. split; [done|]. split; [done|]. intros ps. cbn [walk child]. by rw Hdots // Ha Hw.
Qed.

(** A path that is displayed is read back. *)
Lemma split_path_slash c s : no_slash c = true -> split_path (c +:+ "/" +:+ s) = c :: split_path s.
Proof.
  intros Hc. assert (Hne : forall t, exists p ps, split_path t = p :: ps).
  { induction t as [|a t (p & ps & IH)]; cbn; [by eexists _, _|]. rw IH. case_match; by eexists _, _. }
  induction c as [|a c IH].
  - destruct (Hne s) as (p & ps & E). change ("" +:+ "/" +:+ s) with (String "/"%char s). cbn [split_path]. by rw E.
  - rw /no_slash in Hc. cbn [String.list_ascii_of_string existsb] in Hc. destruct (Ascii.eqb a "/"%char) eqn:Ea; [done|].
    change (String a c +:+ "/" +:+ s) with (String a (c +:+ "/" +:+ s)). cbn [split_path]. by rw (IH Hc) Ea.
Qed.

Lemma split_path_name c : no_slash c = true -> split_path c = [c].
Proof.
  induction c as [|a c IH]; [done|]. intros Hc. rw /no_slash in Hc. cbn [String.list_ascii_of_string existsb] in Hc.
  cbn [split_path]. destruct (Ascii.eqb a "/"%char) eqn:Ea; [done|]. by rw (IH Hc).
Qed.

Lemma name_ok_spec c : name_ok c = true -> no_slash c = true /\ String.eqb c ".." = false /\ negb (String.eqb c "" || String.eqb c ".") = true.
Proof. rw /name_ok. intros [[Hn Hd]%andb_true_iff Hs]%andb_true_iff. by apply negb_true_iff in Hd. Qed.

Lemma components_display p : Forall (fun c => name_ok c = true) p -> p <> [] -> components (display p) = p.
Proof.
  intros Hp Hne. assert (Hs : split_path (display p) = p).
  { rw /display. destruct p as [|c p]; [done|]. clear Hne. revert c Hp. induction p as [|d p IH]; intros c [Hc Hp]%Forall_cons.
    - by apply split_path_name, name_ok_spec.
    - change (String.concat "/" (c :: d :: p)) with (c +:+ "/" +:+ String.concat "/" (d :: p)). rw split_path_slash; [by apply name_ok_spec|]. by rw IH. }
  rw /components Hs. clear Hs Hne. induction Hp as [|c p Hc _ IH]; [done|]. cbn [List.filter].
  apply name_ok_spec in Hc as (_ & _ & Hc). by rw Hc IH.
Qed.

Lemma components_names p : Forall (fun c => name_ok c = true) p -> p <> [] -> String.prefix "/" (display p) = false.
Proof.
  intros Hp Hne. destruct p as [|c p]; [done|]. apply Forall_cons in Hp as [Hc _]. apply name_ok_spec in Hc as (Hs & _ & Hn).
  destruct c as [|a c]; [done|]. rw /no_slash in Hs. cbn [String.list_ascii_of_string existsb] in Hs. destruct (Ascii.eqb_spec a "/"%char) as [->|Ha]; [done|].
  assert (Hp : forall t, String.prefix "/" (String a t) = false) by (intros t; rw /String.prefix; destruct (Ascii.ascii_dec "/" a); congruence).
  destruct p; apply Hp.
Qed.

(** No path is found twice. *)
Lemma recipes_NoDup n : tree_ok n = true -> NoDup (recipes n).
Proof.
  remember (folders n) as k eqn:Ek. revert n Ek. induction (lt_wf k) as [k _ IH]. intros n -> Hok. destruct n as [|[] es]; [constructor| |constructor].
  assert (Hsub : forall c x, (c, x) ∈ es -> NoDup (recipes x)).
  { intros c x Hin. eapply IH; [by eapply child_smaller|done|]. by eapply tree_ok_child in Hin as (_ & _ & ?). }
  assert (Hn : NoDup (map fst es)) by by apply andb_true_iff in Hok as [Hn%bool_decide_eq_true _]. rw recipes_folder. clear IH Hok.
  induction es as [|[c x] es IH]; [constructor|]. cbn [map concat fst] in Hn |- *. apply NoDup_cons in Hn as [Hc Hn]. apply NoDup_app. split; [|split].
  - rw /entry_recipes /=. case_match; [constructor|]. case_match; [by apply NoDup_singleton|]. apply NoDup_fmap; [apply _|]. by eapply Hsub, list_elem_of_here.
  - assert (Hhead : forall d y p, p ∈ entry_recipes (d, y) -> head p = Some d).
    { intros d y p. rw /entry_recipes /=. case_match; [by intros ?%elem_of_nil|]. case_match; [by intros ->%list_elem_of_singleton|]. by intros (q & -> & _)%list_elem_of_fmap. }
    intros p Hp1%Hhead Hp2. apply Hc. apply list_elem_of_In, in_concat in Hp2 as (l & ([d y] & <- & Hin)%in_map_iff & Hp2). apply list_elem_of_In, Hhead in Hp2.
    rw Hp1 in Hp2. injection Hp2 as ->. apply list_elem_of_In, in_map_iff. by exists (d, y).
  - apply IH; [|done]. intros d y Hin. eapply Hsub. by right.
Qed.

(** ** The listing and its names *)

#[local] Instance string_le_trans : Transitive string_le.
Proof.
  intros a b c. rw /string_le /String.leb. destruct (String.compare a b) eqn:E1; [apply String.compare_eq_iff in E1 as ->; done| |done].
  destruct (String.compare b c) eqn:E2; [apply String.compare_eq_iff in E2 as <-; by rw E1| |done]. by rw (compare_lt_trans _ _ _ E1 E2).
Qed.

#[local] Instance string_le_total : Total string_le.
Proof. intros a b. rw /string_le. destruct (String.leb_total a b) as [-> | ->]; [by left|by right]. Qed.

Lemma recipe_nonempty n p : recipe_at n p -> p <> [].
Proof. by destruct 1. Qed.

Section listing.
Variables (fs : Node) (root : Path) (n : Node).
Hypothesis at_root : walk [] fs root = Some n.
Hypothesis root_folder : is_folder n = true.
Hypothesis root_ok : tree_ok n = true.

Lemma ls_names : exists names, ls fs root = Some names /\ StronglySorted string_le names /\ names ≡ₚ map display (recipes n).
Proof.
  destruct (ls_loop_total (folders n) [([], n)] []) as (l & El & Hl); [by repeat constructor|rw /load /=; lia|].
  exists (merge_sort string_le (map display l)). rw /ls at_root El. split; [done|]. split.
  - apply (StronglySorted_merge_sort string_le).
  - rw merge_sort_Permutation Hl /pending /=. rw app_nil_r. f_equiv. apply reflexive_eq, map_id.
Qed.

End listing.

(** A root that was found by walking up is the nearest: it holds the marker, it is
    next to the first folder's ancestors before those of the second, and no folder
    nearer to the same start has it. *)
Lemma walk_up_nearest fs cwd exe root : walk_up_for_recipes fs cwd exe = Some root ->
  exists before d after, concat (map ancestors (option_list cwd ++ match exe with Some (c :: p) => [take (length p) (c :: p)] | _ => [] end)) = before ++ d :: after /\
    root = d ++ ["recipes"] /\ is_file fs (root ++ ["_lib"; "recipe.sh"]) = true /\ Forall (fun a => is_file fs (a ++ ["recipes"; "_lib"; "recipe.sh"]) = false) before.
Proof.
  rw /walk_up_for_recipes. set (l := concat _). destruct (List.find _ l) as [d|] eqn:E; [|done]. intros [= <-]. revert E. generalize l. clear l.
  induction l as [|a l IH]; [done|]. cbn [List.find]. destruct (is_file fs (a ++ _)) eqn:Ea; cbn iota.
  - intros [= ->]. exists [], d, l. split; [done|]. split; [done|]. split; [by rw -app_assoc|constructor].
  - intros (before & d' & after & -> & Ed & Hf & Hb)%IH. exists (a :: before), d', after. split; [done|]. split; [done|]. split; [done|]. by constructor.
Qed.

(** ** Examples *)

Module RecipeExamples.

Definition leaf : Node := Folder true [("up.sh", File); ("agent.toml", File)].
Definition tree : Node :=
  Folder true [("_lib", Folder true [("recipe.sh", File)]); ("qwen", Folder true [("vllm", leaf)]);
    ("llama3-8b", Folder true [("sglang", Folder true [("agg", leaf)]); ("vllm", Folder true [("agg", leaf); ("disagg", leaf); ("up.sh", File)])]); ("README.md", File)].
Definition machine : Node := Folder true [("srv", Folder true [("recipes", tree); ("scripts", Folder true [("run", Folder true [("down.sh", File)])])])].


(** A recipe above others hides them from the list, not from [up]. *)
Example outer_recipe_listed : ls machine ["srv"; "recipes"] = Some ["llama3-8b/sglang/agg"; "llama3-8b/vllm"; "qwen/vllm"].
Proof. by vm_compute. Qed.
Example unlisted_can_start : up machine (fun script => Some (bool_decide (script = ["srv"; "recipes"; "llama3-8b"; "vllm"; "agg"; "up.sh"]))) ["srv"; "recipes"] "llama3-8b/vllm/agg" = Ok tt.
Proof. by vm_compute. Qed.

(** [down] stops whatever runs, the recipe's name only has to exist. *)
Example down_ignores_name : map (down machine (fun script => Some (bool_decide (script = ["srv"; "scripts"; "run"; "down.sh"]))) ["srv"; "recipes"]) ["qwen/vllm"; "llama3-8b/vllm/disagg"] = [Ok tt; Ok tt].
Proof. by vm_compute. Qed.

Example found_from_below : walk_up_for_recipes machine (Some ["srv"; "recipes"; "qwen"; "vllm"]) None = Some ["srv"; "recipes"].
Proof. by vm_compute. Qed.
End RecipeExamples.
