(* ===== verification/Install.v ===== *)
(** * Installing and measuring

    [cgn-ctl/src/install.rs], [install/single_node.rs] and [bench.rs], with the
    helm commands of [cgn-helm]. Programs that are run are an argument, as are the
    answers to the requests of the benchmark. What is written for a single node is
    read back by the part of TOML that it uses. *)

From Stdlib Require Import Ascii.
From stdpp Require Import pretty.
From S2P Require Import Prelude StringFacts Config Text Spawn Prompt Usage.

(** ** [install.rs]: arguments *)

Inductive Target := SingleNode | Kubernetes | Aws | Gcp | Azure | Hetzner | Baremetal.
Inductive Engine := Vllm | Sglang | LlamaCpp | OpenaiCompat.

Definition as_toml (e : Engine) : string :=
  match e with Vllm => "vllm" | Sglang => "sglang" | LlamaCpp => "llama_cpp" | OpenaiCompat => "openai_compat" end.

Record Args := mkArgs {
  ar_target : Target;
  ar_model : option string;
  ar_hf_repo : option string;
  ar_engine : Engine;
  ar_tp : Z;
  ar_image : string;
  ar_out_dir : option string;
  ar_apply : bool;
  ar_chart : option string;
  ar_namespace : string;
}.

(** ** [single_node.rs] *)

Record Plan := mkPlan { pl_model : option string; pl_hf_repo : string; pl_engine : Engine; pl_tp : Z; pl_image : string }.

Definition from_args (a : Args) : Plan :=
  mkPlan (ar_model a) (match ar_hf_repo a, ar_model a with Some r, _ => r | None, Some m => m | None, None => "" end)
    (ar_engine a) (Z.max (ar_tp a) 1) (ar_image a).

(** A quote and a backslash. *)
Definition DQ : ascii := Ascii false true false false false true false false.
Definition BS : ascii := Ascii false false true true true false true false.

Definition escape_toml_string (s : string) : string :=
  replace (replace s (String BS "") (String BS (String BS ""))) (String DQ "") (String BS (String DQ "")).
Definition escape_toml_key (s : string) : string := escape_toml_string s.

(** A text between quotes, and lines. *)
Definition quoted (s : string) : string := String DQ (s +:+ String DQ "").
Definition line (s : string) : string := s +:+ NL.
Definition lines (l : list string) : string := foldr (fun s t => line s +:+ t) "" l.

Definition engine_url (e : Engine) : list string :=
  match e with
  | Vllm => ["url  = " +:+ quoted "http://127.0.0.1:8000"]
  | Sglang => ["url  = " +:+ quoted "http://127.0.0.1:30000"]
  | LlamaCpp => ["url  = " +:+ quoted "http://127.0.0.1:8080"]
  | OpenaiCompat => ["url  = " +:+ quoted "http://host.docker.internal:11434"; "# ^ default points at a host-side Ollama; change to wherever your";
      "# OpenAI-compatible engine actually listens."]
  end.

Definition fixed_settings (e : Engine) : list string :=
  ["# Generated by `cgn-ctl install --target single-node`."; "# Re-run the command (it's idempotent) to regenerate."; "";
   "[agent]"; "node_id = " +:+ quoted "node-0"; "listen  = " +:+ quoted "0.0.0.0:7070"; "role    = " +:+ quoted "both"; "";
   "[router]"; "listen_http  = " +:+ quoted "0.0.0.0:8080"; "listen_admin = " +:+ quoted "0.0.0.0:9091"; "";
   "[cluster]"; "etcd_endpoints = [" +:+ quoted "http://etcd:2379" +:+ "]"; "";
   "[security]"; "require_mtls = false"; "# For multi-node deployments, run `cgn-ctl pki bootstrap`";
   "# and set ca_file/cert_file/key_file to the generated paths."; "";
   "[engine]"; "kind = " +:+ quoted (as_toml e)] ++ engine_url e ++
  ["kv_offload = " +:+ quoted "none"; "";
   "[metrics]"; "listen          = " +:+ quoted "0.0.0.0:9092"; "scrape_interval = " +:+ quoted "10s"; "scrape_targets  = [";
   "  { name = " +:+ quoted "router" +:+ ", url = " +:+ quoted "http://router:9091/metrics" +:+ " },";
   "  { name = " +:+ quoted "agent" +:+ ",  url = " +:+ quoted "http://agent:9091/metrics" +:+ " },"; "]"; ""].

Definition model_settings (p : Plan) (m : string) : list string :=
  ["[models." +:+ quoted (escape_toml_key m) +:+ "]"] ++
  match pl_engine p with
  | Vllm | Sglang => ["hf_repo = " +:+ quoted (escape_toml_string (pl_hf_repo p))]
  | LlamaCpp => ["path    = " +:+ quoted (escape_toml_string (pl_hf_repo p))]
  | OpenaiCompat => []
  end ++ ["tp      = " +:+ pretty (pl_tp p)].

Definition render_toml (p : Plan) : string :=
  lines (fixed_settings (pl_engine p) ++ match pl_model p with Some m => model_settings p m | None => [] end).

Definition is_gpu_engine (e : Engine) : bool := match e with Vllm | Sglang => true | LlamaCpp | OpenaiCompat => false end.

Definition etcd_service : list string :=
  ["  etcd:"; "    image: quay.io/coreos/etcd:v3.5.15"; "    container_name: cognitora-etcd"; "    command:"; "      - /usr/local/bin/etcd";
   "      - --name=cognitora-etcd"; "      - --listen-client-urls=http://0.0.0.0:2379"; "      - --advertise-client-urls=http://etcd:2379";
   "      - --listen-peer-urls=http://0.0.0.0:2380"; "      - --initial-advertise-peer-urls=http://etcd:2380";
   "      - --initial-cluster=cognitora-etcd=http://etcd:2380"; "      - --initial-cluster-state=new"; "    networks: [cognitora]"; "    ports:";
   "      - " +:+ quoted "2379:2379"; "    healthcheck:";
   "      test: [" +:+ quoted "CMD" +:+ ", " +:+ quoted "/usr/local/bin/etcdctl" +:+ ", " +:+ quoted "endpoint" +:+ ", " +:+ quoted "health" +:+ "]";
   "      interval: 2s"; "      timeout: 2s"; "      retries: 15"; ""].

(** The lines the two services of Cognitora start with. *)
Definition service (name binary image : string) : list string :=
  ["  " +:+ name +:+ ":"; "    image: " +:+ image; "    container_name: cognitora-" +:+ name; "    depends_on:";
   "      etcd: { condition: service_healthy }"; "    command:"; "      - /usr/local/bin/" +:+ binary; "      - --config";
   "      - /etc/cognitora/cognitora.toml"; "    volumes:"; "      - ./cognitora.toml:/etc/cognitora/cognitora.toml:ro"].

Definition render_compose (p : Plan) : string :=
  lines (
    ["# Generated by `cgn-ctl install --target single-node`."; "# Three containers on a user-defined bridge network: etcd for";
     "# coordination, router, and agent. The OpenAI HTTP surface is"; "# published on host port 8080."; ""; "name: cognitora-single-node"; ""; "services:"]
    ++ etcd_service
    ++ service "router" "cgn-router" (pl_image p)
    ++ ["    networks: [cognitora]"; "    ports:"; "      - " +:+ quoted "8080:8080" +:+ "  # OpenAI HTTP surface";
        "      - " +:+ quoted "9091:9091" +:+ "  # /metrics, /healthz, /readyz"; ""]
    ++ service "agent" "cgn-agent" (pl_image p)
    ++ match pl_engine p with
       | OpenaiCompat => ["    extra_hosts:"; "      # so the agent can reach an engine running on the docker host"; "      - " +:+ quoted "host.docker.internal:host-gateway"]
       | _ => []
       end
    ++ (if is_gpu_engine (pl_engine p) then
          ["    deploy:"; "      resources:"; "        reservations:"; "          devices:"; "            - driver: nvidia"; "              count: all"; "              capabilities: [gpu]"]
        else [])
    ++ ["    networks: [cognitora]"; "    ports:"; "      - " +:+ quoted "7070:7070"; ""; "networks:"; "  cognitora:"; "    name: cognitora"; "    driver: bridge"]).

(** ** [install.rs]: the commands *)

Section install.
(** What is on the path; a program and its arguments, and whether it succeeds if
    it can be started. *)
Variables (which : string -> bool) (exec : list string -> option bool).

Definition preflight_runner : result string Error :=
  if which "docker" then Ok "docker" else if which "podman" then Ok "podman" else Err (Error_Unavailable "neither docker nor podman found in PATH").

Definition write_atomic (path : str) (contents : string) (f : FsFaults) (fs : Fs) : Fs * result unit Error :=
  let tmp := with_extension path (chars "tmp") in
  match write_leaves f with
  | Some partial => (<[tmp := partial]> fs, Err (Error_Io false))
  | None =>
      let fs := <[tmp := as_bytes contents]> fs in
      if rename_fails f then (fs, Err (Error_Io false)) else (<[path := as_bytes contents]> (delete tmp fs), Ok tt)
  end.

(** [status]: of a program that is run. *)
Definition run_command (argv : list string) (what : string) : result unit Error :=
  match exec argv with
  | None => Err (Error_Internal ("spawn " +:+ what))
  | Some false => Err (Error_Internal (what +:+ " failed"))
  | Some true => Ok tt
  end.

Definition compose_up (runner path : string) : list string := [runner; "compose"; "-f"; path; "up"; "-d"].

(** The faults of the two files; [dir_fails] is that of the folder. *)
Definition single_node_install (a : Args) (f_toml f_compose : FsFaults) (fs : Fs) : Fs * result unit Error :=
  match preflight_runner with
  | Err e => (fs, Err e)
  | Ok runner =>
      let dir := default "./cognitora-single-node" (ar_out_dir a) in
      if dir_fails f_toml then (fs, Err (Error_Io false))
      else
        let plan := from_args a in
        let compose_path := dir +:+ "/compose.yaml" in
        let (fs, r) := write_atomic (chars (dir +:+ "/cognitora.toml")) (render_toml plan) f_toml fs in
        match r with
        | Err e => (fs, Err e)
        | Ok _ =>
            let (fs, r) := write_atomic (chars compose_path) (render_compose plan) f_compose fs in
            match r with
            | Err e => (fs, Err e)
            | Ok _ => (fs, if negb (ar_apply a) then Ok tt else run_command (compose_up runner compose_path) (runner +:+ " compose up"))
            end
        end
  end.

(** [cgn-helm]. *)
Variable (helm_bin : option string).

Definition locate_helm : result string Error :=
  match helm_bin with
  | Some p => Ok p
  | None => if which "helm" then Ok "helm" else Err (Error_Unavailable "helm binary not found in PATH; set CGN_HELM_BIN")
  end.

Definition helm_version : result unit Error :=
  let? bin := locate_helm in
  match exec [bin; "version"; "--short"] with
  | None => Err (Error_Internal "helm version")
  | Some false => Err (Error_Unavailable "helm version")
  | Some true => Ok tt
  end.

Record HelmInstall := mkHelm {
  hi_release : string; hi_chart : string; hi_namespace : string; hi_create_namespace : bool; hi_values : list string;
  hi_set : list (string * string); hi_wait : bool; hi_timeout : option string }.

Definition helm_upgrade_args (i : HelmInstall) : list string :=
  ["upgrade"; "--install"; hi_release i; hi_chart i; "--namespace"; hi_namespace i]
  ++ (if hi_create_namespace i then ["--create-namespace"] else [])
  ++ (if hi_wait i then ["--wait"] else [])
  ++ match hi_timeout i with Some t => ["--timeout"; t] | None => [] end
  ++ concat (map (fun v => ["-f"; v]) (hi_values i))
  ++ concat (map (fun kv => ["--set"; kv.1 +:+ "=" +:+ kv.2]) (hi_set i)).

Definition helm_upgrade (i : HelmInstall) : result unit Error :=
  let? bin := locate_helm in run_command (bin :: helm_upgrade_args i) "helm upgrade".

Definition helm_uninstall (release namespace : string) : result unit Error :=
  let? bin := locate_helm in run_command [bin; "uninstall"; release; "--namespace"; namespace] "helm uninstall".

Definition helm_template (chart : string) (values : list (string * string)) : result unit Error :=
  let? bin := locate_helm in
  run_command (bin :: ["template"; "cognitora"; chart] ++ concat (map (fun kv => ["--set"; kv.1 +:+ "=" +:+ kv.2]) values)) "helm template".

Definition kubernetes (a : Args) : result unit Error :=
  let? _ := helm_version in
  helm_upgrade (mkHelm "cognitora" (default "deploy/kubernetes/helm/cognitora" (ar_chart a)) (ar_namespace a) true [] [] true (Some "10m")).

Definition terraform_module (t : Target) : option string :=
  match t with
  | Aws => Some "deploy/terraform/aws" | Gcp => Some "deploy/terraform/gcp" | Azure => Some "deploy/terraform/azure"
  | Hetzner => Some "deploy/terraform/hetzner" | Baremetal => Some "deploy/terraform/baremetal"
  | SingleNode | Kubernetes => None
  end.

Variable (exists_path : string -> bool).

Definition terraform_init (dir : string) : list string := ["terraform"; "-chdir"; dir; "init"].
Definition terraform_apply (dir : string) : list string := ["terraform"; "-chdir"; dir; "apply"; "-auto-approve"].

(** [None]: [unreachable!]. *)
Definition terraform (a : Args) : option (result unit Error) :=
  module ← terraform_module (ar_target a);
  Some (
    if negb (exists_path module) then Err (Error_NotFound ("terraform module not found: " +:+ module))
    else if negb (which "terraform") then Err (Error_Unavailable "terraform not in PATH; install hashicorp terraform first")
    else if negb (ar_apply a) then Ok tt
    else
      let? _ := run_command (terraform_init module) "terraform init" in
      run_command (terraform_apply module) "terraform apply").

(** [run]. *)
Definition install (a : Args) (f_toml f_compose : FsFaults) (fs : Fs) : option (Fs * result unit Error) :=
  match ar_target a with
  | SingleNode => Some (single_node_install a f_toml f_compose fs)
  | Kubernetes => Some (fs, kubernetes a)
  | Aws | Gcp | Azure | Hetzner | Baremetal => (fun r => (fs, r)) <$> terraform a
  end.
End install.

(** ** [bench.rs] *)

Record Counts := mkCounts { bc_ok : Z; bc_err : Z; bc_total_ms : Z }.

(** A request: its status, if it is answered, and the milliseconds it took. *)
Definition bench_one (c : Counts) (answer : option Z * Z) : Counts :=
  match answer.1 with
  | Some status =>
      if (200 <=? status)%Z && (status <? 300)%Z then mkCounts (add_u32 (bc_ok c) 1) (bc_err c) (add_u64 (bc_total_ms c) answer.2)
      else mkCounts (bc_ok c) (add_u32 (bc_err c) 1) (bc_total_ms c)
  | None => mkCounts (bc_ok c) (add_u32 (bc_err c) 1) (bc_total_ms c)
  end.

Definition per_worker (requests concurrency : Z) : Z := Z.max (requests / concurrency) 1.

(** The answers of the workers, in the order in which they count; [None]: a
    division by zero. *)
Definition bench_chat (requests concurrency : Z) (answer : nat -> option Z * Z) : option (Counts * Z) :=
  if (concurrency =? 0)%Z then None
  else
    let c := foldl bench_one (mkCounts 0 0 0) (map answer (seq 0 (Z.to_nat (concurrency * per_worker requests concurrency)))) in
    Some (c, if (0 <? bc_ok c)%Z then (bc_total_ms c / bc_ok c)%Z else 0%Z).

(** * Properties *)

(** ** TOML, as far as the file goes

    A line at a time: comments, tables of one or two keys, and pairs whose value is
    a basic string or the rest of the line; a line that begins with a space or a
    closing bracket goes on with the value before it. Escapes by number are left
    out, they are not written. *)

Definition control (c : ascii) : bool := let n := N_of_ascii c in ((n <? 32)%N && negb (n =? 9)%N) || (n =? 127)%N.

Definition unescape (c : ascii) : option ascii :=
  if Ascii.eqb c DQ || Ascii.eqb c BS then Some c
  else if Ascii.eqb c "b"%char then Some (ascii_of_nat 8)
  else if Ascii.eqb c "t"%char then Some (ascii_of_nat 9)
  else if Ascii.eqb c "n"%char then Some (ascii_of_nat 10)
  else if Ascii.eqb c "f"%char then Some (ascii_of_nat 12)
  else if Ascii.eqb c "r"%char then Some (ascii_of_nat 13)
  else None.

(** After the opening quote: the text, and what follows the closing one. *)
Fixpoint basic (s : string) : option (string * string) :=
  match s with
  | EmptyString => None
  | String c s =>
      if Ascii.eqb c DQ then Some ("", s)
      else if Ascii.eqb c BS then
        match s with
        | String e s => x ← unescape e; p ← basic s; Some (String x p.1, p.2)
        | EmptyString => None
        end
      else if control c then None
      else p ← basic s; Some (String c p.1, p.2)
  end.

Definition bare_char (c : ascii) : bool :=
  let n := N_of_ascii c in
  ((65 <=? n)%N && (n <=? 90)%N) || ((97 <=? n)%N && (n <=? 122)%N) || ((48 <=? n)%N && (n <=? 57)%N) || (n =? 95)%N || (n =? 45)%N.

Fixpoint bare (s : string) : option (string * string) :=
  match s with
  | EmptyString => None
  | String c t => if bare_char c then p ← bare t; Some (String c p.1, p.2) else Some ("", s)
  end.

Definition toml_key (s : string) : option (string * string) :=
  match s with
  | EmptyString => None
  | String c t =>
      if Ascii.eqb c DQ then basic t
      else p ← bare s; if String.eqb p.1 "" then None else Some p
  end.

Fixpoint spaces (s : string) : option string :=
  match s with EmptyString => None | String c t => if Ascii.eqb c " "%char then spaces t else Some s end.

(** [c] and what follows it. *)
Definition expect (c : ascii) (s : string) : option string :=
  match s with EmptyString => None | String d t => if Ascii.eqb d c then Some t else None end.

Definition NLC : ascii := Ascii false true false true false false false false.

Fixpoint until_nl (s : string) : option (string * string) :=
  match s with
  | EmptyString => None
  | String c t => if Ascii.eqb c NLC then Some ("", t) else p ← until_nl t; Some (String c p.1, p.2)
  end.

Inductive Value := V_String (s : string) | V_Raw (s : string).
#[export] Instance Value_eq_dec : EqDecision Value.
Proof. solve_decision. Defined.
Inductive Line := L_Nothing | L_Table (keys : list string) | L_Pair (key : string) (v : Value).

Definition toml_header (s : string) : option (Line * string) :=
  k ← toml_key s;
  match k.2 with
  | EmptyString => None
  | String c t =>
      if Ascii.eqb c "]"%char then r ← expect NLC t; Some (L_Table [k.1], r)
      else if Ascii.eqb c "."%char then k' ← toml_key t; r ← expect "]"%char k'.2; r ← expect NLC r; Some (L_Table [k.1; k'.1], r)
      else None
  end.

Definition toml_pair (s : string) : option (Line * string) :=
  k ← toml_key s;
  r ← spaces k.2; r ← expect "="%char r; r ← spaces r;
  match r with
  | EmptyString => None
  | String c t =>
      if Ascii.eqb c DQ then v ← basic t; r ← expect NLC v.2; Some (L_Pair k.1 (V_String v.1), r)
      else v ← until_nl r; Some (L_Pair k.1 (V_Raw v.1), v.2)
  end.

Definition toml_line (s : string) : option (Line * string) :=
  match s with
  | EmptyString => None
  | String c t =>
      if Ascii.eqb c NLC then Some (L_Nothing, t)
      else if Ascii.eqb c "#"%char || Ascii.eqb c " "%char || Ascii.eqb c "]"%char then v ← until_nl t; Some (L_Nothing, v.2)
      else if Ascii.eqb c "["%char then toml_header t
      else toml_pair s
  end.

(** A setting: its table, its key and its value. *)
Abbreviation Setting := (list string * string * Value)%type.

Definition toml_emit (table : list string) (l : Line) : list Setting := match l with L_Pair k v => [(table, k, v)] | _ => [] end.
Definition toml_table (table : list string) (l : Line) : list string := match l with L_Table t => t | _ => table end.

Fixpoint toml (fuel : nat) (table : list string) (s : string) : option (list Setting * list string) :=
  match s with
  | EmptyString => Some ([], table)
  | _ =>
      match fuel with
      | O => None
      | S fuel => l ← toml_line s; p ← toml fuel (toml_table table l.1) l.2; Some (toml_emit table l.1 ++ p.1, p.2)
      end
  end.

(** As many lines as characters are enough. *)
Definition toml_read (table : list string) (s : string) : option (list Setting * list string) := toml (String.length s) table s.

(** ** Reading goes on behind what was read *)

Definition local {A} (f : string -> option (A * string)) : Prop :=
  forall s a r, f s = Some (a, r) -> String.length r < String.length s /\ forall t, f (s +:+ t) = Some (a, r +:+ t).

Ltac local_step := match goal with
  | H : mbind _ ?o = Some _ |- _ => let E := fresh "E" in destruct o as [[? ?]|] eqn:E; cbn [mbind option_bind fst snd] in H; [|done]
  | H : (if ?b then _ else _) = Some _ |- _ => let E := fresh "E" in destruct b eqn:E; try done
  | H : Some _ = Some _ |- _ => injection H; clear H; intros; subst
  end.

Lemma basic_local : local basic.
Proof.
  intros s. remember (String.length s) as n eqn:En. revert s En. induction (lt_wf n) as [n _ IH]. intros s -> a r Hb. destruct s as [|c s]; [done|].
  assert (IH' : forall s', String.length s' <= String.length s -> forall a r, basic s' = Some (a, r) -> String.length r < String.length s' /\ forall t, basic (s' +:+ t) = Some (a, r +:+ t)).
  { intros s' Hs. apply (IH (String.length s')); [cbn; lia|done]. }
  clear IH. cbn [basic] in Hb. local_step.
  - local_step. split; [cbn [String.length]; lia|]. intros t. rw string_app_cons. cbn [basic]. by rw E.
  - local_step; [destruct s as [|e s]; [done|]; destruct (unescape e) as [x|] eqn:Ex; [|done]; cbn [mbind option_bind] in Hb|];
      repeat local_step; match goal with Hr : basic ?u = Some _ |- _ => destruct (IH' u ltac:(cbn; lia) _ _ Hr) as [Hl Ht] end;
      (split; [cbn [String.length]; lia|]); intros t; rw !string_app_cons; cbn [basic]; by rw E E0 ?Ex ?E1 /= Ht.
Qed.

Lemma until_nl_local : local until_nl.
Proof.
  intros s. induction s as [|c s IH]; intros a r Hb; [done|]. cbn [until_nl] in Hb. local_step; local_step.
  - split; [cbn [String.length]; lia|]. intros t. rw string_app_cons. cbn [until_nl]. by rw E.
  - local_step. destruct (IH _ _ eq_refl) as [Hl Ht]. split; [cbn [String.length]; lia|]. intros t. rw string_app_cons. cbn [until_nl]. by rw E Ht.
Qed.

Lemma bare_local s a r : bare s = Some (a, r) -> String.length r <= String.length s /\ forall t, bare (s +:+ t) = Some (a, r +:+ t).
Proof.
  revert a r. induction s as [|c s IH]; intros a r Hb; [done|]. cbn [bare] in Hb. local_step; local_step.
  - local_step. destruct (IH _ _ eq_refl) as [Hl Ht]. split; [cbn [String.length]; lia|]. intros t. rw string_app_cons. cbn [bare]. by rw E Ht.
  - split; [done|]. intros t. rw string_app_cons. cbn [bare]. by rw E.
Qed.

Lemma toml_key_local s a r : toml_key s = Some (a, r) -> String.length r <= String.length s /\ forall t, toml_key (s +:+ t) = Some (a, r +:+ t).
Proof.
  destruct s as [|c s]; [done|]. cbn [toml_key]. destruct (Ascii.eqb c DQ) eqn:E.
  - intros [Hl Ht]%basic_local. split; [cbn [String.length]; lia|]. intros t. rw string_app_cons. cbn [toml_key]. by rw E.
  - intros Hb. local_step. cbn [fst] in Hb. local_step. local_step. apply bare_local in E0 as [Hl Ht]. split; [done|]. intros t. specialize (Ht t). rw string_app_cons in Ht |- *.
    cbn [toml_key]. by rw E Ht /= E1.
Qed.

Lemma spaces_local s r : spaces s = Some r -> String.length r <= String.length s /\ forall t, spaces (s +:+ t) = Some (r +:+ t).
Proof.
  induction s as [|c s IH]; [done|]. cbn [spaces]. destruct (Ascii.eqb c " "%char) eqn:E.
  - intros [Hl Ht]%IH. split; [cbn [String.length]; lia|]. intros t. rw string_app_cons. cbn [spaces]. by rw E.
  - intros [= <-]. split; [done|]. intros t. rw string_app_cons. cbn [spaces]. by rw E.
Qed.

Lemma expect_local c s r : expect c s = Some r -> String.length r < String.length s /\ forall t, expect c (s +:+ t) = Some (r +:+ t).
Proof. destruct s as [|d s]; [done|]. cbn [expect]. destruct (Ascii.eqb d c) eqn:E; [|done]. intros [= <-]. split; [cbn [String.length]; lia|]. intros t. rw string_app_cons. cbn [expect]. by rw E. Qed.

Lemma toml_header_local : local toml_header.
Proof.
  intros s a r. rw /toml_header. destruct (toml_key s) as [[k r0]|] eqn:Ek; [|done]. cbn [mbind option_bind fst snd]. apply toml_key_local in Ek as [Hl Ht].
  destruct r0 as [|c u]; [done|]. destruct (Ascii.eqb c "]"%char) eqn:E1.
  - destruct (expect NLC u) as [r1|] eqn:E; [|done]. cbn [mbind option_bind]. intros [= <- <-]. apply expect_local in E as [Hl1 Ht1]. cbn in Hl. split; [lia|]. intros t.
    by rw Ht /= E1 Ht1.
  - destruct (Ascii.eqb c "."%char) eqn:E2; [|done]. destruct (toml_key u) as [[k' r1]|] eqn:Ek'; [|done]. cbn [mbind option_bind fst snd]. apply toml_key_local in Ek' as [Hl1 Ht1].
    destruct (expect "]"%char r1) as [r2|] eqn:E; [|done]. cbn [mbind option_bind]. apply expect_local in E as [Hl2 Ht2].
    destruct (expect NLC r2) as [r3|] eqn:E; [|done]. cbn [mbind option_bind]. apply expect_local in E as [Hl3 Ht3]. intros [= <- <-]. cbn in Hl. split; [lia|]. intros t.
    by rw Ht /= E1 E2 Ht1 /= Ht2 /= Ht3.
Qed.

Lemma toml_pair_local : local toml_pair.
Proof.
  intros s a r. rw /toml_pair. destruct (toml_key s) as [[k r0]|] eqn:Ek; [|done]. cbn [mbind option_bind fst snd]. apply toml_key_local in Ek as [Hl Ht].
  destruct (spaces r0) as [r1|] eqn:E; [|done]. cbn [mbind option_bind]. apply spaces_local in E as [Hl1 Ht1].
  destruct (expect "="%char r1) as [r2|] eqn:E; [|done]. cbn [mbind option_bind]. apply expect_local in E as [Hl2 Ht2].
  destruct (spaces r2) as [r3|] eqn:E; [|done]. cbn [mbind option_bind]. apply spaces_local in E as [Hl3 Ht3]. destruct r3 as [|c u]; [done|].
  destruct (Ascii.eqb c DQ) eqn:Ec.
  - destruct (basic u) as [[v r4]|] eqn:E; [|done]. cbn [mbind option_bind fst snd]. apply basic_local in E as [Hl4 Ht4].
    destruct (expect NLC r4) as [r5|] eqn:E; [|done]. cbn [mbind option_bind]. apply expect_local in E as [Hl5 Ht5]. intros [= <- <-]. cbn in Hl3. split; [lia|]. intros t.
    by rw Ht /= Ht1 /= Ht2 /= Ht3 /= Ec Ht4 /= Ht5.
  - destruct (until_nl _) as [[v r4]|] eqn:E; [|done]. cbn [mbind option_bind fst snd]. apply until_nl_local in E as [Hl4 Ht4]. intros [= <- <-]. split; [lia|]. intros t.
    rw Ht /= Ht1 /= Ht2 /= Ht3 /= Ec. specialize (Ht4 t). rw string_app_cons in Ht4. cbn [until_nl] in Ht4. by rw Ht4.
Qed.

Lemma toml_line_local : local toml_line.
Proof.
  intros s a r. destruct s as [|c u]; [done|]. cbn [toml_line]. destruct (Ascii.eqb c NLC) eqn:E1.
  { intros [= <- <-]. split; [cbn; lia|]. intros t. rw string_app_cons. cbn [toml_line]. by rw E1. }
  destruct (_ || _) eqn:E2.
  { destruct (until_nl u) as [[v r1]|] eqn:E; [|done]. cbn [mbind option_bind fst snd]. apply until_nl_local in E as [Hl Ht]. intros [= <- <-]. split; [cbn; lia|]. intros t.
    rw string_app_cons. cbn [toml_line]. by rw E1 E2 Ht. }
  destruct (Ascii.eqb c "["%char) eqn:E3.
  - intros [Hl Ht]%toml_header_local. split; [cbn; lia|]. intros t. rw string_app_cons. cbn [toml_line]. by rw E1 E2 E3.
  - intros [Hl Ht]%toml_pair_local. split; [done|]. intros t. specialize (Ht t). rw string_app_cons in Ht |- *. cbn [toml_line]. by rw E1 E2 E3.
Qed.

(** The fuel is enough, and reading a text is reading its lines. *)
Lemma toml_fuel n : forall m table s, String.length s <= n -> String.length s <= m -> toml n table s = toml m table s.
Proof.
  induction n as [|n IH]; intros m table [|c s] Hn Hm; try (by destruct m); [cbn in Hn; lia|]. destruct m as [|m]; [cbn in Hm; lia|]. cbn [toml].
  destruct (toml_line _) as [[l r]|] eqn:E; [|done]. cbn [mbind option_bind fst snd]. apply toml_line_local in E as [Hl _]. by rw (IH m); [cbn in *; lia|cbn in *; lia|].
Qed.

Lemma toml_read_line table s l r : toml_line s = Some (l, r) ->
  toml_read table s = p ← toml_read (toml_table table l) r; Some (toml_emit table l ++ p.1, p.2).
Proof.
  intros E. pose proof E as [Hl _]%toml_line_local. rw /toml_read. destruct s as [|c s]; [done|]. cbn [String.length toml]. rw E. cbn [mbind option_bind fst snd].
  by rw (toml_fuel (String.length s) (String.length r)); [cbn in Hl; lia|done|].
Qed.

Lemma toml_read_bad table s : s <> "" -> toml_line s = None -> toml_read table s = None.
Proof. intros Hs E. rw /toml_read. destruct s as [|c s]; [done|]. cbn [String.length toml]. by rw E. Qed.

Lemma toml_read_app n : forall table a es table' b, toml n table a = Some (es, table') ->
  toml_read table (a +:+ b) = p ← toml_read table' b; Some (es ++ p.1, p.2).
Proof.
  induction n as [|n IH]; intros table [|c a] es table' b Ha; cbn [toml] in Ha; try done;
    try (injection Ha as <- <-; change ("" +:+ b) with b; destruct (toml_read table b) as [[]|]; done).
  destruct (toml_line _) as [[l r]|] eqn:E; [|done]. cbn [mbind option_bind fst snd] in Ha. apply toml_line_local in E as [_ Ht].
  destruct (toml n _ r) as [[es0 t0]|] eqn:En; [|done]. cbn [mbind option_bind fst snd] in Ha. injection Ha as <- <-.
  rw (toml_read_line _ _ _ _ (Ht b)) (IH _ _ _ _ b En). destruct (toml_read t0 b) as [[es1 t1]|]; [|done]. cbn. by rw app_assoc.
Qed.

(** ** Texts between quotes *)

(** No character that a basic string refuses. *)
Definition printable (s : string) : bool := forallb (fun c => negb (control c)) (String.list_ascii_of_string s).

Definition escape_char (c : ascii) : string :=
  if Ascii.eqb c BS then String BS (String BS "") else if Ascii.eqb c DQ then String BS (String DQ "") else String c "".

Lemma replace_char p to s : replace s (String p "") to = String.concat "" (map (fun c => if Ascii.eqb p c then to else String c "") (String.list_ascii_of_string s)).
Proof.
  rw /replace. induction s as [|c s IH]; [done|]. cbn [replace_go String.list_ascii_of_string map].
  assert (Hp : String.prefix (String p "") (String c s) = Ascii.eqb p c). { rw /String.prefix. destruct (ascii_dec p c) as [->|Hn]; [by rw Ascii.eqb_refl; destruct s|]. by destruct (Ascii.eqb_spec p c). }
  rw Hp. assert (Hc : forall x l, String.concat "" (x :: l) = x +:+ String.concat "" l) by (intros x [|y l]; [by rw string_app_nil_r|done]). rw Hc.
  destruct (Ascii.eqb p c); cbn [String.length Nat.sub]; by rw IH.
Qed.

Lemma toml_escape_cons c s : escape_toml_string (String c s) = escape_char c +:+ escape_toml_string s.
Proof.
  rw /escape_toml_string /escape_char !replace_char. cbn [String.list_ascii_of_string map].
  assert (Hc : forall x l, String.concat "" (x :: l) = x +:+ String.concat "" l) by (intros x [|y l]; [by rw string_app_nil_r|done]). rw Hc.
  rw (Ascii.eqb_sym BS c). destruct (Ascii.eqb_spec c BS) as [->|Hb]; [rw !string_app_cons; cbn [String.list_ascii_of_string map]; by rw !Hc|]. rw string_app_cons. cbn [String.list_ascii_of_string map]. rw Hc (Ascii.eqb_sym DQ c).
  by destruct (Ascii.eqb c DQ).
Qed.

Lemma basic_escaped s rest : basic (escape_toml_string s +:+ String DQ rest) = if printable s then Some (s, rest) else None.
Proof.
  induction s as [|c s IH]; [done|]. rw toml_escape_cons /escape_char -string_app_assoc. cbn [printable String.list_ascii_of_string forallb] in IH |- *. rw /printable in IH.
  destruct (Ascii.eqb_spec c BS) as [->|Hb].
  - rw !string_app_cons. change ("" +:+ (escape_toml_string s +:+ String DQ rest)) with (escape_toml_string s +:+ String DQ rest). cbn [basic]. rw IH. by case_match.
  - destruct (Ascii.eqb_spec c DQ) as [->|Hd].
    + rw !string_app_cons. change ("" +:+ (escape_toml_string s +:+ String DQ rest)) with (escape_toml_string s +:+ String DQ rest). cbn [basic]. rw IH. by case_match.
    + rw string_app_cons. change ("" +:+ (escape_toml_string s +:+ String DQ rest)) with (escape_toml_string s +:+ String DQ rest). cbn [basic].
      destruct (Ascii.eqb_spec c DQ) as [?|_]; [done|]. destruct (Ascii.eqb_spec c BS) as [?|_]; [done|]. rw IH. destruct (control c); [done|]. by case_match.
Qed.

(** ** The file of a single node *)

Lemma lines_of_parts l1 l2 : lines (l1 ++ l2) = lines l1 +:+ lines l2.
Proof. induction l1 as [|s l1 IH]; [done|]. cbn [app lines foldr]. rw -string_app_assoc. f_equal. exact IH. Qed.

Lemma lines_cons s l : lines (s :: l) = s +:+ String NLC (lines l).
Proof. cbn [lines foldr]. rw /line -string_app_assoc. done. Qed.

(** A line that is a fixed text and an escaped one. *)
Lemma models_line m rest : toml_line (("[models." +:+ quoted (escape_toml_key m) +:+ "]") +:+ String NLC rest) =
  if printable m then Some (L_Table ["models"; m], rest) else None.
Proof.
  set (t := String DQ (escape_toml_string m +:+ String DQ (String "]"%char (String NLC rest)))).
  assert (Et : ("[models." +:+ quoted (escape_toml_key m) +:+ "]") +:+ String NLC rest = String "["%char ("models." +:+ t)).
  { rw /quoted /escape_toml_key -!string_app_assoc. change (String DQ ?a +:+ ?b) with (String DQ (a +:+ b)). rw -!string_app_assoc. done. }
  assert (Ek : toml_key ("models." +:+ t) = Some ("models", "." +:+ t)) by (by apply (toml_key_local "models." "models" ".")).
  rw Et. change (toml_header ("models." +:+ t) = if printable m then Some (L_Table ["models"; m], rest) else None). rw /toml_header Ek. cbn [mbind option_bind fst snd].
  change (toml_key t) with (basic (escape_toml_string m +:+ String DQ (String "]"%char (String NLC rest)))). rw string_app_cons. cbn [Ascii.eqb Bool.eqb].
  change (toml_key ("" +:+ t)) with (basic (escape_toml_string m +:+ String DQ (String "]"%char (String NLC rest)))).
  rw basic_escaped. by destruct (printable m).
Qed.

(** [k], its equals sign and spaces. *)
Definition opens (key head : string) : Prop := exists u1 u2, toml_key head = Some (key, u1) /\ spaces u1 = Some u2 /\ expect "="%char u2 = Some " ".

Lemma pair_rest key head t : opens key head -> toml_pair (head +:+ t) =
  match spaces t with
  | None | Some EmptyString => None
  | Some (String c r as s) =>
      if Ascii.eqb c DQ then v ← basic r; r ← expect NLC v.2; Some (L_Pair key (V_String v.1), r)
      else v ← until_nl s; Some (L_Pair key (V_Raw v.1), v.2)
  end.
Proof.
  intros (u1 & u2 & Hk & Hs & He). apply toml_key_local in Hk as [_ Hk]. apply spaces_local in Hs as [_ Hs]. apply expect_local in He as [_ He].
  rw /toml_pair Hk. cbn [mbind option_bind fst snd]. rw Hs. cbn [mbind option_bind]. rw He. cbn [mbind option_bind]. rw string_app_cons. cbn [spaces Ascii.eqb Bool.eqb].
  change ("" +:+ t) with t. by destruct (spaces t) as [[|c r]|].
Qed.

Lemma text_pair key head s rest : opens key head -> toml_pair ((head +:+ quoted (escape_toml_string s)) +:+ String NLC rest) =
  if printable s then Some (L_Pair key (V_String s), rest) else None.
Proof.
  intros Ho. rw -string_app_assoc (pair_rest key) // /quoted string_app_cons -string_app_assoc. cbn [spaces Ascii.eqb Bool.eqb DQ].
  change (Ascii false true false false false true false false) with DQ. rw string_app_cons basic_escaped. by destruct (printable s).
Qed.

(** Numbers. *)
Definition digit (c : ascii) : bool := (48 <=? N_of_ascii c)%N && (N_of_ascii c <=? 57)%N.
Definition digits (s : string) : bool := forallb digit (String.list_ascii_of_string s).

Lemma pretty_go_digits x : forall s, digits s = true -> digits (pretty_N_go x s) = true.
Proof.
  induction (N.lt_wf_0 x) as [x _ IH]. intros s Hs. destruct (decide (0 < x)%N) as [Hx|Hx]; [|rw (_ : x = 0%N); [lia|by rw pretty_N_go_0]].
  rw pretty_N_go_step //. apply IH; [by apply N.div_lt|]. rw /digits. cbn [String.list_ascii_of_string forallb]. rw [forallb _ _]Hs andb_true_r.
  rw /digit /pretty_N_char. by repeat case_match.
Qed.

Lemma pretty_go_nonempty x : forall s, s <> "" -> pretty_N_go x s <> "".
Proof.
  induction (N.lt_wf_0 x) as [x _ IH]. intros s Hs. destruct (decide (0 < x)%N) as [Hx|Hx]; [|rw (_ : x = 0%N); [lia|by rw pretty_N_go_0]].
  rw pretty_N_go_step //. apply IH; [by apply N.div_lt|done].
Qed.

Lemma pretty_digits n : (0 < n)%Z -> exists c s, pretty n = String c s /\ digits (String c s) = true.
Proof.
  intros Hn. destruct n as [|p|p]; try lia. assert (E : pretty (Z.pos p) = pretty_N_go (N.pos p) "") by done. rw E. clear E.
  pose proof (pretty_go_digits (N.pos p) "" eq_refl) as Hd. assert (Hne : pretty_N_go (N.pos p) "" <> "") by (rw pretty_N_go_step //; by apply pretty_go_nonempty).
  destruct (pretty_N_go _ _) as [|c s]; [done|]. by exists c, s.
Qed.

Lemma until_nl_digits s rest : digits s = true -> until_nl (s +:+ String NLC rest) = Some (s, rest).
Proof.
  induction s as [|c s IH]; [done|]. rw /digits. cbn [String.list_ascii_of_string forallb]. intros [Hc Hs]%andb_true_iff. rw string_app_cons. cbn [until_nl].
  destruct (Ascii.eqb_spec c NLC) as [->|_]; [done|]. by rw (IH Hs).
Qed.

Lemma number_pair key head n rest : opens key head -> (0 < n)%Z -> toml_pair ((head +:+ pretty n) +:+ String NLC rest) = Some (L_Pair key (V_Raw (pretty n)), rest).
Proof.
  intros Ho (c & s & -> & Hd)%pretty_digits. rw -string_app_assoc (pair_rest key) // string_app_cons. pose proof (until_nl_digits _ rest Hd) as Hu. rw string_app_cons in Hu.
  rw /digits in Hd. cbn [String.list_ascii_of_string forallb] in Hd. apply andb_true_iff in Hd as [Hc _]. cbn [spaces].
  destruct (Ascii.eqb_spec c " "%char) as [->|_]; [done|]. destruct (Ascii.eqb_spec c DQ) as [->|_]; [done|]. by rw Hu.
Qed.

(** What the file says. *)
Definition fixed_read (e : Engine) : list Setting :=
  [(["agent"], "node_id", V_String "node-0"); (["agent"], "listen", V_String "0.0.0.0:7070"); (["agent"], "role", V_String "both");
   (["router"], "listen_http", V_String "0.0.0.0:8080"); (["router"], "listen_admin", V_String "0.0.0.0:9091");
   (["cluster"], "etcd_endpoints", V_Raw ("[" +:+ quoted "http://etcd:2379" +:+ "]")); (["security"], "require_mtls", V_Raw "false");
   (["engine"], "kind", V_String (as_toml e));
   (["engine"], "url", V_String (match e with
      | Vllm => "http://127.0.0.1:8000" | Sglang => "http://127.0.0.1:30000" | LlamaCpp => "http://127.0.0.1:8080" | OpenaiCompat => "http://host.docker.internal:11434" end));
   (["engine"], "kv_offload", V_String "none"); (["metrics"], "listen", V_String "0.0.0.0:9092"); (["metrics"], "scrape_interval", V_String "10s");
   (["metrics"], "scrape_targets", V_Raw "[")].

Definition model_read (p : Plan) : list Setting :=
  match pl_model p with
  | None => []
  | Some m =>
      match pl_engine p with
      | Vllm | Sglang => [(["models"; m], "hf_repo", V_String (pl_hf_repo p))]
      | LlamaCpp => [(["models"; m], "path", V_String (pl_hf_repo p))]
      | OpenaiCompat => []
      end ++ [(["models"; m], "tp", V_Raw (pretty (pl_tp p)))]
  end.

(** The names a file can hold. *)
Definition plan_printable (p : Plan) : bool :=
  match pl_model p with
  | None => true
  | Some m => printable m && (match pl_engine p with OpenaiCompat => true | _ => printable (pl_hf_repo p) end)
  end.

Lemma fixed_settings_read e : toml 60 [] (lines (fixed_settings e)) = Some (fixed_read e, ["metrics"]).
Proof. by destruct e; vm_compute. Qed.

Lemma tp_read table p : (0 < pl_tp p)%Z -> toml_read table (lines ["tp      = " +:+ pretty (pl_tp p)]) = Some ([(table, "tp", V_Raw (pretty (pl_tp p)))], table).
Proof.
  intros Hp. rw lines_cons. change (lines []) with "". rw (toml_read_line _ _ (L_Pair "tp" (V_Raw (pretty (pl_tp p)))) "") //.
  apply (number_pair "tp" "tp      = "); [|done]. by exists "      = ", "= ".
Qed.

Lemma repo_read table key head m rest : opens key head ->
  (forall t, toml_line (head +:+ t) = toml_pair (head +:+ t)) ->
  toml_read table ((head +:+ quoted (escape_toml_string m)) +:+ String NLC rest) =
  if printable m then p ← toml_read table rest; Some ((table, key, V_String m) :: p.1, p.2) else None.
Proof.
  intros Ho Hl. assert (E := text_pair key head m rest Ho). rw -string_app_assoc -Hl string_app_assoc in E. destruct (printable m).
  - by rw (toml_read_line _ _ _ _ E).
  - rw toml_read_bad //. by destruct head.
Qed.

(** The table of the model. *)
Lemma model_settings_read table p m : (0 < pl_tp p)%Z -> toml_read table (lines (model_settings p m)) =
  if printable m && (match pl_engine p with OpenaiCompat => true | _ => printable (pl_hf_repo p) end)
  then Some (match pl_engine p with
             | Vllm | Sglang => [(["models"; m], "hf_repo", V_String (pl_hf_repo p))]
             | LlamaCpp => [(["models"; m], "path", V_String (pl_hf_repo p))]
             | OpenaiCompat => []
             end ++ [(["models"; m], "tp", V_Raw (pretty (pl_tp p)))], ["models"; m])
  else None.
Proof.
  intros Htp. rw /model_settings lines_of_parts lines_cons. change (lines []) with "". rw -string_app_assoc.
  change (String NLC "" +:+ ?r) with (String NLC r). pose proof (models_line m) as Hm. destruct (printable m); cbn [andb]; [|by rw toml_read_bad].
  rw (toml_read_line _ _ _ _ (Hm _)). cbn [toml_emit toml_table].
  assert (Ht : toml_read ["models"; m] (lines ["tp      = " +:+ pretty (pl_tp p)]) = _) by by apply tp_read.
  destruct (pl_engine p); rw lines_of_parts; revert Ht; generalize (lines ["tp      = " +:+ pretty (pl_tp p)]); intros tp Ht; try (rw lines_cons; change (lines []) with "");
    rw -?string_app_assoc; try change (String NLC "" +:+ tp) with (String NLC tp).
  - rw string_app_assoc (repo_read _ "hf_repo"); [by exists " = ", "= "|done|]. destruct (printable _); [|done]. by rw Ht.
  - rw string_app_assoc (repo_read _ "hf_repo"); [by exists " = ", "= "|done|]. destruct (printable _); [|done]. by rw Ht.
  - rw string_app_assoc (repo_read _ "path"); [by exists "    = ", "= "|done|]. destruct (printable _); [|done]. by rw Ht.
  - change (lines [] +:+ tp) with tp. by rw Ht.
Qed.


(** ** Writing the files *)

(** A write leaves the file as it was or has it whole; nothing but the temporary
    file is touched besides. *)
Lemma write_atomic_whole path contents f fs : with_extension path (chars "tmp") <> path ->
  let (fs', r) := write_atomic path contents f fs in
  fs' !! path = (match r with Ok _ => Some (as_bytes contents) | Err _ => fs !! path end) /\
  (forall q, q <> path -> q <> with_extension path (chars "tmp") -> fs' !! q = fs !! q).
Proof.
  intros Hne. rw /write_atomic. destruct (write_leaves f) as [partial|]; [|destruct (rename_fails f)].
  - split; [by rw lookup_insert_ne|]. intros q _ Hq. by rw lookup_insert_ne.
  - split; [by rw lookup_insert_ne|]. intros q _ Hq. by rw lookup_insert_ne.
  - split; [by rw lookup_insert_eq|]. intros q Hp Hq. by rw lookup_insert_ne // lookup_delete_ne // lookup_insert_ne.
Qed.

(** ** The benchmark *)

Lemma bench_fold l : forall c, (0 <= bc_ok c)%Z -> (0 <= bc_err c)%Z -> (bc_ok c + bc_err c + Z.of_nat (length l) <= u32_max)%Z ->
  (bc_ok (foldl bench_one c l) + bc_err (foldl bench_one c l))%Z = (bc_ok c + bc_err c + Z.of_nat (length l))%Z.
Proof.
  induction l as [|x l IH]; intros c Ho He Hl; [cbn; lia|]. cbn [length] in Hl. cbn [foldl length].
  assert (Ho1 : add_u32 (bc_ok c) 1 = (bc_ok c + 1)%Z) by (apply add_u32_small; lia). assert (He1 : add_u32 (bc_err c) 1 = (bc_err c + 1)%Z) by (apply add_u32_small; lia).
  assert (Hs : exists c', bench_one c x = c' /\ (bc_ok c' + bc_err c' = bc_ok c + bc_err c + 1 /\ 0 <= bc_ok c' /\ 0 <= bc_err c')%Z).
  { eexists. split; [done|]. rw /bench_one. repeat case_match; cbn; lia. }
  destruct Hs as (c' & -> & Hs). rw IH; lia.
Qed.

(** As many requests are counted as the workers send: their number times their
    share, which is rounded down and is at least one. *)
Lemma bench_counts requests concurrency answer : is_u32 requests -> is_u32 concurrency -> (0 < concurrency)%Z ->
  exists c avg, bench_chat requests concurrency answer = Some (c, avg) /\ (bc_ok c + bc_err c = concurrency * per_worker requests concurrency)%Z.
Proof.
  intros Hr Hc Hpos. rw /bench_chat. rw (proj2 (Z.eqb_neq _ _)); [lia|]. eexists _, _. split; [done|].
  pose proof (Z.mul_div_le requests concurrency Hpos) as Hm. rw /is_u32 in Hr Hc. assert (Hb : (0 <= concurrency * per_worker requests concurrency <= u32_max)%Z) by (rw /per_worker; nia).
  rw bench_fold; cbn [bc_ok bc_err]; rw ?length_map ?length_seq ?Z2Nat.id; lia.
Qed.

(** ** Examples *)

Module InstallExamples.

Definition args (model : option string) (engine : Engine) : Args := mkArgs SingleNode model None engine 0 "ghcr.io/x/y:test" None false None "cognitora".

(** A name that tries to leave its quotes does not; a line feed breaks the file. *)
Definition hostile : string := "x" +:+ String DQ "]" +:+ String BS "".
Example hostile_name : fst <$> toml_read [] (render_toml (from_args (args (Some hostile) OpenaiCompat))) = Some (fixed_read OpenaiCompat ++ [(["models"; hostile], "tp", V_Raw "1")]).
Proof. by vm_compute. Qed.
Example broken_name : toml_read [] (render_toml (from_args (args (Some ("x" +:+ NL +:+ "y")) Vllm))) = None.
Proof. by vm_compute. Qed.

(** The address the agent of a single node tells the router, which runs in another
    container. *)
Example unreachable_agent : (["agent"], "listen", V_String "0.0.0.0:7070") ∈ fixed_read Vllm.
Proof. apply (bool_decide_unpack _). by vm_compute. Qed.

(** Terraform is run with the folder as an argument of its own. *)
Example terraform_calls : terraform (fun _ => true) (fun argv => Some (bool_decide (argv = ["terraform"; "-chdir=deploy/terraform/aws"; "init"]))) (fun _ => true)
  (mkArgs Aws None None Vllm 1 "" None true None "") = Some (Err (Error_Internal "terraform init failed")).
Proof. by vm_compute. Qed.

Example bench_shares : map (fun rc => (fun r => (bc_ok r.1 + bc_err r.1)%Z) <$> bench_chat rc.1 rc.2 (fun _ => (Some 200%Z, 5%Z))) [(64, 4); (10, 4); (3, 4); (3, 0)]%Z = [Some 64; Some 8; Some 4; None]%Z.
Proof. by vm_compute. Qed.
End InstallExamples.
