(* ===== verification/Stream.v ===== *)
(** * From tokens to a response

    The second half of [cgn-router/src/gateway/generate.rs]: tallying a token
    stream, merging tool-call fragments, buffering ([collect]) and streaming
    ([pump], [emit_generated]) an answer, the cascade of models with
    [cgn-router/src/cascade.rs], the framing of [gateway/sse.rs], the response
    shapes of [gateway/types.rs] and the end of [serve] in [gateway/chat.rs].
    A token stream is the list of its items, a client what it still reads. *)

From S2P Require Import Prelude StringFacts Float32 Config Proto Text Json Usage.

(** ** Token streams *)

(** An opened flow: what is still to come, the first token included, and the
    router's estimate of the prompt. *)
Record Flow := mkFlow { items : list (result Token Status); prompt_estimate : Z }.

(** ** Usage of a stream *)

Record Usage := mkUsage { u_prompt : Z; u_completion : Z; u_total : Z }.

Record Tally := mkTally {
  chunks : Z;
  logprob_sum : f64;
  logprob_n : Z;
  prompt_tokens : Z;
  completion_tokens : Z;
}.
Definition Tally_default : Tally := mkTally 0 f64_zero 0 0 0.

(** [x != 0.0]. *)
Definition f32_nonzero (x : f32) : bool := negb (SFeqb x f32_zero).
Definition observe (y : Tally) (t : Token) : Tally :=
  let shown := negb (is_empty (t_text t)) || negb (is_empty (t_tool_calls_json t)) in
  let scored := f32_nonzero (t_logprob t) in
  mkTally (if shown then add_u32 (chunks y) 1 else chunks y)
    (if scored then f64_add (logprob_sum y) (f64_of_f32 (t_logprob t)) else logprob_sum y)
    (if scored then add_u32 (logprob_n y) 1 else logprob_n y)
    (Z.max (prompt_tokens y) (t_prompt_tokens t))
    (Z.max (completion_tokens y) (t_completion_tokens t)).

Definition tally_usage (y : Tally) (prompt_estimate : Z) : Usage :=
  let p := if (0 <? prompt_tokens y)%Z then prompt_tokens y else prompt_estimate in
  let c := if (0 <? completion_tokens y)%Z then completion_tokens y else chunks y in
  mkUsage p c (add_u32 p c).

Definition mean_logprob (y : Tally) : option f32 :=
  if (0 <? logprob_n y)%Z then Some (f32_of_f64 (f64_div (logprob_sum y) (f64_of_Z (logprob_n y)))) else None.

(** ** Tool calls *)

(** A slot of [ToolCallAggregator]: the JSON object it holds always has these
    four strings. *)
Record ToolCall := mkCall { call_id : string; call_type : string; fn_name : string; fn_arguments : string }.
Definition ToolCall_new : ToolCall := mkCall "" "function" "" "".

Definition call_json (c : ToolCall) : Json :=
  JObject [("id", JString (call_id c)); ("type", JString (call_type c));
           ("function", JObject [("name", JString (fn_name c)); ("arguments", JString (fn_arguments c))])].

(** [calls], by index. *)
Abbreviation Calls := (gmap Z ToolCall).

Definition merge_entry (e : Json) (c : ToolCall) : ToolCall :=
  let c := match json_get "id" e ≫= as_str with Some s => mkCall s (call_type c) (fn_name c) (fn_arguments c) | None => c end in
  let c := match json_get "type" e ≫= as_str with Some s => mkCall (call_id c) s (fn_name c) (fn_arguments c) | None => c end in
  match json_get "function" e with
  | None => c
  | Some f =>
      let c := match json_get "name" f ≫= as_str with Some s => mkCall (call_id c) (call_type c) s (fn_arguments c) | None => c end in
      match json_get "arguments" f ≫= as_str with
      | Some s => mkCall (call_id c) (call_type c) (fn_name c) (fn_arguments c +:+ s)
      | None => c
      end
  end.

Definition entry_index (e : Json) : Z := default 0%Z (json_get "index" e ≫= as_u64).

Definition push_entry (calls : Calls) (e : Json) : Calls :=
  <[entry_index e := merge_entry e (default ToolCall_new (calls !! entry_index e))]> calls.

Definition push (calls : Calls) (delta : Json) : Calls :=
  match as_array delta with Some entries => foldl push_entry calls entries | None => calls end.

Definition index_le (a b : Z * ToolCall) : Prop := (a.1 <= b.1)%Z.
#[export] Instance index_le_dec : RelDecision index_le.
Proof. intros a b. rw /index_le. apply _. Defined.

Definition calls_in_order (calls : Calls) : list (Z * ToolCall) := merge_sort index_le (map_to_list calls).

Definition finish_calls (calls : Calls) : option Json :=
  match calls_in_order calls with [] => None | l => Some (JArray (map (fun c => call_json c.2) l)) end.

(** ** Buffering *)

Record Generated := mkGenerated {
  g_text : string;
  g_finish : string;
  g_tool_calls : option Json;
  g_logprobs : option Json;
  g_usage : Usage;
  g_mean_logprob : option f32;
}.

Section gateway.
Context `{SerdeJson} (ln_f32 : f32 -> f32).

Record Collected := mkCollected { c_text : string; c_finish : string; c_tally : Tally; c_calls : Calls; c_logprobs : list Json }.
Definition Collected_new : Collected := mkCollected "" "stop" Tally_default ∅ [].

(** The items of [logprobs_json]'s [content]. *)
Definition logprob_items (json : string) : list Json :=
  if is_empty json then []
  else match json_from_str json with
       | Some (JObject o) => match field "content" o with Some (JArray l) => l | _ => [] end
       | _ => []
       end.

Definition push_json (json : string) (calls : Calls) : Calls :=
  if is_empty json then calls else match json_from_str json with Some v => push calls v | None => calls end.

Definition collect_token (c : Collected) (t : Token) : Collected :=
  mkCollected (c_text c +:+ t_text t) (if is_empty (t_finish t) then c_finish c else t_finish t)
    (observe (c_tally c) t) (push_json (t_tool_calls_json t) (c_calls c)) (c_logprobs c ++ logprob_items (t_logprobs_json t)).

Fixpoint collect_loop (l : list (result Token Status)) (c : Collected) : result Collected Error :=
  match l with
  | [] => Ok c
  | Err _ :: _ => Err (Error_Internal "stream")
  | Ok t :: l' => collect_loop l' (collect_token c t)
  end.

Definition generated (prompt_estimate : Z) (c : Collected) : Generated :=
  mkGenerated (c_text c) (c_finish c) (finish_calls (c_calls c))
    (match c_logprobs c with [] => None | l => Some (JObject [("content", JArray l)]) end)
    (tally_usage (c_tally c) prompt_estimate) (mean_logprob (c_tally c)).

Definition collect (f : Flow) : result Generated Error :=
  let? c := collect_loop (items f) Collected_new in Ok (generated (prompt_estimate f) c).

(** ** Cascades *)

Record Cascade := mkCascade { steps : list string; threshold : f32 }.

Definition Cascade_from_config (cfg : Config) (model : string) (override_chain : list string) : option Cascade :=
  if negb (cas_enabled (rc_cascade (cfg_router cfg))) then None
  else
    match (match override_chain with _ :: _ => Some override_chain | [] => mo_cascade <$> cfg_models cfg !! model end) with
    | Some ((_ :: _) as chain) => Some (mkCascade chain (cas_confidence_threshold (rc_cascade (cfg_router cfg))))
    | _ => None
    end.

(** [outcome.tokens == 0 || outcome.logprob < self.threshold]. *)
Definition should_escalate (c : Cascade) (logprob : f32) (tokens : Z) : bool := (tokens =? 0)%Z || f32_lt logprob (threshold c).

Definition heuristic_logprob (tokens : Z) : f32 :=
  f32_div (f32_of_Z (-1)) (f32_max (ln_f32 (f32_max (f32_of_Z tokens) f32_one)) (f32_lit 1 2)).

Definition confidence (g : Generated) : f32 := default (heuristic_logprob (u_completion (g_usage g))) (g_mean_logprob g).

Inductive Resolved := Live (f : Flow) | Done (g : Generated).

(** Opening a request for a model, with or without log-probabilities asked for:
    what [open] does to the shared state. *)
Context {S : Type} (open : string -> bool -> S -> S * result Flow Error).

(** One early step: its answer, buffered. *)
Definition early_step (step : string) (s : S) : S * result Generated Error :=
  let (s, r) := open step true s in
  (s, match r with Ok f => collect f | Err e => Err e end).

Definition accepted (c : Cascade) (r : result Generated Error) : option Generated :=
  match r with
  | Ok g => if should_escalate c (confidence g) (u_completion (g_usage g)) then None else Some g
  | Err _ => None
  end.

Fixpoint early_steps (c : Cascade) (early : list string) (s : S) : S * option Generated :=
  match early with
  | [] => (s, None)
  | step :: early' =>
      let (s, r) := early_step step s in
      match accepted c r with Some g => (s, Some g) | None => early_steps c early' s end
  end.

(** [None]: [split_last] of an empty cascade panics. *)
Definition resolve_cascade (c : Cascade) (logprobs : bool) (s : S) : option (S * result Resolved Error) :=
  match reverse (steps c) with
  | [] => None
  | last :: rest =>
      match early_steps c (reverse rest) s with
      | (s, Some g) => Some (s, Ok (Done g))
      | (s, None) =>
          let (s, r) := open last logprobs s in
          Some (s, match r with Ok f => Ok (Live f) | Err e => Err e end)
      end
  end.

(** ** Response shapes *)

Inductive Surface := Surface_Chat | Surface_Text.

Record ResponseCtx := mkCtx {
  cx_id : string; cx_created : Z; cx_model : string; cx_surface : Surface; cx_include_usage : bool; cx_caller : Caller;
}.

Record ChatDelta := mkDelta { d_role : option string; d_content : option string; d_tool_calls : option Json }.
Record ChatChunkChoice := mkChunkChoice { ch_delta : ChatDelta; ch_finish : option string; ch_logprobs : option Json }.
Record TextChoice := mkTextChoice { tx_text : string; tx_finish : option string; tx_logprobs : option Json }.

(** A chunk's body: [ChatChunk] or [TextCompletion]. *)
Inductive Body :=
| Body_Chat (id : string) (created : Z) (model : string) (choices : list ChatChunkChoice) (usage : option Usage)
| Body_Text (id : string) (created : Z) (model : string) (choices : list TextChoice) (usage : option Usage).

Definition chunk (cx : ResponseCtx) (role text : option string) (tool_calls : option Json) (finish : option string)
    (logprobs : option Json) : Body :=
  match cx_surface cx with
  | Surface_Chat => Body_Chat (cx_id cx) (cx_created cx) (cx_model cx)
      [mkChunkChoice (mkDelta role text tool_calls) finish logprobs] None
  | Surface_Text => Body_Text (cx_id cx) (cx_created cx) (cx_model cx) [mkTextChoice (default "" text) finish logprobs] None
  end.

Definition usage_chunk (cx : ResponseCtx) (u : Usage) : Body :=
  match cx_surface cx with
  | Surface_Chat => Body_Chat (cx_id cx) (cx_created cx) (cx_model cx) [] (Some u)
  | Surface_Text => Body_Text (cx_id cx) (cx_created cx) (cx_model cx) [] (Some u)
  end.

(** ** Streaming *)

Inductive SseEvent := Data (b : Body) | Fail (s : Status).

(** The channel to the client: what was sent, and how many more it takes. *)
Record Channel := mkChannel { sent : list SseEvent; takes : nat }.

Definition send (e : SseEvent) (c : Channel) : Channel * bool :=
  match takes c with O => (c, false) | Datatypes.S n => (mkChannel (sent c ++ [e]) n, true) end.

Definition some_nonempty (s : string) : option string := if is_empty s then None else Some s.

(** [has_payload]. *)
Definition payload (t : Token) : bool :=
  negb (is_empty (t_text t)) || negb (is_empty (t_tool_calls_json t)) || negb (is_empty (t_finish t)).

Definition token_chunk (cx : ResponseCtx) (t : Token) : Body :=
  chunk cx None (some_nonempty (t_text t)) (json_from_str (t_tool_calls_json t)) (some_nonempty (t_finish t))
    (json_from_str (t_logprobs_json t)).

(** The loop of [pump]: the channel, the tally, whether it succeeded. *)
Fixpoint pump_loop (cx : ResponseCtx) (l : list (result Token Status)) (c : Channel) (y : Tally) : Channel * Tally * bool :=
  match l with
  | [] => (c, y, true)
  | Ok t :: l' =>
      let y := observe y t in
      if negb (payload t) then pump_loop cx l' c y
      else match send (Data (token_chunk cx t)) c with
           | (c, true) => pump_loop cx l' c y
           | (c, false) => (c, y, true)
           end
  | Err e :: _ => ((send (Fail e) c).1, y, false)
  end.

Definition is_chat (cx : ResponseCtx) : bool := match cx_surface cx with Surface_Chat => true | Surface_Text => false end.
Definition role_chunk (cx : ResponseCtx) : Body := chunk cx (Some "assistant") None None None None.

(** [settle]: the ledger's part. *)
Definition settle (cx : ResponseCtx) (u : Usage) (now : Z) (l : Ledger) : Ledger :=
  Caller_charge (cx_caller cx) (u_prompt u) (u_completion u) now l.

Definition pump (cx : ResponseCtx) (now : Z) (f : Flow) (c : Channel) (l : Ledger) : Channel * Ledger * bool :=
  let (c, go) := if is_chat cx then send (Data (role_chunk cx)) c else (c, true) in
  if negb go then (c, l, true)
  else
    let '(c, y, ok) := pump_loop cx (items f) c Tally_default in
    let u := tally_usage y (prompt_estimate f) in
    let c := if ok && cx_include_usage cx then (send (Data (usage_chunk cx u)) c).1 else c in
    (c, settle cx u now l, ok).

Definition emit_generated (cx : ResponseCtx) (now : Z) (g : Generated) (c : Channel) (l : Ledger) : Channel * Ledger * bool :=
  let c := if is_chat cx then (send (Data (role_chunk cx)) c).1 else c in
  let c := (send (Data (chunk cx None (Some (g_text g)) None None None)) c).1 in
  let c := (send (Data (chunk cx None None None (Some (g_finish g)) None)) c).1 in
  let c := if cx_include_usage cx then (send (Data (usage_chunk cx (g_usage g))) c).1 else c in
  (c, settle cx (g_usage g) now l, true).

(** [stream_response]. *)
Definition stream_response (cx : ResponseCtx) (now : Z) (r : Resolved) (c : Channel) (l : Ledger) : Channel * Ledger * bool :=
  match r with Live f => pump cx now f c l | Done g => emit_generated cx now g c l end.

(** The buffered end of [serve]. *)
Definition buffered (cx : ResponseCtx) (now : Z) (r : Resolved) (l : Ledger) : Ledger * result Generated Error :=
  match (match r with Done g => Ok g | Live f => collect f end) with
  | Ok g => (settle cx (g_usage g) now l, Ok g)
  | Err e => (l, Err e)
  end.

(** ** Serving *)

Inductive RequestPriority := Priority_Low | Priority_Normal | Priority_High.
#[export] Instance RequestPriority_eq_dec : EqDecision RequestPriority.
Proof. solve_decision. Defined.

Definition to_ascii_lowercase (s : str) : str := map (fun c => if (65 <=? c)%Z && (c <=? 90)%Z then (c + 32)%Z else c) s.

Definition RequestPriority_parse_header (value : str) : RequestPriority :=
  let v := to_ascii_lowercase (trim value) in
  if decide (v = lit "low") then Priority_Low else if decide (v = lit "high") then Priority_High else Priority_Normal.

Record CarbonSample := mkSample { intensity : f64; stale : bool }.

Inductive CarbonAdmission := Carbon_Admit | Carbon_Reject (intensity threshold : f64).

Definition check_admission (cfg : CarbonConfig) (sample : CarbonSample) (priority : RequestPriority) : CarbonAdmission :=
  if negb (cb_enabled cfg) || negb (bool_decide (priority = Priority_Low)) then Carbon_Admit
  else if stale sample then Carbon_Admit
  else if SFltb (cb_intensity_threshold cfg) (intensity sample) then Carbon_Reject (intensity sample) (cb_intensity_threshold cfg)
  else Carbon_Admit.

(** [str::contains]. *)
Fixpoint contains (pat s : string) : bool :=
  String.prefix pat s || match s with EmptyString => false | String _ s' => contains pat s' end.

(** [error_json]: status and whether the client is told when to come back. *)
Definition error_status (e : Error) : Z * bool :=
  match e with
  | Error_InvalidArgument _ => (400, false)%Z
  | Error_NotFound _ => (404, false)%Z
  | Error_Unavailable msg =>
      if contains "admission queue full" msg || contains "deadline exceeded" msg then (429, true)%Z else (503, true)%Z
  | _ => (500, false)%Z
  end.

Inductive Reply :=
| Reply_Error (status : Z) (retry_after : bool)
| Reply_Stream (events : list SseEvent)
| Reply_Body (g : Generated).

(** [serve]; the state of [open] and the ledger are threaded through. *)
Definition serve (cfg : CarbonConfig) (sample : CarbonSample) (priority : option str) (casc : option Cascade)
    (model : string) (logprobs stream : bool) (cx : ResponseCtx) (now : Z) (client : nat) (s : S) (l : Ledger)
    : option (S * Ledger * Reply) :=
  let prio := match priority with Some v => RequestPriority_parse_header v | None => Priority_Normal end in
  match check_admission cfg sample prio with
  | Carbon_Reject _ _ => Some (s, l, Reply_Error 429 false)
  | Carbon_Admit =>
      match
        match casc with
        | Some c => resolve_cascade c logprobs s
        | None => let (s, r) := open model logprobs s in Some (s, match r with Ok f => Ok (Live f) | Err e => Err e end)
        end
      with
      | None => None
      | Some (s, Err e) => Some (s, l, Reply_Error (error_status e).1 (error_status e).2)
      | Some (s, Ok r) =>
          if stream then let '(c, l, _) := stream_response cx now r (mkChannel [] client) l in Some (s, l, Reply_Stream (sent c))
          else match buffered cx now r l with
               | (l, Ok g) => Some (s, l, Reply_Body g)
               | (l, Err e) => Some (s, l, Reply_Error (error_status e).1 (error_status e).2)
               end
      end
  end.

(** ** Framing *)

(** A frame of the body: an event's JSON or the end marker. *)
Inductive Frame := Frame_Event (e : SseEvent) | Frame_Done.

(** [encode]: the frames of the events. *)
Fixpoint encode (events : list SseEvent) : list Frame :=
  match events with
  | [] => [Frame_Done]
  | Data b :: events' => Frame_Event (Data b) :: encode events'
  | Fail s :: _ => [Frame_Event (Fail s)]
  end.

End gateway.

(** ** Streaming shows what buffering returns *)

(** An empty text is not JSON. *)
Class SerdeJsonLaws `{SerdeJson} : Prop := { empty_not_json : json_from_str "" = None }.

(** What a client has put together from the chunks it read. *)
Record View := mkView { v_text : string; v_finish : string; v_calls : Calls; v_usage : option Usage }.
Definition View_new : View := mkView "" "stop" ∅ None.

Definition read_chat (v : View) (ch : ChatChunkChoice) : View :=
  mkView (v_text v +:+ default "" (d_content (ch_delta ch))) (default (v_finish v) (ch_finish ch))
    (match d_tool_calls (ch_delta ch) with Some j => push (v_calls v) j | None => v_calls v end) (v_usage v).
Definition read_text (v : View) (ch : TextChoice) : View :=
  mkView (v_text v +:+ tx_text ch) (default (v_finish v) (tx_finish ch)) (v_calls v) (v_usage v).
Definition with_usage (u : option Usage) (v : View) : View :=
  match u with Some _ => mkView (v_text v) (v_finish v) (v_calls v) u | None => v end.
Definition read_event (v : View) (e : SseEvent) : View :=
  match e with
  | Data (Body_Chat _ _ _ choices u) => with_usage u (foldl read_chat v choices)
  | Data (Body_Text _ _ _ choices u) => with_usage u (foldl read_text v choices)
  | Fail _ => v
  end.
Definition view (events : list SseEvent) : View := foldl read_event View_new events.

Definition failed (events : list SseEvent) : bool := existsb (fun e => match e with Fail _ => true | Data _ => false end) events.

Lemma encode_done events : Frame_Done ∈ encode events <-> failed events = false.
Proof.
  induction events as [|[b|s] events IH]; cbn; [split; [done|intros _; apply list_elem_of_here]| |].
  - rw elem_of_cons IH. naive_solver.
  - split; [|done]. by intros [?|?%elem_of_nil]%elem_of_cons.
Qed.

Section streaming.
Context `{SerdeJsonLaws}.
Implicit Types (cx : ResponseCtx) (f : Flow) (c : Channel) (v : View) (col : Collected).

Definition shows cx v col : Prop :=
  v_text v = c_text col /\ v_finish v = c_finish col /\ (is_chat cx = true -> v_calls v = c_calls col).

Lemma send_some e c : 0 < takes c -> send e c = (mkChannel (sent c ++ [e]) (takes c - 1), true).
Proof. rw /send. destruct (takes c) as [|n]; [lia|]. by rw /= Nat.sub_0_r. Qed.

Lemma some_nonempty_default s : default "" (some_nonempty s) = s.
Proof. rw /some_nonempty /is_empty. by destruct (String.eqb_spec s "") as [->|]. Qed.

Lemma some_nonempty_finish d s : default d (some_nonempty s) = if is_empty s then d else s.
Proof. rw /some_nonempty. by destruct (is_empty s). Qed.

Lemma shows_token cx v col t :
  shows cx v col -> shows cx (read_event v (Data (token_chunk cx t))) (collect_token col t).
Proof.
  intros (Ht & Hf & Hc). rw /shows /token_chunk /chunk /is_chat /collect_token in Hc |- *. destruct (cx_surface cx); cbn.
  - rw some_nonempty_default some_nonempty_finish Ht Hf Hc //. split_and!; [done|done|]. intros _.
    rw /push_json /is_empty. destruct (String.eqb_spec (t_tool_calls_json t) "") as [->|]; [by rw empty_not_json|].
    by destruct (json_from_str (t_tool_calls_json t)).
  - by rw some_nonempty_default some_nonempty_finish Ht Hf.
Qed.

Lemma shows_silent cx v col t : payload t = false -> shows cx v col -> shows cx v (collect_token col t).
Proof.
  rw /payload !orb_false_iff !negb_false_iff. intros [[Ht Htc] Hf] (Hv1 & Hv2 & Hv3).
  rw /shows /collect_token /push_json Htc Hf /= Hv1 Hv2. apply String.eqb_eq in Ht. rw Ht string_app_nil_r. by split_and!.
Qed.

Lemma pump_loop_collect cx l c col :
  Forall (fun i => is_ok' i = true) l -> length l <= takes c ->
  exists evs col', collect_loop l col = Ok col' /\ failed evs = false /\ length evs <= length l /\
  pump_loop cx l c (c_tally col) = (mkChannel (sent c ++ evs) (takes c - length evs), c_tally col', true) /\
  forall v, shows cx v col -> shows cx (foldl read_event v evs) col' /\ v_usage (foldl read_event v evs) = v_usage v.
Proof.
  intros Hl. revert c col. induction Hl as [|[t|e] l Hok Hl IH]; [| |done]; intros c col Hn.
  - exists [], col. cbn. rw app_nil_r Nat.sub_0_r. by destruct c.
  - cbn in Hn |- *. destruct (payload t) eqn:Ep; cbn.
    + rw send_some; [lia|].
      destruct (IH (mkChannel (sent c ++ [Data (token_chunk cx t)]) (takes c - 1)) (collect_token col t)) as
        (evs & col' & Hc & Hf & Hlen & Hp & Hs); [cbn; lia|].
      exists (Data (token_chunk cx t) :: evs), col'. cbn in Hp. rw -app_assoc /= in Hp. split_and!; [done|done|cbn; lia| |].
      * etrans; [exact Hp|]. do 3 f_equal. cbn. lia.
      * intros v Hv. destruct (Hs _ (shows_token _ _ _ t Hv)) as [Hs1 Hs2]. split; [done|]. cbn. rw Hs2.
        rw /token_chunk /chunk. by destruct (cx_surface cx).
    + destruct (IH c (collect_token col t)) as (evs & col' & Hc & Hf & Hlen & Hp & Hs); [lia|].
      exists evs, col'. split_and!; [done|done|lia|done|]. intros v Hv. by apply Hs, shows_silent.
Qed.

Lemma pump_loop_failed cx l1 e l2 c y :
  Forall (fun i => is_ok' i = true) l1 -> length l1 < takes c ->
  exists evs y' n, pump_loop cx (l1 ++ Err e :: l2) c y = (mkChannel (sent c ++ evs ++ [Fail e]) n, y', false).
Proof.
  intros Hl. revert c y. induction Hl as [|[t|x] l1 Hok Hl IH]; [| |done]; intros c y Hn; cbn in Hn |- *.
  - rw send_some /=; [lia|]. by exists [], y, (takes c - 1).
  - destruct (payload t); cbn; [|by apply IH; lia]. rw send_some; [lia|].
    destruct (IH (mkChannel (sent c ++ [Data (token_chunk cx t)]) (takes c - 1)) (observe y t)) as (evs & y' & n & E); [cbn; lia|].
    exists (Data (token_chunk cx t) :: evs), y', n. rw E /=. by rw -app_assoc.
Qed.

(** C8. A streamed answer is the buffered answer in pieces. When the tokens arrive
    without an error and the client reads on, the text of the chunks put together,
    the last finish reason, the merged tool calls and the reported usage are those
    [collect] returns for the same stream, the same tokens are charged to the same
    caller, and the body ends with the end marker. When the stream fails after its
    first tokens, an error event is the last frame and there is no end marker, so a
    truncated answer never looks complete, while the buffered request is an error. *)
Theorem stream_matches_buffered cx now f n l :
  length (items f) + 2 <= n ->
  let '(c, l', ok) := stream_response cx now (Live f) (mkChannel [] n) l in
  (Forall (fun i => is_ok' i = true) (items f) ->
     exists g, buffered cx now (Live f) l = (l', Ok g) /\ ok = true /\ Frame_Done ∈ encode (sent c) /\
     v_text (view (sent c)) = g_text g /\ v_finish (view (sent c)) = g_finish g /\
     (is_chat cx = true -> finish_calls (v_calls (view (sent c))) = g_tool_calls g) /\
     v_usage (view (sent c)) = (if cx_include_usage cx then Some (g_usage g) else None)) /\
  (forall l1 e l2, items f = l1 ++ Err e :: l2 -> Forall (fun i => is_ok' i = true) l1 ->
     (exists evs, sent c = evs ++ [Fail e]) /\ ok = false /\ ~ (Frame_Done ∈ encode (sent c)) /\
     buffered cx now (Live f) l = (l, Err (Error_Internal "stream"))).
Proof.
  intros Hn. rw /stream_response /pump.
  set (c0 := if is_chat cx then _ else _).
  assert (Hc0 : exists evs m, c0 = (mkChannel evs m, true) /\ length (items f) < m /\ failed evs = false /\
    shows cx (view evs) Collected_new /\ v_usage (view evs) = None).
  { rw /c0 /role_chunk /chunk /is_chat. destruct (cx_surface cx) eqn:Es.
    - rw send_some; [cbn; lia|]. do 2 eexists. split; [done|]. cbn. rw /shows /=. split_and!; [lia|done..].
    - exists [], n. split; [done|]. cbn. rw /shows /=. split_and!; [lia|done..]. }
  destruct Hc0 as (evs0 & m & -> & Hm & Hf0 & Hv0 & Hu0). cbn [negb].
  destruct (pump_loop cx (items f) (mkChannel evs0 m) Tally_default) as [[c y] ok] eqn:Ep. split.
  - intros Hok. destruct (pump_loop_collect cx (items f) (mkChannel evs0 m) Collected_new Hok) as
      (evs & col & Hc & Hf & Hlen & Hp & Hs); [cbn; lia|].
    rw Hp in Ep. injection Ep as <- <- <-. cbn [sent takes].
    assert (Hcol : collect f = Ok (generated (prompt_estimate f) col)) by by rw /collect Hc.
    destruct (Hs _ Hv0) as [(Ht & Hfin & Hcalls) Hu]. rw Hu0 in Hu.
    exists (generated (prompt_estimate f) col). rw /buffered Hcol.
    rw /view -foldl_app in Ht Hfin Hcalls Hu.
    assert (Happ : failed (evs0 ++ evs) = false) by by rw /failed existsb_app -!/(failed _) Hf0 Hf.
    cbn [andb]. destruct (cx_include_usage cx) eqn:Ei.
    + rw send_some; [cbn; lia|]. cbn [fst sent].
      assert (Huc : forall v, read_event v (Data (usage_chunk cx (tally_usage (c_tally col) (prompt_estimate f))))
        = mkView (v_text v) (v_finish v) (v_calls v) (Some (tally_usage (c_tally col) (prompt_estimate f)))).
      { intros v. rw /usage_chunk. by destruct (cx_surface cx). }
      split_and!; [done|done| | | | |].
      * apply encode_done. rw /failed existsb_app -/(failed _) Happ. by rw /usage_chunk; destruct (cx_surface cx).
      * by rw /view foldl_snoc Huc.
      * by rw /view foldl_snoc Huc.
      * intros Hch. by rw /view foldl_snoc Huc /= Hcalls.
      * by rw /view foldl_snoc Huc.
    + cbn [sent]. split_and!; [done|done|by apply encode_done|done|done| |done]. intros Hch. by rw /view Hcalls.
  - intros l1 e l2 Hi Hok. rw Hi in Ep Hm. rw length_app in Hm.
    destruct (pump_loop_failed cx l1 e l2 (mkChannel evs0 m) Tally_default Hok) as (evs & y' & k & E); [cbn; lia|].
    rw E in Ep. injection Ep as <- <- <-. cbn [andb sent].
    split_and!; [exists (evs0 ++ evs); by rw app_assoc|done| |].
    + rw encode_done /failed !existsb_app /=. by rw !orb_true_r.
    + rw /buffered /collect Hi.
      assert (Herr : forall col, collect_loop (l1 ++ Err e :: l2) col = Err (Error_Internal "stream")).
      { clear -Hok. induction Hok as [|[t|x] l1 Ht _ IH]; intros col; [done|cbn; apply IH|done]. }
      by rw Herr.
Qed.

End streaming.

(** ** Tool calls *)

(** The argument fragments for one index, in order. *)
Definition entry_arguments (e : Json) : string :=
  match json_get "function" e with Some f => default "" (json_get "arguments" f ≫= as_str) | None => "" end.
Definition arguments_of (idx : Z) (e : Json) : string := if bool_decide (entry_index e = idx) then entry_arguments e else "".

Lemma merge_arguments e c : fn_arguments (merge_entry e c) = fn_arguments c +:+ entry_arguments e.
Proof.
  rw /merge_entry /entry_arguments. destruct (json_get "id" e ≫= as_str), (json_get "type" e ≫= as_str); cbn;
    (destruct (json_get "function" e) as [f|]; cbn; [|by rw string_app_nil_r]);
    destruct (json_get "name" f ≫= as_str), (json_get "arguments" f ≫= as_str); cbn; by rw ?string_app_nil_r.
Qed.

Definition call_arguments (calls : Calls) (idx : Z) : string := fn_arguments (default ToolCall_new (calls !! idx)).

(** However the fragments are cut into deltas, the arguments of a call are all its
    fragments in order, and a call exists exactly when one mentioned it. *)
Lemma push_arguments entries calls idx :
  call_arguments (push calls (JArray entries)) idx
    = foldl (fun acc e => acc +:+ arguments_of idx e) (call_arguments calls idx) entries /\
  (is_Some (push calls (JArray entries) !! idx) <-> is_Some (calls !! idx) \/ exists e, e ∈ entries /\ entry_index e = idx).
Proof.
  rw /push /=. revert calls. induction entries as [|e entries IH]; intros calls; cbn.
  - split; [done|]. split; [by left|]. intros [?|(? & ?%elem_of_nil & _)]; done.
  - destruct (IH (push_entry calls e)) as [IHa IHs]. rw IHa IHs. rw /push_entry /call_arguments /arguments_of. split.
    + f_equal. destruct (decide (entry_index e = idx)) as [<-|Hne].
      * by rw lookup_insert_eq bool_decide_true // merge_arguments.
      * by rw lookup_insert_ne // bool_decide_false // string_app_nil_r.
    + destruct (decide (entry_index e = idx)) as [<-|Hne].
      * rw lookup_insert_eq. split; [intros _; right; exists e; split; [by left|done]|by left].
      * rw lookup_insert_ne //. split; [intros [?|(e' & ? & ?)]; [by left|right; exists e'; split; [by right|done]]|].
        intros [?|(e' & [->|?]%elem_of_cons & ?)]; [by left|done|right; by exists e'].
Qed.

Lemma push_app calls a b : push (push calls (JArray a)) (JArray b) = push calls (JArray (a ++ b)).
Proof. by rw /push /= foldl_app. Qed.

(** ** The cascade *)

Section cascade.
Context `{SerdeJson} (ln_f32 : f32 -> f32) {S : Type} (open : string -> bool -> S -> S * result Flow Error).
Implicit Types (c : Cascade) (s : S).

(** The state after trying these models, none of which was accepted. *)
Inductive escalated c : list string -> S -> S -> Prop :=
| escalated_nil s : escalated c [] s s
| escalated_cons step rest s1 r s2 s3 :
    early_step open step s1 = (s2, r) -> accepted ln_f32 c r = None -> escalated c rest s2 s3 ->
    escalated c (step :: rest) s1 s3.

Lemma early_steps_spec c early s :
  match early_steps ln_f32 open c early s with
  | (s', None) => escalated c early s s'
  | (s', Some g) => exists before step after s1 r,
      early = before ++ step :: after /\ escalated c before s s1 /\ early_step open step s1 = (s', r) /\
      accepted ln_f32 c r = Some g
  end.
Proof.
  revert s. induction early as [|step early IH]; intros s; cbn; [constructor|].
  destruct (early_step open step s) as [s1 r] eqn:E. destruct (accepted ln_f32 c r) as [g|] eqn:Ea.
  - exists [], step, early, s, r. by split_and!; [|constructor|..].
  - specialize (IH s1). destruct (early_steps ln_f32 open c early s1) as [s' [g|]].
    + destruct IH as (before & step' & after & s2 & r' & -> & He & Hr & Hg).
      exists (step :: before), step', after, s2, r'. split_and!; [done| |done|done]. by eapply escalated_cons.
    + by eapply escalated_cons.
Qed.

(** The cascade answers with the first early model whose buffered answer has
    tokens and is confident enough, and otherwise with a live stream of the last
    model, tried in the order of the configuration and each at most once. An early
    model that fails never fails the request, only the last one does; what the
    early ones did to the shared state is kept. *)
Lemma cascade_correct c logprobs s early last :
  steps c = early ++ [last] ->
  exists s' r, resolve_cascade ln_f32 open c logprobs s = Some (s', r) /\
  match r with
  | Ok (Done g) => exists before step after s1 f,
      early = before ++ step :: after /\ escalated c before s s1 /\
      open step true s1 = (s', Ok f) /\ collect f = Ok g /\
      u_completion (g_usage g) <> 0%Z /\ f32_lt (confidence ln_f32 g) (threshold c) = false
  | Ok (Live f) => exists s1, escalated c early s s1 /\ open last logprobs s1 = (s', Ok f)
  | Err e => exists s1, escalated c early s s1 /\ open last logprobs s1 = (s', Err e)
  end.
Proof.
  intros Hs. rw /resolve_cascade Hs reverse_snoc reverse_involutive.
  pose proof (early_steps_spec c early s) as Hspec. destruct (early_steps ln_f32 open c early s) as [s1 [g|]].
  - do 2 eexists. split; [done|]. destruct Hspec as (before & step & after & s2 & r & -> & He & Hr & Ha).
    rw /early_step in Hr. destruct (open step true s2) as [s3 r'] eqn:Eo. injection Hr as -> <-.
    destruct r' as [f|]; [|done]. destruct (collect f) as [g'|] eqn:Ec; [|done]. cbn in Ha.
    destruct (should_escalate c _ _) eqn:Ee; [done|]. injection Ha as ->. rw /should_escalate in Ee.
    apply orb_false_iff in Ee as [Ez%Z.eqb_neq El]. exists before, step, after, s2, f. by split_and!.
  - destruct (open last logprobs s1) as [s2 [f|e]] eqn:Eo; do 2 eexists; (split; [done|]); by exists s1.
Qed.

End cascade.

(** A request that fails while it streams is charged for what was produced, the
    same request buffered is not. *)
Lemma failed_stream_charged `{SerdeJson} cx now f l1 e l2 l :
  items f = l1 ++ Err e :: l2 -> Forall (fun i => is_ok' i = true) l1 ->
  (buffered cx now (Live f) l).1 = l.
Proof.
  intros Hi Hok. rw /buffered /collect Hi.
  assert (Herr : forall col, collect_loop (l1 ++ Err e :: l2) col = Err (Error_Internal "stream")).
  { clear -Hok. induction Hok as [|[t|x] l1 Ht _ IH]; intros col; [done|cbn; apply IH|done]. }
  by rw Herr.
Qed.

(** A streamed answer of an early model has neither the log-probabilities nor the
    tool calls the buffered one returns. *)
Lemma emit_drops_details cx now g c l :
  forall e, e ∈ drop (length (sent c)) (sent (emit_generated cx now g c l).1.1) ->
  match e with
  | Data (Body_Chat _ _ _ choices _) => Forall (fun ch => ch_logprobs ch = None /\ d_tool_calls (ch_delta ch) = None) choices
  | Data (Body_Text _ _ _ choices _) => Forall (fun ch => tx_logprobs ch = None) choices
  | Fail _ => False
  end.
Proof.
  assert (Hsend : forall e c, exists m evs, (send e c).1 = mkChannel (sent c ++ evs) m /\ (evs = [] \/ evs = [e])).
  { intros e [cs [|m]]; [exists 0, []; cbn; rw app_nil_r; by split; [|left]|exists m, [e]; by split; [|right]]. }
  intros e. rw /emit_generated. set (cr := if is_chat cx then _ else c).
  assert (Hr : exists m evs, cr = mkChannel (sent c ++ evs) m /\ (evs = [] \/ evs = [Data (role_chunk cx)])).
  { rw /cr. destruct (is_chat cx); [apply Hsend|]. exists (takes c), []. rw app_nil_r. split; [by destruct c|by left]. }
  destruct Hr as (m1 & e1 & -> & H1).
  destruct (Hsend (Data (chunk cx None (Some (g_text g)) None None None)) (mkChannel (sent c ++ e1) m1)) as (m2 & e2 & E2 & H2). rw E2.
  cbn [sent] in E2 |- *. destruct (Hsend (Data (chunk cx None None None (Some (g_finish g)) None)) (mkChannel ((sent c ++ e1) ++ e2) m2)) as (m3 & e3 & E3 & H3).
  rw E3. cbn [sent]. set (cu := if cx_include_usage cx then _ else _).
  assert (Hu : exists m evs, cu = mkChannel ((((sent c ++ e1) ++ e2) ++ e3) ++ evs) m /\ (evs = [] \/ evs = [Data (usage_chunk cx (g_usage g))])).
  { rw /cu. destruct (cx_include_usage cx); [apply (Hsend _ (mkChannel (((sent c ++ e1) ++ e2) ++ e3) m3))|].
    exists m3, []. rw app_nil_r. split; [done|by left]. }
  destruct Hu as (m4 & e4 & -> & H4). cbn [fst sent]. rw -!app_assoc drop_app_length.
  intros Hin. repeat (apply elem_of_app in Hin as [Hin|Hin]);
    [destruct H1 as [->| ->]|destruct H2 as [->| ->]|destruct H3 as [->| ->]|destruct H4 as [->| ->]];
    (apply elem_of_nil in Hin; done) || (apply list_elem_of_singleton in Hin as ->);
    rw /role_chunk /chunk /usage_chunk; destruct (cx_surface cx); repeat constructor.
Qed.

Module StreamExamples.

(** The only JSON text is [x], one fragment of a call's arguments. *)
#[local] Instance toy_json : SerdeJson := {|
  json_to_string _ := "";
  json_tree s :=
    if String.eqb s "x" then Some (JArray [JObject [("index", JNumber 1); ("function", JObject [("arguments", JString "{}")])]])
    else None;
|}.
#[local] Instance toy_json_laws : SerdeJsonLaws.
Proof. by split. Qed.

Definition token (text finish tools : string) : Token := mkToken "r" text finish (f32_lit (-1) 2) tools "" 0 0.
Definition flow : Flow := mkFlow [Ok (token "He" "" ""); Ok (token "llo" "" "x"); Ok (token "" "" ""); Ok (token "!" "stop" "x")] 7.
Definition ctx : ResponseCtx := mkCtx "chatcmpl-1" 0 "m" Surface_Chat true (mkCaller (lit "k") (lit "t")).

Lemma stream_matches_buffered_witness :
  exists c l', stream_response ctx 0 (Live flow) (mkChannel [] 9) ∅ = (c, l', true) /\ Frame_Done ∈ encode (sent c) /\
  v_text (view (sent c)) = "Hello!" /\ v_usage (view (sent c)) = Some (mkUsage 7 3 10) /\
  exists g, buffered ctx 0 (Live flow) ∅ = (l', Ok g) /\ finish_calls (v_calls (view (sent c))) = g_tool_calls g.
Proof.
  assert (Hn : length (items flow) + 2 <= 9) by (cbn; lia).
  pose proof (stream_matches_buffered ctx 0 flow 9 ∅ Hn) as Hs.
  destruct (stream_response ctx 0 (Live flow) (mkChannel [] 9) ∅) as [[c l'] ok] eqn:E.
  destruct Hs as [Hs _]. destruct Hs as (g & Hg & -> & Hd & Ht & _ & Hc & Hu); [by repeat constructor|].
  assert (Hg' : snd (buffered ctx 0 (Live flow) ∅) = Ok g) by by rw Hg.
  exists c, l'. split; [reflexivity|]. split; [exact Hd|]. split; [|split; [|exists g; split; [exact Hg|exact (Hc eq_refl)]]].
  - rw Ht. vm_compute in Hg'. by injection Hg' as <-.
  - rw Hu. cbn. vm_compute in Hg'. by injection Hg' as <-.
Defined.

(** The state is the models opened so far; the first one has no node. *)
Definition open_toy (model : string) (_ : bool) (s : list string) : list string * result Flow Error :=
  (s ++ [model], if String.eqb model "tiny" then Err (Error_Unavailable "no node") else Ok flow).
Definition ln_toy (x : f32) : f32 := x.
Definition models : Cascade := mkCascade ["tiny"; "mid"; "big"] (f32_lit (-1) 1).

Lemma cascade_correct_witness :
  exists g, resolve_cascade ln_toy open_toy models false [] = Some (["tiny"; "mid"], Ok (Done g)) /\
  exists before step after, ["tiny"; "mid"] = before ++ step :: after /\ u_completion (g_usage g) <> 0%Z.
Proof.
  destruct (cascade_correct ln_toy open_toy models false [] ["tiny"; "mid"] "big" eq_refl) as (s' & r & E & Hr).
  destruct r as [[f|g]|e].
  - by vm_compute in E.
  - exists g. split.
    + rw E. assert (E' := f_equal (fun x => option_map fst x) E). vm_compute in E'. by injection E' as <-.
    + destruct Hr as (before & step & after & s1 & f & Hl & _ & _ & _ & Hu & _). exists before, step, after. exact (conj Hl Hu).
  - by vm_compute in E.
Defined.

End StreamExamples.
