(* ===== verification/AgentGrpc.v ===== *)
(** * The agent's RPC service

    [cgn-agent/src/grpc.rs] and [kvcached.rs]: a request of the router becomes a
    request to the engine's adapter ([OpenAi]), its tokens and its error go back,
    and the digests of an answered prompt are queued as confirmed claims. *)

From S2P Require Import Prelude StringFacts Hash PrefixIndex Float32 Cluster Config Routing Proto Text KvStore KvTransport Supervisor Dispatch Json OpenAi.

(** ** Errors as statuses *)

(** [Error::to_string]; [inner] prints the errors of other crates. *)
Definition error_display (inner : Error -> string) (e : Error) : string :=
  match e with
  | Error_Config m => "config: " +:+ m
  | Error_Tls m => "tls: " +:+ m
  | Error_Etcd m => "etcd: " +:+ m
  | Error_Gossip m => "gossip: " +:+ m
  | Error_InvalidArgument m => "invalid argument: " +:+ m
  | Error_NotFound m => "not found: " +:+ m
  | Error_Unavailable m => "unavailable: " +:+ m
  | Error_Internal m => "internal: " +:+ m
  | _ => inner e
  end.

(** [Status::from]. *)
Definition status_of (inner : Error -> string) (e : Error) : Status := Proto.mkStatus (status_code e) (error_display inner e).

Definition invalid_argument (m : string) : Status := Proto.mkStatus 3 m.
Definition unavailable (m : string) : Status := Proto.mkStatus 14 m.
Definition internal_status (m : string) : Status := Proto.mkStatus 13 m.

(** ** The local store *)

(** [str::replace]: every occurrence, from the left. Fuel: the text. *)
Fixpoint replace_fuel (fuel : nat) (from to s : str) : str :=
  match fuel, s with
  | O, _ | _, [] => s
  | S fuel', c :: s' =>
      match strip_prefix from s with
      | Some rest => to ++ replace_fuel fuel' from to rest
      | None => c :: replace_fuel fuel' from to s'
      end
  end.
Definition replace (from to s : str) : str := replace_fuel (length s) from to s.

Definition local_uri (listen : string) : string :=
  "http://" +:+ to_string (replace (lit "0.0.0.0") (lit "127.0.0.1") (default [] (from_utf8 (as_bytes listen)))).

(** The daemon as its client sees it. *)
Record KvClient := mkKvClient {
  kc_connect : string -> result unit string;
  kc_batch_lookup : list (list Z) -> result (list BlockInfo) Status;
  kc_push : TransferSpec -> result PStatus Status;
  kc_pull : TransferSpec -> result PStatus Status;
}.

Definition resident_digests (kv : KvClient) (listen : string) (digests : list (list Z)) : list (list Z) :=
  let values := List.filter (fun d => length d =? 32)%nat digests in
  match values with
  | [] => []
  | _ =>
      match kc_connect kv (local_uri listen) with
      | Err _ => []
      | Ok _ =>
          match kc_batch_lookup kv values with
          | Err _ => []
          | Ok entries =>
              map bi_prefix_hash (List.filter (fun e => (0 <? bi_size_bytes e)%Z && (length (bi_prefix_hash e) =? 32)%nat) entries)
          end
      end
  end.

(** ** Generation *)

Definition engine_message (m : Message) : ChatMessage :=
  mkChat (m_role m) (m_content m) (m_content_json m) (m_tool_calls_json m) (m_tool_call_id m).

Definition generate_req (resident : list (list Z)) (first : AgentGenerateRequest) : GenerateReq :=
  let p := default SamplingParams_default (aq_params first) in
  mkReq (aq_id first) (aq_model first) (map engine_message (aq_messages first)) (aq_prompt first) (sp_max_tokens p) (sp_temperature p)
    (sp_top_p p) (sp_stop p) true (sp_seed p) (sp_frequency_penalty p) (sp_presence_penalty p) (sp_repetition_penalty p) (sp_top_k p)
    (sp_logprobs p) (aq_extensions_json first) (aq_digests first) resident.

(** What the agent's tasks share: generations in flight and claims queued for
    the health loop. *)
Record AgentState := mkAgent { ag_inflight : Z; ag_confirmed : list (list Z) }.

Section generate.
Context `{SerdeJson} `{Reqwest} (inner : Error -> string) (e : OpenAiHttpEngine) (post : Post -> Reply).
Variables (kv : KvClient) (listen : string) (kv_offload : KvOffload).

Definition resident_of (first : AgentGenerateRequest) : list (list Z) :=
  if decide (kv_offload = KvOffload_Cgn) then resident_digests kv listen (aq_digests first) else [].

(** The spawned task: [client] items are taken before the stream is dropped, and
    the engine's channel takes [lead] tokens more than the first that cannot be
    forwarded. *)
Definition agent_task (client lead : nat) (first : AgentGenerateRequest) (st : AgentState) : AgentState * list (result Token Status) :=
  let (c, res) := OpenAi.generate e post (generate_req (resident_of first) first) (mkTx [] (S (client + lead))) in
  let tokens := Ok <$> tx_sent c in
  match res with
  | Ok _ => (mkAgent (ag_inflight st) (ag_confirmed st ++ aq_digests first), take client tokens)
  | Err x => (st, take client (tokens ++ [Err (status_of inner x)]))
  end.

(** [generate]: [inbound] is the first item of the request's stream. *)
Definition agent_generate (client lead : nat) (inbound : option (result AgentGenerateRequest Status)) (st : AgentState)
    : AgentState * result (list (result Token Status)) Status :=
  match inbound with
  | None => (st, Err (invalid_argument "empty agent stream"))
  | Some (Err s) => (st, Err s)
  | Some (Ok first) =>
      let (st, items) := agent_task client lead first (mkAgent (InflightGuard_new (ag_inflight st)) (ag_confirmed st)) in
      (mkAgent (InflightGuard_drop (ag_inflight st)) (ag_confirmed st), Ok items)
  end.

(** ** The other calls *)

Definition agent_embed (body : EmbedRequest) : result EmbedResponse Status :=
  match eq_inputs body with
  | [] => Err (invalid_argument "inputs must be non-empty")
  | _ =>
      match OpenAi.embed e post (mkEmbedReq (eq_model body) (eq_inputs body)) with
      | Ok out => Ok (mkEmbedResponse (embeddings out) (prompt_tokens out) (eq_model body))
      | Err (Error_Unavailable msg) => Err (unavailable msg)
      | Err x => Err (internal_status ("engine embed: " +:+ error_display inner x))
      end
  end.

Definition load_model : PStatus := KvTransport.mkStatus 0 "ok".
Definition unload_model : PStatus := KvTransport.mkStatus 0 "ok".

Definition kv_handoff (spec : KvHandoffSpec) : result PStatus Status :=
  if negb (length (hs_prefix_hash spec) =? 32)%nat then Err (invalid_argument "prefix_hash must be 32 bytes")
  else
    match kc_connect kv (local_uri listen) with
    | Err m => Err (unavailable ("kvcached connect: " +:+ m))
    | Ok _ =>
        let t := mkTransfer (hs_prefix_hash spec) (hs_peer_node_id spec) (hs_peer_endpoint spec) (hs_use_rdma spec) in
        match hs_direction spec with
        | Direction_Push => kc_push kv t
        | Direction_Pull => kc_pull kv t
        | Direction_Unspecified => Err (invalid_argument "direction must be PUSH or PULL")
        end
    end.

(** [drain]: [shutdown] of the supervisor, then an answer. *)
Definition agent_drain (st : Supervisor.State) : Supervisor.State * PStatus := (shutdown st, KvTransport.mkStatus 0 "drained").
End generate.

(** [serve] refuses to start without the files of mTLS. *)
Definition serve_tls (sec : SecurityConfig) : result bool Error :=
  if sec_require_mtls sec then
    match sec_ca_file sec, sec_cert_file sec, sec_key_file sec with
    | Some _, Some _, Some _ => Ok true
    | _, _, _ => Err (Error_Config "require_mtls=true but cert/key/ca not set")
    end
  else Ok false.

(** ** What the router sees *)

(** The first read of the stream of tokens. *)
Definition stream_head (items : list (result Token Status)) : StreamHead Token :=
  match items with
  | [] => HeadEnd
  | Ok t :: _ => HeadToken t
  | Err s :: _ => HeadStatus (st_code s) (st_message s)
  end.

(** ** Failures *)

Section failures.
Context `{SerdeJson} `{Reqwest} (inner : Error -> string) (e : OpenAiHttpEngine) (post : Post -> Reply).
Variables (kv : KvClient) (listen : string) (kv_offload : KvOffload).

(** Statuses that put the blame on the request. *)
Definition caller_error (s : Z) : bool := (400 <=? s)%Z && (s <=? 499)%Z && negb (s =? 408)%Z && negb (s =? 429)%Z.

Definition verdict (final : bool) (msg : string) : FirstToken Token :=
  if final then Fatal (Error_InvalidArgument msg) else Retry (Error_Internal msg).

Lemma classified_verdict k s body :
  first_token (HeadStatus (Token := Token) (status_code (classify_engine_status k s body)) (error_display inner (classify_engine_status k s body)))
  = verdict (caller_error s) (error_display inner (classify_engine_status k s body)).
Proof.
  rw /classify_engine_status /caller_error. destruct (Z.eqb_spec s 429) as [->|]; [done|]. destruct (Z.eqb_spec s 503) as [->|]; [done|].
  destruct (Z.eqb_spec s 408) as [->|]; [done|]. cbn [orb negb]. rw !andb_true_r. by destruct ((400 <=? s)%Z && (s <=? 499)%Z).
Qed.

Lemma inflight_restored n : is_u64 n -> InflightGuard_drop (InflightGuard_new n) = n.
Proof.
  rw /InflightGuard_drop /InflightGuard_new /sub_u64 /add_u64 /is_u64 /u64_max => Hn.
  rw Zminus_mod_idemp_l (_ : n + 1 - 1 = n)%Z; [lia|]. apply Z.mod_small. lia.
Qed.

(** A generation that fails before its first token. *)
Lemma failed_before_token client lead first st x c : 0 < client -> is_u64 (ag_inflight st) ->
  OpenAi.generate e post (generate_req (resident_of kv listen kv_offload first) first) (mkTx [] (S (client + lead))) = (c, Err x) -> tx_sent c = [] ->
  agent_generate inner e post kv listen kv_offload client lead (Some (Ok first)) st = (st, Ok [Err (status_of inner x)]).
Proof.
  intros Hc Hi Hg Hs. rw /agent_generate /agent_task Hg Hs. cbn [fmap list_fmap app ag_inflight ag_confirmed].
  rw inflight_restored // take_ge; [cbn; lia|]. by destruct st.
Qed.

(** C11. A failing engine costs the client nothing: when the request could not be
    sent, when the engine answers with an error status, or when its stream ends
    before the first token, the agent's stream is one error, nothing is confirmed,
    the count of running generations is what it was, and the router's verdict on
    it is to try another node, except for the 4xx statuses that blame the request
    (not 408 and not 429), which are final. *)
Theorem engine_failure_retry client lead first st :
  0 < client -> is_u64 (ag_inflight st) ->
  let p := generate_post e (generate_req (resident_of kv listen kv_offload first) first) in
  let failed final := exists s,
    agent_generate inner e post kv listen kv_offload client lead (Some (Ok first)) st = (st, Ok [Err s]) /\
    first_token (stream_head [Err s]) = verdict final (st_message s) in
  (forall m, post p = Err m -> failed false) /\
  (forall r, post p = Ok r -> is_success (rs_status r) = false -> failed (caller_error (rs_status r))) /\
  (forall r cs broken, post p = Ok r -> is_success (rs_status r) = true ->
     rs_chunks r = (Ok <$> cs) ++ match broken with Some m => [Err m] | None => [] end ->
     let evs := frame_event <$> frames (concat cs) in
     has_done evs = false -> tokens_of (aq_id first) (sp_logprobs (default SamplingParams_default (aq_params first))) (before_done evs) = [] ->
     failed false).
Proof.
  intros Hc Hi p failed. rw /failed.
  pose proof (fun x c => failed_before_token client lead first st x c Hc Hi) as Hf. rw /OpenAi.generate -/p in Hf. split_and!.
  - intros m Hp. rw Hp in Hf. eexists. split; [by apply (Hf _ _ eq_refl)|done].
  - intros r Hp Hs. rw Hp Hs in Hf. eexists. split; [by apply (Hf _ _ eq_refl)|]. apply classified_verdict.
  - intros r cs broken Hp Hs Hr Hd Ht. rw Hp Hs /= in Hf.
    pose proof (read_chunks_answer (aq_id first) (sp_logprobs (default SamplingParams_default (aq_params first))) (kind e) cs broken
      (S (client + lead))) as Ha. rw -Hr in Ha.
    destruct (read_chunks _ _ _ _ _ _) as [q res]. rw /answer Ht Hd in Ha. cbn [length finished existsb] in Ha.
    assert (Hx : exists x, res = Err (Error_Internal x) /\ tx_sent (tx q) = []) by (destruct broken; injection Ha as -> ->; eauto).
    destruct Hx as (x & -> & Hx). eexists. split; [by apply (Hf _ _ eq_refl)|done].
Qed.
End failures.

(** ** Residency *)

Section resident.
Context `{BlockIndex} `{RamIter}.
Implicit Types s : Store.

(** What a lookup finds, whatever its time. *)
Definition held (f : Faults) s (a : BlockAddress) : Prop :=
  is_Some (rb s a) \/ is_Some (index_get f a s).

Lemma lookup_found f now a s h : (Store_lookup f now a s).2 = Some h -> held f s a.
Proof.
  rw /Store_lookup /RamTier_get /held /rb. destruct (ram_inner (st_ram s) !! a) eqn:E; [by left; rw fmap_is_Some|].
  destruct (index_get f a s); [by right|done].
Qed.

Lemma lookup_held f now a b s : held f (Store_lookup f now a s).1 b -> held f s b.
Proof.
  rw /Store_lookup /RamTier_get /held /rb /index_get. destruct (ram_inner (st_ram s) !! a) as [x|] eqn:E.
  - cbn. rw ram_touch_bytes. done.
  - by case_match.
Qed.

Lemma batch_held f now values s d : d ∈ bi_prefix_hash <$> (kv_batch_lookup f now values s).2 -> d ∈ values /\ held f s (mkAddr d 0).
Proof.
  revert s. induction values as [|v vs IH]; intros s; cbn; [by intros Hd%elem_of_nil|].
  rw /digest_from_bytes. destruct (Nat.eqb_spec (length v) 32) as [Hv|].
  - pose proof (lookup_found f now (mkAddr v 0) s) as Hfound. pose proof (lookup_held f now (mkAddr v 0) (mkAddr d 0) s) as Hheld.
    destruct (Store_lookup f now (mkAddr v 0) s) as [s1 h]. cbn in Hfound, Hheld. specialize (IH s1).
    destruct (kv_batch_lookup f now vs s1) as [s2 infos]. cbn in IH |- *. intros Hd.
    assert (Hd' : d = v /\ is_Some h \/ d ∈ bi_prefix_hash <$> infos).
    { destruct h as [h|]; [|by right]. cbn in Hd. apply elem_of_cons in Hd as [->|Hd]; [by left|by right]. }
    destruct Hd' as [[-> [h' ->]]|Hd'].
    + split; [by left|]. by eapply Hfound.
    + destruct (IH Hd') as [Hin Hh]. split; [by right|by apply Hheld].
  - intros Hd. destruct (IH s Hd) as [Hin Hh]. split; [by right|done].
Qed.

(** What the agent tells the engine to be resident was asked for by the router
    and is in the node's store. *)
Lemma resident_held f now s kv listen digests d :
  (forall values, kc_batch_lookup kv values = Ok (kv_batch_lookup f now values s).2) ->
  d ∈ resident_digests kv listen digests -> d ∈ digests /\ length d = 32 /\ held f s (mkAddr d 0).
Proof.
  intros Hkv. rw /resident_digests. set (values := List.filter _ _).
  assert (Hv : forall x, x ∈ values -> x ∈ digests) by (intros x [Hx _]%elem_of_bool_filter; done).
  destruct values as [|v vs]; [by intros Hd%elem_of_nil|]. destruct (kc_connect kv _); [|by intros Hd%elem_of_nil]. rw Hkv. intros Hd.
  change (map bi_prefix_hash) with (fmap (M:=list) bi_prefix_hash) in Hd. apply list_elem_of_fmap in Hd as (i & -> & [Hi Hc]%elem_of_bool_filter).
  destruct (batch_held f now (v :: vs) s (bi_prefix_hash i)) as [Hin Hheld]; [by apply list_elem_of_fmap_2|].
  apply andb_true_iff in Hc as [_ Hlen%Nat.eqb_eq]. split; [by apply Hv|done].
Qed.
End resident.

Module AgentExamples.
Import ToyJson.

#[local] Instance toy_reqwest : Reqwest := {| status_display _ := "?"; decode_text _ := "body"; decode_error _ := "" |}.

Definition engine : OpenAiHttpEngine := OpenAiHttpEngine_new "vllm" "http://127.0.0.1:8000".
Definition no_kv : KvClient := mkKvClient (fun _ => Err "refused") (fun _ => Ok []) (fun _ => Ok load_model) (fun _ => Ok load_model).
Definition first : AgentGenerateRequest := mkAgentGenerate "r1" "m" [] None false false [] "" "" "" [replicate 32 7%Z] "hi".
Definition idle : AgentState := mkAgent 0 [].
Definition answers (status : Z) : Post -> Reply := fun _ => Ok (mkResponse status []).

(** The digests of the router reach the engine only from the store. *)
Example resident_none : resident_of no_kv "0.0.0.0:7000" KvOffload_Cgn first = [].
Proof. done. Qed.
Example rewritten : local_uri "0.0.0.0:7000" = "http://127.0.0.1:7000".
Proof. by vm_compute. Qed.

(** A refused request is final, an overloaded engine is not. *)
Lemma engine_failure_retry_witness :
  (exists s, agent_generate (fun _ => "") engine (answers 404) no_kv "" KvOffload_None 1 0 (Some (Ok first)) idle = (idle, Ok [Err s]) /\
    first_token (stream_head [Err s]) = Fatal (Error_InvalidArgument (st_message s))) /\
  (exists s, agent_generate (fun _ => "") engine (answers 503) no_kv "" KvOffload_None 1 0 (Some (Ok first)) idle = (idle, Ok [Err s]) /\
    first_token (stream_head [Err s]) = Retry (Error_Internal (st_message s))).
Proof.
  assert (Hi : is_u64 (ag_inflight idle)) by (rw /is_u64 /u64_max; cbn; lia).
  pose proof (engine_failure_retry (fun _ => "") engine (answers 404) no_kv "" KvOffload_None 1 0 first idle (le_n 1) Hi) as (_ & H1 & _).
  pose proof (engine_failure_retry (fun _ => "") engine (answers 503) no_kv "" KvOffload_None 1 0 first idle (le_n 1) Hi) as (_ & H2 & _).
  split; [exact (H1 _ eq_refl eq_refl)|exact (H2 _ eq_refl eq_refl)].
Defined.

(** The phase hints of a disaggregated request change nothing of what the engine
    is asked. *)
Example phases_ignored resident r prefill decode blocks :
  generate_req resident (mkAgentGenerate (aq_id r) (aq_model r) (aq_messages r) (aq_params r) prefill decode blocks (aq_traceparent r)
    (aq_tracestate r) (aq_extensions_json r) (aq_digests r) (aq_prompt r)) = generate_req resident r.
Proof. done. Qed.

End AgentExamples.
