(* ===== verification/Embed.v ===== *)
(** * Embeddings and the router's RPC surface

    [cgn-router/src/gateway/embed.rs] and [routing/grpc.rs]: both surfaces route
    with [pick] ([Routing]) and reach an agent with [connect_agent]
    ([Dispatch]). The answers of agents and of admission are arguments. *)

From S2P Require Import Prelude StringFacts Hash PrefixIndex Float32 Cluster Config Routing Admission Dispatch Proto Text Json Prompt.
From stdpp Require Import pretty.
From S2P Require Import Auth Usage OpenAi Stream AgentGrpc.

(** ** [EmbedRequest] of [gateway/types.rs] *)

Inductive EmbedInput := Embed_Single (s : string) | Embed_Multi (v : list string) | Embed_Empty.
Definition EmbedInput_into_vec (i : EmbedInput) : list string :=
  match i with Embed_Single s => [s] | Embed_Multi v => v | Embed_Empty => [] end.

Record EmbedBody := mkEmbedBody { eb_model : string; eb_input : EmbedInput; eb_user : option string }.

(** [#[serde(untagged)]]: the unit variant is [null]. *)
Definition de_embed_input (v : Json) : option EmbedInput :=
  match de_string v with
  | Some s => Some (Embed_Single s)
  | None =>
      match de_vec de_string v with
      | Some l => Some (Embed_Multi l)
      | None => match v with JNull => Some Embed_Empty | _ => None end
      end
  end.

Definition de_embed_body (v : Json) : option EmbedBody :=
  f ← struct_members ["model"; "input"; "user"] v;
  model ← required de_string "model" f;
  input ← member de_embed_input Embed_Empty "input" f;
  user ← member (de_option de_string) None "user" f;
  Some (mkEmbedBody model input user).

(** ** Answers *)

Inductive EmbedReply :=
| Embed_Refused (r : Refusal)
| Embed_Error (status : Z) (type message : string)
| Embed_List (data : list (Z * list f32)) (model : string) (usage : Usage).

Definition embed_items (vectors : list (list f32)) : list (Z * list f32) :=
  imap (fun i v => ((Z.of_nat i mod 2 ^ 32)%Z, v)) vectors.

(** Status and type for a status of the agent. *)
Definition embed_error_kind (code : Z) : Z * string :=
  if (code =? 14)%Z then (503, "service_unavailable")%Z
  else if (code =? 3)%Z then (400, "invalid_request_error")%Z
  else if (code =? 12)%Z then (501, "not_implemented")%Z
  else (502, "bad_gateway")%Z.

Definition count_mismatch (vectors inputs : nat) : string :=
  "agent returned " +:+ pretty vectors +:+ " embeddings for " +:+ pretty inputs +:+ " inputs".

(** [inputs.join(" ")]. *)
Definition join_inputs (l : list string) : string := String.concat " " l.

(** [token_ids.len() as u32]. *)
Definition prompt_len (ids : list Z) : Z := (Z.of_nat (length ids) mod 2 ^ 32)%Z.

Section surfaces.
Context `{DashIter} `{Blake3} {Tokenizer : Type} (encode_with : Tokenizer -> string -> option (list Z)) (tk : Tokenizers (Tokenizer := Tokenizer)).
Context (env : Env Token) (inner : Error -> string) (show_status : Status -> string).
(** The agent at an address, and [admit_request]. *)
Variables (embed_at : string -> EmbedRequest -> result EmbedResponse Status).
Variables (generate_at : string -> AgentGenerateRequest -> result (list (result Token Status)) Status).
Variables (admit_request : string -> Z -> string -> option Error).

(** ** [gateway/embed.rs] *)

Definition embed_key (st : RouterState) (model tenant : string) (ids : list Z) : RouteKey :=
  mkRouteKey model (prefix_salt (rc_kv_tenant_isolation (cfg_router (rs_cfg st))) model tenant) None ids.

(** The answer of the chosen agent, as the client sees it, and what is charged. *)
Definition embed_answer (req : EmbedBody) (prompt_tokens : Z) (res : result EmbedResponse Status) : EmbedReply * option Z :=
  let inputs := EmbedInput_into_vec (eb_input req) in
  match res with
  | Err s => let (code, ty) := embed_error_kind (st_code s) in (Embed_Error code ty (st_message s), None)
  | Ok resp =>
      if negb (length (ep_embeddings resp) =? length inputs)%nat then
        (Embed_Error 502 "bad_gateway" (count_mismatch (length (ep_embeddings resp)) (length inputs)), None)
      else
        let model := if is_empty (ep_model resp) then eb_model req else ep_model resp in
        let tokens := if (0 <? ep_tokens resp)%Z then ep_tokens resp else prompt_tokens in
        (Embed_List (embed_items (ep_embeddings resp)) model (mkUsage tokens 0 tokens), Some tokens)
  end.

Definition embeddings (principal : option Principal) (now : Z) (req : EmbedBody) (ds : DispatchState) (l : Ledger)
    : DispatchState * Ledger * EmbedReply :=
  let st := ds_router ds in
  match authorize (rs_cfg st) l principal (lit "embed") (chars (eb_model req)) now with
  | Err r => (ds, l, Embed_Refused r)
  | Ok caller =>
      match EmbedInput_into_vec (eb_input req) with
      | [] => (ds, l, Embed_Error 400 "invalid_request_error" "input must be a non-empty string or array")
      | inputs =>
          let ids := token_ids encode_with tk (eb_model req) (join_inputs inputs) in
          let prompt_tokens := prompt_len ids in
          let tenant := to_string (caller_tenant caller) in
          match admit_request (eb_model req) prompt_tokens tenant with
          | Some e => (ds, l, Embed_Error 429 "server_error" (error_display inner e))
          | None =>
              match pick st (now_at env 1) (embed_key st (eb_model req) tenant ids) RoleBoth with
              | Err e => (ds, l, Embed_Error 503 "service_unavailable" ("routing: " +:+ error_display inner e))
              | Ok decision =>
                  let node := d_node decision in
                  let ds := track (node_id node) ds in
                  let (ds, err) := connect_agent env 1 false (address node) ds in
                  match err with
                  | Some e => (untrack (node_id node) ds, l, Embed_Error 502 "bad_gateway" ("agent connect: " +:+ error_display inner e))
                  | None =>
                      let (reply, charged) := embed_answer req prompt_tokens (embed_at (address node) (mkEmbedRequest (eb_model req) inputs tenant)) in
                      let l := match charged with Some tokens => Caller_charge caller tokens 0 now l | None => l end in
                      (untrack (node_id node) ds, l, reply)
                  end
              end
          end
      end
  end.

(** ** [routing/grpc.rs] *)

Definition grpc_embed (body : EmbedRequest) (ds : DispatchState) : DispatchState * result EmbedResponse Status :=
  match eq_inputs body with
  | [] => (ds, Err (invalid_argument "inputs must be non-empty"))
  | inputs =>
      let ids := token_ids encode_with tk (eq_model body) (join_inputs inputs) in
      match pick (ds_router ds) (now_at env 1) (mkRouteKey (eq_model body) (eq_model body) None ids) RoleBoth with
      | Err e => (ds, Err (status_of inner e))
      | Ok decision =>
          let (ds, err) := connect_agent env 1 false (address (d_node decision)) ds in
          match err with
          | Some e => (ds, Err (unavailable ("agent: " +:+ error_display inner e)))
          | None => (ds, embed_at (address (d_node decision)) body)
          end
      end
  end.

(** What reaches a client that takes [client] items: everything up to the first
    error. *)
Fixpoint relay (client : nat) (items : list (result Token Status)) : list (result Token Status) :=
  match client, items with
  | O, _ | _, [] => []
  | S client, Ok t :: items => Ok t :: relay client items
  | S _, Err s :: _ => [Err s]
  end.

Definition forward_role (cfg : Config) (ids : list Z) : NodeRole :=
  let d := rc_disagg (cfg_router cfg) in
  if dis_enabled d && (dis_colocate_below_tokens d <=? prompt_len ids)%Z then RolePrefill else RoleBoth.

Definition forward_key (st : RouterState) (req : GenerateRequest) (ids : list Z) : RouteKey :=
  mkRouteKey (gq_model req) (prefix_salt (rc_kv_tenant_isolation (cfg_router (rs_cfg st))) (gq_model req) (gq_tenant req))
    (if is_empty (gq_session req) then None else Some (gq_session req)) ids.

Definition forward_request (uuid : string) (digests : list (list Z)) (req : GenerateRequest) : AgentGenerateRequest :=
  mkAgentGenerate uuid (gq_model req) (gq_messages req) (gq_params req) false false [] (gq_traceparent req) (gq_tracestate req)
    (gq_extensions_json req) digests (gq_prompt req).

Context `{SerdeJson}.

Definition forward_ids (req : GenerateRequest) : list Z :=
  token_ids encode_with tk (gq_model req) (request_text (gq_prompt req) (gq_messages req)).

Definition grpc_forward (uuid : string) (client : nat) (req : GenerateRequest) (ds : DispatchState)
    : DispatchState * list (result Token Status) * result unit Error :=
  let st := ds_router ds in
  let ids := forward_ids req in
  match admit_request (gq_model req) (prompt_len ids) (gq_tenant req) with
  | Some e => (ds, [], Err e)
  | None =>
      match pick st (now_at env 1) (forward_key st req ids) (forward_role (rs_cfg st) ids) with
      | Err e => (ds, [], Err e)
      | Ok decision =>
          let node := d_node decision in
          let id := node_id node in
          let ds := track id ds in
          let (ds, err) := connect_agent env 1 false (address node) ds in
          match err with
          | Some e => (untrack id ds, [], Err e)
          | None =>
              let r := mkAgentReq (address node) false false [] (d_digests decision) in
              match generate_at (address node) (forward_request uuid (d_digests decision) req) with
              | Err s => (untrack id (Dispatch.sent id r false ds), [], Err (Error_Internal ("agent generate: " +:+ show_status s)))
              | Ok items =>
                  let ds := announce (clock_at env 1) (d_digests decision) id (Dispatch.sent id r true ds) in
                  (untrack id ds, relay client items, Ok tt)
              end
          end
      end
  end.

(** [generate]: the first item of the inbound stream, then the spawned task. *)
Definition grpc_generate (uuid : string) (client : nat) (inbound : option (result GenerateRequest Status)) (ds : DispatchState)
    : DispatchState * result (list (result Token Status)) Status :=
  match inbound with
  | None => (ds, Err (invalid_argument "empty generate stream"))
  | Some (Err s) => (ds, Err s)
  | Some (Ok first) =>
      let '(ds, items, res) := grpc_forward uuid client first ds in
      (ds, Ok (match res with Ok _ => items | Err e => take client (items ++ [Err (status_of inner e)]) end))
  end.
End surfaces.

(** ** Routing for either surface *)

Section routing.
Context `{DashIter} `{Blake3}.

Lemma pick_eligible st now key role d :
  pick st now key role = Ok d -> eligible st (k_model key) role [] (d_node d) /\ d_digests d = hash_seq_chunks (k_salt key) (k_token_ids key).
Proof.
  rw /pick => Hp. pose proof (pick_cases st now key role []) as Hc. cbn zeta in Hc. rw Hp in Hc. destruct Hc as (x & Hin & _ & ->).
  apply list_elem_of_fmap in Hin as (n & -> & Hn). split; [|done]. cbn [d_node]. rw scorer_node. by apply elem_of_candidates in Hn as [].
Qed.

Lemma pick_none st now key role e : pick st now key role = Err e ->
  e = Error_Unavailable "no live node" /\ forall n, ~ eligible st (k_model key) role [] n.
Proof.
  rw /pick => Hp. pose proof (pick_cases st now key role []) as Hc. cbn zeta in Hc. rw Hp in Hc. destruct Hc as [Hc%prefer_nil ->].
  split; [done|]. intros n Hn%elem_of_eligible. rw Hc in Hn. by apply not_elem_of_nil in Hn.
Qed.

(** Counting the request on a node while it is dialed and asked. *)
Lemma tracked_connect (env : Env Token) ds id uri : inflight_ok ds ->
  follows True ds (connect_agent env 1 false uri (track id ds)).1 (Some id).
Proof. intros Hok. apply connect_follows. by apply follows_track. Qed.
End routing.

(** ** Embeddings *)

Section settled.
Context `{DashIter} `{Blake3} {Tokenizer : Type} (encode_with : Tokenizer -> string -> option (list Z)) (tk : Tokenizers (Tokenizer := Tokenizer)).
Context (env : Env Token) (inner : Error -> string).
Variables (embed_at : string -> EmbedRequest -> result EmbedResponse Status) (admit_request : string -> Z -> string -> option Error).
Variables (principal : option Principal) (now : Z) (req : EmbedBody) (ds : DispatchState) (l : Ledger).

Definition embed_model : string := eb_model req.
Definition embed_inputs : list string := EmbedInput_into_vec (eb_input req).
Definition embed_tokens : Z := prompt_len (token_ids encode_with tk embed_model (join_inputs embed_inputs)).
Definition embed_caller : result Caller Refusal := authorize (rs_cfg (ds_router ds)) l principal (lit "embed") (chars embed_model) now.

(** What an eligible node was asked for a caller. *)
Definition asked (c : Caller) (res : result EmbedResponse Status) : Prop :=
  exists node, eligible (ds_router ds) embed_model RoleBoth [] node /\
    embed_at (address node) (mkEmbedRequest embed_model embed_inputs (to_string (caller_tenant c))) = res.

(** Where an error status comes from. *)
Inductive embed_cause (c : Caller) : Z -> Prop :=
| cause_empty : embed_inputs = [] -> embed_cause c 400
| cause_admission e : admit_request embed_model embed_tokens (to_string (caller_tenant c)) = Some e -> embed_cause c 429
| cause_no_node : (forall n, ~ eligible (ds_router ds) embed_model RoleBoth [] n) -> embed_cause c 503
| cause_dial n e : eligible (ds_router ds) embed_model RoleBoth [] n ->
    (connect_agent env 1 false (address n) (track (node_id n) ds)).2 = Some e -> embed_cause c 502
| cause_agent s : asked c (Err s) -> embed_cause c (embed_error_kind (st_code s)).1
| cause_count resp : asked c (Ok resp) -> length (ep_embeddings resp) <> length embed_inputs -> embed_cause c 502.

End settled.

(** ** The RPC surface *)

(** What is relayed is what came, up to the first error or as far as the client
    takes it. *)
Lemma relay_spec client items :
  relay client items `prefix_of` items /\ length (relay client items) <= client /\
  (forall i, S i < length (relay client items) -> exists t, relay client items !! i = Some (Ok t)) /\
  ((forall s, Err s ∉ items) -> relay client items = take client items).
Proof.
  revert client. induction items as [|x items IH]; intros [|client]; try by split_and!; [apply prefix_nil|cbn; lia|intros i Hi; cbn in Hi; lia|].
  destruct (IH client) as (Hp & Hl & Hi & Ha). destruct x as [t|s]; cbn [relay take length].
  - split_and!; [by apply prefix_cons|lia| |intros Hn; f_equal; apply Ha; intros s Hs; apply (Hn s); by right].
    intros [|i] Hlt; [by exists t|]. apply Hi. lia.
  - split_and!; [by exists items|lia|intros i ?; lia|]. intros Hn. destruct (Hn s). by left.
Qed.

Section forwarded.
Context `{DashIter} `{Blake3} {Tokenizer : Type} (encode_with : Tokenizer -> string -> option (list Z)) (tk : Tokenizers (Tokenizer := Tokenizer)).
Context (env : Env Token) (show_status : Status -> string) `{SerdeJson}.
Variables (generate_at : string -> AgentGenerateRequest -> result (list (result Token Status)) Status) (admit_request : string -> Z -> string -> option Error).
Variables (uuid : string) (client : nat) (req : GenerateRequest) (ds : DispatchState).

Definition forwarded_digests : list (list Z) :=
  hash_seq_chunks (prefix_salt (rc_kv_tenant_isolation (cfg_router (rs_cfg (ds_router ds)))) (gq_model req) (gq_tenant req)) (forward_ids encode_with tk req).
Definition serving_role : NodeRole := forward_role (rs_cfg (ds_router ds)) (forward_ids encode_with tk req).

(** A generation over the RPC surface: it is admitted or refused; an
    admitted one goes to a node eligible for the model and the role, once, with
    the digests of its own prompt under its tenant's salt; the client gets what
    the agent streams, in order, up to the first error; when the call ends no
    node keeps a count of it, only the node that accepted it gains claims, and an
    error means that no token was sent. *)
Lemma grpc_forward_correct (Hok : inflight_ok ds) (Hwf : prefix_wf (prefix_of ds)) :
  let '(ds', items, res) := grpc_forward encode_with tk env show_status generate_at admit_request uuid client req ds in
  follows True ds ds' None /\
  match res with
  | Ok _ =>
      admit_request (gq_model req) (prompt_len (forward_ids encode_with tk req)) (gq_tenant req) = None /\
      exists node streamed, eligible (ds_router ds) (gq_model req) serving_role [] node /\
        generate_at (address node) (forward_request uuid forwarded_digests req) = Ok streamed /\
        items = relay client streamed /\
        ds_sent ds' = ds_sent ds ++ [(node_id node, mkAgentReq (address node) false false [] forwarded_digests, true)]
  | Err e =>
      items = [] /\
      (admit_request (gq_model req) (prompt_len (forward_ids encode_with tk req)) (gq_tenant req) = None ->
       e = Error_Unavailable "no live node" /\ (forall n, ~ eligible (ds_router ds) (gq_model req) serving_role [] n) \/
       exists node, eligible (ds_router ds) (gq_model req) serving_role [] node /\
         ((connect_agent env 1 false (address node) (track (node_id node) ds)).2 = Some e \/
          exists s, generate_at (address node) (forward_request uuid forwarded_digests req) = Err s /\ e = Error_Internal ("agent generate: " +:+ show_status s)))
  end.
Proof.
  rw /grpc_forward -/serving_role. destruct (admit_request _ _ _) as [e|] eqn:Ea; [by split; [apply follows_refl|]|].
  destruct (pick _ _ _ _) as [d|e] eqn:Ep.
  2: { apply pick_none in Ep as [-> Ep]. split; [apply follows_refl|]. split; [done|]. intros _. by left. }
  apply pick_eligible in Ep as [He Hd]. rw /forward_key /= -/forwarded_digests in Hd. rw Hd. set (id := node_id (d_node d)).
  pose proof (tracked_connect env ds id (address (d_node d)) Hok) as Hf.
  pose proof (connect_follows env True (track id ds) ds (Some id) 1 false (address (d_node d)) (follows_track True ds id Hok)) as (_ & _ & Hs).
  destruct (connect_agent env 1 false (address (d_node d)) (track id ds)) as [ds1 [e|]] eqn:E1; cbn [fst snd] in Hf, Hs.
  { split; [by apply follows_untrack|]. split; [done|]. intros _. right. exists (d_node d). split; [done|]. left. by rw E1. }
  set (r := mkAgentReq _ _ _ _ _). destruct (generate_at _ _) as [items|s] eqn:Eg.
  - split.
    { apply follows_untrack; [done|]. apply follows_announce; [|by apply follows_sent]. intros _. exists r. apply elem_of_app. right. by apply list_elem_of_singleton. }
    split; [done|]. exists (d_node d), items. split_and!; [done|done|done|]. by rw /= Hs.
  - split; [apply follows_untrack; [done|]; by apply follows_sent|]. split; [done|]. intros _. right. exists (d_node d). split; [done|]. right. by exists s.
Qed.
End forwarded.

(** ** Examples *)

Module EmbedExamples.
Import Cluster.Examples Routing.Examples Dispatch.Examples ToyJson.

#[local] Existing Instance list_order.
#[local] Existing Instance toy.

Definition no_tokenizer : unit -> string -> option (list Z) := fun _ _ => None.
Definition env_ok : Env Token :=
  mkEnv Token (fun _ => true) (fun _ _ _ => None) (fun _ _ => None) (fun _ _ => HeadEnd) (fun _ => 0%Z) (fun _ _ => 0%Z) (fun _ => None) (fun _ => None) (fun _ => HeadEnd).

(** One vector for each input, as the agent sends them. *)
Definition vectors (_ : string) (r : EmbedRequest) : result EmbedResponse Status :=
  Ok (mkEmbedResponse (map (fun _ => [f32_one; f32_zero]) (eq_inputs r)) 0 "").
Definition open_door (_ : string) (_ : Z) (_ : string) : option Error := None.
Definition body : EmbedBody := mkEmbedBody "llama3" (Embed_Multi ["one two"; "three"]) None.
Definition embed_key_holder : Principal := mkPrincipal (lit "k") [lit "embed"] Kind_ApiKey.

Lemma nodes_ok : inflight_ok two_nodes.
Proof. intros n. change (node_inflight (ds_router two_nodes) n) with 0%Z. by rw /u32_max. Qed.


Definition token (s : string) : Token := mkToken "r" s "" f32_zero "" "" 0 0.
Definition long_prompt : GenerateRequest := mkGenerate "llama3" [] None "" false [] "" "" 0 "" "one two three" "".
Definition streams (_ : string) (_ : AgentGenerateRequest) : result (list (result Token Status)) Status :=
  Ok [Ok (token "a"); Err (unavailable "gone"); Ok (token "b")].

Lemma grpc_forward_correct_witness :
  let '(ds', items, res) := grpc_forward no_tokenizer ∅ env_ok (fun _ => "") streams open_door "u" 9 long_prompt two_nodes in
  res = Ok tt /\ items = [Ok (token "a"); Err (unavailable "gone")] /\ node_inflight (ds_router ds') "a" = 0%Z /\ length (ds_sent ds') = 1.
Proof.
  pose proof (grpc_forward_correct no_tokenizer ∅ env_ok (fun _ => "") streams open_door "u" 9 long_prompt two_nodes nodes_ok (wf_new 60)) as Hs.
  destruct (grpc_forward no_tokenizer ∅ env_ok (fun _ => "") streams open_door "u" 9 long_prompt two_nodes) as [[ds' items] res] eqn:E.
  assert (Hr : (items, res) = ([Ok (token "a"); Err (unavailable "gone")], Ok tt)).
  { transitivity ((grpc_forward no_tokenizer ∅ env_ok (fun _ => "") streams open_door "u" 9 long_prompt two_nodes).1.2,
      (grpc_forward no_tokenizer ∅ env_ok (fun _ => "") streams open_door "u" 9 long_prompt two_nodes).2); [by rw E|vm_compute; reflexivity]. }
  injection Hr as -> ->. destruct Hs as (Hf & _ & node & streamed & _ & _ & _ & Hsent). split; [done|]. split; [done|].
  split; [by rw (fo_inflight _ _ _ _ Hf)|]. by rw Hsent.
Defined.

(** With the hand-over of caches enabled a long prompt is generated to its end by
    a node of the prefill role: the request does not say that it is a prefill,
    and no decode node is asked. *)
Example long_prompts_stay_on_prefill :
  let st := disagg_on (state_of weights [at_addr "a" 1 900; at_addr "b" 2 100]) in
  let ds := (grpc_forward no_tokenizer ∅ env_ok (fun _ => "") streams open_door "u" 9 long_prompt (mkDS st ∅ [])).1.1 in
  map (fun x => (x.1.1, ar_prefill_only x.1.2)) (ds_sent ds) = [("a", false)].
Proof. by vm_compute. Qed.

(** Over RPC, embeddings are neither admitted nor counted, and their prefix salt
    is the model alone. *)
Example rpc_embed_unsalted :
  let ds := (grpc_embed no_tokenizer ∅ env_ok (fun _ => "") vectors (mkEmbedRequest "llama3" ["one"] "acme") two_nodes) in
  rs_inflight (ds_router ds.1) = ∅ /\ ds.2 = Ok (mkEmbedResponse [[f32_one; f32_zero]] 0 "").
Proof. by vm_compute. Qed.
End EmbedExamples.
