(* ===== verification/Telemetry.v ===== *)
(** * What an agent measures

    [cgn-agent/src/telemetry.rs] (the engine's Prometheus page) and the GPU
    snapshot of [health.rs] (NVML, [rocm-smi]). The page, the tool's output and
    what NVML answers are arguments. *)

From Corelib Require Import SpecFloat.
From S2P Require Import Prelude StringFacts Float32 Text Json Cluster AgentKv Config Routing Prompt.

(** ** [str::parse::<f64>] *)

(** Digits from the left: their value after [acc], how many, the rest. *)
Fixpoint take_digits (acc : Z) (s : str) : Z * nat * str :=
  match s with
  | c :: s' => if is_digit c then let '(v, n, r) := take_digits (acc * 10 + (c - 48))%Z s' in (v, S n, r) else (acc, O, s)
  | [] => (acc, O, [])
  end.

(** The [f64] nearest to [m * 10 ^ e]. *)
Definition f64_of_decimal (neg : bool) (m e : Z) : f64 :=
  if (m =? 0)%Z then S754_zero neg
  else if (0 <=? e)%Z then binary_normalize 53 1024 ((if neg then -1 else 1) * m * 10 ^ e)%Z 0 neg
  else SFdiv 53 1024 (S754_finite neg (Z.to_pos m) 0) (S754_finite false (Z.to_pos (10 ^ (- e))) 0).

Definition sign_of (s : str) : bool * str :=
  match s with
  | c :: s' => if (c =? 43)%Z then (false, s') else if (c =? 45)%Z then (true, s') else (false, s)
  | [] => (false, [])
  end.

(** The exponent part, if there is one and nothing else. *)
Definition parse_exponent (s : str) : option Z :=
  match s with
  | [] => Some 0%Z
  | c :: s' =>
      if (c =? 101)%Z || (c =? 69)%Z then
        let (neg, d) := sign_of s' in
        match take_digits 0 d with
        | (v, S _, []) => Some (if neg then - v else v)%Z
        | _ => None
        end
      else None
  end.

Definition parse_special (neg : bool) (s : str) : option f64 :=
  let t := map (fun c => if (65 <=? c)%Z && (c <=? 90)%Z then (c + 32)%Z else c) s in
  if bool_decide (t = lit "inf") || bool_decide (t = lit "infinity") then Some (S754_infinity neg)
  else if bool_decide (t = lit "nan") then Some S754_nan
  else None.

Definition parse_f64 (s : str) : option f64 :=
  let (neg, body) := sign_of s in
  let '(m1, n1, r1) := take_digits 0 body in
  let '(m, n2, r2) :=
    match r1 with
    | c :: r => if (c =? 46)%Z then take_digits m1 r else (m1, O, r1)
    | [] => (m1, O, [])
    end in
  if (n1 + n2 =? 0)%nat then parse_special neg body
  else (fun e => f64_of_decimal neg m (e - Z.of_nat n2)) <$> parse_exponent r2.

(** ** [telemetry.rs] *)

Definition SYNTHETIC_TOTAL_BLOCKS : Z := 10000.

Definition has_prometheus_metrics (engine_kind : string) : bool := String.eqb engine_kind "vllm" || String.eqb engine_kind "sglang".

(** Rounding to an integer, halves away from zero, and [as u32]. *)
Definition f64_round (x : f64) : f64 :=
  match x with
  | S754_finite s m e =>
      if (0 <=? e)%Z then x
      else
        let n := Z.shiftr (Z.pos m + 2 ^ (- e - 1)) (- e) in
        binary_normalize 53 1024 (if s then - n else n)%Z 0 s
  | _ => x
  end.
Definition u32_of_f64 (x : f64) : Z :=
  match x with
  | S754_finite false m e => Z.min u32_max (Z.shiftl (Z.pos m) e)
  | S754_infinity false => u32_max
  | _ => 0
  end.

Definition f64_one : f64 := Eval vm_compute in f64_of_Z 1.

(** [f64::max] and [f64::clamp] are those of [f32]. *)
Definition free_of_usage (u : f64) : Z :=
  let used := f32_clamp u f64_zero f64_one in
  u32_of_f64 (f64_round (f64_mul (f64_sub f64_one used) (f64_of_Z SYNTHETIC_TOTAL_BLOCKS))).

Definition build (waiting running usage : option f64) : option EngineStats :=
  match waiting, running, usage with
  | None, None, None => None
  | _, _, _ =>
      let queue_depth := u32_of_f64 (f32_max (f64_add (default f64_zero waiting) (default f64_zero running)) f64_zero) in
      let '(free_blocks, total_blocks) :=
        match usage with Some u => (free_of_usage u, SYNTHETIC_TOTAL_BLOCKS) | None => (0, 0)%Z end in
      Some (mkStats queue_depth free_blocks total_blocks)
  end.

(** The value on a line of the series [name]. *)
Definition metric_value (name line : str) : option f64 :=
  let line := Text.trim line in
  if bool_decide (line = []) || Text.starts_with [35%Z] line then None
  else
    match Text.strip_prefix name line with
    | Some (c :: _) => if (c =? 32)%Z || (c =? 123)%Z then head (rsplit_char 32 line) ≫= parse_f64 else None
    | _ => None
    end.

Definition metric_step (name : str) (acc : f64 * bool) (line : str) : f64 * bool :=
  match metric_value name line with Some v => (f64_add acc.1 v, true) | None => acc end.

Definition find_metric (text name : str) : option f64 :=
  let '(sum, seen) := foldl (metric_step name) (f64_zero, false) (lines text) in
  if seen then Some sum else None.

Definition parse_metrics (engine_kind : string) (text : str) : option EngineStats :=
  if String.eqb engine_kind "vllm" then
    build (find_metric text (lit "vllm:num_requests_waiting")) (find_metric text (lit "vllm:num_requests_running"))
      (find_metric text (lit "vllm:gpu_cache_usage_perc"))
  else if String.eqb engine_kind "sglang" then
    build (find_metric text (lit "sglang:num_queue_reqs")) (find_metric text (lit "sglang:num_running_reqs"))
      (find_metric text (lit "sglang:token_usage"))
  else None.

(** [http] is the body of a page, if it could be had. *)
Definition scrape (http : str -> option str) (engine_kind : string) (base_url : str) : option EngineStats :=
  if has_prometheus_metrics engine_kind then
    text ← http (reverse ((fix go (s : str) := match s with c :: s' => if (c =? 47)%Z then go s' else s | [] => [] end) (reverse base_url)) ++ lit "/metrics");
    parse_metrics engine_kind text
  else None.

(** ** [GpuSnapshot] *)

Record GpuSnapshot := mkGpu {
  util_pct : f32;
  mem_used_pct : f32;
  temp_c : f32;
  gpu_power : f32;
  gs_name : string;
  gs_vendor : string;
  gs_vram_mb : Z;
}.
Definition GpuSnapshot_default : GpuSnapshot := mkGpu f32_zero f32_zero f32_zero f32_zero "" "" 0.

(** What a device answers; memory is used and total. *)
Record NvmlDevice := mkDevice {
  nd_name : option string;
  nd_util : option Z;
  nd_memory : option (Z * Z);
  nd_temperature : option Z;
  nd_power_mw : option Z;
}.

Definition with_default {A B} (f : A -> B) (d : B) (o : option A) : B := match o with Some a => f a | None => d end.

Definition nvml_device (g : GpuSnapshot) (d : option NvmlDevice) : GpuSnapshot :=
  match d with
  | None => g
  | Some d =>
      let name := if is_empty (gs_name g) then default (gs_name g) (nd_name d) else gs_name g in
      let '(used, vram) :=
        match nd_memory d with
        | Some (u, t) =>
            (if (0 <? t)%Z then f32_mul (f32_of_f64 (f64_div (f64_of_Z u) (f64_of_Z t))) (f32_of_Z 100) else mem_used_pct g,
             add_u64 (gs_vram_mb g) (t / 1048576))
        | None => (mem_used_pct g, gs_vram_mb g)
        end in
      mkGpu (with_default f32_of_Z (util_pct g) (nd_util d)) used (with_default f32_of_Z (temp_c g) (nd_temperature d))
        (with_default (fun p => f32_add (gpu_power g) (f32_div (f32_of_Z p) (f32_of_Z 1000))) (gpu_power g) (nd_power_mw d))
        name (gs_vendor g) vram
  end.

(** [nvml]: the devices by index, when the library is there and counts them. *)
Definition read_nvml_blocking (nvml : option (list (option NvmlDevice))) : option GpuSnapshot :=
  match nvml with
  | None | Some [] => None
  | Some ds => Some (foldl nvml_device (mkGpu f32_zero f32_zero f32_zero f32_zero "" "nvidia" 0) ds)
  end.

(** ** [rocm-smi] *)

Section rocm.
Context `{SerdeJson}.

Definition as_object (v : Json) : option (list (string * Json)) := match v with JObject f => Some f | _ => None end.

(** The closure [num]. *)
Definition rocm_num (v : Json) : option f64 :=
  match v with
  | JNumber _ | JFloat _ => as_f64 v
  | JString s => parse_f64 (Text.trim (chars s))
  | _ => None
  end.

Definition set_name (name : string) (g : GpuSnapshot) : GpuSnapshot :=
  mkGpu (util_pct g) (mem_used_pct g) (temp_c g) (gpu_power g) name (gs_vendor g) (gs_vram_mb g).

Definition rocm_name (val : Json) (g : GpuSnapshot) : GpuSnapshot :=
  match as_str val with
  | Some name =>
      let t := to_string (Text.trim (chars name)) in
      if negb (is_empty t) && negb (str_contains name "0x") then set_name t g else g
  | None => g
  end.

(** One field of a card; the bytes of memory are counted apart. *)
Definition rocm_field (acc : GpuSnapshot * Z) (kv : string * Json) : GpuSnapshot * Z :=
  let '(g, vram) := acc in
  let (k, val) := kv in
  let kl := to_ascii_lowercase k in
  let has := str_contains kl in
  if has "power" && has "(w)" then
    (with_default (fun w => mkGpu (util_pct g) (mem_used_pct g) (temp_c g) (f32_add (gpu_power g) (f32_of_f64 w)) (gs_name g) (gs_vendor g) (gs_vram_mb g)) g (rocm_num val), vram)
  else if has "gpu use" then
    (with_default (fun u => mkGpu (f32_of_f64 u) (mem_used_pct g) (temp_c g) (gpu_power g) (gs_name g) (gs_vendor g) (gs_vram_mb g)) g (rocm_num val), vram)
  else if has "temperature" && has "edge" then
    (with_default (fun t => mkGpu (util_pct g) (mem_used_pct g) (f32_of_f64 t) (gpu_power g) (gs_name g) (gs_vendor g) (gs_vram_mb g)) g (rocm_num val), vram)
  else if has "vram total memory" then
    (g, with_default (fun b => add_u64 vram (u64_of_float b)) vram (rocm_num val))
  else if (has "card series" || has "card model") && is_empty (gs_name g) then (rocm_name val g, vram)
  else (g, vram).

(** The card's fields, in the order of the map; the flag says that one was seen. *)
Definition rocm_card (acc : GpuSnapshot * Z * bool) (card : string * Json) : GpuSnapshot * Z * bool :=
  if negb (String.prefix "card" card.1) then acc
  else
    match as_object card.2 with
    | None => acc
    | Some fields => (foldl rocm_field acc.1 fields, true)
    end.

Definition parse_rocm_smi (json : string) : option GpuSnapshot :=
  v ← json_from_str json;
  obj ← as_object v;
  let '(g, vram, saw_card) := foldl rocm_card (mkGpu f32_zero f32_zero f32_zero f32_zero "" "amd" 0, 0%Z, false) obj in
  if (saw_card : bool) then
    Some (mkGpu (util_pct g) (mem_used_pct g) (temp_c g) (gpu_power g) (gs_name g) (gs_vendor g) (vram / 1048576))
  else None.

(** [rocm]: the output of the tool, when it is installed and runs. *)
Definition read_gpu_blocking (nvml : option (list (option NvmlDevice))) (rocm : option string) : option GpuSnapshot :=
  match read_nvml_blocking nvml with
  | Some g => Some g
  | None => rocm ≫= parse_rocm_smi
  end.
End rocm.

(** ** Rounding stays below an integer *)

(** [m * 2 ^ e <= M]. *)
Definition le_int (m e M : Z) : Prop := (m * 2 ^ Z.max 0 e <= M * 2 ^ Z.max 0 (- e))%Z.

(** Shifting right is dividing, and remembers whether something was lost. *)
Lemma shr_div (m : Z) (k : nat) : (0 <= m)%Z ->
  let r := Nat.iter k shr_1 {| shr_m := m; shr_r := false; shr_s := false |} in
  shr_m r = (m / 2 ^ Z.of_nat k)%Z /\ (shr_r r || shr_s r = false <-> (m mod 2 ^ Z.of_nat k = 0)%Z).
Proof.
  intros Hm. cbn zeta. induction k as [|k IH]; [by rw Z.div_1_r Z.mod_1_r|].
  rw Nat.iter_succ. destruct (Nat.iter k shr_1 _) as [q r s]. cbn [shr_m shr_r shr_s] in IH. destruct IH as [Hq Hx].
  assert (Hp : (2 ^ Z.of_nat (S k) = 2 ^ Z.of_nat k * 2)%Z) by (rw Nat2Z.inj_succ Z.pow_succ_r; lia).
  assert (H0 : (0 < 2 ^ Z.of_nat k)%Z) by (apply Z.pow_pos_nonneg; lia).
  assert (Hq0 : (0 <= q)%Z) by (rw Hq; by apply Z.div_pos).
  assert (Hd : (m / 2 ^ Z.of_nat (S k) = q / 2)%Z) by (rw Hp -Z.div_div; [lia..|]; by rw Hq).
  assert (Hr : (m mod 2 ^ Z.of_nat (S k) = m mod 2 ^ Z.of_nat k + 2 ^ Z.of_nat k * (q mod 2))%Z) by (rw Hp Z.rem_mul_r; [lia..|]; by rw Hq).
  pose proof (Z.mod_pos_bound m _ H0) as Hb. pose proof (Z.mod_pos_bound q 2) as Hq2. rw Hd Hr.
  assert (Hz : (m mod 2 ^ Z.of_nat k + 2 ^ Z.of_nat k * (q mod 2) = 0)%Z <-> (m mod 2 ^ Z.of_nat k = 0)%Z /\ (q mod 2 = 0)%Z) by nia.
  rw Hz -Hx. destruct q as [|[p|p|]|p]; cbn [shr_1 shr_m shr_r shr_s orb].
  - rw Z.mod_0_l // Z.div_0_l //. split; [done|]. tauto.
  - replace (Z.pos p~1) with (1 + Z.pos p * 2)%Z by lia. rw Z.mod_add // Z.div_add //. split; [done|]. split; [done|]. by intros [_ ?].
  - replace (Z.pos p~0) with (Z.pos p * 2)%Z by lia. rw Z.mod_mul // Z.div_mul //. split; [done|]. tauto.
  - split; [done|]. split; [done|]. by intros [_ ?].
  - lia.
Qed.

Lemma le_int_div m e M k : (0 <= m)%Z -> (0 <= k)%Z -> le_int m e M -> le_int (m / 2 ^ k) (e + k) M.
Proof.
  rw /le_int. intros Hm Hk Hle. assert (Hp : (0 < 2 ^ k)%Z) by (apply Z.pow_pos_nonneg; lia).
  pose proof (Z.mul_div_le m (2 ^ k) Hp) as Hq. assert (Hq0 : (0 <= m / 2 ^ k)%Z) by (by apply Z.div_pos).
  destruct (Z.le_gt_cases 0 e) as [He|He].
  - rw (Z.max_r 0 e) // (Z.max_l 0 (- e)) // in Hle |- *; [lia|]. rw (Z.max_r 0 (e + k)) ?(Z.max_l 0 (- (e + k))); [lia..|].
    rw Z.pow_add_r //. assert (0 < 2 ^ e)%Z by (apply Z.pow_pos_nonneg; lia). nia.
  - rw (Z.max_l 0 e) ?(Z.max_r 0 (- e)) in Hle; [lia..|]. destruct (Z.le_gt_cases 0 (e + k)) as [Hs|Hs].
    + rw (Z.max_r 0 (e + k)) ?(Z.max_l 0 (- (e + k))); [lia..|]. rw !Z.pow_0_r in Hle |- *.
      assert (E : (2 ^ k = 2 ^ (- e) * 2 ^ (e + k))%Z) by (rw -Z.pow_add_r; [lia..|]; f_equal; lia). rw {1}E in Hq.
      assert (0 < 2 ^ (- e))%Z by (apply Z.pow_pos_nonneg; lia). assert (0 < 2 ^ (e + k))%Z by (apply Z.pow_pos_nonneg; lia).
      apply (Zmult_le_reg_r _ _ (2 ^ (- e))); [lia|]. lia.
    + rw (Z.max_l 0 (e + k)) ?(Z.max_r 0 (- (e + k))); [lia..|]. rw !Z.pow_0_r in Hle |- *.
      assert (E : (2 ^ (- e) = 2 ^ (- (e + k)) * 2 ^ k)%Z) by (rw -Z.pow_add_r; [lia..|]; f_equal; lia). rw E in Hle.
      apply (Zmult_le_reg_r _ _ (2 ^ k)); [lia|]. lia.
Qed.

Lemma digits_low m : (2 ^ (Z.pos (digits2_pos m) - 1) <= Z.pos m)%Z.
Proof.
  induction m as [m IH|m IH|]; cbn [digits2_pos]; [| |done];
    (replace (Z.pos (Pos.succ (digits2_pos m)) - 1)%Z with (1 + (Z.pos (digits2_pos m) - 1))%Z by lia; rw Z.pow_add_r; lia).
Qed.

(** What is at most a 53-bit integer needs no positive exponent. *)
Lemma le_int_exponent m e M : (M < 2 ^ 53)%Z -> le_int (Z.pos m) e M -> (Z.pos (digits2_pos m) + e <= 53)%Z.
Proof.
  rw /le_int. intros HM Hle. pose proof (digits_low m) as Hd.
  assert (H0 : (0 <= Z.pos (digits2_pos m) - 1)%Z) by lia. remember (Z.pos (digits2_pos m) - 1)%Z as d eqn:Ed. destruct (Z.le_gt_cases (Z.pos (digits2_pos m) + e) 53) as [|Hgt]; [done|]. exfalso.
  assert (Hp : (2 ^ (53 + Z.max 0 (- e)) <= 2 ^ (d + Z.max 0 e))%Z) by (apply Z.pow_le_mono_r; lia).
  rw !Z.pow_add_r in Hp; [lia..|]. assert (0 < 2 ^ Z.max 0 (- e))%Z by (apply Z.pow_pos_nonneg; lia).
  assert (0 < 2 ^ Z.max 0 e)%Z by (apply Z.pow_pos_nonneg; lia). nia.
Qed.

Lemma le_int_succ q m e k M : (0 <= m)%Z -> (0 <= k)%Z -> (e + k <= 0)%Z -> q = (m / 2 ^ k)%Z -> (m mod 2 ^ k <> 0)%Z ->
  le_int m e M -> le_int (q + 1) (e + k) M.
Proof.
  rw /le_int. intros Hm Hk He -> Hx Hle. assert (Hp : (0 < 2 ^ k)%Z) by (apply Z.pow_pos_nonneg; lia).
  pose proof (Z.div_mod m (2 ^ k)) as Hdm. pose proof (Z.mod_pos_bound m (2 ^ k) Hp).
  rw (Z.max_l 0 e) ?(Z.max_r 0 (- e)) in Hle; [lia..|]. rw (Z.max_l 0 (e + k)) ?(Z.max_r 0 (- (e + k))); [lia..|].
  rw !Z.pow_0_r in Hle |- *. assert (E : (2 ^ (- e) = 2 ^ (- (e + k)) * 2 ^ k)%Z) by (rw -Z.pow_add_r; [lia..|]; f_equal; lia). rw E in Hle.
  assert (m / 2 ^ k < M * 2 ^ (- (e + k)))%Z; [|lia]. apply (Zmult_lt_reg_r _ _ (2 ^ k)); [done|]. lia.
Qed.

Lemma shr_fexp_le m e M : (0 <= m)%Z -> (M < 2 ^ 53)%Z -> le_int m e M ->
  let '(r, e') := shr_fexp 53 1024 m e loc_Exact in
  (0 <= shr_m r)%Z /\ le_int (shr_m r) e' M /\
  (loc_of_shr_record r = loc_Exact \/ le_int (shr_m r + 1) e' M).
Proof.
  intros Hm HM Hle. rw /shr_fexp. cbn [shr_record_of_loc]. set (k := (fexp 53 1024 (Zdigits2 m + e) - e)%Z).
  destruct k as [|p|p] eqn:Ek; cbn [shr]; [split_and!; [done..|by left]| |split_and!; [done..|by left]].
  destruct m as [|m|m]; [|clear Hm|lia].
  { assert (E : exists r s, iter_pos shr_1 p {| shr_m := 0; shr_r := false; shr_s := false |} = {| shr_m := 0; shr_r := r; shr_s := s |} /\ r || s = false).
    { rw iter_pos_nat. induction (Pos.to_nat p) as [|n (r & s & IH & E)]; [by exists false, false|]. exists false, (r || s). by rw Nat.iter_succ IH. }
    destruct E as (r & s & -> & E). apply orb_false_iff in E as [-> ->]. split_and!; [done| |by left]. by apply (le_int_div 0 e M (Z.pos p)). }
  rw iter_pos_nat. destruct (shr_div (Z.pos m) (Pos.to_nat p)) as [Hq Hx]; [lia|]. rw positive_nat_Z in Hq Hx.
  destruct (Nat.iter (Pos.to_nat p) shr_1 _) as [q r s]. cbn [shr_m shr_r shr_s] in *.
  split; [rw Hq; apply Z.div_pos; [lia|apply Z.pow_pos_nonneg; lia]|]. split; [rw Hq; by apply le_int_div|].
  destruct (r || s) eqn:Ers; [right|left; by apply orb_false_iff in Ers as [-> ->]].
  apply (le_int_succ q (Z.pos m)); [lia..| |done| |done].
  - pose proof (le_int_exponent m e M HM Hle). rw /k /fexp /emin in Ek. cbn [Zdigits2] in Ek. lia.
  - intros Hz. by apply Hx in Hz.
Qed.

(** At most [M], if it is a positive number at all. *)
Definition at_most (M : Z) (x : f64) : Prop :=
  match x with S754_finite false m e => le_int (Z.pos m) e M | S754_infinity false => False | _ => True end.

Lemma round_at_most s m e M : (M < 2 ^ 53)%Z -> (s = false -> le_int (Z.pos m) e M) -> at_most M (binary_round_aux 53 1024 s (Z.pos m) e loc_Exact).
Proof.
  intros HM Hle. destruct s. { rw /binary_round_aux. by repeat case_match. }
  rw /binary_round_aux. pose proof (shr_fexp_le (Z.pos m) e M) as H1. destruct (shr_fexp 53 1024 (Z.pos m) e loc_Exact) as [r e1].
  destruct H1 as (H0 & H1 & Hx); [lia|done|by apply Hle|]. set (n := round_nearest_even _ _).
  assert (Hn : (0 <= n)%Z /\ le_int n e1 M).
  { rw /n /round_nearest_even. destruct Hx as [->|Hx]; [done|]. repeat case_match; (split; [lia|done]). }
  destruct Hn as [Hn0 Hn]. pose proof (shr_fexp_le n e1 M Hn0 HM Hn) as H2. destruct (shr_fexp 53 1024 n e1 loc_Exact) as [r2 e2].
  destruct H2 as (_ & H2 & _). destruct (shr_m r2) as [|p|p]; [done| |done]. cbn.
  pose proof (le_int_exponent p e2 M HM H2). rw (proj2 (Z.leb_le e2 971)); [|done]. lia.
Qed.

Lemma iter_xO m d : Z.pos (Pos.iter xO m d) = (Z.pos m * 2 ^ Z.pos d)%Z.
Proof.
  rw pos_iter_nat -(positive_nat_Z d). induction (Pos.to_nat d) as [|n IH]; [by rw Z.mul_1_r|].
  rw Nat.iter_succ Nat2Z.inj_succ Z.pow_succ_r; lia.
Qed.

(** Aligning to a smaller exponent keeps the value. *)
Lemma le_int_align m e e' M : le_int (Z.pos m) e M -> le_int (Z.pos (shl_align m e e').1) (shl_align m e e').2 M.
Proof.
  rw /shl_align. destruct (e' - e)%Z as [|p|d] eqn:Ed; [done|done|]. cbn [fst snd]. rw /le_int iter_xO. intros Hle.
  assert (Hp : (0 < 2 ^ Z.pos d)%Z) by (apply Z.pow_pos_nonneg; lia). replace e with (e' + Z.pos d)%Z in Hle by lia.
  destruct (Z.le_gt_cases 0 e') as [He|He].
  - rw (Z.max_r 0 (e' + _)) ?(Z.max_l 0 (- (e' + _))) in Hle; [lia..|]. rw (Z.max_r 0 e') ?(Z.max_l 0 (- e')); [lia..|].
    rw Z.pow_add_r in Hle; lia.
  - rw (Z.max_l 0 e') ?(Z.max_r 0 (- e')); [lia..|]. rw Z.pow_0_r Z.mul_1_r.
    destruct (Z.le_gt_cases 0 (e' + Z.pos d)) as [Hs|Hs].
    + rw (Z.max_r 0 (e' + _)) ?(Z.max_l 0 (- (e' + _))) in Hle; [lia..|].
      assert (E : (2 ^ Z.pos d = 2 ^ (e' + Z.pos d) * 2 ^ (- e'))%Z) by (rw -Z.pow_add_r; [lia..|]; f_equal; lia). rw E.
      assert (0 < 2 ^ (- e'))%Z by (apply Z.pow_pos_nonneg; lia). nia.
    + rw (Z.max_l 0 (e' + _)) ?(Z.max_r 0 (- (e' + _))) in Hle; [lia..|].
      assert (E : (2 ^ (- e') = 2 ^ (- (e' + Z.pos d)) * 2 ^ Z.pos d)%Z) by (rw -Z.pow_add_r; [lia..|]; f_equal; lia). rw E. nia.
Qed.

Lemma normalize_at_most n e sz M : (M < 2 ^ 53)%Z -> le_int n e M -> at_most M (binary_normalize 53 1024 n e sz).
Proof.
  intros HM Hle. destruct n as [|m|m]; cbn [binary_normalize]; [done| |]; rw /binary_round.
  - pose proof (le_int_align m e (fexp 53 1024 (Z.pos (digits2_pos m) + e)) M Hle) as Ha. destruct (shl_align _ _ _) as [mz ez]. by apply round_at_most.
  - destruct (shl_align _ _ _) as [mz ez]. by apply round_at_most.
Qed.

(** *** The free blocks *)

Definition unit_range (x : f64) : Prop := match x with S754_finite s _ _ => s = false | S754_infinity _ => False | _ => True end.

Lemma clamp_unit u : unit_range (f32_clamp u f64_zero f64_one).
Proof. destruct u as [[]|[]| |[] m e]; try done. rw /f32_clamp /f32_lt. cbn [SFltb SFcompare f64_zero]. by case_match. Qed.

Lemma one_minus u : unit_range u -> at_most 1 (f64_sub f64_one u).
Proof.
  destruct u as [s|s| |s m e]; [by destruct s|done..|]. cbn [unit_range]. intros ->. rw /f64_sub /f64_one. cbn [SFsub cond_Zopp].
  apply normalize_at_most; [done|]. set (ez := Z.min (-52) e). rw /le_int.
  assert (Hz : (ez <= -52)%Z) by (rw /ez; lia). rw (Z.max_l 0 ez) ?(Z.max_r 0 (- ez)); [lia..|]. rw Z.pow_0_r Z.mul_1_r.
  assert (Hs : Z.pos (shl_align 4503599627370496 (-52) ez).1 = (2 ^ (- ez))%Z).
  { rw /shl_align. destruct (ez - -52)%Z as [|p|d] eqn:Ed; [|lia|].
    - replace ez with (-52)%Z by lia. done.
    - cbn [fst]. rw iter_xO. replace (- ez)%Z with (52 + Z.pos d)%Z by lia. by rw Z.pow_add_r. }
  rw Hs. lia.
Qed.

Lemma times_total x : at_most 1 x -> at_most SYNTHETIC_TOTAL_BLOCKS (f64_mul x (f64_of_Z SYNTHETIC_TOTAL_BLOCKS)).
Proof.
  replace (f64_of_Z SYNTHETIC_TOTAL_BLOCKS) with (S754_finite false 5497558138880000 (-39)) by by vm_compute.
  destruct x as [[]|[]| |s m e]; try done. intros Hx. rw /f64_mul. cbn [SFmul]. rw xorb_false_r. apply round_at_most; [done|]. intros ->.
  cbn in Hx. rw /le_int /SYNTHETIC_TOTAL_BLOCKS in Hx |- *. rw Pos2Z.inj_mul.
  destruct (Z.le_gt_cases 0 e) as [He|He].
  - rw (Z.max_r 0 e) ?(Z.max_l 0 (- e)) in Hx; [lia..|].
    assert (e = 0)%Z as ->. { assert (2 ^ 1 <= 2 ^ e \/ e = 0)%Z as [Hp|]; [|lia|done]. destruct (Z.eq_dec e 0%Z); [by right|]. left. apply Z.pow_le_mono_r; lia. }
    assert (m = 1%positive) as -> by lia. by vm_compute.
  - rw (Z.max_l 0 e) ?(Z.max_r 0 (- e)) in Hx; [lia..|]. rw (Z.max_l 0 (e + -39)) ?(Z.max_r 0 (- (e + -39))); [lia..|].
    replace (- (e + -39))%Z with (- e + 39)%Z by lia. rw Z.pow_add_r; [lia..|]. lia.
Qed.

Lemma round_total M x : (0 <= M < 2 ^ 53)%Z -> at_most M x -> (0 <= u32_of_f64 (f64_round x) <= M)%Z.
Proof.
  intros HM Hx. assert (Hu : forall y, at_most M y -> (0 <= u32_of_f64 y <= M)%Z).
  { intros [[]|[]| |[] m e] Hy; cbn [u32_of_f64]; try lia; [done|]. cbn in Hy. rw /le_int in Hy. rw /u32_max.
    destruct (Z.le_gt_cases 0 e) as [He|He].
    - rw (Z.max_r 0 e) ?(Z.max_l 0 (- e)) in Hy; [lia..|]. rw Z.shiftl_mul_pow2 //. assert (0 < 2 ^ e)%Z by (apply Z.pow_pos_nonneg; lia). nia.
    - rw (Z.max_l 0 e) ?(Z.max_r 0 (- e)) in Hy; [lia..|]. rw Z.shiftl_div_pow2; [lia|]. assert (0 < 2 ^ (- e))%Z by (apply Z.pow_pos_nonneg; lia).
      assert (Z.pos m / 2 ^ (- e) <= M)%Z by (apply Z.div_le_upper_bound; lia). assert (0 <= Z.pos m / 2 ^ (- e))%Z by (apply Z.div_pos; lia). lia. }
  apply Hu. destruct x as [s|s| |s m e]; try done. cbn [f64_round]. case_match eqn:He; [done|]. apply Z.leb_gt in He.
  apply normalize_at_most; [lia|]. rw /le_int. cbn [Z.max Z.opp Z.compare]. rw !Z.pow_0_r.
  assert (H2 : (2 ^ (- e) = 2 * 2 ^ (- e - 1))%Z) by (rw -Z.pow_succ_r; [lia|]; f_equal; lia). assert (0 < 2 ^ (- e - 1))%Z by (apply Z.pow_pos_nonneg; lia).
  assert (Hn0 : (0 <= Z.shiftr (Z.pos m + 2 ^ (- e - 1)) (- e))%Z) by (apply Z.shiftr_nonneg; lia). destruct s; [lia|].
  cbn in Hx. rw /le_int (Z.max_l 0 e) ?(Z.max_r 0 (- e)) in Hx; [lia..|].
  rw Z.shiftr_div_pow2; [lia|]. assert ((Z.pos m + 2 ^ (- e - 1)) / 2 ^ (- e) < M + 1)%Z; [|lia]. apply Z.div_lt_upper_bound; lia.
Qed.

Lemma free_bounded u : (0 <= free_of_usage u <= SYNTHETIC_TOTAL_BLOCKS)%Z.
Proof. apply round_total; [done|]. apply times_total, one_minus, clamp_unit. Qed.

Lemma u32_of_f64_range x : (0 <= u32_of_f64 x <= u32_max)%Z.
Proof.
  destruct x as [?|[]| |[] m e]; cbn; rw /u32_max; try lia. assert (0 <= Z.shiftl (Z.pos m) e)%Z by (apply Z.shiftl_nonneg; lia). lia.
Qed.

(** ** Whole numbers are added exactly *)

Lemma digits_small v : (Z.pos v < 2 ^ 53)%Z -> (Z.pos (digits2_pos v) <= 53)%Z.
Proof. intros Hv. pose proof (le_int_exponent v 0 (Z.pos v) Hv) as Hd. rw Z.add_0_r in Hd. apply Hd. by rw /le_int. Qed.

Lemma iter_nat_xO m (k : nat) : Z.pos (Nat.iter k xO m) = (Z.pos m * 2 ^ Z.of_nat k)%Z.
Proof. induction k as [|k IH]; [by rw Z.mul_1_r|]. rw Nat.iter_succ Nat2Z.inj_succ Z.pow_succ_r; lia. Qed.

(** The canonical form of a whole number of up to 53 bits. *)
Definition whole_exp (v : positive) : Z := (Z.pos (digits2_pos v) - 53)%Z.
Definition whole (v : positive) : f64 := S754_finite false (Nat.iter (Z.to_nat (- whole_exp v)) xO v) (whole_exp v).

Lemma normalize_whole v (k : nat) sz : (Z.pos v < 2 ^ 53)%Z ->
  binary_normalize 53 1024 (Z.pos v * 2 ^ Z.of_nat k) (- Z.of_nat k) sz = whole v.
Proof.
  intros Hv. pose proof (digits_small v Hv) as Hd.
  rw -iter_nat_xO. cbn [binary_normalize]. rw /binary_round /whole. set (f := whole_exp v). rw digits_iter.
  replace (fexp 53 1024 (Z.pos (digits2_pos v) + Z.of_nat k + - Z.of_nat k)) with f by (rw /f /whole_exp /fexp /emin; lia).
  assert (Hf : (f <= 0)%Z) by (rw /f /whole_exp; lia).
  assert (Hfe : (fexp 53 1024 (Z.pos (digits2_pos (Nat.iter (Z.to_nat (- f)) xO v)) + f) = f)%Z).
  { rw digits_iter. rw /fexp /emin. rw /f /whole_exp. lia. }
  rw /shl_align. destruct (f - - Z.of_nat k)%Z as [|p|d] eqn:Ed.
  - replace (Nat.iter k xO v) with (Nat.iter (Z.to_nat (- f)) xO v) by (f_equal; lia). replace (- Z.of_nat k)%Z with f by lia.
    apply (round_exact 53 1024 false (Nat.iter (Z.to_nat (- f)) xO v) f f 0); [done|lia|lia].
  - replace (Nat.iter k xO v) with (Nat.iter (Pos.to_nat p) xO (Nat.iter (Z.to_nat (- f)) xO v)) by (rw -Nat.iter_add; f_equal; lia).
    apply (round_exact 53 1024 false (Nat.iter (Z.to_nat (- f)) xO v) f (- Z.of_nat k) (Pos.to_nat p)); [done|lia|lia].
  - rw pos_iter_nat -Nat.iter_add. replace (Nat.iter (Pos.to_nat d + k) xO v) with (Nat.iter (Z.to_nat (- f)) xO v) by (f_equal; lia).
    apply (round_exact 53 1024 false (Nat.iter (Z.to_nat (- f)) xO v) f f 0); [done|lia|lia].
Qed.

Lemma of_Z_whole v : (Z.pos v < 2 ^ 53)%Z -> f64_of_Z (Z.pos v) = whole v.
Proof. intros Hv. rw -(normalize_whole v 0 false Hv). by rw /f64_of_Z Z.mul_1_r. Qed.

Lemma add_whole a b : (0 <= a)%Z -> (0 <= b)%Z -> (a + b < 2 ^ 53)%Z -> f64_add (f64_of_Z a) (f64_of_Z b) = f64_of_Z (a + b).
Proof.
  intros Ha Hb Hab. destruct a as [|a|a]; [|clear Ha|lia].
  { destruct b as [|b|b]; [done| |lia]. rw of_Z_whole //. }
  destruct b as [|b|b]; [|clear Hb|lia]. { rw Z.add_0_r of_Z_whole //; lia. }
  rw !of_Z_whole; [lia..|]. rw /f64_add /whole. cbn [SFadd cond_Zopp].
  set (ez := Z.min (whole_exp a) (whole_exp b)).
  assert (Hal : forall v, (Z.pos v < 2 ^ 53)%Z -> (ez <= whole_exp v)%Z ->
    Z.pos (shl_align (Nat.iter (Z.to_nat (- whole_exp v)) xO v) (whole_exp v) ez).1 = (Z.pos v * 2 ^ (- ez))%Z).
  { intros v Hv Hle. pose proof (digits_small v Hv) as Hd. assert (He : (whole_exp v <= 0)%Z) by (rw /whole_exp; lia).
    rw /shl_align. destruct (ez - whole_exp v)%Z as [|p|d] eqn:Ed; cbn [fst]; [|lia|].
    - rw iter_nat_xO Z2Nat.id; [lia|]. f_equal. f_equal. lia.
    - rw iter_xO iter_nat_xO Z2Nat.id; [lia|]. rw -Z.mul_assoc -Z.pow_add_r; [lia..|]. f_equal. f_equal. lia. }
  rw !Hal; [lia..|]. rw -Z.mul_add_distr_r -Pos2Z.inj_add.
  assert (He : (ez <= 0)%Z) by (pose proof (digits_small a); rw /ez /whole_exp; lia).
  fold (whole (a + b)). rw -(normalize_whole (a + b) (Z.to_nat (- ez)) false); [lia|]. f_equal; [|lia]. f_equal. f_equal. lia.
Qed.

Lemma u32_of_whole a : (0 <= a < 2 ^ 53)%Z -> u32_of_f64 (f32_max (f64_of_Z a) f64_zero) = Z.min u32_max a.
Proof.
  intros [Ha Hlt]. destruct a as [|a|a]; [done| |lia]. rw of_Z_whole // /whole. cbn [f32_max f64_zero f32_lt SFltb SFcompare u32_of_f64].
  assert (He : (whole_exp a <= 0)%Z) by (pose proof (digits_small a Hlt); rw /whole_exp; lia).
  rw iter_nat_xO Z2Nat.id; [lia|]. rw Z.shiftl_div_pow2 // Z.div_mul //. apply Z.pow_nonzero; lia.
Qed.

(** ** The page *)

Lemma take_digits_parse s : forall max acc z, parse_digits max acc s = Some z -> take_digits acc s = (z, length s, []).
Proof.
  induction s as [|c s IH]; intros max acc z; cbn [parse_digits take_digits length]; [by intros [= <-]|].
  destruct (is_digit c); [|done]. case_match; [|done]. intros Hz. by rw (IH _ _ _ Hz).
Qed.

Lemma parse_whole n : is_u64 n -> parse_f64 (dec n) = Some (f64_of_Z n).
Proof.
  intros Hn. pose proof (parse_dec n u64_max Hn) as Hp. pose proof (dec_digits n) as Hd. destruct (dec n) as [|c s] eqn:E; [by apply dec_nonempty in E|].
  assert (Hc : is_digit c = true) by (assert (0 <= n)%Z as Hn0 by apply Hn; apply Hd in Hn0; by apply Forall_cons_1 in Hn0 as []).
  apply is_digit_spec in Hc as Hr. rw /parse_f64 /sign_of (proj2 (Z.eqb_neq c 43)); [lia|]. rw (proj2 (Z.eqb_neq c 45)); [lia|].
  rw /parse_unsigned (proj2 (Z.eqb_neq c 43)) in Hp; [lia|]. assert (Ht : take_digits 0 (c :: s) = (n, length (c :: s), [])).
  { eapply take_digits_parse, Hp. apply Hn. }
  rw Ht. cbn [length Nat.add Nat.eqb parse_exponent fmap option_fmap option_map]. f_equal. rw /f64_of_decimal.
  destruct (n =? 0)%Z eqn:E0; [by apply Z.eqb_eq in E0 as ->|]. rw Z.sub_0_r. cbn [Z.leb Z.compare Z.pow Z.pow_pos]. rw Z.mul_1_r.
  by destruct n.
Qed.

(** A line: a comment, or a sample of a series with its labels. *)
Inductive PageLine := Page_Comment (text : str) | Page_Sample (name labels value : str).

Definition page_text (l : PageLine) : str :=
  match l with Page_Comment t => 35%Z :: t | Page_Sample name labels value => name ++ labels ++ 32%Z :: value end.
Definition page (ls : list PageLine) : str := concat (map (fun l => page_text l ++ [10%Z]) ls).

Definition word (s : str) : Prop := s <> [] /\ Forall (fun c => is_whitespace c = false) s.
Definition series_name (s : str) : Prop := word s /\ Forall (fun c => c <> 123%Z /\ c <> 35%Z) s.
Definition page_line_ok (l : PageLine) : Prop :=
  match l with
  | Page_Comment t => Forall (fun c => c <> 10%Z) t
  | Page_Sample name labels value => series_name name /\ (labels = [] \/ head labels = Some 123%Z) /\ Forall (fun c => c <> 10%Z) labels /\ word value
  end.

#[export] Instance page_line_ok_dec l : Decision (page_line_ok l).
Proof. destruct l; cbn [page_line_ok]; rw /series_name /word; apply _. Defined.

Definition own_value (name : str) (l : PageLine) : option f64 :=
  match l with Page_Sample n _ v => if bool_decide (n = name) then parse_f64 v else None | Page_Comment _ => None end.

Lemma visible_no_char c s : is_whitespace c = true -> Forall (fun x => is_whitespace x = false) s -> Forall (fun x => x <> c) s.
Proof. intros Hc Hs. eapply Forall_impl; [exact Hs|]. by intros x Hx ->; rw Hc in Hx. Qed.

(** A name ends where the labels or the value begin. *)
Lemma strip_name name : series_name name -> forall n rest, series_name n -> (exists c, head rest = Some c /\ (c = 32%Z \/ c = 123%Z)) ->
  match Text.strip_prefix name (n ++ rest) with
  | Some (c :: _) => if (c =? 32)%Z || (c =? 123)%Z then n = name else n <> name
  | _ => n <> name
  end.
Proof.
  intros [[_ Hw] Hb] n rest [[_ Hwn] Hbn] (x & Hx & Hsep).
  assert (Hstop : x ∉ name). { intros Hin. rw Forall_forall in Hw. rw Forall_forall in Hb. apply Hw in Hin as Ha. apply Hb in Hin as [Hb' _].
    destruct Hsep as [->| ->]; [done|by apply Hb']. }
  destruct rest as [|x' rest]; [done|]. injection Hx as ->. clear Hw Hb. revert n Hwn Hbn.
  induction name as [|a name IH]; intros [|b n] Hwn Hbn; cbn [Text.strip_prefix app].
  - by destruct Hsep as [->| ->].
  - apply Forall_cons_1 in Hwn as [Hwb _]. apply Forall_cons_1 in Hbn as [[Hbb _] _].
    destruct (b =? 32)%Z eqn:E1; [by apply Z.eqb_eq in E1; subst|]. destruct (b =? 123)%Z eqn:E2; [by apply Z.eqb_eq in E2; subst|]. done.
  - assert (Hne : (a =? x)%Z = false) by (apply Z.eqb_neq; intros ->; apply Hstop; by left). by rw Hne.
  - apply Forall_cons_1 in Hwn as [_ Hwn]. apply Forall_cons_1 in Hbn as [_ Hbn].
    destruct (a =? b)%Z eqn:E; [apply Z.eqb_eq in E as ->|apply Z.eqb_neq in E; congruence].
    assert (Hs' : x ∉ name) by (intros Hin; apply Hstop; by right). specialize (IH Hs' n Hwn Hbn).
    destruct (Text.strip_prefix name (n ++ x :: rest)) as [[|c r]|]; [congruence| |congruence]. case_match; congruence.
Qed.

Lemma word_ends s : word s -> (forall c, head s = Some c -> is_whitespace c = false) /\ (forall c, last s = Some c -> is_whitespace c = false).
Proof.
  intros [_ Hs]. rw Forall_forall in Hs. split; intros c Hc; apply Hs; [|by apply last_Some_elem_of].
  destruct s; [done|]. injection Hc as ->. by left.
Qed.

Lemma sample_trim name labels value : word name -> word value ->
  Text.trim (name ++ labels ++ 32%Z :: value) = name ++ labels ++ 32%Z :: value /\ cut_cr (name ++ labels ++ 32%Z :: value) = name ++ labels ++ 32%Z :: value.
Proof.
  intros Hn Hv. destruct (word_ends _ Hn) as [Hh _]. destruct (word_ends _ Hv) as [_ Hl]. destruct Hn as [Hn _]. destruct Hv as [Hv _].
  assert (Hlast : last (name ++ labels ++ 32%Z :: value) = last value).
  { destruct value as [|c v _] using rev_ind; [done|]. by rw (app_comm_cons v [c] 32%Z) !app_assoc !last_snoc. }
  split.
  - apply trim_ends; [destruct name; [done|]; intros c Hc; by apply Hh|]. intros c. rw Hlast. apply Hl.
  - rw /cut_cr. destruct (reverse _) as [|c r] eqn:E; [done|]. rw -head_reverse E in Hlast. symmetry in Hlast. apply Hl in Hlast.
    by destruct (c =? 13)%Z eqn:Ec; [apply Z.eqb_eq in Ec as ->|].
Qed.

Lemma last_piece a b : Forall (fun c => c <> 32%Z) b -> head (rsplit_char 32 (a ++ 32%Z :: b)) = Some b.
Proof. intros Hb. by rw /rsplit_char split_char_app (split_char_none 32 b Hb) reverse_snoc. Qed.

Lemma line_value name l : series_name name -> page_line_ok l -> metric_value name (cut_cr (page_text l)) = own_value name l.
Proof.
  intros Hname. destruct l as [t|n labels value]; cbn [page_line_ok page_text own_value].
  { intros _. assert (E : exists t', cut_cr (35%Z :: t) = 35%Z :: t').
    { rw /cut_cr. destruct (reverse (35%Z :: t)) as [|c r] eqn:E; [by exists t|]. destruct (c =? 13)%Z eqn:Ec; [apply Z.eqb_eq in Ec as ->|by exists t].
      apply (f_equal reverse) in E. rw reverse_involutive reverse_cons in E. destruct (reverse r) as [|c' r'] eqn:Er; [|by exists r'; injection E as <- _].
      by injection E. }
    destruct E as [t' ->]. by rw /metric_value trim_cons. }
  intros (Hn & Hlab & Hnl & Hv). destruct (sample_trim n labels value) as [Ht Hc]; [apply Hn|done|]. rw Hc /metric_value Ht.
  destruct Hn as [Hw Hb]. destruct n as [|c0 n0] eqn:En; [by destruct Hw|]. rw bool_decide_false //. cbn [orb].
  assert (H35 : Text.starts_with [35%Z] ((c0 :: n0) ++ labels ++ 32%Z :: value) = false).
  { apply Forall_cons_1 in Hb as [[_ Hc0] _]. rw /Text.starts_with. cbn [app Text.strip_prefix]. by rw (proj2 (Z.eqb_neq 35 c0)). }
  rw H35 -En. assert (Hs : series_name n) by by rw En.
  pose proof (strip_name name Hname n (labels ++ 32%Z :: value) Hs) as Hp.
  assert (Hsep : exists c, head (labels ++ 32%Z :: value) = Some c /\ (c = 32%Z \/ c = 123%Z)).
  { destruct Hlab as [->|Hl]; [exists 32%Z; auto|]. destruct labels; [done|]. injection Hl as ->. exists 123%Z. auto. }
  specialize (Hp Hsep). assert (Hlast : head (rsplit_char 32 (n ++ labels ++ 32%Z :: value)) = Some value).
  { rw app_assoc. apply last_piece, visible_no_char; [done|apply Hv]. }
  rw Hlast.
  destruct (Text.strip_prefix name _) as [[|c r]|]; [by rw bool_decide_false| |by rw bool_decide_false].
  destruct ((c =? 32)%Z || (c =? 123)%Z); [by rw bool_decide_true|by rw bool_decide_false].
Qed.

Lemma page_line_newline l : page_line_ok l -> no_newline (page_text l).
Proof.
  destruct l as [t|n labels v]; cbn; [by constructor|]. intros ([[_ Hn] _] & _ & Hlab & [_ Hv]).
  apply Forall_app. split; [by apply visible_no_char|]. apply Forall_app. split; [done|]. constructor; [done|by apply visible_no_char].
Qed.

Lemma page_lines ls : Forall page_line_ok ls -> lines (page ls) = map (fun l => cut_cr (page_text l)) ls.
Proof.
  intros Hls. rw /page -(map_map page_text (fun l => l ++ [10%Z])) lines_terminated; [|by rw -list_fmap_compose].
  apply Forall_fmap. eapply Forall_impl; [exact Hls|]. by intros; apply page_line_newline.
Qed.

(** The values of a series, and what they add up to. *)
Definition series (name : str) (ls : list PageLine) : list f64 := omap (own_value name) ls.
Definition series_sum (vs : list f64) : option f64 := match vs with [] => None | _ => Some (foldl f64_add f64_zero vs) end.

Lemma find_metric_page name ls : series_name name -> Forall page_line_ok ls -> find_metric (page ls) name = series_sum (series name ls).
Proof.
  intros Hn Hls. rw /find_metric page_lines //.
  assert (E : forall acc, foldl (metric_step name) acc (map (fun l => cut_cr (page_text l)) ls)
    = (foldl f64_add acc.1 (series name ls), acc.2 || negb (bool_decide (series name ls = [])))).
  { induction Hls as [|l ls Hl Hls IH]; intros [sum seen]; [by rw /= orb_false_r|]. cbn [map foldl]. rw IH /metric_step line_value //.
    rw /series. cbn [omap list_omap]. destruct (own_value name l) as [v|]; [|done]. cbn. by rw !orb_true_r. }
  rw E. cbn [fst snd orb]. rw /series_sum. destruct (series name ls) as [|v vs]; [done|]. by rw bool_decide_false.
Qed.

Definition total_of (ns : list Z) : Z := foldr Z.add 0%Z ns.

Lemma sum_whole ns : forall a, (0 <= a)%Z -> Forall (fun n => (0 <= n)%Z) ns -> (a + total_of ns < 2 ^ 53)%Z ->
  foldl f64_add (f64_of_Z a) (map f64_of_Z ns) = f64_of_Z (a + total_of ns).
Proof.
  induction ns as [|n ns IH]; intros a Ha Hns Hlt; cbn [map foldl total_of foldr]; [by rw Z.add_0_r|].
  apply Forall_cons_1 in Hns as [Hn Hns]. cbn [total_of foldr] in Hlt. rw -/(total_of ns) in Hlt |- *.
  assert (Ht : (0 <= total_of ns)%Z) by (clear -Hns; induction Hns; cbn [total_of foldr]; rw -?/(total_of _); lia).
  rw add_whole; [lia..|]. rw IH; [lia|done|lia|]. f_equal. lia.
Qed.

Lemma default_sum ns : Forall (fun n => (0 <= n)%Z) ns -> (total_of ns < 2 ^ 53)%Z ->
  default f64_zero (series_sum (map f64_of_Z ns)) = f64_of_Z (total_of ns).
Proof. intros Hns Hlt. pose proof (sum_whole ns 0 (Z.le_refl 0) Hns Hlt) as Hs. by destruct ns. Qed.

(** The three series of an engine. *)
Definition signals (kind : string) : option (str * str * str) :=
  if String.eqb kind "vllm" then Some (lit "vllm:num_requests_waiting", lit "vllm:num_requests_running", lit "vllm:gpu_cache_usage_perc")
  else if String.eqb kind "sglang" then Some (lit "sglang:num_queue_reqs", lit "sglang:num_running_reqs", lit "sglang:token_usage")
  else None.

Lemma signals_named kind w r u : signals kind = Some (w, r, u) ->
  series_name w /\ series_name r /\ series_name u /\ forall text, parse_metrics kind text = build (find_metric text w) (find_metric text r) (find_metric text u).
Proof.
  assert (Hn : forall s, bool_decide (series_name s) = true -> series_name s) by (intros s; apply bool_decide_eq_true_1).
  rw /signals /parse_metrics. destruct (String.eqb kind "vllm"); [|destruct (String.eqb kind "sglang"); [|done]];
    intros [= <- <- <-]; split_and!; try (apply Hn; by vm_compute); done.
Qed.


(** ** Examples *)

Module TelemetryExamples.
Import ToyJson.

(** The page of the tests, with a longer name that only begins like one of the
    series. *)
Definition labels : str := lit "{model_name=" ++ [34%Z] ++ lit "meta-llama/Llama 3.1" ++ [34%Z] ++ lit "}".
Definition vllm_page : list PageLine :=
  [Page_Comment (lit " HELP vllm:num_requests_running Number of requests on the GPU."); Page_Sample (lit "vllm:num_requests_running") labels (dec 3);
   Page_Sample (lit "vllm:num_requests_waiting_total") [] (dec 99); Page_Sample (lit "vllm:num_requests_waiting") labels (dec 5);
   Page_Sample (lit "vllm:gpu_cache_usage_perc") labels (lit "0.25")].


(** A usage that the engine cannot tell is read as a full cache. *)
Example nan_usage_reads_full :
  parse_metrics "vllm" (page [Page_Sample (lit "vllm:gpu_cache_usage_perc") [] (lit "NaN")]) = Some (mkStats 0 0 10000).
Proof. by vm_compute. Qed.

(** Two cards: power and memory add up, the rest is the last card's, the name the
    first one's. *)
Definition rocm_output : Json :=
  JObject [("card0", JObject [("Average Graphics Package Power (W)", JString "203.0"); ("GPU use (%)", JString " 87");
              ("VRAM Total Memory (B)", JString "206158430208"); ("Card series", JString "AMD Instinct MI300X")]);
           ("card1", JObject [("Average Graphics Package Power (W)", JString "121.5"); ("VRAM Total Memory (B)", JNumber 206158430208);
              ("Card series", JString "0x74a1")]);
           ("system", JObject [("Driver version", JString "6.3.6")])].

Example rocm_snapshot :
  parse_rocm_smi (json_to_string rocm_output) = Some (mkGpu (f32_of_Z 87) f32_zero f32_zero (f32_lit 649 2) "AMD Instinct MI300X" "amd" 393216)
  /\ parse_rocm_smi (json_to_string (JObject [("system", JObject [])])) = None /\ parse_rocm_smi "nope" = None.
Proof. by vm_compute. Qed.
End TelemetryExamples.
