(* ===== verification/Federate.v ===== *)
(** * The metrics federator

    [cgn-metrics/src/scraper.rs] and the [/federate] handler of [main.rs]: the
    pages of the configured targets with the name of the target added to every
    series. What fetching a page gives is an argument. Pages are those of
    [Telemetry]. *)

From S2P Require Import Prelude Text Telemetry.

(** ** Strings *)

(** [str::replace] of one character. *)
Definition replace_char (c : Z) (by_ : str) (s : str) : str := concat (map (fun x => if (x =? c)%Z then by_ else [x]) s).

(** [str::find] of one character: its position. *)
Fixpoint find_char (c : Z) (s : str) : option nat :=
  match s with
  | [] => None
  | x :: s' => if (x =? c)%Z then Some 0 else S <$> find_char c s'
  end.

(** [split_once(char::is_whitespace)]. *)
Fixpoint split_space (s : str) : option (str * str) :=
  match s with
  | [] => None
  | x :: s' => if is_whitespace x then Some ([], s') else match split_space s' with Some (a, b) => Some (x :: a, b) | None => None end
  end.

(** ** [scraper.rs] *)

Definition QUOTE : Z := 34.
Definition BACKSLASH : Z := 92.

Definition escape_label_value (v : str) : str :=
  replace_char 10 (lit "\n") (replace_char QUOTE [BACKSLASH; QUOTE] (replace_char BACKSLASH [BACKSLASH; BACKSLASH] v)).

Definition label_kv (target : str) : str := lit "cgn_target=" ++ QUOTE :: escape_label_value target ++ [QUOTE].

Definition decorate_one (line target : str) : option str :=
  match find_char 123 line with
  | Some open =>
      match find_char 125 line with
      | None => None
      | Some close =>
          if (close <? open)%nat then None
          else
            let inside := take (close - (open + 1)) (drop (open + 1) line) in
            Some (take (S open) line ++ (if bool_decide (trim inside = []) then [] else inside ++ [44%Z]) ++ label_kv target ++ drop close line)
      end
  | None =>
      match split_space line with
      | Some (name, rest) => Some (name ++ 123%Z :: label_kv target ++ lit "} " ++ rest)
      | None => None
      end
  end.

Definition decorate_line (target line : str) : str :=
  let trimmed := trim_start line in
  if bool_decide (trimmed = []) || starts_with [35%Z] trimmed then line else default line (decorate_one line target).

Definition decorate_with_target (body target : str) : str :=
  lit "# cgn-metrics: federated from target " ++ target ++ [10%Z] ++ concat (map (fun l => decorate_line target l ++ [10%Z]) (lines body)).

Record ScrapeTarget := mkTargetOf { tgt_name : str; tgt_url : str }.

(** One scrape: the bodies of the targets that answered, in the order of the
    configuration, and a count for each that did not. *)
Definition push_body (out body : str) : str := if bool_decide (out = []) then body else out ++ 10%Z :: body.

Definition scrape_target (fetch : str -> option str) (acc : str * gmap str Z) (t : ScrapeTarget) : str * gmap str Z :=
  match fetch (tgt_url t) with
  | Some body => (push_body acc.1 (decorate_with_target body (tgt_name t)), acc.2)
  | None => (acc.1, <[tgt_name t := (default 0 (acc.2 !! tgt_name t) + 1)%Z]> acc.2)
  end.

Definition scrape_once (fetch : str -> option str) (targets : list ScrapeTarget) (errors : gmap str Z) : str * gmap str Z :=
  foldl (scrape_target fetch) ([], errors) targets.

(** A turn of [run] stores the body in the cache; without targets it never does. *)
Definition scrape_tick (fetch : str -> option str) (targets : list ScrapeTarget) (cache : str * gmap str Z) : str * gmap str Z :=
  match targets with [] => cache | _ => scrape_once fetch targets cache.2 end.

(** [/federate]: status and body. *)
Definition federate (cache : str) : Z * str :=
  match cache with [] => (503%Z, lit "no scrape targets configured or first scrape pending") | _ => (200%Z, cache) end.

(** * Properties *)

(** ** Label values *)

(** What a reader of the format makes of an escaped value. *)
Fixpoint unescape (s : str) : str :=
  match s with
  | [] => []
  | x :: s' =>
      if (x =? BACKSLASH)%Z then match s' with c :: s'' => (if (c =? 110)%Z then 10%Z else c) :: unescape s'' | [] => [x] end
      else x :: unescape s'
  end.

Definition escape_char (c : Z) : str :=
  if (c =? BACKSLASH)%Z then [BACKSLASH; BACKSLASH] else if (c =? QUOTE)%Z then [BACKSLASH; QUOTE] else if (c =? 10)%Z then lit "\n" else [c].

Lemma escape_cons c v : escape_label_value (c :: v) = escape_char c ++ escape_label_value v.
Proof.
  assert (Happ : forall d b s t, replace_char d b (s ++ t) = replace_char d b s ++ replace_char d b t).
  { intros. by rw /replace_char map_app concat_app. }
  rw /escape_label_value /escape_char. change (replace_char BACKSLASH ?b (c :: v)) with ((if (c =? BACKSLASH)%Z then b else [c]) ++ replace_char BACKSLASH b v).
  rw !Happ. f_equal. destruct (c =? BACKSLASH)%Z eqn:E1; [done|]. rw /replace_char /=. destruct (c =? QUOTE)%Z eqn:E2; [done|].
  by rw /= app_nil_r; destruct (c =? 10)%Z.
Qed.

(** An escaped value has no line feed and no quote but after a backslash, and is
    read back. *)
Lemma unescape_escape v : unescape (escape_label_value v) = v.
Proof.
  induction v as [|c v IH]; [done|]. rw escape_cons /escape_char. destruct (Z.eqb_spec c BACKSLASH) as [->|H1]; [by cbn; rw IH|].
  destruct (Z.eqb_spec c QUOTE) as [->|H2]; [by cbn; rw IH|]. destruct (Z.eqb_spec c 10) as [->|H3]; [by cbn; rw IH|].
  cbn. by rw (proj2 (Z.eqb_neq c 92) H1) IH.
Qed.

Lemma escape_inj v w : escape_label_value v = escape_label_value w -> v = w.
Proof. intros E. by rw -(unescape_escape v) E unescape_escape. Qed.

Lemma escape_chars (P : Z -> Prop) v : Forall P v -> Forall P [BACKSLASH; QUOTE; 110%Z] -> Forall P (escape_label_value v).
Proof.
  intros Hv Hp. rw !Forall_cons in Hp. destruct Hp as (? & ? & ? & _). induction Hv as [|c v Hc _ IH]; [done|]. rw escape_cons. apply Forall_app.
  split; [|done]. rw /escape_char. repeat case_match; by repeat constructor.
Qed.

Lemma escape_newline v : no_newline (escape_label_value v).
Proof.
  induction v as [|c v IH]; [done|]. rw escape_cons. apply Forall_app. split; [|done]. rw /escape_char.
  destruct (c =? BACKSLASH)%Z; [by repeat constructor|]. destruct (c =? QUOTE)%Z; [by repeat constructor|].
  destruct (Z.eqb_spec c 10); by repeat constructor.
Qed.

(** ** Pages with labels *)

Definition label_text (kv : str * str) : str := kv.1 ++ 61%Z :: QUOTE :: escape_label_value kv.2 ++ [QUOTE].
Fixpoint join_commas (ls : list str) : str := match ls with [] => [] | [l] => l | l :: ls => l ++ 44%Z :: join_commas ls end.
Definition label_set (ls : list (str * str)) : str :=
  match ls with [] => [] | _ => 123%Z :: join_commas (map label_text ls) ++ [125%Z] end.

(** A line of a page, with its labels apart. *)
Inductive Line := Line_Comment (text : str) | Line_Sample (name : str) (labels : list (str * str)) (value : str).
Definition to_page (l : Line) : PageLine :=
  match l with Line_Comment t => Page_Comment t | Line_Sample name ls v => Page_Sample name (label_set ls) v end.

(** Names without braces, values of labels without a closing one. *)
Definition no_brace (s : str) : Prop := Forall (fun c => c <> 123%Z /\ c <> 125%Z) s.
Definition no_close (s : str) : Prop := Forall (fun c => c <> 125%Z) s.
Definition label_ok (kv : str * str) : Prop := word kv.1 /\ no_close kv.1 /\ no_close kv.2.
Definition line_ok (l : Line) : Prop :=
  match l with
  | Line_Comment t => Forall (fun c => c <> 10%Z /\ c <> 13%Z) t
  | Line_Sample name ls v => series_name name /\ no_brace name /\ Forall label_ok ls /\ word v /\ no_brace v
  end.

Definition TARGET : str := lit "cgn_target".
Definition tag (target : str) (l : Line) : Line :=
  match l with Line_Comment t => l | Line_Sample name ls v => Line_Sample name (ls ++ [(TARGET, target)]) v end.
Definition header (target : str) : Line := Line_Comment (lit " cgn-metrics: federated from target " ++ target).

Lemma label_kv_text target : label_kv target = label_text (TARGET, target).
Proof. done. Qed.

Lemma join_commas_snoc ls l : ls <> [] -> join_commas (ls ++ [l]) = join_commas ls ++ 44%Z :: l.
Proof.
  induction ls as [|a ls IH]; [done|]. intros _. destruct ls as [|b ls]; [done|].
  change (join_commas ((a :: b :: ls) ++ [l])) with (a ++ 44%Z :: join_commas ((b :: ls) ++ [l])). by rw IH //= -app_assoc.
Qed.

Lemma label_set_snoc ls l : ls <> [] -> label_set (ls ++ [l]) = 123%Z :: join_commas (map label_text ls) ++ 44%Z :: label_text l ++ [125%Z].
Proof.
  intros Hne. assert (E : label_set (ls ++ [l]) = 123%Z :: join_commas (map label_text (ls ++ [l])) ++ [125%Z]) by by destruct ls.
  rw E map_app join_commas_snoc; [by destruct ls|]. by rw -app_assoc.
Qed.

Lemma find_char_app c a b : Forall (fun x => x <> c) a -> find_char c (a ++ b) = Nat.add (length a) <$> find_char c b.
Proof.
  induction 1 as [|x a Hx _ IH]; cbn [app find_char length Nat.add]; [by destruct (find_char c b)|].
  rw (proj2 (Z.eqb_neq x c) Hx) IH. by destruct (find_char c b).
Qed.

Lemma find_char_none c a : Forall (fun x => x <> c) a -> find_char c a = None.
Proof. intros Ha. by rw -(app_nil_r a) find_char_app. Qed.

Lemma split_space_word a b : Forall (fun c => is_whitespace c = false) a -> split_space (a ++ 32%Z :: b) = Some (a, b).
Proof. induction 1 as [|x a Hx _ IH]; [done|]. cbn [app split_space]. by rw Hx IH. Qed.

Lemma inside_close ls : Forall label_ok ls -> no_close (join_commas (map label_text ls)).
Proof.
  assert (Hone : forall kv, label_ok kv -> no_close (label_text kv)).
  { intros kv (_ & Hk & Hv). apply Forall_app. split; [done|]. do 2 (constructor; [done|]). apply Forall_app. split; [|by repeat constructor].
    apply escape_chars; [done|]. by repeat constructor. }
  induction 1 as [|kv ls Hkv Hls IH]; [constructor|]. destruct ls as [|kv' ls]; [by apply Hone|].
  apply Forall_app. split; [by apply Hone|]. by constructor.
Qed.

Lemma inside_visible kv ls : label_ok kv -> trim (join_commas (map label_text (kv :: ls))) <> [].
Proof.
  intros ([Hne Hw] & _ & _). destruct kv as [k v]. destruct k as [|c k]; [done|]. cbn in Hw. apply Forall_cons_1 in Hw as [Hc _].
  assert (E : exists s, join_commas (map label_text ((c :: k, v) :: ls)) = c :: s) by (destruct ls; by eexists).
  destruct E as [s ->]. by rw trim_cons.
Qed.

Lemma decorate_sample name ls v target : line_ok (Line_Sample name ls v) ->
  decorate_one (name ++ label_set ls ++ 32%Z :: v) target = Some (name ++ label_set (ls ++ [(TARGET, target)]) ++ 32%Z :: v).
Proof.
  intros ([Hn _] & Hb & Hls & _ & Hvb). destruct Hn as [_ Hn].
  assert (Ho : Forall (fun c => c <> 123%Z) name /\ Forall (fun c => c <> 125%Z) name) by (apply Forall_and; exact Hb).
  destruct Ho as [Ho Hc]. rw /decorate_one. destruct ls as [|kv ls].
  - cbn [label_set app]. rw (find_char_none 123).
    { apply Forall_app. split; [done|]. constructor; [done|]. eapply Forall_impl; [exact Hvb|]. by intros c [? _]. }
    rw split_space_word //. f_equal. f_equal. rw label_kv_text.
    change (label_set ([] ++ [(TARGET, target)])) with (123%Z :: label_text (TARGET, target) ++ [125%Z]). by rw -app_comm_cons -app_assoc.
  - rw label_set_snoc // label_kv_text. generalize (label_text (TARGET, target)). intros kv_text. set inside := join_commas _. assert (Hin : no_close inside) by by apply inside_close.
    assert (El : label_set (kv :: ls) = 123%Z :: inside ++ [125%Z]) by done. rw El.
    change ((123%Z :: inside ++ [125%Z]) ++ 32%Z :: v) with (123%Z :: (inside ++ [125%Z]) ++ 32%Z :: v).
    rw (find_char_app 123 name) // (find_char_app 125 name) //. cbn [find_char fmap option_fmap option_map Z.eqb Pos.eqb].
    rw -!app_assoc. cbn [app]. rw (find_char_app 125 inside) //. cbn [find_char fmap option_fmap option_map Z.eqb Pos.eqb].
    rw (proj2 (Nat.ltb_ge _ _)); [lia|].
    assert (Ei : take (length name + S (length inside + 0) - (length name + 0 + 1)) (drop (length name + 0 + 1) (name ++ 123%Z :: inside ++ 125%Z :: 32%Z :: v)) = inside).
    { rw drop_app_ge; [lia|]. replace (length name + 0 + 1 - length name) with 1 by lia. cbn [drop].
      replace (length name + S (length inside + 0) - (length name + 0 + 1)) with (length inside) by lia. by rw take_app_length. }
    rw Ei bool_decide_false; [by apply inside_visible; apply Forall_cons_1 in Hls as [? _]|].
    f_equal. rw take_app_ge; [lia|]. replace (S (length name + 0) - length name) with 1 by lia. cbn [take].
    rw drop_app_ge; [lia|]. replace (length name + S (length inside + 0) - length name) with (S (length inside)) by lia. cbn [drop].
    rw drop_app_length take_0. by do 2 (cbn [app]; rw -?app_assoc).
Qed.

(** ** Whole pages *)

Lemma cut_cr_none l : Forall (fun c => c <> 13%Z) l -> cut_cr l = l.
Proof.
  intros Hl. rw /cut_cr. destruct (reverse l) as [|c r] eqn:E; [done|]. rw -Forall_reverse E in Hl.
  apply Forall_cons_1 in Hl as [Hc _]. by rw (proj2 (Z.eqb_neq c 13) Hc).
Qed.

Lemma decorate_text target l : line_ok l -> decorate_line target (cut_cr (page_text (to_page l))) = page_text (to_page (tag target l)).
Proof.
  destruct l as [t|name ls v]; intros Hl; cbn [to_page page_text tag].
  - rw cut_cr_none; [|done]. constructor; [done|]. eapply Forall_impl; [exact Hl|]. by intros c [_ ?].
  - pose proof Hl as ([Hw Hn] & _ & _ & Hv & _). rw (proj2 (sample_trim name (label_set ls) v Hw Hv)) /decorate_line decorate_sample //.
    destruct (word_ends _ Hw) as [Hh _]. destruct name as [|c name]; [by destruct Hw|]. apply Forall_cons_1 in Hn as [[_ Hc] _].
    cbn [app trim_start]. rw (Hh c eq_refl). rw bool_decide_false // /starts_with. cbn [strip_prefix]. by rw (proj2 (Z.eqb_neq 35 c)).
Qed.

Lemma label_set_newline ls : Forall label_ok ls -> no_newline (label_set ls).
Proof.
  assert (Hone : forall kv, label_ok kv -> no_newline (label_text kv)).
  { intros kv ([_ Hk] & _ & _). apply Forall_app. split; [by apply visible_no_char|]. do 2 (constructor; [done|]).
    apply Forall_app. split; [apply escape_newline|by repeat constructor]. }
  assert (Hj : Forall label_ok ls -> no_newline (join_commas (map label_text ls))).
  { induction 1 as [|kv l Hkv Hls IH]; [constructor|]. destruct l as [|kv' l]; [by apply Hone|].
    apply Forall_app. split; [by apply Hone|]. by constructor. }
  intros Hls. destruct ls as [|kv ls]; [constructor|]. constructor; [done|]. apply Forall_app. split; [by apply Hj|by repeat constructor].
Qed.

Lemma line_page_ok l : line_ok l -> page_line_ok (to_page l).
Proof.
  destruct l as [t|name ls v]; cbn; [intros Ht; eapply Forall_impl; [exact Ht|]; by intros c [? _]|].
  intros (Hn & _ & Hls & Hv & _). split; [done|]. split; [by destruct ls; [left|right]|]. split; [by apply label_set_newline|done].
Qed.

Lemma federated_page target ls : Forall line_ok ls ->
  decorate_with_target (page (map to_page ls)) target = page (map to_page (header target :: map (tag target) ls)).
Proof.
  intros Hls. rw /decorate_with_target page_lines; [by apply Forall_map; eapply Forall_impl; [exact Hls|]; apply line_page_ok|].
  rw /page. cbn [map concat header to_page page_text]. rw !map_map. change (35%Z :: lit " cgn-metrics: federated from target " ++ target)
    with (lit "# cgn-metrics: federated from target " ++ target). rw -!app_assoc. do 4 f_equal. apply map_ext_in.
  intros l Hl%list_elem_of_In. rw Forall_forall in Hls. by rw decorate_text; [apply Hls|].
Qed.

(** ** Scrapes *)

Section scrape.
Variables (targets : list ScrapeTarget) (pages : str -> option (list Line)).

Definition fetched (url : str) : option str := (fun ls => page (map to_page ls)) <$> pages url.

(** The targets that answer, with their pages; how often a name fails. *)
Definition answer (t : ScrapeTarget) : option (ScrapeTarget * list Line) := ls ← pages (tgt_url t); Some (t, ls).
Definition answered : list (ScrapeTarget * list Line) := omap answer targets.
Definition failures (n : str) : Z := Z.of_nat (length (filter (fun t => tgt_name t = n /\ pages (tgt_url t) = None) targets)).

Definition tagged (tl : ScrapeTarget * list Line) : list Line := map (tag (tgt_name tl.1)) tl.2.
Definition tagged_page (tl : ScrapeTarget * list Line) : str := page (map to_page (header (tgt_name tl.1) :: tagged tl)).

Lemma join_push bs b : Forall (fun x => x <> []) bs -> push_body (join_lines bs) b = join_lines (bs ++ [b]).
Proof.
  intros Hbs. destruct bs as [|x bs]; [done|]. apply Forall_cons_1 in Hbs as [Hx Hbs]. rw /push_body bool_decide_false.
  { destruct x as [|c x]; [done|]. by destruct bs. }
  clear Hx. revert x. induction Hbs as [|y bs Hy _ IH]; intros x; [done|].
  change (join_lines (x :: y :: bs)) with (x ++ 10%Z :: join_lines (y :: bs)).
  change (join_lines ((x :: y :: bs) ++ [b])) with (x ++ 10%Z :: join_lines ((y :: bs) ++ [b])). by rw -IH -app_assoc.
Qed.

Lemma tagged_page_nonempty tl : tagged_page tl <> [].
Proof. done. Qed.

Lemma scrape_from ts bs errors : Forall (fun x => x <> []) bs -> (forall url ls, pages url = Some ls -> Forall line_ok ls) ->
  let '(body, errors') := foldl (scrape_target fetched) (join_lines bs, errors) ts in
  body = join_lines (bs ++ map tagged_page (omap answer ts)) /\
  (forall n, default 0%Z (errors' !! n) = (default 0 (errors !! n) + Z.of_nat (length (filter (fun t => tgt_name t = n /\ pages (tgt_url t) = None) ts)))%Z).
Proof.
  intros Hbs Hp. revert bs errors Hbs. induction ts as [|t ts IH]; intros bs errors Hbs; cbn [foldl omap list_omap].
  { rw app_nil_r. split; [done|]. intros n. cbn. lia. }
  rw {2}/scrape_target /fetched /answer. destruct (pages (tgt_url t)) as [ls|] eqn:Ep; cbn [fmap option_fmap option_map mbind option_bind fst snd].
  - rw federated_page; [by eapply Hp|]. rw join_push //. specialize (IH (bs ++ [tagged_page (t, ls)]) errors).
    rw -/(tagged (t, ls)) -/(tagged_page (t, ls)). rw -/fetched. destruct (foldl _ _ _) as [body errors'].
    destruct IH as [-> He]; [apply Forall_app; by repeat constructor|]. rw -app_assoc. split; [done|]. intros n.
    rw He filter_cons_False //. intros [_ E]. congruence.
  - specialize (IH bs (<[tgt_name t := (default 0 (errors !! tgt_name t) + 1)%Z]> errors) Hbs). rw -/fetched. destruct (foldl _ _ _) as [body errors'].
    destruct IH as [-> He]. split; [done|]. intros n. rw He. destruct (decide (tgt_name t = n)) as [<-|Hne].
    + rw lookup_insert_eq filter_cons_True //= . lia.
    + rw lookup_insert_ne // filter_cons_False //. by intros [? _].
Qed.

(** What the federator serves is the pages of the targets that answered, in
    the order of the configuration, each line as it was but for one more label,
    the target's name, on every sample; no series of a page gains or loses a
    value. A target that did not answer adds nothing and is counted once, under
    its name. Nothing but the absence of any answer makes the endpoint
    unavailable, and targets of different names stay apart. *)
Lemma federation_correct errors : (forall url ls, pages url = Some ls -> Forall line_ok ls) ->
  let '(body, errors') := scrape_once fetched targets errors in
  body = join_lines (map tagged_page answered) /\
  (forall tl name, tl ∈ answered -> series name (map to_page (tagged tl)) = series name (map to_page tl.2)) /\
  (forall n, default 0%Z (errors' !! n) = (default 0 (errors !! n) + failures n)%Z) /\
  (federate body).1 = (if decide (answered = []) then 503 else 200)%Z /\
  (forall t t', label_kv t = label_kv t' -> t = t').
Proof.
  intros Hp. pose proof (scrape_from targets [] errors (Forall_nil_2 _) Hp) as Hs. cbn [join_lines app] in Hs. rw /scrape_once.
  destruct (foldl _ _ _) as [body errors']. destruct Hs as [-> He]. rw -/answered. split_and!; [done| |done| |].
  - intros tl name _. rw /series /tagged. induction (tl.2) as [|l ls IH]; [done|]. cbn [map omap list_omap]. rw IH. by destruct l.
  - destruct answered as [|tl l]; [done|]. by destruct l.
  - intros t t' E. rw /label_kv in E. apply app_inv_head in E. injection E as E. apply app_inv_tail in E. by apply escape_inj.
Qed.

End scrape.

(** ** Examples *)

Module FederateExamples.

Definition quoted (s : str) : str := QUOTE :: s ++ [QUOTE].
Definition demo_pages (url : str) : option (list Line) :=
  if bool_decide (url = lit "http://a/metrics") then
    Some [Line_Comment (lit " TYPE up gauge"); Line_Sample (lit "up") [] (lit "1");
          Line_Sample (lit "http_requests_total") [(lit "method", lit "get"); (lit "code", lit "200")] (lit "42")]
  else None.
Definition demo_targets : list ScrapeTarget := [mkTargetOf (lit "node a") (lit "http://a/metrics"); mkTargetOf (lit "b") (lit "http://b/metrics")].

#[local] Instance line_ok_dec l : Decision (line_ok l).
Proof. destruct l; cbn [line_ok]; rw /series_name /word /no_brace /label_ok /word /no_close; apply _. Defined.

Lemma federation_correct_witness :
  (forall url ls, demo_pages url = Some ls -> Forall line_ok ls) /\
  fst (scrape_once (fetched demo_pages) demo_targets ∅) = join_lines (map tagged_page (answered demo_targets demo_pages)) /\
  length (answered demo_targets demo_pages) = 1.
Proof.
  assert (Hp : forall url ls, demo_pages url = Some ls -> Forall line_ok ls).
  { intros url ls. rw /demo_pages. case_match; [|done]. intros [= <-]. compute_dec. }
  split; [done|]. split; [|by vm_compute].
  pose proof (federation_correct demo_targets demo_pages ∅ Hp) as Hf. destruct (scrape_once _ _ _) as [body errors]. by destruct Hf as [-> _].
Defined.

(** A closing brace inside a label's value is taken for the end of the labels, and
    a comma after the last label is kept: neither line is one of the format any
    more. Nor is a sample that begins with a space. *)
Example broken_lines :
  decorate_one (lit "http{path=" ++ quoted (lit "/v1/{id}") ++ lit "} 3") (lit "a")
    = Some (lit "http{path=" ++ [QUOTE] ++ lit "/v1/{id,cgn_target=" ++ quoted (lit "a") ++ lit "}" ++ [QUOTE] ++ lit "} 3")
  /\ decorate_one (lit "x{k=" ++ quoted (lit "v") ++ lit ",} 3") (lit "a")
    = Some (lit "x{k=" ++ quoted (lit "v") ++ lit ",,cgn_target=" ++ quoted (lit "a") ++ lit "} 3")
  /\ decorate_one (lit " x 3") (lit "a") = Some (lit "{cgn_target=" ++ quoted (lit "a") ++ lit "} x 3").
Proof. by vm_compute. Qed.

End FederateExamples.
