(* ===== verification/Metrics.v ===== *)
(** * What the router and the metrics daemon report

    [cgn-router/src/cluster_metrics.rs], the listing of [gateway/models.rs], the
    power readers of [cgn-power] and their loop in [cgn-metrics/src/power.rs]. A
    gauge with labels is a map from label values; the devices, the output of
    [rocm-smi], the Redfish answer and clocks are arguments. *)

From S2P Require Import Prelude StringFacts Hash Float32 Text BTree Json PrefixIndex Cluster Config Prompt Routing Auth Telemetry.

(** ** [cluster_metrics.rs] *)

Record Gauges := mkGauges {
  g_up : gmap string Z;
  g_cordoned : gmap string Z;
  g_queue : gmap string Z;
  g_free : gmap string Z;
  g_total : gmap string Z;
  g_power : gmap string f64;
  g_limit : gmap string f64;
  g_vram : gmap string Z;
  g_info : gmap (list string) Z;
  g_nodes : Z;
  g_digests : Z;
  g_power_total : f64;
  g_tokens_per_watt : f64;
  g_last : option (Z * Z);
}.

Definition role_str (r : NodeRole) : string :=
  match r with RolePrefill => "prefill" | RoleDecode => "decode" | RoleBoth => "both" | RoleUnspecified => "unspecified" end.

(** [u64 as i64]. *)
Definition i64_of_u64 (z : Z) : Z := (if z <? 2 ^ 63 then z else z - 2 ^ 64)%Z.

Definition flag (b : bool) : Z := if b then 1%Z else 0%Z.

Definition info_labels (n : NodeEntry) : list string :=
  [node_id n; address n; default "" (model n); role_str (role_enum n); gpu_name n; gpu_vendor n].

Definition reset_vectors (g : Gauges) : Gauges :=
  mkGauges ∅ ∅ ∅ ∅ ∅ ∅ ∅ ∅ ∅ (g_nodes g) (g_digests g) (g_power_total g) (g_tokens_per_watt g) (g_last g).

Definition set_node (acc : Gauges * f64) (n : NodeEntry) : Gauges * f64 :=
  let (g, sum) := acc in
  let id := node_id n in
  let watts := f64_of_f32 (power_watts n) in
  (mkGauges (<[id := flag (ready n && negb (draining n))]> (g_up g)) (<[id := flag (cordoned n)]> (g_cordoned g))
     (<[id := queue_depth n]> (g_queue g)) (<[id := node_free_blocks n]> (g_free g)) (<[id := node_total_blocks n]> (g_total g))
     (<[id := watts]> (g_power g)) (<[id := f64_of_f32 (watt_limit n)]> (g_limit g)) (<[id := i64_of_u64 (vram_total_mb n)]> (g_vram g))
     (<[info_labels n := 1%Z]> (g_info g)) (g_nodes g) (g_digests g) (g_power_total g) (g_tokens_per_watt g) (g_last g),
   f64_add sum watts).

(** [Duration::as_secs_f64], of nanoseconds. *)
Definition as_secs_f64 (d : Z) : f64 :=
  f64_add (f64_of_Z (d / 10 ^ 9)) (f64_div (f64_of_Z (d mod 10 ^ 9)) (f64_of_Z (10 ^ 9))).

Definition f64_positive (x : f64) : bool := f32_lt f64_zero x.

Definition refresh_energy (total_power : f64) (tokens now : Z) (g : Gauges) : Gauges :=
  let tpw :=
    match g_last g with
    | Some (prev_tokens, prev_at) =>
        let dt := as_secs_f64 (duration_since now prev_at) in
        if f64_positive dt && f64_positive total_power then f64_div (f64_div (f64_of_Z (sat_sub tokens prev_tokens)) dt) total_power
        else g_tokens_per_watt g
    | None => g_tokens_per_watt g
    end in
  mkGauges (g_up g) (g_cordoned g) (g_queue g) (g_free g) (g_total g) (g_power g) (g_limit g) (g_vram g) (g_info g) (g_nodes g) (g_digests g)
    total_power tpw (Some (tokens, now)).

Definition refresh `{DashIter} (st : RouterState) (tokens now : Z) (g : Gauges) : Gauges :=
  let nodes := NodeRegistry_snapshot (cl_nodes (rs_cluster st)) in
  let g := reset_vectors g in
  let g := mkGauges (g_up g) (g_cordoned g) (g_queue g) (g_free g) (g_total g) (g_power g) (g_limit g) (g_vram g) (g_info g)
    (Z.of_nat (length nodes)) (Z.of_nat (PrefixIndex_len (cl_prefix (rs_cluster st)))) (g_power_total g) (g_tokens_per_watt g) (g_last g) in
  let (g, power_sum) := foldl set_node (g, f64_zero) nodes in
  refresh_energy power_sum tokens now g.

(** ** [gateway/models.rs] *)

Record ModelEntry := mkModelEntry { me_id : string; me_created : Z; me_parent : option string }.

Abbreviation Names := (gmap string (option string)).

(** [entry(k).or_default()]. *)
Definition or_default (k : string) (m : Names) : Names := match m !! k with Some _ => m | None => <[k := None]> m end.
Definition add_adapters (parent : string) (l : list string) (m : Names) : Names := foldl (fun m a => <[a := Some parent]> m) m l.

Definition add_model (m : Names) (model : string) (adapters : list string) : Names := add_adapters model adapters (or_default model m).

(** [models]: the configured models in the order of the iteration. *)
Definition served_names `{DashIter} (models : list (string * ModelConfig)) (st : RouterState) : Names :=
  let names := foldl (fun m mc => add_model m mc.1 (map fst (btree_iter (mo_lora mc.2)))) ∅ models in
  foldl (fun m n => match model n with Some x => add_model m x (adapters n) | None => m end) names
    (NodeRegistry_nodes_for (cl_nodes (rs_cluster st)) RoleUnspecified None).

Definition list_models `{DashIter} (models : list (string * ModelConfig)) (principal : option Principal) (created : Z) (st : RouterState) : list ModelEntry :=
  map (fun e => mkModelEntry e.1 created e.2)
    (List.filter (fun e => match principal with Some p => allows_model p (chars e.1) | None => true end) (btree_iter (served_names models st))).

(** ** [cgn-power] *)

(** [x as i64] for a float. *)
Definition i64_of_f64 (x : f64) : Z :=
  match x with
  | S754_finite s m e => let n := Z.shiftl (Z.pos m) e in (if s then Z.max (- 2 ^ 63) (- n) else Z.min (2 ^ 63 - 1) n)%Z
  | S754_infinity s => (if s then - 2 ^ 63 else 2 ^ 63 - 1)%Z
  | _ => 0%Z
  end.

(** A card's power figure: the first that reads as a number. *)
Fixpoint card_watts (fields : list (string * Json)) : option f64 :=
  match fields with
  | [] => None
  | (k, v) :: fields =>
      let kl := to_ascii_lowercase k in
      if str_contains kl "power" && str_contains kl "(w)" then match rocm_num v with Some w => Some w | None => card_watts fields end
      else card_watts fields
  end.

Definition add_card (total : f64) (card : string * Json) : f64 :=
  if String.prefix "card" card.1 then
    match as_object card.2 with Some fields => match card_watts fields with Some w => f64_add total w | None => total end | None => total end
  else total.

Definition parse_power_watts `{SerdeJson} (json : string) : f64 :=
  match json_from_str json ≫= as_object with Some obj => foldl add_card f64_zero obj | None => f64_zero end.

(** The readers: a sample is the watts it reports. [Nvml::sample] with each
    device's milliwatts, [Rocm::sample] with the output of the tool. *)
Definition nvml_sample (devices : option (list (option Z))) : list f64 :=
  match devices with
  | None => []
  | Some ds => [foldl (fun total d => match d with Some milli => f64_add total (f64_div (f64_of_Z milli) (f64_of_Z 1000)) | None => total end) f64_zero ds]
  end.

Definition rocm_sample `{SerdeJson} (available : bool) (output : option string) : result (list f64) Error :=
  if negb available then Ok [] else match output with Some s => Ok [parse_power_watts s] | None => Err (Error_Internal "rocm-smi") end.

Definition de_f64 (v : Json) : option f64 := match v with JNumber n => Some (f64_of_Z n) | JFloat x => Some x | _ => None end.
Definition de_power_control (v : Json) : option (option f64) :=
  f ← struct_members ["PowerConsumedWatts"] v; member (de_option de_f64) None "PowerConsumedWatts" f.
Definition de_power_doc (v : Json) : option (list (option f64)) :=
  f ← struct_members ["PowerControl"] v; member (de_vec de_power_control) [] "PowerControl" f.

(** [Redfish::sample]: the status and the body of the answer, if there is one. *)
Definition redfish_sample `{SerdeJson} (answer : option (Z * string)) : result (list f64) Error :=
  match answer with
  | None => Err (Error_Unavailable "redfish get")
  | Some (status, body) =>
      if negb ((200 <=? status) && (status <? 300))%Z then Err (Error_Unavailable "redfish status")
      else match json_tree body ≫= de_power_doc with
           | Some doc => Ok [foldl f64_add f64_zero (omap id doc)]
           | None => Err (Error_InvalidArgument "redfish json")
           end
  end.

(** A turn of [power::run]: the two gauges. [redfish] is whether a reader is
    configured, and what it gives. *)
Definition power_tick (redfish : option (result (list f64) Error)) (nvml rocm : result (list f64) Error) (gauges : Z * Z) : Z * Z :=
  let chassis := match redfish with Some (Ok samples) => foldl (fun _ w => i64_of_f64 w) gauges.1 samples | _ => gauges.1 end in
  let add (total : f64) (r : result (list f64) Error) := match r with Ok samples => foldl f64_add total samples | Err _ => total end in
  (chassis, i64_of_f64 (add (add f64_zero nvml) rocm)).

(** * Properties *)

(** ** Gauges *)

Lemma snapshot_ids `{DashIter} r : registry_wf r -> NoDup (node_id <$> NodeRegistry_snapshot r).
Proof.
  intros Hw. rw /NodeRegistry_snapshot dash_perm. assert (E : node_id <$> (map_to_list r).*2 = (map_to_list r).*1).
  { rw -list_fmap_compose. apply list_fmap_ext. intros i [id n] Hi. cbn. apply list_elem_of_lookup_2, elem_of_map_to_list in Hi. by apply Hw in Hi. }
  rw E. apply NoDup_fst_map_to_list.
Qed.

(** Writing a family node by node. *)
Definition write {A} (f : NodeEntry -> A) (m : gmap string A) (nodes : list NodeEntry) : gmap string A :=
  foldl (fun m n => <[node_id n := f n]> m) m nodes.

Lemma write_lookup {A} (f : NodeEntry -> A) m nodes id v : NoDup (node_id <$> nodes) ->
  (write f m nodes !! id = Some v) <-> (exists n, n ∈ nodes /\ node_id n = id /\ v = f n) \/ ((id ∉ (node_id <$> nodes)) /\ m !! id = Some v).
Proof.
  revert m. induction nodes as [|n nodes IH]; intros m Hd; cbn [write foldl fmap list_fmap].
  - split; [intros E; right; split; [apply not_elem_of_nil|done]|]. by intros [(n & Hn%not_elem_of_nil & _)|[_ E]].
  - apply NoDup_cons in Hd as [Hn Hd]. rw -/(write f _ nodes) IH //. rw not_elem_of_cons. destruct (decide (id = node_id n)) as [->|Hne].
    + rw lookup_insert_eq. split.
      * intros [(n' & Hn' & E & ->)|[_ [= <-]]]; left; [exists n'|exists n]; (split; [|done]); [by right|by left].
      * intros [(n' & [->|Hn']%elem_of_cons & E & ->)|[[Hx _] _]]; [by right|left; by exists n'|done].
    + rw lookup_insert_ne //. split.
      * intros [(n' & Hn' & E & ->)|[Hx Hm]]; [left; exists n'; split; [by right|done]|by right].
      * intros [(n' & [->|Hn']%elem_of_cons & E & ->)|[[_ Hx] Hm]]; [done|left; by exists n'|by right].
Qed.

Lemma write_snapshot `{DashIter} {A} (f : NodeEntry -> A) r : registry_wf r -> write f ∅ (NodeRegistry_snapshot r) = (f <$> r).
Proof.
  intros Hw. apply map_eq. intros id. apply option_eq. intros v. rw write_lookup; [by apply snapshot_ids|]. rw lookup_fmap_Some. split.
  - intros [(n & [id' Hn]%elem_of_snapshot & <- & ->)|[_ E]]; [|done]. exists n. split; [done|]. pose proof (Hw id' n Hn) as E. cbn in E. by subst id'.
  - intros (n & <- & Hn). left. exists n. split; [by apply elem_of_snapshot; exists id|]. split; [by apply Hw in Hn|done].
Qed.

(** The nine families are written each by itself. *)
Lemma set_nodes nodes g sum : foldl set_node (g, sum) nodes =
  (mkGauges (write (fun n => flag (ready n && negb (draining n))) (g_up g) nodes) (write (fun n => flag (cordoned n)) (g_cordoned g) nodes)
     (write queue_depth (g_queue g) nodes) (write node_free_blocks (g_free g) nodes) (write node_total_blocks (g_total g) nodes)
     (write (fun n => f64_of_f32 (power_watts n)) (g_power g) nodes) (write (fun n => f64_of_f32 (watt_limit n)) (g_limit g) nodes)
     (write (fun n => i64_of_u64 (vram_total_mb n)) (g_vram g) nodes) (foldl (fun m n => <[info_labels n := 1%Z]> m) (g_info g) nodes)
     (g_nodes g) (g_digests g) (g_power_total g) (g_tokens_per_watt g) (g_last g),
   foldl f64_add sum (map (fun n => f64_of_f32 (power_watts n)) nodes)).
Proof. revert g sum. induction nodes as [|n nodes IH]; intros g sum; [by destruct g|]. cbn [foldl]. by rw /set_node IH. Qed.

Lemma info_lookup (nodes : list NodeEntry) (m : gmap (list string) Z) (ls : list string) : foldl (fun m n => <[info_labels n := 1%Z]> m) m nodes !! ls =
  if decide (ls ∈ info_labels <$> nodes) then Some 1%Z else m !! ls.
Proof.
  revert m. induction nodes as [|n nodes IH]; intros m; [done|]. cbn [foldl fmap list_fmap]. rw IH.
  destruct (decide (ls ∈ info_labels <$> nodes)) as [Hin|Hin]; [by rw decide_True; [right|]|].
  destruct (decide (ls = info_labels n)) as [->|Hne]; [by rw lookup_insert_eq decide_True; [left|]|].
  rw lookup_insert_ne // decide_False //. by intros [->|?]%elem_of_cons.
Qed.

(** A refresh makes the cluster gauges an image of the registry and of
    nothing else, whatever they were before: every family has exactly the
    registered nodes, a departed node is in none, each value is the node's; a node
    counts as up when it is ready and not draining; the labels of a node are those
    of its entry alone; the fleet's power is the sum over the nodes. *)
Lemma gauges_mirror_registry `{DashIter} st tokens now g : registry_wf (cl_nodes (rs_cluster st)) ->
  let r := cl_nodes (rs_cluster st) in
  let g' := refresh st tokens now g in
  g_up g' = ((fun n => flag (ready n && negb (draining n))) <$> r) /\ g_cordoned g' = ((fun n => flag (cordoned n)) <$> r) /\
  g_queue g' = (queue_depth <$> r) /\ g_free g' = (node_free_blocks <$> r) /\ g_total g' = (node_total_blocks <$> r) /\
  g_power g' = ((fun n => f64_of_f32 (power_watts n)) <$> r) /\ g_limit g' = ((fun n => f64_of_f32 (watt_limit n)) <$> r) /\
  g_vram g' = ((fun n => i64_of_u64 (vram_total_mb n)) <$> r) /\
  (forall ls, g_info g' !! ls = Some 1%Z <-> exists id n, r !! id = Some n /\ ls = info_labels n) /\
  g_nodes g' = Z.of_nat (size r) /\ g_digests g' = Z.of_nat (PrefixIndex_len (cl_prefix (rs_cluster st))) /\
  (exists order, order ≡ₚ (map_to_list r).*2 /\ g_power_total g' = foldl f64_add f64_zero (map (fun n => f64_of_f32 (power_watts n)) order)) /\
  g_last g' = Some (tokens, now).
Proof.
  intros Hw r g'. rw /g' /refresh set_nodes. cbn [g_up g_cordoned g_queue g_free g_total g_power g_limit g_vram g_info reset_vectors].
  rw !write_snapshot // -/r. split_and!; try reflexivity.
  - intros ls. cbn [g_info refresh_energy]. rw info_lookup lookup_empty. case_decide as Hd; rw list_elem_of_fmap in Hd.
    + split; [|done]. intros _. destruct Hd as (n & -> & [id Hn]%elem_of_snapshot). by exists id, n.
    + split; [done|]. intros (id & n & Hn & ->). exfalso. apply Hd. exists n. split; [done|]. apply elem_of_snapshot. by exists id.
  - cbn. by rw /NodeRegistry_snapshot dash_perm length_fmap length_map_to_list.
  - exists (NodeRegistry_snapshot r). split; [apply dash_perm|done].
Qed.

(** Without power there is no efficiency to report, but the gauge keeps the last
    one. *)
Lemma efficiency_kept total tokens now g : f64_positive total = false -> g_tokens_per_watt (refresh_energy total tokens now g) = g_tokens_per_watt g.
Proof. intros Hp. rw /refresh_energy /=. destruct (g_last g) as [[pt pa]|]; [|done]. by rw Hp andb_false_r. Qed.

(** ** The models *)

Section models.
Context `{DashIter} (models : list (string * ModelConfig)) (st : RouterState).

Definition live : list NodeEntry := NodeRegistry_nodes_for (cl_nodes (rs_cluster st)) RoleUnspecified None.

(** [m] is offered; [a] is offered as an adapter of [m]. *)
Definition offered (m : string) : Prop := (exists mc, (m, mc) ∈ models) \/ (exists n, n ∈ live /\ model n = Some m).
Definition offers (m a : string) : Prop :=
  (exists mc, (m, mc) ∈ models /\ is_Some (mo_lora mc !! a)) \/ (exists n, n ∈ live /\ model n = Some m /\ a ∈ adapters n).

(** Both loops add models with their adapters. *)
Definition sources : list (string * list string) :=
  map (fun mc => (mc.1, map fst (btree_iter (mo_lora mc.2)))) models ++ omap (fun n => (fun m => (m, adapters n)) <$> model n) live.

Lemma served_sources : served_names models st = foldl (fun m s => add_model m s.1 s.2) ∅ sources.
Proof.
  rw /served_names /sources foldl_app -/live. assert (E1 : forall m0 : Names, foldl (fun m mc => add_model m mc.1 (map fst (btree_iter (mo_lora mc.2)))) m0 models
    = foldl (fun m s => add_model m s.1 s.2) m0 (map (fun mc => (mc.1, map fst (btree_iter (mo_lora mc.2)))) models)).
  { induction models as [|mc l IH]; intros m0; [done|]. by rw /= IH. }
  rw E1. generalize (foldl (fun m s => add_model m s.1 s.2) (∅ : Names) (map (fun mc => (mc.1, map fst (btree_iter (mo_lora mc.2)))) models)).
  induction live as [|n l IH]; intros m0; [done|]. cbn [foldl omap list_omap]. destruct (model n) as [x|]; cbn [fmap option_fmap option_map]; by rw IH.
Qed.

Lemma offered_sources m : offered m <-> exists l, (m, l) ∈ sources.
Proof.
  rw /offered /sources. setoid_rewrite elem_of_app. setoid_rewrite list_elem_of_omap. split.
  - intros [[mc Hm]|(n & Hn & Em)]; [eexists; left; apply list_elem_of_fmap; by exists (m, mc)|].
    exists (adapters n). right. exists n. by rw Em.
  - intros (l & [([m' mc] & [= -> ->] & Hm)%list_elem_of_fmap|(n & Hn & En)]); [left; by exists mc|]. right. exists n.
    by destruct (model n); [injection En as -> _|].
Qed.

Lemma offers_sources m a : offers m a <-> exists l, (m, l) ∈ sources /\ a ∈ l.
Proof.
  rw /offers /sources. setoid_rewrite elem_of_app. setoid_rewrite list_elem_of_omap. split.
  - intros [(mc & Hm & x & Ha)|(n & Hn & Em & Ha)].
    + eexists. split; [left; apply list_elem_of_fmap; by exists (m, mc)|]. apply list_elem_of_fmap. exists (a, x). split; [done|]. by apply elem_of_btree_iter.
    + exists (adapters n). split; [|done]. right. exists n. by rw Em.
  - intros (l & [([m' mc] & [= -> ->] & Hm)%list_elem_of_fmap|(n & Hn & En)] & Ha).
    + left. exists mc. split; [done|]. apply list_elem_of_fmap in Ha as ([a' x] & -> & Hx). apply elem_of_btree_iter in Hx. by exists x.
    + right. exists n. destruct (model n); [|done]. injection En as -> <-. done.
Qed.

(** An adapter's name carries its model; a model's own name does not. *)
Lemma adapters_lookup (p : string) l (m : Names) id : add_adapters p l m !! id = if decide (id ∈ l) then Some (Some p) else m !! id.
Proof.
  revert m. rw /add_adapters. induction l as [|a l IH]; intros m; [done|]. cbn [foldl]. rw IH.
  destruct (decide (id ∈ l)) as [Hin|Hin]; [by rw decide_True; [right|]|].
  destruct (decide (id = a)) as [->|Hne]; [by rw lookup_insert_eq decide_True; [left|]|].
  rw lookup_insert_ne // decide_False //. by intros [->|?]%elem_of_cons.
Qed.

Lemma names_spec l id : match foldl (fun m s => add_model m s.1 s.2) (∅ : Names) l !! id with
  | None => (forall s, s ∈ l -> s.1 <> id /\ id ∉ s.2)
  | Some None => (exists s, s ∈ l /\ s.1 = id) /\ (forall s, s ∈ l -> id ∉ s.2)
  | Some (Some p) => exists s, s ∈ l /\ s.1 = p /\ id ∈ s.2
  end.
Proof.
  induction l as [|[p ads] l IH] using rev_ind; [cbn; rw lookup_empty; by intros s ?%not_elem_of_nil|]. rw foldl_snoc /add_model adapters_lookup. cbn [fst snd].
  case_decide as Ha; [by exists (p, ads); split; [apply elem_of_app; right; left|]|].
  rw /or_default. set names := foldl _ _ _ in IH |- *. assert (Hor : (match names !! p with Some _ => names | None => <[p := None]> names end) !! id
    = if decide (id = p) then Some (default None (names !! p)) else names !! id).
  { destruct (decide (id = p)) as [->|Hne]; destruct (names !! p) as [v|] eqn:E; rw ?E //; [by rw lookup_insert_eq|by rw lookup_insert_ne]. }
  assert (Hin : forall s, s ∈ l ++ [(p, ads)] <-> s ∈ l \/ s = (p, ads)) by (intros s; by rw elem_of_app list_elem_of_singleton).
  rw Hor. destruct (decide (id = p)) as [->|Hd].
  - destruct (names !! p) as [[q|]|] eqn:E; cbn [default from_option].
    + destruct IH as (s & Hs & ?). exists s. rw Hin. auto.
    + destruct IH as [(s & Hs & ?) Hall]. split; [exists s; rw Hin; auto|]. by intros s' [?| ->]%Hin; [apply Hall|].
    + split; [exists (p, ads); rw Hin; auto|]. by intros s' [?| ->]%Hin; [apply IH|].
  - destruct (names !! id) as [[q|]|].
    + destruct IH as (s & Hs & ?). exists s. rw Hin. auto.
    + destruct IH as [(s & Hs & ?) Hall]. split; [exists s; rw Hin; auto|]. by intros s' [?| ->]%Hin; [apply Hall|].
    + intros s [?| ->]%Hin; [by apply IH|]. by split; [intros E; apply Hd|].
Qed.

(** The listing: once each, every model and every adapter that is configured or
    served by a routable node and that the caller may use; an adapter names a
    model it belongs to, a model that is nobody's adapter names none. *)
Lemma filter_ids {A} (f : string * A -> bool) l : NoDup (fst <$> l) -> NoDup (fst <$> List.filter f l).
Proof.
  induction l as [|e l IH]; [done|]. cbn [fmap list_fmap List.filter]. intros [Hn Hd]%NoDup_cons. case_match; [|by apply IH].
  apply NoDup_cons. split; [|by apply IH]. intros ([k v] & Ek & [Hin _]%elem_of_bool_filter)%list_elem_of_fmap. apply Hn.
  apply list_elem_of_fmap. by exists (k, v).
Qed.

Lemma models_listed principal created : let listed := list_models models principal created st in
  NoDup (me_id <$> listed) /\
  (forall id, id ∈ me_id <$> listed <-> (offered id \/ exists m, offers m id) /\
     match principal with Some p => allows_model p (chars id) = true | None => True end) /\
  (forall e, e ∈ listed -> match me_parent e with Some m => offers m (me_id e) | None => forall m, ~ offers m (me_id e) end).
Proof.
  intros listed. set names := served_names models st. assert (Hl : forall e, e ∈ listed <-> me_created e = created /\ names !! me_id e = Some (me_parent e)
    /\ match principal with Some p => allows_model p (chars (me_id e)) = true | None => True end).
  { intros [id cr par]. rw /listed /list_models list_elem_of_fmap. split.
    - intros ([k v] & [= -> -> ->] & [Hin Hp]%elem_of_bool_filter). split; [done|]. split; [by apply elem_of_btree_iter in Hin|]. by destruct principal.
    - cbn. intros (-> & Hn & Hp). exists (id, par). split; [done|]. apply elem_of_bool_filter. split; [by apply elem_of_btree_iter|]. by destruct principal. }
  assert (Hs : forall id, match names !! id with
    | None => ~ offered id /\ forall m, ~ offers m id
    | Some None => offered id /\ forall m, ~ offers m id
    | Some (Some p) => offers p id end).
  { intros id. rw /names served_sources. pose proof (names_spec sources id) as Hn. destruct (_ !! id) as [[p|]|].
    - destruct Hn as ([m l] & Hin & <- & Ha). apply offers_sources. by exists l.
    - destruct Hn as [([m l] & Hin & <-) Hall]. split; [apply offered_sources; by exists l|].
      intros m' (l' & Hin' & Ha)%offers_sources. by apply Hall in Hin'.
    - split; [intros (l & Hin)%offered_sources; by apply Hn in Hin as [? _]|]. intros m (l & Hin & Ha)%offers_sources. by apply Hn in Hin as [_ ?]. }
  split; [|split].
  - rw /listed /list_models -list_fmap_compose. apply filter_ids. rw (btree_iter_perm _). apply NoDup_fst_map_to_list.
  - intros id. rw list_elem_of_fmap. split.
    + intros (e & -> & (_ & Hn & Hp)%Hl). split; [|done]. specialize (Hs (me_id e)). rw Hn in Hs. destruct (me_parent e); [right; by eexists|by left; destruct Hs].
    + intros [Ho Hp]. specialize (Hs id). destruct (names !! id) as [par|] eqn:E.
      * exists (mkModelEntry id created par). split; [done|]. by apply Hl.
      * destruct Hs as [Hs1 Hs2]. destruct Ho as [?|[m Hm]]; [done|by apply (Hs2 m) in Hm].
  - intros e (_ & Hn & _)%Hl. specialize (Hs (me_id e)). rw Hn in Hs. by destruct (me_parent e); [|destruct Hs].
Qed.

End models.

Module MetricsExamples.
Import ToyJson Cluster.Examples Routing.Examples.

#[local] Existing Instance list_order.

(** Two nodes, one of them about to leave, and gauges that still hold a third. *)
Definition leaving : NodeEntry :=
  mkNode "b" "http://b:7070" 1 None (Some "llama3") 7 100 1000 f32_one f32_zero "NVIDIA H100" "nvidia" 80000 false 0 true true [] 0.
Definition fleet : RouterState := state_of weights [big "a" 3 81000; leaving].
Definition stale : Gauges := mkGauges {["z" := 1%Z]} ∅ ∅ ∅ ∅ ∅ ∅ ∅ ∅ 9 9 f64_zero f64_zero None.

Lemma gauges_mirror_registry_witness :
  let g := refresh fleet 500 0 stale in
  g_up g !! "a" = Some 1%Z /\ g_up g !! "b" = Some 0%Z /\ g_up g !! "z" = None /\ g_queue g !! "b" = Some 7%Z /\ g_nodes g = 2%Z.
Proof.
  intros g. assert (Hw : registry_wf (cl_nodes (rs_cluster fleet))) by (repeat apply registry_wf_upsert; apply map_Forall_empty).
  destruct (gauges_mirror_registry fleet 500 0 stale Hw) as (Hu & _ & Hq & _ & _ & _ & _ & _ & _ & Hn & _). rw /g Hu Hq Hn. by vm_compute.
Defined.

(** A card that reports its average and its current power: the agent adds both,
    the metrics daemon takes the first. *)
Definition two_readings : string :=
  json_to_string (JObject [("card0", JObject [("Average Graphics Package Power (W)", JString "200.0"); ("Current Socket Graphics Package Power (W)", JString "210.0")])]).

Example power_counted_twice :
  parse_power_watts two_readings = f64_of_Z 200 /\ (gpu_power <$> parse_rocm_smi two_readings) = Some (f32_of_Z 410).
Proof. by vm_compute. Qed.
End MetricsExamples.
