(* ===== verification/Health.v ===== *)
(** * Heartbeats

    [cgn-agent/src/health.rs] and [health] of [grpc.rs]: what an agent publishes
    about itself every few seconds, and the router's reading of it ([Deserialize]
    of [NodeEntry] in [cluster/registry.rs]). etcd and the gossip member are
    outcomes: which puts and deletes succeed. *)

From stdpp Require Import pretty.
From S2P Require Import Prelude StringFacts Float32 PrefixIndex Text BTree Json Cluster AgentKv Config Spawn Supervisor Telemetry.

(** ** The record *)

Definition role_to_int (r : NodeRoleCfg) : Z :=
  match r with NodeRoleCfg_Decode => 2 | NodeRoleCfg_Prefill => 1 | NodeRoleCfg_Both => 3 end.

Definition VERSION : string := "0.9.2".

Definition EngineStats_default : EngineStats := mkStats 0 0 0.

Definition json_opt_str (o : option string) : Json := match o with Some s => JString s | None => JNull end.
Definition json_opt_u32 (o : option Z) : Json := match o with Some n => JNumber n | None => JNull end.

Section record.
Context `{Os} (cfg : Config).

Definition first_model : option (string * ModelConfig) := head (models_iter (cfg_models cfg)).
Definition adapter_names : list string :=
  match first_model with Some (_, m) => map fst (btree_iter (mo_lora m)) | None => [] end.
Definition agent_address : string :=
  (if sec_require_mtls (cfg_security cfg) then "https" else "http") +:+ "://" +:+ ag_listen (cfg_agent cfg).

Definition node_record_json (draining ready : bool) (gpu : GpuSnapshot) (stats : EngineStats) (kv_epoch : Z) : Json :=
  JObject (json_object
    [("node_id", JString (ag_node_id (cfg_agent cfg)));
     ("address", JString agent_address);
     ("role", JNumber (role_to_int (ag_role (cfg_agent cfg))));
     ("gpu_index", json_opt_u32 (ag_gpu_index (cfg_agent cfg)));
     ("model", json_opt_str (fst <$> first_model));
     ("queue_depth", JNumber (es_queue_depth stats));
     ("free_blocks", JNumber (es_free_blocks stats));
     ("total_blocks", JNumber (es_total_blocks stats));
     ("power_watts", json_f32 (gpu_power gpu));
     ("watt_limit", json_f32 (ag_watt_limit (cfg_agent cfg)));
     ("gpu_name", JString (gs_name gpu));
     ("gpu_vendor", JString (gs_vendor gpu));
     ("vram_total_mb", JNumber (gs_vram_mb gpu));
     ("kv_epoch", JNumber kv_epoch);
     ("ready", JBool ready);
     ("draining", JBool draining);
     ("adapters", JArray (map JString adapter_names));
     ("servable", JBool true);
     ("version", JString VERSION)]).

(** *** Pipeline workers *)

Definition worker_id (i : nat) : string := ag_node_id (cfg_agent cfg) +:+ "-pipeline-worker-" +:+ pretty i.

Definition worker_record (model_name : string) (ready : bool) (i : nat) (w : PipelineWorkerConfig) : Json :=
  JObject (json_object
    [("node_id", JString (worker_id i));
     ("address", JString ("http://" +:+ pw_listen w));
     ("role", JString "pipeline_worker");
     ("model", JNull);
     ("pipeline_model", JString model_name);
     ("layers", JString (pw_layers w));
     ("ready", JBool ready);
     ("servable", JBool false);
     ("version", JString VERSION)]).

Definition pipeline_workers (ready : bool) : list (string * Json) :=
  match first_model with
  | Some (name, m) =>
      match mo_pipeline m with
      | Some p =>
          omap (fun iw => if pw_spawn iw.2 then Some (NODES_PREFIX +:+ worker_id iw.1, worker_record name ready iw.1 iw.2) else None)
            (imap pair (pt_workers p))
      | None => []
      end
  | None => []
  end.

(** ** Publishing to etcd *)

(** Puts in order, up to the first that fails. *)
Fixpoint put_all (put_ok : string -> bool) (puts : list (string * Json)) : list (string * Json) * bool :=
  match puts with
  | [] => ([], true)
  | p :: puts => if put_ok p.1 then let (w, ok) := put_all put_ok puts in (p :: w, ok) else ([], false)
  end.

Definition publish_one (put_ok : string -> bool) (draining ready : bool) (gpu : GpuSnapshot) (stats : EngineStats) (kv_epoch : Z)
    : list (string * Json) * bool :=
  put_all put_ok ((NODES_PREFIX +:+ ag_node_id (cfg_agent cfg), node_record_json draining ready gpu stats kv_epoch) :: pipeline_workers ready).

(** What one turn of the loop meets: the engine, the devices, etcd, and the
    lease's answer. *)
Inductive Lease := Lease_Kept | Lease_Closed | Lease_Lost.
Record Round := mkRound {
  rd_ready : bool;
  rd_draining : bool;
  rd_gpu : option GpuSnapshot;
  rd_stats : option EngineStats;
  rd_pending : list (list Z);
  rd_put_ok : string -> bool;
  rd_del_ok : string -> bool;
  rd_lease : Lease;
}.

(** A session with etcd: the epoch and the tracked claims are its own. *)
Record Session := mkSession { ss_epoch : KvCacheState; ss_claims : PublishState }.
Definition Session_new (etcd : gset string) : Session := mkSession KvCacheState_default (mkPublish [] etcd).

(** One turn of [emit_with_lease]: what it writes, and whether it goes on. Errors
    of the two publishers are logged. *)
Definition emit_round (r : Round) (s : Session) : Session * list (string * Json) * Lease :=
  let gpu := default GpuSnapshot_default (rd_gpu r) in
  let stats := default EngineStats_default (rd_stats r) in
  let epoch := observe (ss_epoch s) (rd_ready r) stats in
  let (writes, _) := publish_one (rd_put_ok r) (rd_draining r) (rd_ready r) gpu stats (kc_epoch epoch) in
  let (claims, _) := publish_kv_confirmed (ag_node_id (cfg_agent cfg)) (rd_put_ok r) (rd_del_ok r) stats (rd_pending r) (ss_claims s) in
  (mkSession epoch claims, writes, rd_lease r).

(** [emit_with_lease] on the turns of a session: everything it writes. *)
Fixpoint emit_session (rounds : list Round) (s : Session) : Session * list (string * Json) :=
  match rounds with
  | [] => (s, [])
  | r :: rounds =>
      let '(s, writes, lease) := emit_round r s in
      match lease with
      | Lease_Kept => let (s, more) := emit_session rounds s in (s, writes ++ more)
      | _ => (s, writes)
      end
  end.

(** [loop_emit_gossip]: the record alone, in the text that peers receive. *)
Definition gossip_round `{SerdeJson} (r : Round) (k : KvCacheState) : KvCacheState * string :=
  let stats := default EngineStats_default (rd_stats r) in
  let k := observe k (rd_ready r) stats in
  (k, json_to_string (node_record_json (rd_draining r) (rd_ready r) (default GpuSnapshot_default (rd_gpu r)) stats (kc_epoch k))).

(** [loop_emit]: where the heartbeat goes. *)
Inductive Publisher := Publish_Gossip | Publish_Nowhere | Publish_Etcd (endpoints : list string).
Definition loop_emit : Publisher :=
  let c := cfg_cluster cfg in
  if gossip_enabled c then Publish_Gossip
  else match cc_etcd_endpoints c with [] => Publish_Nowhere | es => Publish_Etcd es end.

(** ** [Agent.Health] *)

Record NodeHealth := mkHealth {
  nh_node_id : string;
  nh_ready : bool;
  nh_queue_depth : Z;
  nh_max_queue : Z;
  nh_free_kv_blocks : Z;
  nh_gpu_util_pct : f32;
  nh_gpu_mem_used_pct : f32;
  nh_gpu_temp_c : f32;
  nh_rack_watts : f32;
  nh_rack_watt_limit : f32;
  nh_last_seen_unix_ms : Z;
  nh_loaded_models : list string;
  nh_role : Z;
}.

Definition agent_health (ready : bool) (stats : option EngineStats) (gpu : option GpuSnapshot) (now_ms : Z) : NodeHealth :=
  let stats := default EngineStats_default stats in
  let gpu := default GpuSnapshot_default gpu in
  mkHealth (ag_node_id (cfg_agent cfg)) ready (es_queue_depth stats) 1024 (es_free_blocks stats) (util_pct gpu) (mem_used_pct gpu) (temp_c gpu)
    (gpu_power gpu) (ag_watt_limit (cfg_agent cfg)) (now_ms mod 2 ^ 64) (map fst (models_iter (cfg_models cfg))) (role_to_int (ag_role (cfg_agent cfg))).
End record.

(** ** The router's side *)

Definition de_i32 (v : Json) : option Z :=
  match v with JNumber n => if (- 2 ^ 31 <=? n)%Z && (n <=? 2 ^ 31 - 1)%Z then Some n else None | _ => None end.

Definition node_fields : list string :=
  ["node_id"; "address"; "role"; "gpu_index"; "model"; "queue_depth"; "free_blocks"; "total_blocks"; "power_watts"; "watt_limit"; "gpu_name";
   "gpu_vendor"; "vram_total_mb"; "cordoned"; "kv_epoch"; "ready"; "draining"; "adapters"].

Definition de_node_entry (now : Z) (v : Json) : option NodeEntry :=
  f ← struct_members node_fields v;
  id ← required de_string "node_id" f;
  address ← required de_string "address" f;
  role ← required de_i32 "role" f;
  gpu_index ← member (de_option de_u32) None "gpu_index" f;
  model ← member (de_option de_string) None "model" f;
  queue_depth ← required de_u32 "queue_depth" f;
  free_blocks ← required de_u32 "free_blocks" f;
  total_blocks ← required de_u32 "total_blocks" f;
  power_watts ← required de_f32 "power_watts" f;
  watt_limit ← member de_f32 f32_zero "watt_limit" f;
  gpu_name ← member de_string "" "gpu_name" f;
  gpu_vendor ← member de_string "" "gpu_vendor" f;
  vram_total_mb ← member de_u64 0%Z "vram_total_mb" f;
  cordoned ← member de_bool false "cordoned" f;
  kv_epoch ← member de_u64 0%Z "kv_epoch" f;
  ready ← member de_bool true "ready" f;
  draining ← member de_bool false "draining" f;
  adapters ← member (de_vec de_string) [] "adapters" f;
  Some (mkNode id address role gpu_index model queue_depth free_blocks total_blocks power_watts watt_limit gpu_name gpu_vendor vram_total_mb
    cordoned kv_epoch ready draining adapters now).

(** [serde_json::from_slice::<NodeEntry>] in the watchers. *)
Definition read_node `{SerdeJson} (now : Z) (text : string) : option NodeEntry := json_tree text ≫= de_node_entry now.

(** ** A heartbeat on its way *)

Lemma blind_i32 : blind de_i32.
Proof. intros [] [] [=]; by subst. Qed.
#[export] Hint Resolve blind_i32 : cgn.

Lemma blind_node_entry now : blind (de_node_entry now).
Proof.
  apply blind_struct. intros f g Hf. rw !(blind_required _ _ f g); auto with cgn. rw !(blind_member _ _ _ f g); auto with cgn.
Qed.

Section heartbeat.
Context `{Os} (cfg : Config) (draining ready : bool) (gpu : GpuSnapshot) (stats : EngineStats) (epoch : Z).

(** What a [NodeEntry] of this agent is. *)
Definition heartbeat_entry (now : Z) : NodeEntry :=
  mkNode (ag_node_id (cfg_agent cfg)) (agent_address cfg) (role_to_int (ag_role (cfg_agent cfg))) (ag_gpu_index (cfg_agent cfg))
    (fst <$> first_model cfg) (es_queue_depth stats) (es_free_blocks stats) (es_total_blocks stats) (gpu_power gpu)
    (ag_watt_limit (cfg_agent cfg)) (gs_name gpu) (gs_vendor gpu) (gs_vram_mb gpu) false epoch ready draining (adapter_names cfg) now.

(** The types of the fields, and power that JSON can write. *)
Definition record_ok : Prop :=
  json_ok (node_record_json cfg draining ready gpu stats epoch) = true /\
  is_u32 (es_queue_depth stats) /\ is_u32 (es_free_blocks stats) /\ is_u32 (es_total_blocks stats) /\
  (forall i, ag_gpu_index (cfg_agent cfg) = Some i -> is_u32 i) /\ is_u64 (gs_vram_mb gpu) /\ is_u64 epoch /\
  Forall (fun x => f32_valid x /\ is_finite x = true) [gpu_power gpu; ag_watt_limit (cfg_agent cfg)].

Lemma record_members : node_record_json cfg draining ready gpu stats epoch = JObject
  [("adapters", JArray (map JString (adapter_names cfg))); ("address", JString (agent_address cfg)); ("draining", JBool draining);
   ("free_blocks", JNumber (es_free_blocks stats)); ("gpu_index", json_opt_u32 (ag_gpu_index (cfg_agent cfg))); ("gpu_name", JString (gs_name gpu));
   ("gpu_vendor", JString (gs_vendor gpu)); ("kv_epoch", JNumber epoch); ("model", json_opt_str (fst <$> first_model cfg));
   ("node_id", JString (ag_node_id (cfg_agent cfg))); ("power_watts", json_f32 (gpu_power gpu)); ("queue_depth", JNumber (es_queue_depth stats));
   ("ready", JBool ready); ("role", JNumber (role_to_int (ag_role (cfg_agent cfg)))); ("servable", JBool true);
   ("total_blocks", JNumber (es_total_blocks stats)); ("version", JString VERSION); ("vram_total_mb", JNumber (gs_vram_mb gpu));
   ("watt_limit", json_f32 (ag_watt_limit (cfg_agent cfg)))].
Proof. reflexivity. Qed.

Lemma de_unsigned_ok max n : (0 <= n <= max)%Z -> de_unsigned max (JNumber n) = Some n.
Proof. intros [H0 H1]. by rw /de_unsigned (proj2 (Z.leb_le 0 n)) // (proj2 (Z.leb_le n max)). Qed.

Lemma de_names l : de_vec de_string (JArray (map JString l)) = Some l.
Proof. cbn. induction l as [|s l IH]; [done|]. cbn. by rw IH. Qed.

Lemma record_decodes now : record_ok -> de_node_entry now (node_record_json cfg draining ready gpu stats epoch) = Some (heartbeat_entry now).
Proof.
  intros (_ & Hq & Hf & Ht & Hi & Hv & He & Hp). rw record_members /de_node_entry. rw Forall_forall in Hp.
  destruct (Hp (gpu_power gpu)) as [Hp1 Hp2]; [by left|]. destruct (Hp (ag_watt_limit (cfg_agent cfg))) as [Hw1 Hw2]; [by right; left|].
  cbn [struct_members]. rw (_ : existsb _ node_fields = false); [by vm_compute|]. cbn [mbind option_bind].
  rw /required /member. cbn [field String.eqb Ascii.eqb Bool.eqb].
  assert (E1 : de_option de_u32 (json_opt_u32 (ag_gpu_index (cfg_agent cfg))) = Some (ag_gpu_index (cfg_agent cfg))).
  { destruct (ag_gpu_index (cfg_agent cfg)) as [i|]; [|done]. cbn [json_opt_u32 de_option]. rw /de_u32 de_unsigned_ok //. by apply Hi. }
  assert (E2 : de_option de_string (json_opt_str (fst <$> first_model cfg)) = Some (fst <$> first_model cfg)) by by destruct (first_model cfg).
  assert (E3 : de_i32 (JNumber (role_to_int (ag_role (cfg_agent cfg)))) = Some (role_to_int (ag_role (cfg_agent cfg)))) by by destruct (ag_role _).
  cbn [mbind option_bind de_string as_str de_bool]. rw E3 E1 E2. cbn [mbind option_bind]. rw /de_u32 /de_u64 !de_unsigned_ok //.
  cbn [mbind option_bind]. rw !de_json_f32 //. cbn [mbind option_bind]. rw de_names. done.
Qed.

Lemma record_read `{SerdeJsonPrint} now : record_ok ->
  read_node now (json_to_string (node_record_json cfg draining ready gpu stats epoch)) = Some (heartbeat_entry now).
Proof. intros Hok. rw /read_node de_printed; [by apply blind_node_entry|apply Hok|]. by apply record_decodes. Qed.
End heartbeat.

(** ** Delivery *)

(** An engine that went down or came up since the last turn: a new epoch. *)
Lemma observe_flip s ready stats : saw_ready s = true -> was_ready s <> ready -> (kc_epoch s < u64_max)%Z ->
  (kc_epoch s < kc_epoch (observe s ready stats))%Z.
Proof.
  intros Hsaw Hflip Hlt. rw /observe Hsaw. destruct (was_ready s) eqn:Hw, ready; try done; cbn [andb negb bump_if].
  - cbn. lia.
  - rw Hsaw Hw. cbn [andb negb bump_if]. set (s1 := KvCacheState_bump s). assert (H1 : (kc_epoch s < kc_epoch s1 <= u64_max)%Z) by (cbn; lia).
    cbn zeta. destruct (0 <? es_total_blocks stats)%Z; [|cbn; lia]. clearbody s1. cbn [kc_epoch].
    match goal with |- context [bump_if ?b (bump_if ?c s1)] => pose proof (bump_if_mono c s1); pose proof (bump_if_mono b (bump_if c s1)) end. lia.
Qed.

(** The first turn of a session. *)
Lemma first_epoch ready stats : kc_epoch (observe KvCacheState_default ready stats) = 0%Z.
Proof. rw /observe /=. by destruct ready, (0 <? es_total_blocks stats)%Z. Qed.

Section delivery.
Context `{Os} `{SerdeJsonPrint} `{DashIter} (cfg : Config) (r : Round) (s : Session).

Definition round_stats : EngineStats := default EngineStats_default (rd_stats r).
Definition round_epoch : Z := kc_epoch (observe (ss_epoch s) (rd_ready r) round_stats).
Definition round_entry (now : Z) : NodeEntry :=
  heartbeat_entry cfg (rd_draining r) (rd_ready r) (default GpuSnapshot_default (rd_gpu r)) round_stats round_epoch now.
Definition node_key : string := NODES_PREFIX +:+ ag_node_id (cfg_agent cfg).

(** C12. A heartbeat that etcd takes is what the router then knows: the value at
    the node's key is read back as exactly the agent's own state; the registry
    has it and no other entry changed; the node is routable for a model iff its
    engine is ready, it is not draining, its role fits, and the model is the one
    it serves or one of its adapters; and when the engine went down or came up
    since the heartbeat before, which the router had reconciled, every claim on
    the node's cache is gone and no claim of another node is. *)
Theorem heartbeat_reaches_router st now :
  rd_put_ok r node_key = true ->
  record_ok cfg (rd_draining r) (rd_ready r) (default GpuSnapshot_default (rd_gpu r)) round_stats round_epoch ->
  let '(s', writes, _) := emit_round cfg r s in
  exists v others, writes = (node_key, v) :: others /\
    let st' := watch_event st (NodePut now (read_node now (json_to_string v))) in
    (forall id, cl_nodes st' !! id = if decide (id = ag_node_id (cfg_agent cfg)) then Some (round_entry now) else cl_nodes st !! id) /\
    (forall want m, round_entry now ∈ NodeRegistry_nodes_for (cl_nodes st') want (Some m) <->
       rd_ready r = true /\ rd_draining r = false /\ role_match want (round_entry now) = true /\
       (fst <$> first_model cfg = Some m \/ m ∈ adapter_names cfg)) /\
    (exists snap, cl_tracker st' !! ag_node_id (cfg_agent cfg) = Some snap /\ sn_kv_epoch snap = kc_epoch (ss_epoch s')) /\
    (forall snap, cl_tracker st !! ag_node_id (cfg_agent cfg) = Some snap -> sn_kv_epoch snap = kc_epoch (ss_epoch s) ->
       (kc_epoch (ss_epoch s) < u64_max)%Z -> saw_ready (ss_epoch s) = true -> was_ready (ss_epoch s) <> rd_ready r ->
       forall t d n, n ∈ PrefixIndex_lookup (cl_prefix st') t d <-> n <> ag_node_id (cfg_agent cfg) /\ n ∈ PrefixIndex_lookup (cl_prefix st) t d).
Proof.
  intros Hput Hok. rw /emit_round -/round_stats -/round_epoch. destruct (publish_one _ _ _ _ _ _ _) as [writes wok] eqn:Ew.
  destruct (publish_kv_confirmed _ _ _ _ _ _) as [claims cok]. rw /publish_one in Ew. cbn [put_all fst] in Ew. rw -/node_key Hput in Ew.
  destruct (put_all (rd_put_ok r) (pipeline_workers cfg (rd_ready r))) as [others ook]. injection Ew as <- <-. eexists _, others. split; [done|].
  cbn zeta. rw record_read // -/(round_entry now). cbn [watch_event]. rw /on_node_put.
  pose proof (reconcile_prunes (cl_tracker st) (cl_prefix st) now (round_entry now)) as Hp.
  destruct (reconcile _ _ _ _) as [[t' p'] why]. destruct Hp as (-> & Hp & Hwhy). cbn [cl_nodes cl_tracker cl_prefix ss_epoch].
  change (node_id (round_entry now)) with (ag_node_id (cfg_agent cfg)) in *.
  assert (Hreg : forall id, NodeRegistry_upsert (cl_nodes st) (round_entry now) !! id
    = if decide (id = ag_node_id (cfg_agent cfg)) then Some (round_entry now) else cl_nodes st !! id).
  { intros id. rw upsert_insert. case_decide as Hid; [rw Hid; by rw lookup_insert_eq|by rw lookup_insert_ne]. }
  split_and!; [exact Hreg| | |].
  - intros want m. rw elem_of_nodes_for /routable.
    assert (Hs : serves (round_entry now) m = true <-> fst <$> first_model cfg = Some m \/ m ∈ adapter_names cfg).
    { rw /serves orb_true_iff bool_decide_eq_true existsb_exists. cbn [model adapters round_entry heartbeat_entry].
      setoid_rewrite String.eqb_eq. setoid_rewrite <- list_elem_of_In. naive_solver. }
    rw -Hs. cbn [cordoned draining ready round_entry heartbeat_entry orb].
    destruct (rd_ready r), (rd_draining r); cbn [orb negb]; rw ?andb_true_iff; split; try naive_solver.
    intros (_ & _ & Hrole & Hserves). split; [|done]. exists (ag_node_id (cfg_agent cfg)). by rw Hreg decide_True.
  - eexists. by rw lookup_insert_eq.
  - intros snap Ht Hsn Hlt Hsaw Hflip t d n. pose proof (observe_flip (ss_epoch s) (rd_ready r) round_stats Hsaw Hflip Hlt) as Hgt.
    assert (why = Some EpochReset) as ->. { apply Hwhy. exists snap. split; [done|]. rw Hsn. change (kv_epoch (round_entry now)) with round_epoch. rw /round_epoch. lia. }
    rw Hp elem_of_lookup. cbn. naive_solver.
Qed.
End delivery.

(** ** What the router never sees *)

(** The record of a pipeline worker is not one of a node: its role is a word. *)
Lemma worker_unreadable `{SerdeJsonPrint} cfg name ready i w now :
  json_ok (worker_record cfg name ready i w) = true -> read_node now (json_to_string (worker_record cfg name ready i w)) = None.
Proof. intros Hok. rw /read_node de_printed //. apply blind_node_entry. Qed.

(** Nor is a record whose power is not a number: JSON has no infinities. *)
Lemma infinite_power_unreadable `{Os} `{SerdeJsonPrint} cfg draining ready gpu stats epoch now :
  json_ok (node_record_json cfg draining ready gpu stats epoch) = true ->
  is_finite (gpu_power gpu) = false \/ is_finite (ag_watt_limit (cfg_agent cfg)) = false ->
  read_node now (json_to_string (node_record_json cfg draining ready gpu stats epoch)) = None.
Proof.
  intros Hok Hinf. rw /read_node de_printed //; [by apply blind_node_entry|]. rw record_members /de_node_entry. cbn [struct_members].
  rw (_ : existsb _ node_fields = false); [by vm_compute|]. cbn [mbind option_bind]. rw /required /member. cbn [field String.eqb Ascii.eqb Bool.eqb].
  assert (Hnull : forall x, is_finite x = false -> de_f32 (json_f32 x) = None) by (intros x Hx; by rw /json_f32 Hx).
  repeat match goal with |- mbind _ ?o = None => destruct o eqn:?; cbn [mbind option_bind]; [|done] end.
  destruct Hinf as [Hi|Hi]; apply Hnull in Hi; congruence.
Qed.

(** ** Examples *)

Module HealthExamples.
Import ToyJson Cluster.Examples Supervisor.SupervisorExamples.

#[local] Existing Instance list_order.
#[local] Instance os : Os := machine 1.

Definition agent_cfg : Config := Config_default (mkHostEnv (Some "h") None "0").
Definition round (ready : bool) : Round := mkRound ready false None (Some (mkStats 2 900 1000)) [] (fun _ => true) (fun _ => true) Lease_Kept.
Definition up : Session := (emit_round agent_cfg (round true) (Session_new ∅)).1.1.

(** What the router has heard: one heartbeat, and a claim on the node. *)
Definition heard : ClusterState :=
  let st := watch_event (cluster_init 60 policy0) (NodePut 0 (Some (round_entry agent_cfg (round true) (Session_new ∅) 0))) in
  set_prefix (PrefixIndex_insert (cl_prefix st) 0 [7%Z] (ag_node_id (cfg_agent agent_cfg))) st.

Lemma heartbeat_reaches_router_witness :
  ag_node_id (cfg_agent agent_cfg) ∈ PrefixIndex_lookup (cl_prefix heard) 1 [7%Z] /\
  exists v others, (emit_round agent_cfg (round false) up).1.2 = (node_key agent_cfg, v) :: others /\
    ag_node_id (cfg_agent agent_cfg) ∉ PrefixIndex_lookup (cl_prefix (watch_event heard (NodePut 1 (read_node 1 (json_to_string v))))) 1 [7%Z].
Proof.
  split; [compute_dec|]. pose proof (heartbeat_reaches_router agent_cfg (round false) up heard 1 eq_refl) as Hh.
  assert (Hok : record_ok agent_cfg false false GpuSnapshot_default (round_stats (round false)) (round_epoch (round false) up)).
  { split; [by vm_compute|]. rw /is_u32 /is_u64. split_and!; try match goal with |- (_ <= _)%Z => by vm_compute end.
    - intros i Hi. by vm_compute in Hi.
    - repeat (apply Forall_cons; split; [split; by vm_compute|]). constructor. }
  specialize (Hh Hok). destruct (emit_round agent_cfg (round false) up) as [[s' writes] lease] eqn:E.
  destruct Hh as (v & others & -> & Hst). exists v, others. split; [done|]. destruct Hst as (_ & _ & _ & Hpurge).
  rw (Hpurge (mkSnapshot 0 900 1000)); [by vm_compute|by vm_compute|by vm_compute|by vm_compute|by vm_compute|]. by intros [? _].
Defined.

(** A session that starts anew forgets the epoch: a restart of the engine between
    two sessions is not seen, and the claims of the old process stay. *)
Example restart_between_sessions :
  let e := round_entry agent_cfg (round true) (Session_new ∅) 5 in
  kv_epoch e = 0%Z /\
  ag_node_id (cfg_agent agent_cfg) ∈ PrefixIndex_lookup (cl_prefix (watch_event heard (NodePut 5 (Some e)))) 5 [7%Z].
Proof. split; [by vm_compute|compute_dec]. Qed.
End HealthExamples.
