(* ===== verification/Scaling.v ===== *)
(** * Scaling and routing policy

    The loops that act on the cluster through etcd: the router's autoscaler
    ([cgn-router/src/autoscaler.rs]), the operator's consumer of its hints
    ([cgn-operator/src/autoscaler.rs]), its planner ([planner.rs]) and its policy
    controller ([controllers/routing_policy.rs]), with the router's reading of
    what they write. etcd is a map from keys to values; which calls fail is given.
    Kubernetes is a client library: the calls that patch a pool are outcomes. *)

From stdpp Require Import pretty.
From S2P Require Import Prelude StringFacts Float32 PrefixIndex Text BTree Json Cluster AgentKv Config Spawn Supervisor Telemetry Health.

(** ** etcd *)

Abbreviation Etcd := (gmap string string).

(** Which calls fail. *)
Record EtcdFaults := mkEtcdFaults { ef_connect : bool; ef_put : string -> bool; ef_get : string -> bool; ef_delete : string -> bool }.
Definition no_faults : EtcdFaults := mkEtcdFaults false (fun _ => false) (fun _ => false) (fun _ => false).

(** [get] with a prefix: the entries in key order. *)
Definition get_prefix (p : string) (e : Etcd) : list (string * string) :=
  List.filter (fun kv => match Cluster.strip_prefix p kv.1 with Some _ => true | None => false end) (btree_iter e).

Definition HINT_PREFIX : string := "/cognitora/autoscaler/".

(** [format!("{:.1}")] and [{:.0}]. *)
Definition format_fixed (digits : nat) (x : f32) : string :=
  let sign (s : bool) := if s then "-" else "" in
  let scale := (10 ^ Z.of_nat digits)%Z in
  let point (q : Z) :=
    if (digits =? 0)%nat then pretty q
    else
      let frac := pretty (q mod scale)%Z in
      pretty (q / scale)%Z +:+ "." +:+ foldr String.append frac (replicate (digits - String.length frac) "0") in
  match x with
  | S754_nan => "NaN"
  | S754_infinity s => sign s +:+ "inf"
  | S754_zero s => sign s +:+ point 0%Z
  | S754_finite s m e =>
      let n := (scale * Z.pos m)%Z in
      sign s +:+ point (if (0 <=? e)%Z then Z.shiftl n e else round_div_even n (2 ^ (- e)))
  end.

Example format_fixed_values :
  map (format_fixed 1) [f32_lit 25 100; f32_lit 1 32; f32_of_Z 12; f32_lit (-3) 4] = ["0.2"; "0.0"; "12.0"; "-0.8"]
  /\ map (format_fixed 0) [f32_lit 5 2; f32_lit 7 2; S754_infinity true] = ["2"; "4"; "-inf"].
Proof. by vm_compute. Qed.

(** ** The router's autoscaler *)

Definition f32_min (a b : f32) : f32 :=
  match a, b with
  | S754_nan, _ => b
  | _, S754_nan => a
  | _, _ => if f32_lt b a then b else a
  end.

Definition node_load (n : NodeEntry) : f32 :=
  f32_min (f32_div (f32_of_Z (queue_depth n)) (f32_of_Z (Z.max (node_total_blocks n) 1))) f32_one.

Definition avg_load (nodes : list NodeEntry) : f32 :=
  f32_div (foldl (fun acc n => f32_add acc (node_load n)) f32_zero nodes) (f32_of_Z (Z.of_nat (length nodes))).

Definition hundred : f32 := f32_of_Z 100.

Definition cluster_idle (cfg : AutoscalerConfig) (nodes : list NodeEntry) : bool :=
  f32_lt (f32_mul (avg_load nodes) hundred) (asc_idle_util_pct cfg).

Definition drain_node (cfg : AutoscalerConfig) (nodes : list NodeEntry) (n : NodeEntry) : bool :=
  cluster_idle cfg nodes && f32_lt (asc_high_watt_threshold cfg) (power_watts n).

Section loops.
Context `{SerdeJson}.
(** [Utc::now().to_rfc3339()]. *)
Variable (stamp : string).

Definition drain_reason (cfg : AutoscalerConfig) (nodes : list NodeEntry) (n : NodeEntry) : string :=
  if drain_node cfg nodes n then
    "idle (avg " +:+ format_fixed 1 (f32_mul (avg_load nodes) hundred) +:+ "%); watts " +:+ format_fixed 0 (power_watts n) +:+ " > threshold "
    +:+ format_fixed 0 (asc_high_watt_threshold cfg)
  else "active".

Definition hint_json (cfg : AutoscalerConfig) (nodes : list NodeEntry) (n : NodeEntry) : Json :=
  JObject (json_object
    [("drain", JBool (drain_node cfg nodes n)); ("reason", JString (drain_reason cfg nodes n)); ("watts", json_f32 (power_watts n));
     ("stamp", JString stamp)]).

(** A put that fails is logged. *)
Definition put_hint (cfg : AutoscalerConfig) (f : EtcdFaults) (nodes : list NodeEntry) (e : Etcd) (n : NodeEntry) : Etcd :=
  let key := HINT_PREFIX +:+ node_id n in
  if ef_put f key then e else <[key := json_to_string (hint_json cfg nodes n)]> e.

(** [tick]; [nodes] is the registry's snapshot. *)
Definition autoscaler_tick (cfg : Config) (f : EtcdFaults) (nodes : list NodeEntry) (e : Etcd) : Etcd * result unit Error :=
  match nodes, cc_etcd_endpoints (cfg_cluster cfg) with
  | [], _ | _, [] => (e, Ok tt)
  | _, _ =>
      if ef_connect f then (e, Err (Error_Etcd "connect"))
      else (foldl (put_hint (rc_autoscaler (cfg_router cfg)) f nodes) e nodes, Ok tt)
  end.

(** ** The operator's consumer *)

Record Hint := mkHint { hint_drain : bool; hint_reason : string }.
Definition de_hint (v : Json) : option Hint :=
  f ← struct_members ["drain"; "reason"] v;
  d ← required de_bool "drain" f;
  r ← member de_string "" "reason" f;
  Some (mkHint d r).

Definition is_autoscaler_cordon (value : string) : bool :=
  match (json_from_str value ≫= json_get "set_by") ≫= as_str with Some s => String.eqb s "autoscaler" | None => false end.

Definition cordon_json (reason : string) : Json :=
  JObject (json_object [("set_by", JString "autoscaler"); ("reason", JString reason); ("stamp", JString stamp)]).

(** [value_str().ok()]. *)
Definition text_value (e : Etcd) (key : string) : option string :=
  match e !! key with Some v => if utf8_ok v then Some v else None | None => None end.

Definition apply_hint (f : EtcdFaults) (id : string) (h : Hint) (e : Etcd) : Etcd * result unit Error :=
  let key := CORDON_PREFIX +:+ id in
  if ef_get f key then (e, Err (Error_Etcd "get cordon"))
  else if hint_drain h then
    match text_value e key with
    | Some _ => (e, Ok tt)
    | None => if ef_put f key then (e, Err (Error_Etcd "put cordon")) else (<[key := json_to_string (cordon_json (hint_reason h))]> e, Ok tt)
    end
  else if (match text_value e key with Some v => is_autoscaler_cordon v | None => false end) then
    if ef_delete f key then (e, Err (Error_Etcd "delete cordon")) else (delete key e, Ok tt)
  else (e, Ok tt).

Fixpoint apply_hints (f : EtcdFaults) (kvs : list (string * string)) (e : Etcd) : Etcd * result unit Error :=
  match kvs with
  | [] => (e, Ok tt)
  | (key, value) :: kvs =>
      match (if utf8_ok key then Cluster.strip_prefix HINT_PREFIX key else None) with
      | None => apply_hints f kvs e
      | Some id =>
          match json_tree value ≫= de_hint with
          | None => apply_hints f kvs e
          | Some h =>
              let (e, r) := apply_hint f id h e in
              match r with Ok _ => apply_hints f kvs e | Err x => (e, Err x) end
          end
      end
  end.

Definition consumer_tick (f : EtcdFaults) (e : Etcd) : Etcd * result unit Error :=
  if ef_connect f then (e, Err (Error_Etcd "connect"))
  else if ef_get f HINT_PREFIX then (e, Err (Error_Etcd "get hints"))
  else apply_hints f (get_prefix HINT_PREFIX e) e.
End loops.

(** ** The loop through etcd *)

Lemma strip_prefix_iff p s t : Cluster.strip_prefix p s = Some t <-> s = p +:+ t.
Proof.
  split; [|intros ->; by apply strip_prefix_app]. revert s. induction p as [|a p IH]; intros s; cbn; [by intros [= ->]|].
  destruct s as [|b s]; [done|]. case_decide as Hab; [|done]. subst b. intros Hs. by rw (IH s Hs).
Qed.

Lemma append_cancel p a b : p +:+ a = p +:+ b -> a = b.
Proof. intros E. assert (Some a = Some b) as [= ?]; [|done]. by rw -(strip_prefix_app p a) E strip_prefix_app. Qed.

Lemma hint_not_cordon a b : HINT_PREFIX +:+ a <> CORDON_PREFIX +:+ b.
Proof. done. Qed.

Lemma elem_of_get_prefix p e k v : (k, v) ∈ get_prefix p e <-> e !! k = Some v /\ exists id, k = p +:+ id.
Proof.
  rw /get_prefix list_elem_of_In filter_In -list_elem_of_In elem_of_btree_iter. cbn [fst]. split; intros [He Hp]; (split; [done|]).
  - destruct (Cluster.strip_prefix p k) as [id|] eqn:E; [|done]. exists id. by apply strip_prefix_iff.
  - destruct Hp as [id ->]. by rw strip_prefix_app.
Qed.

Lemma NoDup_get_prefix p e : NoDup (get_prefix p e).*1.
Proof.
  assert (Hn : NoDup (btree_iter e).*1) by (rw btree_iter_perm; apply NoDup_fst_map_to_list).
  rw /get_prefix. induction (btree_iter e) as [|[k v] l IH]; [constructor|]. cbn in Hn |- *. apply NoDup_cons in Hn as [Hk Hn].
  destruct (Cluster.strip_prefix p k); [|by apply IH]. cbn. apply NoDup_cons. split; [|by apply IH].
  intros Hin. apply Hk. apply list_elem_of_fmap in Hin as ([k' v'] & -> & Hin). apply list_elem_of_fmap. exists (k', v'). split; [done|].
  rw list_elem_of_In in Hin. apply filter_In in Hin as [Hin _]. by apply list_elem_of_In.
Qed.

Section settle.
Context `{SerdeJson} (stamp : string).

(** What a hint makes of a cordon. *)
Definition as_text (v : option string) : option string := match v with Some v => if utf8_ok v then Some v else None | None => None end.
Definition settle (h : option Hint) (v : option string) : option string :=
  match h with
  | None => v
  | Some h =>
      if hint_drain h then match as_text v with Some _ => v | None => Some (json_to_string (cordon_json stamp (hint_reason h))) end
      else match as_text v with Some t => if is_autoscaler_cordon t then None else v | None => v end
  end.

Lemma apply_hint_settles id h e :
  exists e', apply_hint stamp no_faults id h e = (e', Ok tt) /\
    forall k, e' !! k = if decide (k = CORDON_PREFIX +:+ id) then settle (Some h) (e !! k) else e !! k.
Proof.
  rw /apply_hint /settle -/(as_text (e !! (CORDON_PREFIX +:+ id))). cbn [ef_get ef_put ef_delete no_faults].
  change (text_value e (CORDON_PREFIX +:+ id)) with (as_text (e !! (CORDON_PREFIX +:+ id))).
  destruct (hint_drain h), (as_text (e !! (CORDON_PREFIX +:+ id))) as [t|] eqn:Et; cbn [andb].
  - exists e. split; [done|]. intros k. case_decide as Hk; [|done]. subst k. by rw Et.
  - eexists. split; [done|]. intros k. case_decide as Hk; [subst k; by rw lookup_insert_eq Et|by rw lookup_insert_ne].
  - destruct (is_autoscaler_cordon t) eqn:Ec.
    + eexists. split; [done|]. intros k. case_decide as Hk; [subst k; by rw lookup_delete_eq Et Ec|by rw lookup_delete_ne].
    + exists e. split; [done|]. intros k. case_decide as Hk; [|done]. subst k. by rw Et Ec.
  - exists e. split; [done|]. intros k. case_decide as Hk; [|done]. subst k. by rw Et.
Qed.

(** The hint for a node in what was read. *)
Definition read_hint (value : string) : option Hint := json_tree value ≫= de_hint.
Fixpoint hint_in (kvs : list (string * string)) (id : string) : option Hint :=
  match kvs with
  | [] => None
  | (k, v) :: kvs => if decide (k = HINT_PREFIX +:+ id) then (if utf8_ok k then read_hint v else None) else hint_in kvs id
  end.

Lemma hint_in_absent kvs id : HINT_PREFIX +:+ id ∉ kvs.*1 -> hint_in kvs id = None.
Proof.
  induction kvs as [|[k v] kvs IH]; [done|]. cbn. intros Hn. apply not_elem_of_cons in Hn as [Hk Hn]. rw decide_False; [done|]. by apply IH.
Qed.

Lemma apply_hints_settle kvs : NoDup kvs.*1 -> forall e,
  exists e', apply_hints stamp no_faults kvs e = (e', Ok tt) /\
    (forall id, e' !! (CORDON_PREFIX +:+ id) = settle (hint_in kvs id) (e !! (CORDON_PREFIX +:+ id))) /\
    (forall k, (forall id, k <> CORDON_PREFIX +:+ id) -> e' !! k = e !! k).
Proof.
  induction kvs as [|[k v] kvs IH]; intros Hnd e; [by exists e|]. cbn in Hnd. apply NoDup_cons in Hnd as [Hk Hnd]. cbn [apply_hints].
  destruct (utf8_ok k) eqn:Eu; cycle 1.
  { destruct (IH Hnd e) as (e' & E & Hc & Ho). exists e'. split; [done|]. split; [|done]. intros id. rw Hc. cbn [hint_in]. case_decide as Hd; [|done].
    rw Eu. subst k. by rw hint_in_absent. }
  destruct (Cluster.strip_prefix HINT_PREFIX k) as [i|] eqn:Es; cycle 1.
  { destruct (IH Hnd e) as (e' & E & Hc & Ho). exists e'. split; [done|]. split; [|done]. intros id. rw Hc. cbn [hint_in]. case_decide as Hd; [|done].
    subst k. by rw strip_prefix_app in Es. }
  apply strip_prefix_iff in Es as ->. rw -/(read_hint v). destruct (read_hint v) as [h|] eqn:Eh; cycle 1.
  { destruct (IH Hnd e) as (e' & E & Hc & Ho). exists e'. split; [done|]. split; [|done]. intros id. rw Hc. cbn [hint_in]. case_decide as Hd; [|done].
    rw Eu Eh. apply append_cancel in Hd as ->. by rw hint_in_absent. }
  destruct (apply_hint_settles i h e) as (e1 & -> & H1). destruct (IH Hnd e1) as (e' & E & Hc & Ho). exists e'. split; [done|]. split.
  - intros id. rw Hc H1. cbn [hint_in]. rw Eu Eh. destruct (decide (CORDON_PREFIX +:+ id = CORDON_PREFIX +:+ i)) as [Hd|Hd].
    + apply append_cancel in Hd as ->. by rw decide_True // hint_in_absent.
    + rw decide_False //. intros Hd'. apply Hd. by apply append_cancel in Hd' as ->.
  - intros k Hne. rw Ho // H1 decide_False //.
Qed.

Lemma hint_in_prefix e id : hint_in (get_prefix HINT_PREFIX e) id = if utf8_ok (HINT_PREFIX +:+ id) then e !! (HINT_PREFIX +:+ id) ≫= read_hint else None.
Proof.
  pose proof (elem_of_get_prefix HINT_PREFIX e) as He. pose proof (NoDup_get_prefix HINT_PREFIX e) as Hn.
  destruct (e !! (HINT_PREFIX +:+ id)) as [v|] eqn:E.
  - assert (Hin : (HINT_PREFIX +:+ id, v) ∈ get_prefix HINT_PREFIX e) by (apply He; eauto). clear He E. cbn [mbind option_bind].
    induction (get_prefix HINT_PREFIX e) as [|[k w] l IH]; [by apply elem_of_nil in Hin|]. cbn in Hn. apply NoDup_cons in Hn as [Hk Hn].
    cbn [hint_in]. case_decide as Hd.
    + subst k. apply elem_of_cons in Hin as [[= <-]|Hin]; [done|]. destruct Hk. apply list_elem_of_fmap. by exists (HINT_PREFIX +:+ id, v).
    + apply elem_of_cons in Hin as [[= Hd' _]|Hin]; [by destruct Hd|]. by apply IH.
  - rw hint_in_absent; [|by case_match]. intros Hin. apply list_elem_of_fmap in Hin as ([k w] & Hkw & Hin). cbn in Hkw. subst k.
    apply He in Hin as [Hin _]. by rw E in Hin.
Qed.
End settle.

(** ** Hints and cordons agree *)

Section agree.
Context `{SerdeJsonPrint} (stamp : string) (cfg : Config) (nodes : list NodeEntry).

Definition asc : AutoscalerConfig := rc_autoscaler (cfg_router cfg).
Definition hint_of (n : NodeEntry) : Json := hint_json stamp asc nodes n.

Lemma put_hints l : NoDup (node_id <$> l) -> forall e,
  let e' := foldl (put_hint stamp asc no_faults nodes) e l in
  (forall n, n ∈ l -> e' !! (HINT_PREFIX +:+ node_id n) = Some (json_to_string (hint_of n))) /\
  (forall k, (forall n, n ∈ l -> k <> HINT_PREFIX +:+ node_id n) -> e' !! k = e !! k).
Proof.
  induction l as [|x l IH]; intros Hnd e; cbn zeta; [split; [by intros n ?%elem_of_nil|done]|]. cbn in Hnd. apply NoDup_cons in Hnd as [Hx Hnd]. cbn [foldl].
  destruct (IH Hnd (put_hint stamp asc no_faults nodes e x)) as [Hin Hout]. split.
  - intros n [->|Hn]%elem_of_cons; [|by apply Hin]. rw Hout; [|by rw /put_hint /= lookup_insert_eq].
    intros n Hn Hk%append_cancel. apply Hx. rw Hk. by apply list_elem_of_fmap_2.
  - intros k Hk. rw Hout; [intros n Hn; apply Hk; by right|]. rw /put_hint /= lookup_insert_ne //. intros <-. by apply (Hk x); [left|].
Qed.

Lemma blind_hint : blind de_hint.
Proof. apply blind_struct. intros f g Hf. rw (blind_required _ _ f g) ?(blind_member _ _ _ f g); auto with cgn. Qed.

Lemma hint_members n : hint_of n = JObject
  [("drain", JBool (drain_node asc nodes n)); ("reason", JString (drain_reason asc nodes n)); ("stamp", JString stamp); ("watts", json_f32 (power_watts n))].
Proof. reflexivity. Qed.

Lemma hint_read n : json_ok (hint_of n) = true -> read_hint (json_to_string (hint_of n)) = Some (mkHint (drain_node asc nodes n) (drain_reason asc nodes n)).
Proof. intros Hok. rw /read_hint de_printed //. apply blind_hint. Qed.

(** A cordon of ours is known as ours. *)
Lemma cordon_read r : utf8_ok r = true -> utf8_ok stamp = true ->
  as_text (Some (json_to_string (cordon_json stamp r))) = Some (json_to_string (cordon_json stamp r)) /\
  is_autoscaler_cordon (json_to_string (cordon_json stamp r)) = true.
Proof.
  intros Hr Hs. assert (E : cordon_json stamp r = JObject [("reason", JString r); ("set_by", JString "autoscaler"); ("stamp", JString stamp)]) by reflexivity.
  rw E. set (f := [_; _; _]). assert (Hok : json_ok (JObject f) = true) by (rw /f /= Hr Hs; done). split.
  - by rw /as_text printed_utf8.
  - rw /is_autoscaler_cordon /json_from_str printed_tree //.
Qed.

End agree.

(** ** The planner *)

Record SloSpec := mkSlo { slo_max_queue : option Z; slo_min : option Z; slo_max : option Z; slo_cooldown_secs : option Z }.
Record ModelPoolSpec := mkPoolSpec {
  mp_model : string;
  mp_tp : Z;
  mp_prefill_replicas : Z;
  mp_decode_replicas : Z;
  mp_cascade : list string;
  mp_max_model_len : option Z;
  mp_extra_args : list string;
  mp_slo : option SloSpec;
}.
Record ModelPool := mkPool { pool_name : string; pool_namespace : option string; pool_spec : ModelPoolSpec }.

Definition DEFAULT_MIN_REPLICAS : Z := 1.
Definition DEFAULT_COOLDOWN_SECS : Z := 120.

Record Heartbeat := mkHeartbeat { hb_model : option string; hb_queue_depth : Z; hb_ready : bool }.
Definition de_heartbeat (v : Json) : option Heartbeat :=
  f ← struct_members ["model"; "queue_depth"; "ready"] v;
  m ← member (de_option de_string) None "model" f;
  q ← member de_u32 0%Z "queue_depth" f;
  r ← member de_bool false "ready" f;
  Some (mkHeartbeat m q r).

Definition fetch_heartbeats `{SerdeJson} (f : EtcdFaults) (e : Etcd) : result (list Heartbeat) Error :=
  if ef_connect f then Err (Error_Etcd "connect")
  else if ef_get f NODES_PREFIX then Err (Error_Etcd "get nodes")
  else Ok (omap (fun kv => json_tree kv.2 ≫= de_heartbeat) (get_prefix NODES_PREFIX e)).

(** [u32::clamp]; the caller keeps [lo <= hi]. *)
Definition clamp_u32 (x lo hi : Z) : Z := if (x <? lo)%Z then lo else if (hi <? x)%Z then hi else x.
Definition div_ceil (a b : Z) : Z := let q := (a / b)%Z in if (0 <? a mod b)%Z then (q + 1)%Z else q.

Definition desired_replicas (total_queue max_queue_per_replica lo hi : Z) : Z :=
  let per := Z.max max_queue_per_replica 1 in
  clamp_u32 (div_ceil total_queue per) lo (Z.max hi lo).

(** [sum] of [u32]s wraps in the release build. *)
Definition total_queue (model : string) (hbs : list Heartbeat) : Z :=
  (foldr (fun h acc => if hb_ready h && bool_decide (hb_model h = Some model) then hb_queue_depth h + acc else acc) 0 hbs mod 2 ^ 32)%Z.

Definition pool_key (p : ModelPool) : string := default "default" (pool_namespace p) +:+ "/" +:+ pool_name p.

Abbreviation LastScale := (gmap string Z).

(** What the planner asks of Kubernetes for a pool: a patch of its decode
    replicas, or nothing. [patch_ok] is the answer. *)
Definition plan_pool (patch_ok : bool) (now : Z) (p : ModelPool) (slo : SloSpec) (max_queue : Z) (hbs : list Heartbeat) (last : LastScale)
    : LastScale * option Z * result unit Error :=
  if (max_queue =? 0)%Z then (last, None, Ok tt)
  else
    let current := mp_decode_replicas (pool_spec p) in
    let lo := default DEFAULT_MIN_REPLICAS (slo_min slo) in
    let hi := default current (slo_max slo) in
    let desired := desired_replicas (total_queue (mp_model (pool_spec p)) hbs) max_queue lo hi in
    if (desired =? current)%Z then (last, None, Ok tt)
    else
      let cooldown := secs (default DEFAULT_COOLDOWN_SECS (slo_cooldown_secs slo)) in
      if (match last !! pool_key p with Some t => (duration_since now t <? cooldown)%Z | None => false end) then (last, None, Ok tt)
      else if patch_ok then (<[pool_key p := now]> last, Some desired, Ok tt)
      else (last, None, Err (Error_Unavailable "patch model pool spec")).

(** The pools of a tick: those with a target. A pool's error is logged. *)
Definition slo_of (p : ModelPool) : option (SloSpec * Z) := s ← mp_slo (pool_spec p); q ← slo_max_queue s; Some (s, q).

Fixpoint plan_pools (patch_ok : string -> bool) (now : Z) (pools : list ModelPool) (hbs : list Heartbeat) (last : LastScale)
    : LastScale * list (string * Z) :=
  match pools with
  | [] => (last, [])
  | p :: pools =>
      match slo_of p with
      | None => plan_pools patch_ok now pools hbs last
      | Some (slo, q) =>
          let '(last, patch, _) := plan_pool (patch_ok (pool_key p)) now p slo q hbs last in
          let (last, more) := plan_pools patch_ok now pools hbs last in
          (last, match patch with Some d => (pool_key p, d) :: more | None => more end)
      end
  end.

Definition planner_tick `{SerdeJson} (f : EtcdFaults) (patch_ok : string -> bool) (now : Z) (pools : list ModelPool) (e : Etcd) (last : LastScale)
    : LastScale * list (string * Z) * result unit Error :=
  if forallb (fun p => match slo_of p with Some _ => false | None => true end) pools then (last, [], Ok tt)
  else
    match fetch_heartbeats f e with
    | Err x => (last, [], Err x)
    | Ok hbs => let (last, patches) := plan_pools patch_ok now pools hbs last in (last, patches, Ok tt)
    end.

(** *** Sizing *)

Lemma div_ceil_spec a b : (0 <= a)%Z -> (0 < b)%Z -> (a <= div_ceil a b * b)%Z /\ ((div_ceil a b - 1) * b < a)%Z /\ (0 <= div_ceil a b)%Z.
Proof.
  intros Ha Hb. rw /div_ceil. cbn zeta. pose proof (Z.div_mod a b) as Hd. pose proof (Z.mod_pos_bound a b Hb) as Hm.
  assert (0 <= a / b)%Z by (by apply Z.div_pos). destruct (0 <? a mod b)%Z eqn:E; [apply Z.ltb_lt in E|apply Z.ltb_ge in E]; nia.
Qed.

(** The replicas asked for: within the bounds, enough for the queue unless the
    ceiling is reached, and no more than that unless the floor asks for them. *)
Lemma desired_spec q per lo hi : (0 <= q)%Z -> (0 < per)%Z -> (0 <= lo)%Z ->
  let d := desired_replicas q per lo hi in
  (lo <= d <= Z.max hi lo)%Z /\ (q <= d * per \/ d = Z.max hi lo)%Z /\ ((d - 1) * per < q \/ d = lo)%Z.
Proof.
  intros Hq Hper Hlo. cbn zeta. rw /desired_replicas /clamp_u32 (Z.max_l per 1); [lia|].
  destruct (div_ceil_spec q per Hq Hper) as (H1 & H2 & H3). destruct (div_ceil q per <? lo)%Z eqn:E1; [apply Z.ltb_lt in E1|apply Z.ltb_ge in E1].
  - split; [lia|]. split; [|by right]. left. nia.
  - destruct (Z.max hi lo <? div_ceil q per)%Z eqn:E2; [apply Z.ltb_lt in E2|apply Z.ltb_ge in E2].
    + split; [lia|]. split; [by right|]. left. nia.
    + split; [lia|]. split; by left.
Qed.

(** When a pool is patched, and to what. *)
Definition wanted (p : ModelPool) (slo : SloSpec) (q : Z) (hbs : list Heartbeat) : Z :=
  let current := mp_decode_replicas (pool_spec p) in
  desired_replicas (total_queue (mp_model (pool_spec p)) hbs) q (default DEFAULT_MIN_REPLICAS (slo_min slo)) (default current (slo_max slo)).
Definition cooling (slo : SloSpec) (now : Z) (last : option Z) : bool :=
  match last with Some t => (duration_since now t <? secs (default DEFAULT_COOLDOWN_SECS (slo_cooldown_secs slo)))%Z | None => false end.
Definition patched (patch_ok : string -> bool) (now : Z) (hbs : list Heartbeat) (last : LastScale) (p : ModelPool) (d : Z) : Prop :=
  exists slo q, slo_of p = Some (slo, q) /\ q <> 0%Z /\ d = wanted p slo q hbs /\ d <> mp_decode_replicas (pool_spec p) /\
    cooling slo now (last !! pool_key p) = false /\ patch_ok (pool_key p) = true.

Lemma plan_pool_spec patch_ok now p slo q hbs last : slo_of p = Some (slo, q) ->
  let '(last', patch, _) := plan_pool (patch_ok (pool_key p)) now p slo q hbs last in
  (forall d, patch = Some d <-> patched patch_ok now hbs last p d) /\
  last' = match patch with Some _ => <[pool_key p := now]> last | None => last end.
Proof.
  intros Hslo. rw /plan_pool -/(wanted p slo q hbs) -/(cooling slo now (last !! pool_key p)).
  assert (Hp : forall d, patched patch_ok now hbs last p d <-> q <> 0%Z /\ d = wanted p slo q hbs /\ d <> mp_decode_replicas (pool_spec p) /\
    cooling slo now (last !! pool_key p) = false /\ patch_ok (pool_key p) = true) by (rw /patched Hslo; naive_solver).
  destruct (q =? 0)%Z eqn:Eq; [apply Z.eqb_eq in Eq; split; [intros d; rw Hp; naive_solver|done]|apply Z.eqb_neq in Eq].
  destruct (wanted p slo q hbs =? mp_decode_replicas (pool_spec p))%Z eqn:Ew; [apply Z.eqb_eq in Ew; split; [intros d; rw Hp; naive_solver|done]|apply Z.eqb_neq in Ew].
  destruct (cooling slo now (last !! pool_key p)) eqn:Ec; [split; [intros d; rw Hp; naive_solver|done]|].
  destruct (patch_ok (pool_key p)); (split; [intros d; rw Hp; naive_solver|done]).
Qed.

Lemma slo_key p slo q : slo_of p = Some (slo, q) -> slo_max_queue slo = Some q /\ mp_slo (pool_spec p) = Some slo.
Proof. rw /slo_of. destruct (mp_slo (pool_spec p)) as [s|]; [|done]. cbn. destruct (slo_max_queue s) eqn:E; [|done]. by intros [= <- <-]. Qed.

Lemma plan_pools_spec patch_ok now hbs pools : NoDup (pool_key <$> pools) -> forall last,
  let '(last', patches) := plan_pools patch_ok now pools hbs last in
  (forall k d, (k, d) ∈ patches <-> exists p, p ∈ pools /\ pool_key p = k /\ patched patch_ok now hbs last p d) /\
  (forall k, last' !! k = if decide (k ∈ patches.*1) then Some now else last !! k).
Proof.
  induction pools as [|p pools IH]; intros Hnd last.
  { cbn [plan_pools]. split; [intros k d; split; [by intros ?%elem_of_nil|by intros (? & ?%elem_of_nil & _)]|]. intros k. by case_decide as Hin; [apply elem_of_nil in Hin|]. }
  cbn in Hnd. apply NoDup_cons in Hnd as [Hk Hnd]. cbn [plan_pools].
  assert (Hother : forall x, x ∈ pools -> pool_key x <> pool_key p) by (intros x Hx E; apply Hk; rw -E; by apply list_elem_of_fmap_2).
  destruct (slo_of p) as [[slo q]|] eqn:Es; cycle 1.
  { specialize (IH Hnd last). destruct (plan_pools _ _ _ _ _) as [last' patches]. destruct IH as [Hp Hl]. split; [|done].
    intros k d. rw Hp. setoid_rewrite elem_of_cons. split; [naive_solver|]. intros (x & [->|Hx] & Hkx & Hpat); [|by exists x].
    destruct Hpat as (? & ? & ? & _). congruence. }
  pose proof (plan_pool_spec patch_ok now p slo q hbs last Es) as H1. destruct (plan_pool _ _ _ _ _ _ _) as [[last1 patch] r]. destruct H1 as [H1 ->].
  specialize (IH Hnd (match patch with Some _ => <[pool_key p := now]> last | None => last end)).
  destruct (plan_pools _ _ _ _ _) as [last' more]. destruct IH as [Hp Hl].
  assert (Hsame : forall x d, x ∈ pools -> patched patch_ok now hbs (match patch with Some _ => <[pool_key p := now]> last | None => last end) x d <->
    patched patch_ok now hbs last x d).
  { intros x d Hx. rw /patched. destruct patch; [|done]. rw lookup_insert_ne //. intros E. by apply (Hother x Hx). }
  split.
  - intros k d. assert (Hmore : (k, d) ∈ more <-> exists x, x ∈ pools /\ pool_key x = k /\ patched patch_ok now hbs last x d).
    { rw Hp. split; intros (x & Hx & Hkx & Hpat); exists x; (split; [done|]); (split; [done|]); by apply Hsame. }
    setoid_rewrite elem_of_cons. destruct patch as [d'|].
    + rw elem_of_cons Hmore. pose proof (H1 d') as [Hd' _]. specialize (Hd' eq_refl). split.
      * intros [[= -> ->]|(x & Hx & ?)]; [exists p|exists x]; naive_solver.
      * intros (x & [->|Hx] & Hkx & Hpat); [|right; by exists x]. left. apply H1 in Hpat as [= ->]. by rw Hkx.
    + rw Hmore. split; [naive_solver|]. intros (x & [->|Hx] & Hkx & Hpat); [|by exists x]. by apply H1 in Hpat.
  - intros k. rw Hl. destruct patch as [d'|]; [|done]. cbn [fmap list_fmap fst]. case_decide as Hin.
    + rw decide_True //. by right.
    + destruct (decide (k = pool_key p)) as [->|Hne]; [by rw lookup_insert_eq decide_True; [left|]|].
      rw lookup_insert_ne // decide_False //. by intros [?|?]%elem_of_cons.
Qed.

(** The numbers of a pool's objective are unsigned. *)
Definition slo_ok (p : ModelPool) : Prop := forall slo q, slo_of p = Some (slo, q) ->
  (0 <= q)%Z /\ (forall n, slo_min slo = Some n -> (0 <= n)%Z).

Lemma total_queue_nonneg m hbs : (0 <= total_queue m hbs)%Z.
Proof. rw /total_queue. by apply Z.mod_pos_bound. Qed.

(** C29. A planner tick sizes the pools by their queues: a pool is patched only
    when it has a target, its count is not the wanted one, and its last patch is
    older than its cooldown; then the count is within the pool's bounds, enough
    that no replica has more than the target queued unless the ceiling is reached,
    and no larger than that unless the floor asks for it. Every pool that wants
    another count and is not cooling down is patched; and right after a patch
    the pool cools down: the next tick before its end leaves it alone. *)
Theorem planner_tick_correct `{SerdeJson} f patch_ok now pools e last : NoDup (pool_key <$> pools) -> Forall slo_ok pools ->
  let '(last', patches, r) := planner_tick f patch_ok now pools e last in
  (forall k d, (k, d) ∈ patches -> exists p slo q hbs, p ∈ pools /\ pool_key p = k /\ slo_of p = Some (slo, q) /\ fetch_heartbeats f e = Ok hbs /\
     cooling slo now (last !! k) = false /\ d <> mp_decode_replicas (pool_spec p) /\
     let lo := default DEFAULT_MIN_REPLICAS (slo_min slo) in
     let ceiling := Z.max (default (mp_decode_replicas (pool_spec p)) (slo_max slo)) lo in
     let queued := total_queue (mp_model (pool_spec p)) hbs in
     (lo <= d <= ceiling /\ (queued <= d * q \/ d = ceiling) /\ ((d - 1) * q < queued \/ d = lo))%Z) /\
  (forall p slo q hbs, p ∈ pools -> slo_of p = Some (slo, q) -> q <> 0%Z -> fetch_heartbeats f e = Ok hbs ->
     wanted p slo q hbs <> mp_decode_replicas (pool_spec p) -> cooling slo now (last !! pool_key p) = false -> patch_ok (pool_key p) = true ->
     (pool_key p, wanted p slo q hbs) ∈ patches) /\
  (forall k d, (k, d) ∈ patches -> last' !! k = Some now /\
     forall f' ok' later e' pools', NoDup (pool_key <$> pools') ->
       (forall p slo q, p ∈ pools' -> pool_key p = k -> slo_of p = Some (slo, q) -> cooling slo later (Some now) = true) ->
       forall d', (k, d') ∉ (planner_tick f' ok' later pools' e' last').1.2).
Proof.
  intros Hnd Hok. rw Forall_forall in Hok. rw /planner_tick. destruct (forallb _ pools) eqn:Eall.
  { split_and!; [by intros k d ?%elem_of_nil| |by intros k d ?%elem_of_nil]. intros p slo q hbs Hp Hs. rw forallb_forall in Eall.
    apply list_elem_of_In in Hp. specialize (Eall p Hp). by rw Hs in Eall. }
  destruct (fetch_heartbeats f e) as [hbs|x]; [|by split_and!; [intros k d ?%elem_of_nil|..|intros k d ?%elem_of_nil]].
  pose proof (plan_pools_spec patch_ok now hbs pools Hnd last) as Hs. destruct (plan_pools _ _ _ _ _) as [last' patches]. destruct Hs as [Hp Hl].
  split_and!.
  - intros k d Hkd. apply Hp in Hkd as (p & Hin & Hk & slo & q & Es & Hq & -> & Hne & Hcool & _). destruct (Hok p Hin slo q Es) as [Hq0 Hlo].
    exists p, slo, q, hbs. rw -Hk.
    destruct (desired_spec (total_queue (mp_model (pool_spec p)) hbs) q (default DEFAULT_MIN_REPLICAS (slo_min slo))
      (default (mp_decode_replicas (pool_spec p)) (slo_max slo))) as (D1 & D2 & D3).
    { apply total_queue_nonneg. } { lia. }
    { destruct (slo_min slo) as [n|] eqn:En; [by apply (Hlo n)|done]. }
    rw -/(wanted p slo q hbs) in D1 D2 D3. split_and!; first [done|lia].
  - intros p slo q hbs' Hin Es Hq [= <-] Hw Hcool Hpok. apply Hp. exists p. split; [done|]. split; [done|]. by exists slo, q.
  - intros k d Hkd. assert (Hnow : last' !! k = Some now) by (rw Hl decide_True //; apply list_elem_of_fmap; by exists (k, d)).
    split; [done|]. intros f' ok' later e' pools' Hnd' Hcool d' Hin. destruct (forallb _ pools'); [by apply elem_of_nil in Hin|].
    destruct (fetch_heartbeats f' e') as [hbs'|]; [|by apply elem_of_nil in Hin].
    pose proof (plan_pools_spec ok' later hbs' pools' Hnd' last') as Hs'. destruct (plan_pools _ _ _ _ _) as [last2 patches']. destruct Hs' as [Hp' _].
    cbn [fst snd] in Hin. apply Hp' in Hin as (p & Hpin & Hk & slo & q & Es & _ & _ & _ & Hc & _). rw Hk Hnow in Hc.
    by rw (Hcool p slo q Hpin Hk Es) in Hc.
Qed.

(** Without a ceiling of its own a pool only shrinks, down to its floor: the count
    the planner left is the next ceiling. *)
Lemma no_ceiling_shrinks p slo q hbs : slo_max slo = None -> (0 < q)%Z -> (0 <= default DEFAULT_MIN_REPLICAS (slo_min slo) <= mp_decode_replicas (pool_spec p))%Z ->
  (wanted p slo q hbs <= mp_decode_replicas (pool_spec p))%Z.
Proof.
  intros Hmax Hq Hlo. rw /wanted Hmax. destruct (desired_spec (total_queue (mp_model (pool_spec p)) hbs) q (default DEFAULT_MIN_REPLICAS (slo_min slo))
    (mp_decode_replicas (pool_spec p))) as ([_ H1] & _ & _); [apply total_queue_nonneg|lia|lia|]. cbn [default]. lia.
Qed.

(** What the planner reads of the agents' records: the main one as it is, a pipeline
    worker's as one without a model. *)
Lemma heartbeat_planned `{Os} cfg draining ready gpu stats epoch : is_u32 (es_queue_depth stats) ->
  de_heartbeat (node_record_json cfg draining ready gpu stats epoch) = Some (mkHeartbeat (fst <$> first_model cfg) (es_queue_depth stats) ready).
Proof.
  intros Hq. rw record_members /de_heartbeat. cbn [struct_members]. rw (_ : existsb _ _ = false); [by vm_compute|]. cbn [mbind option_bind].
  rw /member. cbn [field String.eqb Ascii.eqb Bool.eqb].
  rw (_ : de_option de_string (json_opt_str (fst <$> first_model cfg)) = Some (fst <$> first_model cfg)); [by destruct (first_model cfg)|].
  cbn [mbind option_bind]. rw /de_u32 de_unsigned_ok //.
Qed.

Lemma worker_planned cfg name ready i w : de_heartbeat (worker_record cfg name ready i w) = Some (mkHeartbeat None 0 ready).
Proof. reflexivity. Qed.

(** ** Routing policies *)

Record RoutingPolicySpec := mkPolicySpec { ps_kv : f32; ps_load : f32; ps_power : f32; ps_capacity : f32; ps_max_queue : option Z; ps_ttft_slo_ms : option Z }.

Definition POLICY_KEY : string := "/cognitora/routing/policy".

Definition policy_json (s : RoutingPolicySpec) : Json :=
  JObject (json_object
    [("kv", json_f32 (ps_kv s)); ("load", json_f32 (ps_load s)); ("power", json_f32 (ps_power s)); ("capacity", json_f32 (ps_capacity s));
     ("max_queue", json_opt_u32 (ps_max_queue s)); ("ttft_slo_ms", json_opt_u32 (ps_ttft_slo_ms s))]).

(** The endpoints of [COGNITORA_ETCD]. *)
Definition policy_endpoints (env : option string) : list string :=
  List.filter (fun s => negb (is_empty s)) (map Config.trim (Spawn.split (default "127.0.0.1:2379" env) ",")).

(** [reconcile] of the policy controller: errors are logged. *)
Definition policy_reconcile `{SerdeJson} (f : EtcdFaults) (s : RoutingPolicySpec) (e : Etcd) : Etcd :=
  if ef_connect f || ef_put f POLICY_KEY then e else <[POLICY_KEY := json_to_string (policy_json s)]> e.

(** The router's [RoutingPolicy]. *)
Definition de_policy (v : Json) : option RoutingPolicy :=
  f ← struct_members ["kv"; "load"; "power"; "capacity"; "session"] v;
  kv ← required de_f32 "kv" f;
  load ← required de_f32 "load" f;
  power ← required de_f32 "power" f;
  capacity ← required de_f32 "capacity" f;
  session ← member de_f32 f32_zero "session" f;
  Some (mkPolicy kv load power capacity session).
Definition read_policy `{SerdeJson} (text : string) : option RoutingPolicy := json_tree text ≫= de_policy.

Lemma blind_policy : blind de_policy.
Proof. apply blind_struct. intros f g Hf. rw !(blind_required _ _ f g) ?(blind_member _ _ _ f g); auto with cgn. Qed.

(** A policy resource takes effect as written, but for session affinity, which it
    does not have: its weight becomes zero, whatever the router was configured
    with. *)
Lemma policy_applied `{SerdeJsonPrint} s st : json_ok (policy_json s) = true ->
  Forall (fun x => f32_valid x /\ is_finite x = true) [ps_kv s; ps_load s; ps_power s; ps_capacity s] ->
  let st' := watch_event st (PolicyPut (read_policy (json_to_string (policy_json s)))) in
  cl_policy st' = mkPolicy (ps_kv s) (ps_load s) (ps_power s) (ps_capacity s) f32_zero /\ cl_nodes st' = cl_nodes st /\ cl_prefix st' = cl_prefix st.
Proof.
  intros Hok Hf. rw /read_policy de_printed //; [apply blind_policy|]. rw !Forall_cons in Hf.
  destruct Hf as ([? ?] & [? ?] & [? ?] & [? ?] & _).
  assert (E : policy_json s = JObject [("capacity", json_f32 (ps_capacity s)); ("kv", json_f32 (ps_kv s)); ("load", json_f32 (ps_load s));
    ("max_queue", json_opt_u32 (ps_max_queue s)); ("power", json_f32 (ps_power s)); ("ttft_slo_ms", json_opt_u32 (ps_ttft_slo_ms s))]) by reflexivity.
  rw E /de_policy. cbn [struct_members]. rw (_ : existsb _ _ = false); [by vm_compute|]. cbn [mbind option_bind].
  rw /required /member. cbn [field String.eqb Ascii.eqb Bool.eqb mbind option_bind]. by rw !de_json_f32.
Qed.

(** ** Examples *)

Module ScalingExamples.
Import ToyJson Cluster.Examples.

#[local] Existing Instance list_order.

Definition hot (id : string) (watts : Z) : NodeEntry :=
  mkNode id ("http://" +:+ id) 3 None (Some "m") 0 900 1000 (f32_of_Z watts) f32_zero "" "" 0 false 0 true false [] 0.
Definition with_etcd : Config :=
  let d := Config_default (mkHostEnv (Some "h") None "0") in
  let c := cfg_cluster d in
  mkConfig (mkClusterConfig (cc_name c) (cc_state_backend c) ["http://127.0.0.1:2379"] (cc_gossip_seeds c) (cc_gossip_listen c) (cc_gossip_advertise c))
    (cfg_router d) (cfg_agent d) (cfg_engine d) (cfg_kv d) (cfg_security d) (cfg_metrics d) (cfg_auth d) (cfg_carbon d) ∅.
Definition fleet : list NodeEntry := [hot "a" 400; hot "b" 200; hot "c" 500].
Definition manual : Etcd := {[CORDON_PREFIX +:+ "c" := json_to_string (JObject [("actor", JString "ops"); ("node_id", JString "c")])]}.


(** The cordon of a drained node is forgotten by the router at the node's next
    heartbeat, and the consumer, which finds the key still there, does not set it
    again: the node is routed to although etcd has it cordoned. *)
Example drained_node_routed_again :
  let st := watch_event (cluster_init 60 policy0) (NodePut 0 (Some (hot "a" 400))) in
  let st := watch_event st (CordonPut (Some (CORDON_PREFIX +:+ "a"))) in
  let st' := watch_event st (NodePut 5 (Some (hot "a" 400))) in
  let e := (consumer_tick "t0" no_faults (autoscaler_tick "t0" with_etcd no_faults fleet manual).1).1 in
  length (NodeRegistry_nodes_for (cl_nodes st) RoleBoth (Some "m")) = 0 /\ length (NodeRegistry_nodes_for (cl_nodes st') RoleBoth (Some "m")) = 1 /\
  (consumer_tick "t0" no_faults e).1 = e.
Proof. split; [by vm_compute|]. split; [by vm_compute|]. compute_dec. Qed.

(** An idle fleet above the threshold is drained to the last node. *)
Example idle_fleet_drained : forallb (drain_node (rc_autoscaler (cfg_router with_etcd)) [hot "a" 400; hot "b" 500]) [hot "a" 400; hot "b" 500] = true.
Proof. by vm_compute. Qed.

Definition pool : ModelPool := mkPool "p" None (mkPoolSpec "m" 1 1 4 [] None [] (Some (mkSlo (Some 8%Z) None None None))).
Definition beats : Etcd :=
  {[NODES_PREFIX +:+ "a" := json_to_string (JObject [("model", JString "m"); ("queue_depth", JNumber 9); ("ready", JBool true)]);
    NODES_PREFIX +:+ "w" := json_to_string (JObject [("model", JNull); ("ready", JBool true); ("role", JString "pipeline_worker")])]}.

Lemma planner_tick_correct_witness :
  exists last', planner_tick no_faults (fun _ => true) (secs 500) [pool] beats ∅ = (last', [("default/p", 2%Z)], Ok tt) /\ last' !! "default/p" = Some (secs 500) /\
  forall d, ("default/p", d) ∉ (planner_tick no_faults (fun _ => true) (secs 530) [pool] ∅ last').1.2.
Proof.
  pose proof (planner_tick_correct no_faults (fun _ => true) (secs 500) [pool] beats ∅) as Hp.
  destruct (planner_tick no_faults (fun _ => true) (secs 500) [pool] beats ∅) as [[last' patches] r] eqn:E.
  assert (Hr : (patches, r) = ([("default/p", 2%Z)], Ok tt)).
  { transitivity ((planner_tick no_faults (fun _ => true) (secs 500) [pool] beats ∅).1.2, (planner_tick no_faults (fun _ => true) (secs 500) [pool] beats ∅).2);
      [by rw E|by vm_compute]. }
  injection Hr as -> ->. destruct Hp as (_ & _ & Hl).
  - apply NoDup_singleton.
  - apply Forall_singleton. intros slo q [= <- <-]. by split.
  - destruct (Hl "default/p" 2%Z) as [Hnow Hcool]; [by left|]. exists last'. split; [done|]. split; [done|].
    apply Hcool; [apply NoDup_singleton|]. intros p slo q Hp%list_elem_of_singleton _. subst p. intros [= <- <-]. by vm_compute.
Defined.
End ScalingExamples.
