(* ===== verification/Ctl.v ===== *)
(** * The command line against etcd

    [cgn-ctl/src/cluster.rs], [model.rs] and [etcd.rs]: the commands that list,
    cordon and drain nodes and that keep the documents of the wanted models. What
    loading the configuration gives, which calls of etcd fail, the clock and the
    user's name are arguments; a table is the list of its cells. *)

From stdpp Require Import pretty.
From S2P Require Import Prelude StringFacts Float32 PrefixIndex Text BTree Json Cluster Config Health Scaling.

Definition MODELS_PREFIX : string := "/cognitora/models/".

(** A [BTreeSet] of texts in order. *)
Abbreviation Names := (gmap string unit).
Definition in_order (m : Names) : list string := map fst (btree_iter m).

(** ** Rows *)

Record NodeRow := mkNodeRow {
  nr_node_id : string;
  nr_address : string;
  nr_role : Z;
  nr_model : option string;
  nr_queue_depth : Z;
  nr_power_watts : f32;
  nr_ready : bool;
  nr_version : string;
}.

Definition de_node_row (v : Json) : option NodeRow :=
  f ← struct_members ["node_id"; "address"; "role"; "model"; "queue_depth"; "power_watts"; "ready"; "version"] v;
  node_id ← member de_string "" "node_id" f;
  address ← member de_string "" "address" f;
  role ← member de_i32 0%Z "role" f;
  model ← member (de_option de_string) None "model" f;
  queue_depth ← member de_u32 0%Z "queue_depth" f;
  power_watts ← member de_f32 f32_zero "power_watts" f;
  ready ← member de_bool false "ready" f;
  version ← member de_string "" "version" f;
  Some (mkNodeRow node_id address role model queue_depth power_watts ready version).

Definition role_label (role : Z) : string :=
  match default RoleUnspecified (role_of_i32 role) with
  | RolePrefill => "prefill" | RoleDecode => "decode" | RoleBoth => "both" | RoleUnspecified => "?"
  end.

(** The cells of a line of [nodes]. *)
Record NodeLine := mkNodeLine {
  nl_label : string; nl_address : string; nl_role : string; nl_model : string; nl_ready : string; nl_queue : Z; nl_watts : string; nl_version : string }.

Definition node_line (cordoned : Names) (row : NodeRow) : NodeLine :=
  mkNodeLine (if cordoned !! nr_node_id row is Some _ then nr_node_id row +:+ " *" else nr_node_id row) (nr_address row) (role_label (nr_role row))
    (default "-" (nr_model row)) (if nr_ready row then "yes" else "no") (nr_queue_depth row) (format_fixed 1 (nr_power_watts row) +:+ "W")
    (if String.eqb (nr_version row) "" then "-" else nr_version row).

Inductive NodesOut := Nodes_Empty | Nodes_Table (lines : list NodeLine) (footnote : bool).

Record ModelDoc := mkModelDoc {
  md_name : string;
  md_tp : Z;
  md_prefill_replicas : Z;
  md_decode_replicas : Z;
  md_max_model_len : option Z;
  md_cascade : option string;
  md_extra_args : list string;
  md_stamp : string;
}.

Definition opt_field (k : string) (v : option Json) : list (string * Json) := match v with Some v => [(k, v)] | None => [] end.

(** [Serialize] leaves out what [skip_serializing_if] names. *)
Definition model_json (d : ModelDoc) : Json :=
  JObject ([("name", JString (md_name d)); ("tp", JNumber (md_tp d)); ("prefill_replicas", JNumber (md_prefill_replicas d));
      ("decode_replicas", JNumber (md_decode_replicas d))]
    ++ opt_field "max_model_len" (JNumber <$> md_max_model_len d) ++ opt_field "cascade" (JString <$> md_cascade d)
    ++ opt_field "extra_args" (match md_extra_args d with [] => None | l => Some (JArray (map JString l)) end) ++ [("stamp", JString (md_stamp d))]).

Definition de_model_doc (v : Json) : option ModelDoc :=
  f ← struct_members ["name"; "tp"; "prefill_replicas"; "decode_replicas"; "max_model_len"; "cascade"; "extra_args"; "stamp"] v;
  name ← required de_string "name" f;
  tp ← required de_u32 "tp" f;
  prefill_replicas ← required de_u32 "prefill_replicas" f;
  decode_replicas ← required de_u32 "decode_replicas" f;
  max_model_len ← member (de_option de_u32) None "max_model_len" f;
  cascade ← member (de_option de_string) None "cascade" f;
  extra_args ← member (de_vec de_string) [] "extra_args" f;
  stamp ← required de_string "stamp" f;
  Some (mkModelDoc name tp prefill_replicas decode_replicas max_model_len cascade extra_args stamp).

Record AgentRow := mkAgentRow { ar_node_id : string; ar_model : option string; ar_ready : bool }.

Definition de_agent_row (v : Json) : option AgentRow :=
  f ← struct_members ["node_id"; "model"; "ready"] v;
  node_id ← member de_string "" "node_id" f;
  model ← member (de_option de_string) None "model" f;
  ready ← member de_bool false "ready" f;
  Some (mkAgentRow node_id model ready).

(** The cells of a line of [model ls]; a model nobody asked for has no document. *)
Record ModelLine := mkModelLine { ml_name : string; ml_doc : option (Z * Z * Z * string * string); ml_live : string }.

(** ** Commands *)

Section ctl.
Context `{SerdeJson}.
(** What [Config::load] gives, which calls fail, [Utc::now] and the two variables
    of the environment that name the user. *)
Variables (cfg : result Config Error) (f : EtcdFaults) (stamp : string) (user username : option string).

Definition endpoints_from_config : result (list string) Error :=
  let? c := cfg in
  match cc_etcd_endpoints (cfg_cluster c) with
  | [] => Err (Error_Config "no [cluster].etcd_endpoints")
  | endpoints => Ok endpoints
  end.

Definition connect : result unit Error :=
  let? _ := endpoints_from_config in if ef_connect f then Err (Error_Etcd "connect") else Ok tt.

Definition get (key what : string) : result unit Error := if ef_get f key then Err (Error_Etcd what) else Ok tt.

Definition actor_label : string := match user with Some u => u | None => default "cgn-ctl" username end.

Definition cordon_doc (id : string) : Json :=
  JObject (json_object [("node_id", JString id); ("stamp", JString stamp); ("actor", JString actor_label)]).

(** A write to one key. *)
Definition put (key value what : string) (e : Etcd) : Etcd * result unit Error :=
  match connect with
  | Err x => (e, Err x)
  | Ok _ => if ef_put f key then (e, Err (Error_Etcd what)) else (<[key := value]> e, Ok tt)
  end.
Definition remove (key what : string) (e : Etcd) : Etcd * result unit Error :=
  match connect with
  | Err x => (e, Err x)
  | Ok _ => if ef_delete f key then (e, Err (Error_Etcd what)) else (delete key e, Ok tt)
  end.

Definition set_cordon (id : string) (on : bool) (e : Etcd) : Etcd * result unit Error :=
  let key := CORDON_PREFIX +:+ id in
  if on then put key (json_to_string (cordon_doc id)) "put cordon" e else remove key "delete cordon" e.

Definition cordoned_ids (e : Etcd) : Names :=
  if ef_get f CORDON_PREFIX then ∅
  else list_to_map (omap (fun kv => (fun id => (id, tt)) <$> (if utf8_ok kv.1 then Cluster.strip_prefix CORDON_PREFIX kv.1 else None)) (get_prefix CORDON_PREFIX e)).

Definition nodes (e : Etcd) : result NodesOut Error :=
  let? _ := connect in
  let? _ := get NODES_PREFIX "get nodes" in
  let cordoned := cordoned_ids e in
  match get_prefix NODES_PREFIX e with
  | [] => Ok Nodes_Empty
  | kvs => Ok (Nodes_Table (map (node_line cordoned) (omap (fun kv => json_tree kv.2 ≫= de_node_row) kvs)) (negb (bool_decide (cordoned = ∅))))
  end.

Definition lookup_node_address (id : string) (e : Etcd) : result string Error :=
  let? _ := connect in
  let key := NODES_PREFIX +:+ id in
  let? _ := get key ("get " +:+ key) in
  match e !! key with
  | None => Err (Error_NotFound ("node " +:+ id +:+ " not registered in etcd"))
  | Some v =>
      match json_tree v ≫= de_node_row with
      | None => Err (Error_Internal "decode node entry")
      | Some row =>
          if String.eqb (nr_address row) "" then Err (Error_Internal ("node " +:+ id +:+ " has no address in its etcd entry")) else Ok (nr_address row)
      end
  end.

(** [drain]: the call to the agent at an address, and the status it answers. *)
Definition drain (call : string -> result (Z * string) Error) (id : string) (e : Etcd) : result (Z * string) Error :=
  let? address := lookup_node_address id e in call address.

Definition put_model (d : ModelDoc) (e : Etcd) : Etcd * result unit Error :=
  put (MODELS_PREFIX +:+ md_name d) (json_to_string (model_json d)) "put model" e.

Definition delete_model (name : string) (e : Etcd) : Etcd * result unit Error := remove (MODELS_PREFIX +:+ name) "delete model" e.

Definition model_docs (e : Etcd) : gmap string ModelDoc :=
  foldl (fun m kv => match json_tree kv.2 ≫= de_model_doc with Some d => <[md_name d := d]> m | None => m end) ∅ (get_prefix MODELS_PREFIX e).

Definition add_loaded (m : gmap string Names) (row : AgentRow) : gmap string Names :=
  match (if ar_ready row then ar_model row else None) with
  | Some model => <[model := <[ar_node_id row := tt]> (default ∅ (m !! model))]> m
  | None => m
  end.

Definition loaded_models (e : Etcd) : gmap string Names :=
  foldl (fun m kv => match json_tree kv.2 ≫= de_agent_row with Some row => add_loaded m row | None => m end) ∅ (get_prefix NODES_PREFIX e).

Definition model_line (docs : gmap string ModelDoc) (loaded : gmap string Names) (name : string) : ModelLine :=
  mkModelLine name
    ((fun d => (md_tp d, md_prefill_replicas d, md_decode_replicas d, match md_max_model_len d with Some n => pretty n | None => "-" end,
        default "-" (md_cascade d))) <$> docs !! name)
    (match loaded !! name with Some s => String.concat "," (in_order s) | None => "-" end).

Definition model_list (e : Etcd) : result (list ModelLine) Error :=
  let? _ := connect in
  let? _ := get MODELS_PREFIX "get models" in
  let? _ := get NODES_PREFIX "get nodes" in
  let docs := model_docs e in
  let loaded := loaded_models e in
  Ok (map (model_line docs loaded) (in_order (((fun _ => tt) <$> docs) ∪ ((fun _ => tt) <$> loaded)))).

(** [run]. *)
Definition model_load (name : string) (tp prefill_replicas decode_replicas : Z) (max_model_len : option Z) (cascade : option string) (extra : list string)
    (e : Etcd) : Etcd * result unit Error :=
  put_model (mkModelDoc name tp prefill_replicas decode_replicas max_model_len cascade extra stamp) e.
End ctl.

(** * Properties *)

(** ** Cordons *)

(** A turn of one of the two loops that act on cordons, with any faults. *)
Inductive Turn := Router_Turn (stamp : string) (cfg : Config) (f : EtcdFaults) (nodes : list NodeEntry) | Operator_Turn (stamp : string) (f : EtcdFaults).

Definition turn `{SerdeJson} (e : Etcd) (t : Turn) : Etcd :=
  match t with
  | Router_Turn stamp cfg f nodes => (autoscaler_tick stamp cfg f nodes e).1
  | Operator_Turn stamp f => (consumer_tick stamp f e).1
  end.

Section manual.
Context `{SerdeJson} (id v : string).
Hypothesis v_text : utf8_ok v = true.
Hypothesis v_manual : is_autoscaler_cordon v = false.
Abbreviation key := (CORDON_PREFIX +:+ id).

Lemma hint_leaves_manual stamp f i h e : e !! key = Some v -> (apply_hint stamp f i h e).1 !! key = Some v.
Proof.
  intros He. rw /apply_hint. destruct (decide (CORDON_PREFIX +:+ i = key)) as [Ei|Hne].
  - rw Ei /text_value He v_text v_manual. by repeat case_match.
  - repeat case_match; cbn [fst]; rw ?lookup_insert_ne ?lookup_delete_ne //.
Qed.

Lemma hints_leave_manual stamp f kvs e : e !! key = Some v -> (apply_hints stamp f kvs e).1 !! key = Some v.
Proof.
  revert e. induction kvs as [|[k w] kvs IH]; intros e He; [done|]. cbn [apply_hints].
  destruct (if utf8_ok k then _ else _) as [i|]; [|by apply IH]. destruct (json_tree w ≫= de_hint) as [h|]; [|by apply IH].
  pose proof (hint_leaves_manual stamp f i h e He) as H1. destruct (apply_hint _ _ _ _ _) as [e1 [?|?]]; [by apply IH|done].
Qed.

Lemma puts_leave_manual stamp c f ns l e : e !! key = Some v -> foldl (put_hint stamp c f ns) e l !! key = Some v.
Proof.
  revert e. induction l as [|n l IH]; intros e He; [done|]. cbn [foldl]. apply IH. rw /put_hint. case_match; [done|].
  rw lookup_insert_ne //.
Qed.

Lemma turn_leaves_manual t e : e !! key = Some v -> turn e t !! key = Some v.
Proof.
  intros He. destruct t as [stamp cfg f ns|stamp f]; cbn [turn].
  - rw /autoscaler_tick. destruct ns as [|n ns]; [done|]. destruct (cc_etcd_endpoints (cfg_cluster cfg)); [done|]. case_match; [done|]. by apply puts_leave_manual.
  - rw /consumer_tick. case_match; [done|]. case_match; [done|]. by apply hints_leave_manual.
Qed.

Lemma turns_leave_manual ts e : e !! key = Some v -> foldl turn e ts !! key = Some v.
Proof. revert e. induction ts as [|t ts IH]; intros e He; [done|]. cbn [foldl]. by apply IH, turn_leaves_manual. Qed.
End manual.

Lemma in_order_spec (m : Names) x : x ∈ in_order m <-> is_Some (m !! x).
Proof.
  rw /in_order list_elem_of_fmap. split.
  - intros ([k []] & -> & Hk%elem_of_btree_iter). by eexists.
  - intros [[] Hx]. exists (x, tt). split; [done|]. by apply elem_of_btree_iter.
Qed.

Lemma cordoned_spec `{SerdeJson} f e id : ef_get f CORDON_PREFIX = false ->
  is_Some (cordoned_ids f e !! id) <-> is_Some (e !! (CORDON_PREFIX +:+ id)) /\ utf8_ok (CORDON_PREFIX +:+ id) = true.
Proof.
  intros Hf. rw /cordoned_ids Hf. set (l := omap _ _). assert (Hl : forall x, (x, tt) ∈ l <-> is_Some (e !! (CORDON_PREFIX +:+ x)) /\ utf8_ok (CORDON_PREFIX +:+ x) = true).
  { intros x. rw /l list_elem_of_omap. split.
    - intros ([k v] & [Hk [i ->]]%elem_of_get_prefix & E). cbn [fst] in E. destruct (utf8_ok _) eqn:Eu; [|done]. rw strip_prefix_app in E.
      injection E as ->. split; [by eexists|done].
    - intros [[v Hv] Hu]. exists (CORDON_PREFIX +:+ x, v). split; [apply elem_of_get_prefix; split; [done|by exists x]|]. cbn [fst]. by rw Hu strip_prefix_app. }
  rw -Hl. split.
  - intros [[] Hi]. by apply elem_of_list_to_map_2.
  - intros Hi. rw -not_eq_None_Some. intros Hn. apply not_elem_of_list_to_map in Hn. apply Hn, list_elem_of_fmap. by exists (id, tt).
Qed.

Section cordons.
Context `{SerdeJsonPrint} `{DashIter} (c : Config) (stamp : string) (user username : option string).
Hypothesis endpoints : cc_etcd_endpoints (cfg_cluster c) <> [].

Lemma connect_ok : connect (Ok c) no_faults = Ok tt.
Proof. rw /connect /endpoints_from_config /=. by destruct (cc_etcd_endpoints _). Qed.

Lemma etcd_put_ok k v what e : put (Ok c) no_faults k v what e = (<[k := v]> e, Ok tt).
Proof. by rw /put connect_ok. Qed.
Lemma etcd_remove_ok k what e : remove (Ok c) no_faults k what e = (delete k e, Ok tt).
Proof. by rw /remove connect_ok. Qed.

Lemma cordon_doc_manual id : json_ok (cordon_doc stamp user username id) = true ->
  is_autoscaler_cordon (json_to_string (cordon_doc stamp user username id)) = false.
Proof. intros Hok. by rw /is_autoscaler_cordon /json_from_str printed_tree. Qed.

Abbreviation command := (set_cordon (Ok c) no_faults stamp user username).

End cordons.

(** ** Models *)

Section models.
Context `{SerdeJson}.

Definition read_doc (v : string) : option ModelDoc := json_tree v ≫= de_model_doc.
Definition read_agent (v : string) : option AgentRow := json_tree v ≫= de_agent_row.

(** Each document is under the name it has. *)
Definition models_wf (e : Etcd) : Prop := forall x v d, e !! (MODELS_PREFIX +:+ x) = Some v -> read_doc v = Some d -> md_name d = x.

Lemma docs_fold (l : list (string * string)) x : NoDup l.*1 -> (forall k v d, (k, v) ∈ l -> read_doc v = Some d -> k = MODELS_PREFIX +:+ md_name d) ->
  forall d, foldl (fun m kv => match read_doc kv.2 with Some d => <[md_name d := d]> m | None => m end) (∅ : gmap string ModelDoc) l !! x = Some d
    <-> exists v, (MODELS_PREFIX +:+ x, v) ∈ l /\ read_doc v = Some d.
Proof.
  induction l as [|[k v] l IH] using rev_ind; intros Hn Hk d; [cbn; rw lookup_empty; split; [done|by intros (v & ?%elem_of_nil & _)]|].
  rw fmap_app in Hn. apply NoDup_app in Hn as (Hn & Hd & _). rw foldl_snoc. cbn [snd].
  assert (IH' : forall d, _ <-> _) by (apply IH; [done|intros k' v' d' Hin; apply Hk, elem_of_app; by left]). clear IH.
  assert (Hl : forall w, (k, w) ∉ l). { intros w Hw. apply (Hd k); [apply list_elem_of_fmap; by exists (k, w)|by left]. }
  setoid_rewrite elem_of_app. setoid_rewrite list_elem_of_singleton. destruct (read_doc v) as [dv|] eqn:Ev; cycle 1.
  { rw IH'. split; [intros (w & Hw & E); exists w; split; [by left|done]|]. intros (w & [Hw|[= _ ->]] & E); [by exists w|congruence]. }
  assert (E : k = MODELS_PREFIX +:+ md_name dv) by (eapply Hk; [apply elem_of_app; right; by left|done]). subst k.
  destruct (decide (md_name dv = x)) as [<-|Hne].
  - rw lookup_insert_eq. split; [intros [= <-]; exists v; split; [by right|done]|]. intros (w & [Hw|[= ->]] & Er); [by apply Hl in Hw|congruence].
  - rw lookup_insert_ne // IH'. split; [intros (w & Hw & Er); exists w; split; [by left|done]|].
    intros (w & [Hw|[= Ex _]] & Er); [by exists w|]. symmetry in Ex. by apply append_cancel in Ex.
Qed.

Lemma docs_lookup e x : models_wf e -> model_docs e !! x = e !! (MODELS_PREFIX +:+ x) ≫= read_doc.
Proof.
  intros Hw. apply option_eq. intros d. rw /model_docs docs_fold; [apply NoDup_get_prefix| |].
  - intros k v d' [Hk [i ->]]%elem_of_get_prefix Hd. by rw (Hw i v d').
  - setoid_rewrite elem_of_get_prefix. split.
    + intros (v & [-> _] & Hr). done.
    + destruct (e !! (MODELS_PREFIX +:+ x)) as [v|]; [|done]. cbn. intros Hr. exists v. split; [|done]. split; [done|by exists x].
Qed.

(** The nodes that serve a model. *)
Definition serves_model (e : Etcd) (m node : string) : Prop :=
  exists x v row, e !! (NODES_PREFIX +:+ x) = Some v /\ read_agent v = Some row /\ ar_ready row = true /\ ar_model row = Some m /\ ar_node_id row = node.

Lemma loaded_fold (l : list (string * string)) m node : is_Some (foldl (fun acc kv => match read_agent kv.2 with Some row => add_loaded acc row | None => acc end) (∅ : gmap string Names) l !! m ≫= lookup node)
    <-> exists k v row, (k, v) ∈ l /\ read_agent v = Some row /\ ar_ready row = true /\ ar_model row = Some m /\ ar_node_id row = node.
Proof.
  induction l as [|[k v] l IH] using rev_ind.
  { cbn. rw lookup_empty. split; [by intros []|by intros (? & ? & ? & ?%elem_of_nil & _)]. }
  rw foldl_snoc. cbn [snd]. setoid_rewrite elem_of_app. setoid_rewrite list_elem_of_singleton.
  set acc := foldl _ _ _ in IH |- *. assert (Hl : forall P : Prop, (is_Some (acc !! m ≫= lookup node) \/ P) <->
    ((exists k v row, (k, v) ∈ l /\ read_agent v = Some row /\ ar_ready row = true /\ ar_model row = Some m /\ ar_node_id row = node) \/ P)) by (intros P; by rw IH).
  trans (is_Some (acc !! m ≫= lookup node) \/ exists row, read_agent v = Some row /\ ar_ready row = true /\ ar_model row = Some m /\ ar_node_id row = node).
  - clear Hl IH. destruct (read_agent v) as [row|]; [|split; [by left|intros [?|(? & ? & _)]; done]]. rw /add_loaded.
    destruct (ar_ready row) eqn:Er; [|split; [by left|intros [?|(? & [= ->] & ? & _)]; congruence]].
    destruct (ar_model row) as [m'|] eqn:Em; [|split; [by left|intros [?|(? & [= ->] & _ & ? & _)]; congruence]].
    destruct (decide (m' = m)) as [->|Hm].
    + rw lookup_insert_eq. cbn [mbind option_bind]. destruct (decide (ar_node_id row = node)) as [<-|Hne].
      * rw lookup_insert_eq. split; [intros _; right; by exists row|by eexists].
      * rw lookup_insert_ne //. split; [|intros [Ha|(? & [= ->] & _ & _ & ?)]; [|done]; by destruct (acc !! m)].
        destruct (acc !! m); cbn; [by left|rw lookup_empty; by intros []].
    + rw lookup_insert_ne //. split; [by left|]. intros [Ha|(? & [= ->] & _ & ? & _)]; [done|congruence].
  - rw Hl. split.
    + intros [(k' & v' & row & Hin & Hr)|(row & Hr)]; [exists k', v', row; split; [by left|done]|exists k, v, row; split; [by right|done]].
    + intros (k' & v' & row & [Hin|[= -> ->]] & Hr); [left; by exists k', v', row|right; by exists row].
Qed.

Lemma loaded_lookup e m node : is_Some (loaded_models e !! m ≫= lookup node) <-> serves_model e m node.
Proof.
  rw /loaded_models loaded_fold. split.
  - intros (k & v & row & [Hk [x ->]]%elem_of_get_prefix & Hr). by exists x, v, row.
  - intros (x & v & row & Hx & Hr). exists (NODES_PREFIX +:+ x), v, row. split; [|done]. apply elem_of_get_prefix. split; [done|by exists x].
Qed.

(** No model is listed without a node. *)
Lemma loaded_nonempty e m s : loaded_models e !! m = Some s -> s <> ∅.
Proof.
  rw /loaded_models. generalize (get_prefix NODES_PREFIX e). intros l. induction l as [|[k v] l IH] using rev_ind; [done|]. rw foldl_snoc. cbn [snd].
  destruct (json_tree v ≫= de_agent_row) as [row|]; [|done]. rw /add_loaded. destruct (if ar_ready row then _ else _) as [m'|]; [|done].
  destruct (decide (m' = m)) as [->|Hne]; [rw lookup_insert_eq; intros [= <-]; apply insert_non_empty|rw lookup_insert_ne //].
Qed.
End models.

(** ** The commands on models *)

Lemma in_order_NoDup (m : Names) : NoDup (in_order m).
Proof. rw /in_order (btree_iter_perm _). apply NoDup_fst_map_to_list. Qed.

Section commands.
Context `{SerdeJsonPrint} (c : Config).
Hypothesis endpoints : cc_etcd_endpoints (cfg_cluster c) <> [].

(** The types of a document's fields. *)
Definition doc_ok (d : ModelDoc) : Prop := json_ok (model_json d) = true /\ is_u32 (md_tp d) /\ is_u32 (md_prefill_replicas d) /\ is_u32 (md_decode_replicas d)
  /\ (forall n, md_max_model_len d = Some n -> is_u32 n).

Lemma strings_float_free l : forallb float_free (map JString l) = true.
Proof. by induction l. Qed.

Lemma doc_float_free d : float_free (model_json d) = true.
Proof. destruct d as [name tp prefill decode [n|] [t|] [|a l] stamp]; cbn; by rw ?strings_float_free. Qed.

Lemma doc_read d : doc_ok d -> read_doc (json_to_string (model_json d)) = Some d.
Proof.
  intros (Hok & Ht & Hp & Hd & Hm). rw /read_doc printed_tree //; [apply doc_float_free|].
  destruct d as [name tp prefill decode max casc extra stamp]. cbn in Ht, Hp, Hd, Hm.
  assert (Hu : forall n, is_u32 n -> de_u32 (JNumber n) = Some n) by (intros n; apply de_unsigned_ok).
  assert (Hs : forall t, de_string (JString t) = Some t) by done. apply Hu in Ht, Hp, Hd.
  destruct max as [n|], casc as [t|], extra as [|a l]; cbn -[de_u32 de_vec u32_max de_string];
    repeat (first [rw Hs|rw Ht|rw Hp|rw Hd|rw (Hu _ (Hm _ eq_refl))|rw (de_names (a :: l))]; cbn [mbind option_bind fmap option_fmap option_map]); done.
Qed.

Lemma put_model_wf e d : models_wf e -> doc_ok d -> models_wf (<[MODELS_PREFIX +:+ md_name d := json_to_string (model_json d)]> e).
Proof.
  intros Hw Hd x v d' [[Ex <-]|[_ Hv]]%lookup_insert_Some Hr; [|by eapply Hw]. apply append_cancel in Ex as <-.
  rw doc_read // in Hr. by injection Hr as <-.
Qed.

Lemma delete_model_wf e k : models_wf e -> models_wf (delete k e).
Proof. intros Hw x v d [_ Hv]%lookup_delete_Some Hr. by eapply Hw. Qed.

(** Listed models: those wanted and those served. *)
Lemma listed_models e' m : is_Some ((((fun _ => tt) <$> model_docs e') ∪ ((fun _ => tt) <$> loaded_models e') : Names) !! m)
  <-> is_Some (model_docs e' !! m) \/ exists node, serves_model e' m node.
Proof.
  rw lookup_union_is_Some !lookup_fmap !fmap_is_Some. setoid_rewrite <-loaded_lookup. split; (intros [Hd|Hl]; [by left|right]).
  - destruct Hl as [s Hs]. rw Hs. destruct (map_choose s) as (node & [] & Hn); [by eapply loaded_nonempty|]. exists node. cbn. by rw Hn.
  - destruct Hl as [node Hn]. by destruct (loaded_models e' !! m); [|destruct Hn].
Qed.

(** What a line says of its model. *)
Definition line_ok (e' : Etcd) (line : ModelLine) : Prop :=
  (ml_doc line = None <-> model_docs e' !! ml_name line = None) /\
  exists ids, NoDup ids /\ (forall n, n ∈ ids <-> serves_model e' (ml_name line) n) /\
    ml_live line = if decide (ids = []) then "-" else String.concat "," ids.

Lemma model_line_ok e' name : line_ok e' (model_line (model_docs e') (loaded_models e') name).
Proof.
  split; [cbn; by destruct (model_docs e' !! name)|]. exists (in_order (default ∅ (loaded_models e' !! name))). split; [apply in_order_NoDup|]. cbn [ml_name ml_live model_line]. split.
  - intros n. rw in_order_spec -loaded_lookup. destruct (loaded_models e' !! name); [done|]. cbn. by rw lookup_empty.
  - destruct (loaded_models e' !! name) as [s|] eqn:E; [|done]. cbn [default from_option id]. rw decide_False //. intros En.
    destruct (map_choose s) as (n & [] & Hn); [by eapply loaded_nonempty|]. assert (Hin : n ∈ in_order s) by by apply in_order_spec.
    rw En in Hin. by apply elem_of_nil in Hin.
Qed.

(** C37. The model commands keep etcd a store of documents by name: [load] makes
    the document of its name the one that was given, read back field by field,
    [unload] removes it, neither changes another document or what the agents say;
    and [ls] shows once each the models wanted and the models served by a ready
    agent, with its document if there is one and exactly the nodes that serve it,
    so that a drift is told in both directions. *)
Theorem model_commands_exact e d : models_wf e -> doc_ok d ->
  let e1 := (put_model (Ok c) no_faults d e).1 in
  let e2 := (delete_model (Ok c) no_faults (md_name d) e1).1 in
  (put_model (Ok c) no_faults d e).2 = Ok tt /\ (delete_model (Ok c) no_faults (md_name d) e1).2 = Ok tt /\
  model_docs e1 = <[md_name d := d]> (model_docs e) /\ model_docs e2 = delete (md_name d) (model_docs e) /\
  (forall m n, (serves_model e1 m n <-> serves_model e m n) /\ (serves_model e2 m n <-> serves_model e m n)) /\
  (forall e', e' ∈ [e; e1; e2] -> exists lines, model_list (Ok c) no_faults e' = Ok lines /\ NoDup (ml_name <$> lines) /\ Forall (line_ok e') lines /\
     (forall m, m ∈ (ml_name <$> lines) <-> is_Some (model_docs e' !! m) \/ exists n, serves_model e' m n)).
Proof.
  intros Hw Hd. cbn zeta. rw /put_model /delete_model (etcd_put_ok c endpoints) (etcd_remove_ok c endpoints). cbn [fst snd].
  set (e1 := <[_ := _]> e). assert (Hw1 : models_wf e1) by by apply put_model_wf. set (e2 := delete _ e1). assert (Hw2 : models_wf e2) by by apply delete_model_wf.
  split; [done|]. split; [done|]. split_and!.
  - apply map_eq. intros x. rw docs_lookup // /e1. destruct (decide (md_name d = x)) as [<-|Hne]; [by rw !lookup_insert_eq /= doc_read|].
    rw !lookup_insert_ne //; [by intros E%append_cancel|]. by rw docs_lookup.
  - apply map_eq. intros x. rw docs_lookup // /e2 /e1. destruct (decide (md_name d = x)) as [<-|Hne]; [by rw !lookup_delete_eq|].
    rw !lookup_delete_ne // ?lookup_insert_ne; try by intros E%append_cancel. by rw docs_lookup.
  - intros m n. rw /serves_model. assert (Ek : forall x, e1 !! (NODES_PREFIX +:+ x) = e !! (NODES_PREFIX +:+ x) /\ e2 !! (NODES_PREFIX +:+ x) = e !! (NODES_PREFIX +:+ x)).
    { intros x. rw /e2 /e1 lookup_delete_ne // !lookup_insert_ne //. }
    split; by setoid_rewrite (fun x => proj1 (Ek x)) || setoid_rewrite (fun x => proj2 (Ek x)).
  - intros e' _. eexists. split; [by rw /model_list (connect_ok c endpoints)|]. rw -list_fmap_compose list_fmap_id. split; [apply in_order_NoDup|]. split.
    + apply Forall_map, Forall_true. intros name. apply model_line_ok.
    + intros m. by rw in_order_spec listed_models.
Qed.
End commands.

(** ** Examples *)

Module CtlExamples.
Import ToyJson Cluster.Examples Scaling.ScalingExamples.

#[local] Existing Instance list_order.

Definition router : ClusterState := watch_event st0 (NodePut 0 (Some (node "n1" false 0))).

(** A cordon by hand, the hint of the router's autoscaler against it and a turn of
    the operator's. *)
Definition agitated : list Turn := [Router_Turn "t1" with_etcd no_faults [node "n1" false 0]; Operator_Turn "t2" no_faults].


Definition wanted : ModelDoc := mkModelDoc "llama3" 1 1 2 (Some 8192%Z) None ["--enforce-eager"] "t0".
Definition agents : Etcd := {[NODES_PREFIX +:+ "n1" := json_to_string (JObject (json_object [("node_id", JString "n1"); ("model", JString "qwen"); ("ready", JBool true)]))]}.

Lemma model_commands_exact_witness :
  let e1 := (put_model (Ok with_etcd) no_faults wanted agents).1 in
  model_docs e1 = <[md_name wanted := wanted]> (model_docs agents) /\
  (exists lines, model_list (Ok with_etcd) no_faults e1 = Ok lines /\ NoDup (ml_name <$> lines)).
Proof.
  assert (Hw : models_wf agents) by (intros x v d Hx; rw /agents in Hx; by apply lookup_singleton_Some in Hx as [Hk _]).
  assert (Hd : doc_ok wanted) by (split_and!; [by vm_compute|by vm_compute|by vm_compute|by vm_compute|by intros n [= <-]; vm_compute]).
  destruct (model_commands_exact with_etcd ltac:(done) agents wanted Hw Hd) as (_ & _ & Hdocs & _ & _ & Hls). split; [exact Hdocs|].
  destruct (Hls _ (list_elem_of_further _ _ _ (list_elem_of_here _ _))) as (lines & Hl & Hn & _). exists lines. exact (conj Hl Hn).
Defined.

(** What the listing shows then: a document nobody serves and a model nobody asked
    for. *)
Example drift_both_ways :
  model_list (Ok with_etcd) no_faults (put_model (Ok with_etcd) no_faults wanted agents).1
  = Ok [mkModelLine "llama3" (Some (1, 1, 2, "8192", "-")%Z) "-"; mkModelLine "qwen" None "n1"].
Proof. by vm_compute. Qed.

(** A configuration without endpoints is an error before etcd is asked. *)
Example no_endpoints : nodes (Ok (Config_default (mkHostEnv None None "0"))) no_faults agents = Err (Error_Config "no [cluster].etcd_endpoints").
Proof. done. Qed.
End CtlExamples.
