(* ===== verification/Operator.v ===== *)
(** * The Kubernetes operator

    The resources of [cgn-k8s/src/crds.rs], what [cgn-operator/src/render.rs]
    makes of a cluster, and the reconcilers of [controllers/]. The API server is
    an outcome: which patches it takes. Pools and policies as the loops over etcd
    use them are in [Scaling]. *)

From stdpp Require Import pretty.
From S2P Require Import Prelude StringFacts Float32 Text BTree Json Routing Spawn Scaling.

#[local] Open Scope Z_scope.

(** ** Resources *)

Record Resources := mkResources { rs_cpu : option string; rs_memory : option string; rs_gpu : option Z }.
Record RouterSpec := mkRouterSpec { ro_replicas : Z; ro_resources : Resources; ro_service_type : option string }.
Record AgentSpec := mkAgentSpec { as_node_selector : gmap string string; as_tolerations : list Json; as_resources : Resources }.
Record KvCachedSpec := mkKvCachedSpec { ks_ram_gib : Z; ks_ssd_gib : Z; ks_ssd_class : option string }.
Record MetricsSpec := mkMetricsSpec { ms_enabled : bool; ms_redfish_url : option string }.
Record InferenceClusterSpec := mkClusterSpec {
  ic_router : RouterSpec;
  ic_agent : AgentSpec;
  ic_kvcached : KvCachedSpec;
  ic_metrics : MetricsSpec;
  ic_image_tag : option string;
}.
Record InferenceCluster := mkInferenceCluster { ic_name : string; ic_namespace : option string; ic_spec : InferenceClusterSpec }.
Record InferenceClusterStatus := mkClusterStatus { st_phase : string; st_message : option string; st_ready_replicas : Z }.
Record ModelPoolStatus := mkPoolStatus { mps_phase : string; mps_loaded_replicas : Z; mps_desired : option Z; mps_last_scale : option string }.

(** *** Decoding

    The specs as kube reads them. An array stands for a struct only when it has
    every field that does not default. *)

Definition struct_all (names : list string) (v : Json) : option (list (string * Json)) :=
  match v with JArray l => if (length l =? length names)%nat then Some (zip names l) else None | _ => struct_members names v end.

Definition de_string_map (v : Json) : option (gmap string string) :=
  match v with
  | JObject f => foldl (fun acc e => m ← acc; s ← de_string e.2; Some (<[e.1 := s]> m)) (Some ∅) f
  | _ => None
  end.

Definition de_resources (v : Json) : option Resources :=
  f ← struct_all ["cpu"; "memory"; "gpu"] v;
  cpu ← member (de_option de_string) None "cpu" f;
  memory ← member (de_option de_string) None "memory" f;
  gpu ← member (de_option de_u32) None "gpu" f;
  Some (mkResources cpu memory gpu).

Definition no_resources : Resources := mkResources None None None.

Definition de_router_spec (v : Json) : option RouterSpec :=
  f ← struct_members ["replicas"; "resources"; "service_type"] v;
  replicas ← required de_u32 "replicas" f;
  resources ← member de_resources no_resources "resources" f;
  service_type ← member (de_option de_string) None "service_type" f;
  Some (mkRouterSpec replicas resources service_type).

Definition de_agent_spec (v : Json) : option AgentSpec :=
  f ← struct_members ["node_selector"; "tolerations"; "resources"] v;
  node_selector ← member de_string_map ∅ "node_selector" f;
  tolerations ← member (de_vec de_value) [] "tolerations" f;
  resources ← member de_resources no_resources "resources" f;
  Some (mkAgentSpec node_selector tolerations resources).

Definition de_kvcached_spec (v : Json) : option KvCachedSpec :=
  f ← struct_all ["ram_gib"; "ssd_gib"; "ssd_class"] v;
  ram_gib ← required de_u32 "ram_gib" f;
  ssd_gib ← required de_u32 "ssd_gib" f;
  ssd_class ← member (de_option de_string) None "ssd_class" f;
  Some (mkKvCachedSpec ram_gib ssd_gib ssd_class).

Definition de_metrics_spec (v : Json) : option MetricsSpec :=
  f ← struct_all ["enabled"; "redfish_url"] v;
  enabled ← required de_bool "enabled" f;
  redfish_url ← member (de_option de_string) None "redfish_url" f;
  Some (mkMetricsSpec enabled redfish_url).

Definition de_cluster_spec (v : Json) : option InferenceClusterSpec :=
  f ← struct_members ["router"; "agent"; "kvcached"; "metrics"; "image_tag"] v;
  router ← required de_router_spec "router" f;
  agent ← required de_agent_spec "agent" f;
  kvcached ← required de_kvcached_spec "kvcached" f;
  metrics ← required de_metrics_spec "metrics" f;
  image_tag ← member (de_option de_string) None "image_tag" f;
  Some (mkClusterSpec router agent kvcached metrics image_tag).

Definition de_slo_spec (v : Json) : option SloSpec :=
  f ← struct_members ["maxQueuePerReplica"; "minReplicas"; "maxReplicas"; "scaleCooldownSecs"] v;
  max_queue ← member (de_option de_u32) None "maxQueuePerReplica" f;
  min ← member (de_option de_u32) None "minReplicas" f;
  max ← member (de_option de_u32) None "maxReplicas" f;
  cooldown ← member (de_option de_u64) None "scaleCooldownSecs" f;
  Some (mkSlo max_queue min max cooldown).

Definition de_pool_spec (v : Json) : option ModelPoolSpec :=
  f ← struct_members ["model"; "tp"; "prefill_replicas"; "decode_replicas"; "cascade"; "max_model_len"; "extra_args"; "slo"] v;
  model ← required de_string "model" f;
  tp ← required de_u32 "tp" f;
  prefill_replicas ← required de_u32 "prefill_replicas" f;
  decode_replicas ← required de_u32 "decode_replicas" f;
  cascade ← member (de_vec de_string) [] "cascade" f;
  max_model_len ← member (de_option de_u32) None "max_model_len" f;
  extra_args ← member (de_vec de_string) [] "extra_args" f;
  slo ← member (de_option de_slo_spec) None "slo" f;
  Some (mkPoolSpec model tp prefill_replicas decode_replicas cascade max_model_len extra_args slo).

Definition de_policy_spec (v : Json) : option RoutingPolicySpec :=
  f ← struct_members ["kv"; "load"; "power"; "capacity"; "max_queue"; "ttft_slo_ms"] v;
  kv ← required de_f32 "kv" f;
  load ← required de_f32 "load" f;
  power ← required de_f32 "power" f;
  capacity ← required de_f32 "capacity" f;
  max_queue ← member (de_option de_u32) None "max_queue" f;
  ttft_slo_ms ← member (de_option de_u32) None "ttft_slo_ms" f;
  Some (mkPolicySpec kv load power capacity max_queue ttft_slo_ms).

(** ** [render.rs] *)

(** [json!({..})] and [json!([..])]. *)
Definition obj (members : list (string * Json)) : Json := JObject (json_object members).
Definition text (s : string) : Json := JString s.
Definition num (n : Z) : Json := JNumber n.

Definition labels (name comp : string) : Json :=
  obj [("app.kubernetes.io/name", text "cognitora"); ("app.kubernetes.io/instance", text name); ("app.kubernetes.io/component", text comp);
       ("app.kubernetes.io/managed-by", text "cgn-operator")].

Definition opt_member (k : string) (v : option Json) (f : list (string * Json)) : list (string * Json) :=
  match v with Some v => obj_insert k v f | None => f end.
Definition resource_block (r : Resources) : Json :=
  let requests := opt_member "memory" (text <$> rs_memory r) (opt_member "cpu" (text <$> rs_cpu r) []) in
  let limits := opt_member "nvidia.com/gpu" (num <$> rs_gpu r) (opt_member "memory" (text <$> rs_memory r) (opt_member "cpu" (text <$> rs_cpu r) [])) in
  obj [("requests", JObject requests); ("limits", JObject limits)].

Definition json_port (name : string) (port : Z) (more : list (string * Json)) : Json :=
  obj ([("name", text name); ("containerPort", num port)] ++ more).
Definition json_mount (name path : string) (more : list (string * Json)) : Json :=
  obj ([("name", text name); ("mountPath", text path)] ++ more).
Definition read_only : list (string * Json) := [("readOnly", JBool true)].
Definition config_volume (name : string) : Json := obj [("name", text "config"); ("configMap", obj [("name", text (name +:+ "-config"))])].
Definition pki_volume (name : string) : Json := obj [("name", text "pki"); ("secret", obj [("secretName", text (name +:+ "-pki"))])].
Definition config_args : Json := JArray [text "--config"; text "/etc/cognitora/cognitora.toml"].
Definition probe (path : string) (delay period : Z) : Json :=
  obj [("httpGet", obj [("path", text path); ("port", text "admin")]); ("initialDelaySeconds", num delay); ("periodSeconds", num period)].
Definition metadata (name ns : string) (l : Json) : Json := obj [("name", text name); ("namespace", text ns); ("labels", l)].

(** A pod controller: [spec] has its own members before the selector. *)
Definition workload (kind : string) (meta : Json) (l : Json) (spec : list (string * Json)) (pod : list (string * Json)) : Json :=
  obj [("apiVersion", text "apps/v1"); ("kind", text kind); ("metadata", meta);
       ("spec", obj (spec ++ [("selector", obj [("matchLabels", l)]);
                             ("template", obj [("metadata", obj [("labels", l)]); ("spec", obj pod)])]))].

Definition router_objects (ic : InferenceCluster) (ns name image : string) : list Json :=
  let l := labels name "router" in
  let router := ic_router (ic_spec ic) in
  let svc_type := default "ClusterIP" (ro_service_type router) in
  let deployment :=
    workload "Deployment" (metadata (name +:+ "-router") ns l) l [("replicas", num (ro_replicas router))]
      [("serviceAccountName", text name);
       ("containers", JArray [obj
          [("name", text "router"); ("image", text image); ("args", config_args);
           ("ports", JArray [json_port "http" 8080 []; json_port "grpc" 7070 []; json_port "admin" 9091 []]);
           ("readinessProbe", probe "/readyz" 5 5); ("livenessProbe", probe "/healthz" 15 10);
           ("volumeMounts", JArray [json_mount "config" "/etc/cognitora" read_only; json_mount "pki" "/etc/cognitora/pki" read_only]);
           ("resources", resource_block (ro_resources router))]]);
       ("volumes", JArray [config_volume name; pki_volume name])] in
  let service_port (n : string) (port : Z) := obj [("name", text n); ("port", num port); ("targetPort", text n)] in
  let service :=
    obj [("apiVersion", text "v1"); ("kind", text "Service"); ("metadata", metadata (name +:+ "-router") ns l);
         ("spec", obj [("type", text svc_type); ("selector", l);
                       ("ports", JArray [service_port "http" 80; service_port "grpc" 7070; service_port "admin" 9091])])] in
  [deployment; service].

(** [entry(k).or_insert(v)]. *)
Definition or_insert (k v : string) (m : gmap string string) : gmap string string := match m !! k with Some _ => m | None => <[k := v]> m end.

Definition agent_objects (ic : InferenceCluster) (ns name image : string) : list Json :=
  let l := labels name "agent" in
  let agent := ic_agent (ic_spec ic) in
  let node_selector := or_insert "nvidia.com/gpu.present" "true" (as_node_selector agent) in
  [workload "DaemonSet" (metadata (name +:+ "-agent") ns l) l []
     [("serviceAccountName", text name);
      ("nodeSelector", JObject (map (fun kv => (kv.1, text kv.2)) (btree_iter node_selector)));
      ("tolerations", JArray (as_tolerations agent)); ("hostNetwork", JBool true);
      ("containers", JArray [obj
         [("name", text "agent"); ("image", text image); ("args", config_args);
          ("ports", JArray [json_port "grpc" 7071 [("hostPort", num 7071)]; json_port "admin" 9091 []]);
          ("volumeMounts", JArray [json_mount "config" "/etc/cognitora" read_only; json_mount "pki" "/etc/cognitora/pki" read_only;
                                   json_mount "kv-sock" "/run/cognitora" []]);
          ("resources", resource_block (as_resources agent))]]);
      ("volumes", JArray [config_volume name; pki_volume name; obj [("name", text "kv-sock"); ("emptyDir", obj [])]])]].

Definition gib (n : Z) : string := pretty n +:+ "Gi".

Definition ssd_volume (name : string) (kv : KvCachedSpec) : Json :=
  match ks_ssd_class kv with
  | Some c => obj [("name", text "ssd"); ("persistentVolumeClaim", obj [("claimName", text (name +:+ "-kv-ssd")); ("storageClassName", text c)])]
  | None => obj [("name", text "ssd"); ("emptyDir", obj [("sizeLimit", text (gib (ks_ssd_gib kv)))])]
  end.

Definition kvcached_objects (ic : InferenceCluster) (ns name image : string) : list Json :=
  let l := labels name "kvcached" in
  let kv := ic_kvcached (ic_spec ic) in
  [workload "Deployment" (metadata (name +:+ "-kvcached") ns l) l [("replicas", num 1)]
     [("serviceAccountName", text name);
      ("containers", JArray [obj
         [("name", text "kvcached"); ("image", text image); ("args", config_args);
          ("ports", JArray [json_port "grpc" 7072 []; json_port "quic" 7073 [("protocol", text "UDP")]; json_port "admin" 9091 []]);
          ("volumeMounts", JArray [json_mount "config" "/etc/cognitora" read_only; json_mount "pki" "/etc/cognitora/pki" read_only;
                                   json_mount "ssd" "/var/lib/cognitora/kv/ssd" []; json_mount "kv-sock" "/run/cognitora" []]);
          ("resources", obj [("limits", obj [("memory", text (gib (add_u32 (ks_ram_gib kv) 2)))]); ("requests", obj [("memory", text (gib (ks_ram_gib kv)))])])]]);
      ("volumes", JArray [config_volume name; pki_volume name; ssd_volume name kv; obj [("name", text "kv-sock"); ("emptyDir", obj [])]])]].

Definition metrics_objects (ic : InferenceCluster) (ns name image : string) : list Json :=
  if negb (ms_enabled (ic_metrics (ic_spec ic))) then []
  else
    let l := labels name "metrics" in
    [workload "Deployment" (metadata (name +:+ "-metrics") ns l) l [("replicas", num 1)]
       [("serviceAccountName", text name);
        ("containers", JArray [obj
           [("name", text "metrics"); ("image", text image); ("args", config_args);
            ("ports", JArray [json_port "metrics" 9092 []]);
            ("volumeMounts", JArray [json_mount "config" "/etc/cognitora" read_only])]]);
        ("volumes", JArray [config_volume name])]].

(** ** The cluster's reconciler *)

Definition image_of (ic : InferenceCluster) (component : string) : string :=
  replace ("ghcr.io/antonellof/cognitora-inference/{}:" +:+ default "latest" (ic_image_tag (ic_spec ic))) "{}" component.

Definition cluster_ns (ic : InferenceCluster) : string := default "default" (ic_namespace ic).

Definition cluster_objects (ic : InferenceCluster) : list Json :=
  let ns := cluster_ns ic in
  let name := ic_name ic in
  router_objects ic ns name (image_of ic "cgn-router") ++ agent_objects ic ns name (image_of ic "cgn-agent")
  ++ kvcached_objects ic ns name (image_of ic "cgn-kvcached") ++ metrics_objects ic ns name (image_of ic "cgn-metrics").

(** [value[k]]: null when there is no such member. *)
Definition at_key (k : string) (v : Json) : Json := default JNull (json_get k v).
Fixpoint at_path (ks : list string) (v : Json) : Json := match ks with [] => v | k :: ks => at_path ks (at_key k v) end.
Definition text_at (ks : list string) (d : string) (v : Json) : string := default d (as_str (at_path ks v)).

(** The address of an object in the API: group, version, kind, plural, name. *)
Record ApiTarget := mkTarget { at_group : string; at_version : string; at_kind : string; at_plural : string; at_ns : string; at_name : string }.

Definition split_slash (s : string) : option (string * string) :=
  (fix go acc s := match s with
     | EmptyString => None
     | String a s' => if Ascii.eqb a (Ascii.ascii_of_nat 47) then Some (acc, s') else go (acc +:+ String a "") s'
     end) "" s.

(** [to_lowercase] on the ASCII kinds. *)
Definition plural_of (kind : string) : string :=
  if existsb (String.eqb kind) ["Deployment"; "DaemonSet"; "StatefulSet"; "ReplicaSet"] then to_ascii_lowercase kind +:+ "s"
  else if String.eqb kind "Service" then "services"
  else if String.eqb kind "ConfigMap" then "configmaps"
  else if String.eqb kind "Secret" then "secrets"
  else if String.eqb kind "ServiceAccount" then "serviceaccounts"
  else to_ascii_lowercase kind +:+ "s".

Definition apply_target (ns : string) (o : Json) : ApiTarget :=
  let kind := text_at ["kind"] "" o in
  let api_version := text_at ["apiVersion"] "v1" o in
  let (group, version) := match split_slash api_version with Some gv => gv | None => ("", api_version) end in
  mkTarget group version kind (plural_of kind) ns (text_at ["metadata"; "name"] "" o).

(** Every object is applied whatever became of those before it; then the status. *)
Definition reconcile_cluster (apply_ok : ApiTarget -> bool) (ic : InferenceCluster) : list (ApiTarget * Json) * InferenceClusterStatus :=
  let all := cluster_objects ic in
  let tries := map (fun o => (apply_target (cluster_ns ic) o, o)) all in
  let ok := List.filter (fun t => apply_ok t.1) tries in
  let errored := (length tries - length ok)%nat in
  (ok, mkClusterStatus (if (0 <? errored)%nat then "Degraded" else "Progressing")
         (Some (pretty (length ok) +:+ "/" +:+ pretty (length all) +:+ " applied")) (ro_replicas (ic_router (ic_spec ic)))).

(** ** The pool's reconciler *)

Definition json_strs (l : list string) : Json := JArray (map text l).
Definition json_opt_num (o : option Z) : Json := match o with Some n => num n | None => JNull end.

Definition pool_config_map `{SerdeJson} (p : ModelPool) : Json :=
  let s := pool_spec p in
  obj [("apiVersion", text "v1"); ("kind", text "ConfigMap");
       ("metadata", obj [("name", text ("cognitora-models-" +:+ pool_name p)); ("namespace", text (default "default" (pool_namespace p)));
          ("labels", obj [("app.kubernetes.io/name", text "cognitora"); ("app.kubernetes.io/component", text "model-pool");
                          ("app.kubernetes.io/managed-by", text "cgn-operator")])]);
       ("data", obj [("model.json", text (json_to_string (obj
          [("model", text (mp_model s)); ("tp", num (mp_tp s)); ("prefill_replicas", num (mp_prefill_replicas s));
           ("decode_replicas", num (mp_decode_replicas s)); ("cascade", json_strs (mp_cascade s)); ("max_model_len", json_opt_num (mp_max_model_len s));
           ("extra_args", json_strs (mp_extra_args s))])))])].

Definition reconcile_pool `{SerdeJson} (p : ModelPool) : Json * ModelPoolStatus :=
  (pool_config_map p, mkPoolStatus "Synced" (add_u32 (mp_prefill_replicas (pool_spec p)) (mp_decode_replicas (pool_spec p))) None None).

(** * Properties *)

(** ** What a rendered object says *)

Definition items_at (ks : list string) (v : Json) : list Json := default [] (as_array (at_path ks v)).
Definition names_at (ks : list string) (v : Json) : list string := omap (fun m => as_str (at_key "name" m)) (items_at ks v).

Definition selector_of (o : Json) : Json := at_path ["spec"; "selector"; "matchLabels"] o.
Definition pod_labels (o : Json) : Json := at_path ["spec"; "template"; "metadata"; "labels"] o.
Definition pod_spec (o : Json) : Json := at_path ["spec"; "template"; "spec"] o.
Definition containers (o : Json) : list Json := items_at ["containers"] (pod_spec o).

Definition declared (names : list string) (n : option string) : bool :=
  match n with Some n => existsb (String.eqb n) names | None => true end.

(** A container mounts declared volumes, none twice at one path, and its probes
    ask one of its ports. *)
Definition container_wired (volumes : list string) (c : Json) : bool :=
  forallb (fun m => declared volumes (as_str (at_key "name" m))) (items_at ["volumeMounts"] c)
  && bool_decide (NoDup (map (text_at ["mountPath"] "") (items_at ["volumeMounts"] c)))
  && bool_decide (NoDup (names_at ["ports"] c))
  && forallb (fun p => declared (names_at ["ports"] c) (as_str (at_path [p; "httpGet"; "port"] c))) ["readinessProbe"; "livenessProbe"].

Definition pods_wired (o : Json) : bool :=
  negb (bool_decide (containers o = [])) && bool_decide (NoDup (names_at ["volumes"] (pod_spec o)))
  && forallb (container_wired (names_at ["volumes"] (pod_spec o))) (containers o).

(** A service's target ports are ports of the pods behind it. *)
Definition service_wired (d s : Json) : bool :=
  forallb (fun p => declared (concat (map (names_at ["ports"]) (containers d))) (as_str (at_key "targetPort" p))) (items_at ["spec"; "ports"] s).

Definition workload_target (ns kind plural name : string) : ApiTarget := mkTarget "apps" "v1" kind plural ns name.
Definition service_target (ns name : string) : ApiTarget := mkTarget "" "v1" "Service" "services" ns name.

(** [o] runs the pods of role [role] of cluster [name], and only those. *)
Definition runs (ns name role : string) (o : Json) : Prop :=
  selector_of o = labels name role /\ pod_labels o = labels name role /\ pods_wired o = true /\ text_at ["metadata"; "namespace"] "" o = ns.

Lemma router_wired ic ns name image :
  exists d s, router_objects ic ns name image = [d; s]
    /\ runs ns name "router" d /\ apply_target ns d = workload_target ns "Deployment" "deployments" (name +:+ "-router")
    /\ at_path ["spec"; "selector"] s = pod_labels d /\ service_wired d s = true /\ text_at ["metadata"; "namespace"] "" s = ns
    /\ apply_target ns s = service_target ns (name +:+ "-router").
Proof. eexists _, _. split; [reflexivity|]. by split_and!; [split_and! | | | | |]; vm_compute. Qed.

Lemma agent_wired ic ns name image :
  exists d, agent_objects ic ns name image = [d]
    /\ runs ns name "agent" d /\ apply_target ns d = workload_target ns "DaemonSet" "daemonsets" (name +:+ "-agent").
Proof. eexists. split; [reflexivity|]. by split_and!; [split_and! |]; vm_compute. Qed.

Lemma kvcached_wired ic ns name image :
  exists d, kvcached_objects ic ns name image = [d]
    /\ runs ns name "kvcached" d /\ apply_target ns d = workload_target ns "Deployment" "deployments" (name +:+ "-kvcached").
Proof. eexists. split; [reflexivity|]. rw /ssd_volume. destruct (ks_ssd_class _); by split_and!; [split_and! |]; vm_compute. Qed.

Lemma metrics_wired ic ns name image : ms_enabled (ic_metrics (ic_spec ic)) = true ->
  exists d, metrics_objects ic ns name image = [d]
    /\ runs ns name "metrics" d /\ apply_target ns d = workload_target ns "Deployment" "deployments" (name +:+ "-metrics").
Proof. intros E. rw /metrics_objects E. eexists. split; [reflexivity|]. by split_and!; [split_and! |]; vm_compute. Qed.

(** The roles a cluster's workloads have, and where its objects are written. *)
Definition roles : list string := ["router"; "agent"; "kvcached"; "metrics"].
Definition cluster_roles (ic : InferenceCluster) : list string := if ms_enabled (ic_metrics (ic_spec ic)) then roles else take 3 roles.
Definition targets (ic : InferenceCluster) : list ApiTarget := map (apply_target (cluster_ns ic)) (cluster_objects ic).

Lemma role_cases r : r ∈ roles -> r = "router" \/ r = "agent" \/ r = "kvcached" \/ r = "metrics".
Proof. rw /roles. set_solver. Qed.

(** The name of a role's objects determines the cluster and the role. *)
Lemma role_name_inj n n' r r' : r ∈ roles -> r' ∈ roles -> n +:+ "-" +:+ r = n' +:+ "-" +:+ r' -> n = n' /\ r = r'.
Proof.
  intros Hr Hr' E%(f_equal (fun s => rev (as_bytes s))). rw !as_bytes_app !rev_app_distr in E.
  assert (Hn : rev (as_bytes n) = rev (as_bytes n') -> n = n') by (intros Er; apply as_bytes_inj; by rw -(rev_involutive (as_bytes n)) Er rev_involutive).
  destruct (role_cases r Hr) as [-> | [-> | [-> | ->]]]; destruct (role_cases r' Hr') as [-> | [-> | [-> | ->]]]; cbn in E; simplify_eq; auto.
Qed.

Lemma labels_inj n n' r r' : labels n r = labels n' r' -> n = n' /\ r = r'.
Proof. intros E. vm_compute in E. by injection E. Qed.

Lemma expected ic :
  let ns := cluster_ns ic in
  let at_role (r : string) := ic_name ic +:+ "-" +:+ r in
  exists router service rest, cluster_objects ic = router :: service :: rest
    /\ Forall2 (runs ns (ic_name ic)) (cluster_roles ic) (router :: rest)
    /\ at_path ["spec"; "selector"] service = pod_labels router /\ service_wired router service = true
    /\ text_at ["metadata"; "namespace"] "" service = ns
    /\ targets ic = workload_target ns "Deployment" "deployments" (at_role "router") :: service_target ns (at_role "router")
         :: workload_target ns "DaemonSet" "daemonsets" (at_role "agent") :: workload_target ns "Deployment" "deployments" (at_role "kvcached")
         :: (if ms_enabled (ic_metrics (ic_spec ic)) then [workload_target ns "Deployment" "deployments" (at_role "metrics")] else []).
Proof.
  intros ns at_role. rw /targets /cluster_objects /cluster_roles -/ns.
  destruct (router_wired ic ns (ic_name ic) (image_of ic "cgn-router")) as (d & s & -> & Hd & Td & Es & Ws & Ns & Ts).
  destruct (agent_wired ic ns (ic_name ic) (image_of ic "cgn-agent")) as (a & -> & Ha & Ta).
  destruct (kvcached_wired ic ns (ic_name ic) (image_of ic "cgn-kvcached")) as (k & -> & Hk & Tk).
  exists d, s, ([a; k] ++ metrics_objects ic ns (ic_name ic) (image_of ic "cgn-metrics")). split; [done|].
  rw !map_app /= Td Ts Ta Tk. destruct (ms_enabled _) eqn:Em.
  - destruct (metrics_wired ic ns (ic_name ic) (image_of ic "cgn-metrics") Em) as (m & -> & Hm & Tm). rw /= Tm. split_and!; auto 10. by repeat (apply List.Forall2_cons; [assumption|]).
  - rw /metrics_objects Em. split_and!; auto 10.
Qed.

Lemma target_role ic t : t ∈ targets ic -> exists r, r ∈ roles /\ at_ns t = cluster_ns ic /\ at_name t = ic_name ic +:+ "-" +:+ r.
Proof.
  destruct (expected ic) as (d & s & rest & _ & _ & _ & _ & _ & ->). rw /roles.
  rw !elem_of_cons. intros [-> | [-> | [-> | [-> | Ht]]]]; [eexists; split; [|split; reflexivity]; set_solver ..|].
  case_match; [|set_solver]. apply list_elem_of_singleton in Ht as ->. eexists; split; [|split; reflexivity]; set_solver.
Qed.

#[local] Ltac role_clash :=
  let E := fresh in
  intros E; first [discriminate E
    | apply (f_equal at_name) in E; apply role_name_inj in E as [_ E]; [discriminate E | rw /roles; set_solver ..]].

(** C30. What the operator renders for a cluster is wired: its router, agent,
    kvcached and (when enabled) metrics controllers each select exactly the pods
    they create, none selects the pods of another; containers mount only volumes
    their pod declares and probe only ports they have; the service selects the
    router's pods and targets ports of theirs; no two objects have the same
    address, and two clusters of different names or namespaces never write the
    same object. *)
Theorem rendered_cluster_wired ic :
  exists router service rest, cluster_objects ic = router :: service :: rest
    /\ Forall2 (runs (cluster_ns ic) (ic_name ic)) (cluster_roles ic) (router :: rest)
    /\ (forall i j o o', (router :: rest) !! i = Some o -> (router :: rest) !! j = Some o' -> selector_of o = pod_labels o' -> i = j)
    /\ at_path ["spec"; "selector"] service = pod_labels router /\ service_wired router service = true
    /\ NoDup (targets ic)
    /\ (forall ic' t, t ∈ targets ic -> t ∈ targets ic' -> cluster_ns ic = cluster_ns ic' /\ ic_name ic = ic_name ic').
Proof.
  destruct (expected ic) as (d & s & rest & E & Hr & Es & Ws & _ & Et). exists d, s, rest. split; [done|]. split; [done|].
  split; [|split; [done|split; [done|split]]].
  - intros i j o o' Hi Hj Eo. destruct (Forall2_lookup_r _ _ _ _ _ Hr Hi) as (r & Lr & So & _).
    destruct (Forall2_lookup_r _ _ _ _ _ Hr Hj) as (r' & Lr' & _ & Po & _).
    rw So Po in Eo. apply labels_inj in Eo as [_ ->].
    apply (NoDup_lookup (cluster_roles ic) i j r'); [|done|done]. rw /cluster_roles. case_match; compute_dec.
  - rw Et. destruct (ms_enabled _);
      (repeat (apply NoDup_cons_2; [rw ?not_elem_of_cons; split_and?; first [apply not_elem_of_nil | role_clash]|])); apply NoDup_nil_2.
  - intros ic' t Ht Ht'. destruct (target_role _ _ Ht) as (r & Hr1 & <- & Er). destruct (target_role _ _ Ht') as (r' & Hr' & <- & Er').
    split; [done|]. rw Er in Er'. by apply role_name_inj in Er' as [? _].
Qed.

(** A reconcile tries every object, whatever became of those before it; the
    phase says whether one was refused. It is never Ready, and the count of ready
    replicas is the one asked for. *)
Lemma reconcile_outcome apply_ok ic :
  let '(applied, st) := reconcile_cluster apply_ok ic in
  (forall o, o ∈ applied.*2 <-> o ∈ cluster_objects ic /\ apply_ok (apply_target (cluster_ns ic) o) = true)
  /\ (st_phase st = "Degraded" <-> exists t, t ∈ targets ic /\ apply_ok t = false)
  /\ st_phase st <> "Ready" /\ st_ready_replicas st = ro_replicas (ic_router (ic_spec ic)).
Proof.
  rw /reconcile_cluster. set tries := map _ (cluster_objects ic). set ok := List.filter _ tries. cbn [st_phase st_ready_replicas].
  assert (Hall : forallb (fun t => apply_ok t.1) tries = forallb apply_ok (targets ic)).
  { rw /tries /targets. induction (cluster_objects ic) as [|o l IH]; [done|]. by rw /= IH. }
  split; [|split; [|split; [by case_match|done]]].
  - intros o. rw list_elem_of_fmap. split.
    + intros ([t o'] & -> & ([o'' [[= -> ->] Hin]]%list_elem_of_fmap & Ha)%elem_of_bool_filter). done.
    + intros [Hin Ha]. eexists (_, o). split; [done|]. apply elem_of_bool_filter. split; [|done]. apply list_elem_of_fmap. by exists o.
  - destruct (forallb apply_ok (targets ic)) eqn:Hf.
    + rw /ok (forallb_filter_id _ _ Hall) Nat.sub_diag /=. split; [done|].
      intros (t & Ht & Ha). rw forallb_forall in Hf. by rw Hf in Ha; [apply list_elem_of_In|].
    + assert (length ok < length tries)%nat as Hl.
      { assert (length ok <= length tries)%nat as Hle by apply filter_length_le. destruct (Nat.eq_dec (length ok) (length tries)) as [E|]; [|lia].
        apply filter_length_forallb in E. congruence. }
      replace (0 <? length tries - length ok)%nat with true by (symmetry; apply Nat.ltb_lt; lia). split; [intros _|done].
      destruct (decide (Exists (fun t => apply_ok t = false) (targets ic))) as [(t & ? & ?)%Exists_exists|Hn]; [by exists t|].
      exfalso. apply not_true_iff_false in Hf. apply Hf, forallb_forall. intros t Ht. apply not_false_iff_true. intros Ha.
      apply Hn, Exists_exists. exists t. by rw list_elem_of_In.
Qed.

(** ** The shipped schemas

    The manifests of [deploy/kubernetes/crds] name their fields in camel case. *)

Definition only_keys (ks : list string) (f : list (string * Json)) : Prop := forall k, k ∈ map fst f -> k ∈ ks.

Lemma required_absent {A} (de : Json -> option A) ks k f : only_keys ks f -> existsb (String.eqb k) ks = false -> required de k f = None.
Proof.
  intros Hks Hk. rw /required. rw (proj2 (field_absent k f)); [|done]. intros Hin%Hks. apply not_true_iff_false in Hk. apply Hk, existsb_exists.
  exists k. split; [by apply list_elem_of_In|apply String.eqb_refl].
Qed.

(** A pool, a policy or a cluster that has only fields of the shipped schema is
    not one the operator can read: it asks for [tp] and [prefill_replicas] where
    the schema has [tensorParallel] and [replicas], for the weights at the top
    where the schema nests them, for [ram_gib] where it has [ramGib]. *)
Lemma schema_pool_unreadable f :
  only_keys ["model"; "tensorParallel"; "dtype"; "replicas"; "cascade"; "nodeSelector"; "slo"] f -> de_pool_spec (JObject f) = None.
Proof. intros Hf. rw /de_pool_spec /=. case_match; [done|]. rw /= (required_absent de_u32 _ "tp" f Hf) //. by destruct (required de_string _ f). Qed.

Lemma schema_policy_unreadable f :
  only_keys ["scoreWeights"; "admission"; "cascade"; "disagg"] f -> de_policy_spec (JObject f) = None.
Proof. intros Hf. rw /de_policy_spec /=. case_match; [done|]. by rw /= (required_absent de_f32 _ "kv" f Hf). Qed.

Lemma schema_cluster_unreadable f g :
  field "kvcached" f = Some (JObject g) -> only_keys ["ramGib"; "ssdGib"] g -> de_cluster_spec (JObject f) = None.
Proof.
  intros Hf Hg. assert (de_kvcached_spec (JObject g) = None) as E.
  { rw /de_kvcached_spec /=. case_match; [done|]. by rw /= (required_absent de_u32 _ "ram_gib" g Hg). }
  rw /de_cluster_spec /=. case_match; [done|]. rw /= (_ : required de_kvcached_spec "kvcached" f = None); [by rw /required Hf /= E|].
  by destruct (required de_router_spec _ f); [destruct (required de_agent_spec _ f)|].
Qed.

(** ** Examples *)

Module OperatorExamples.

Definition demo : InferenceCluster :=
  mkInferenceCluster "demo" (Some "serving")
    (mkClusterSpec (mkRouterSpec 2 (mkResources (Some "2") None None) None)
       (mkAgentSpec {["zone" := "a"]} [] (mkResources None None (Some 1)))
       (mkKvCachedSpec 16 200 (Some "nvme")) (mkMetricsSpec false None) (Some "0.9.0")).

Lemma rendered_cluster_wired_witness : pods_wired (default JNull (cluster_objects demo !! 0%nat)) = true /\ NoDup (targets demo).
Proof.
  split; [by vm_compute|].
  by destruct (rendered_cluster_wired demo) as (? & ? & ? & _ & _ & _ & _ & _ & Hn & _).
Defined.

(** The volume of a storage class is claimed, and no claim is rendered; agent and
    store each get an empty directory of their own where the store's socket is. *)
Example ssd_claim_unrendered :
  map (fun o => text_at ["kind"] "" o) (cluster_objects demo) = ["Deployment"; "Service"; "DaemonSet"; "Deployment"]
  /\ map (fun o => existsb (fun v => String.eqb (text_at ["persistentVolumeClaim"; "claimName"] "" v) "demo-kv-ssd") (items_at ["volumes"] (pod_spec o)))
       (cluster_objects demo) = [false; false; false; true]
  /\ map (fun o => List.filter (fun v => String.eqb (text_at ["name"] "" v) "kv-sock") (items_at ["volumes"] (pod_spec o))) (cluster_objects demo)
     = [[]; []; [obj [("name", text "kv-sock"); ("emptyDir", obj [])]]; [obj [("name", text "kv-sock"); ("emptyDir", obj [])]]].
Proof. by vm_compute. Qed.

(** The pool of [docs/guides/kubernetes.md], and one in the words of the operator. *)
Example documented_pool :
  de_pool_spec (obj [("model", text "meta-llama/Meta-Llama-3-70B-Instruct"); ("tensorParallel", num 4); ("dtype", text "bfloat16"); ("replicas", num 2)]) = None
  /\ de_pool_spec (obj [("model", text "m"); ("tp", num 4); ("prefill_replicas", num 1); ("decode_replicas", num 2);
                        ("slo", obj [("maxQueuePerReplica", num 8)])])
     = Some (mkPoolSpec "m" 4 1 2 [] None [] (Some (mkSlo (Some 8) None None None))).
Proof. by vm_compute. Qed.

Example cluster_decoded :
  de_cluster_spec (obj [("router", obj [("replicas", num 2)]); ("agent", obj [("node_selector", obj [("zone", text "a")])]);
                        ("kvcached", obj [("ram_gib", num 16); ("ssd_gib", num 200)]); ("metrics", obj [("enabled", JBool false)])])
  = Some (mkClusterSpec (mkRouterSpec 2 no_resources None) (mkAgentSpec {["zone" := "a"]} [] no_resources) (mkKvCachedSpec 16 200 None)
            (mkMetricsSpec false None) None).
Proof. by vm_compute. Qed.

Example image_pinned : image_of demo "cgn-agent" = "ghcr.io/antonellof/cognitora-inference/cgn-agent:0.9.0".
Proof. reflexivity. Qed.

End OperatorExamples.
