(* ===== verification/Chat.v ===== *)
(** * Chat requests

    [cgn-router/src/gateway/chat.rs] and the requests of [gateway/types.rs]: a
    decoded OpenAI body becomes a [GenerateRequest], which [serve] ([Stream])
    answers; and the request an agent gets for it ([gateway/generate.rs]). *)

From S2P Require Import Prelude StringFacts Hash Float32 Config Proto Text Json Prompt Auth Usage Stream.

(** ** Bodies *)

Inductive ContentSpec := Content_Text (s : string) | Content_Parts (v : Json).
Inductive StopSpec := Stop_Single (s : string) | Stop_Multi (v : list string).
Inductive PromptSpec := Prompt_One (s : string) | Prompt_Many (v : list string).

Definition StopSpec_into_vec (s : StopSpec) : list string := match s with Stop_Single s => [s] | Stop_Multi v => v end.

Record ChatMessage := mkChatMessage {
  cm_role : string;
  cm_content : ContentSpec;
  cm_name : option string;
  cm_tool_calls : option Json;
  cm_tool_call_id : option string;
}.

Record StreamOptions := mkStreamOptions { include_usage : bool }.

Record ChatRequest := mkChatRequest {
  cr_model : string;
  cr_messages : list ChatMessage;
  cr_temperature : option f32;
  cr_top_p : option f32;
  cr_max_tokens : option Z;
  cr_max_completion_tokens : option Z;
  cr_n : option Z;
  cr_stream : option bool;
  cr_stream_options : option StreamOptions;
  cr_logprobs : option bool;
  cr_top_logprobs : option Z;
  cr_logit_bias : option Json;
  cr_parallel_tool_calls : option bool;
  cr_top_k : option Z;
  cr_min_p : option f32;
  cr_repetition_penalty : option f32;
  cr_stop : option StopSpec;
  cr_frequency_penalty : option f32;
  cr_presence_penalty : option f32;
  cr_user : option string;
  cr_seed : option Z;
  cr_tools : option Json;
  cr_tool_choice : option Json;
  cr_response_format : option Json;
}.

Record CompletionRequest := mkCompletionRequest {
  tr_model : string;
  tr_prompt : PromptSpec;
  tr_temperature : option f32;
  tr_top_p : option f32;
  tr_max_tokens : option Z;
  tr_n : option Z;
  tr_stream : option bool;
  tr_stream_options : option StreamOptions;
  tr_stop : option StopSpec;
  tr_frequency_penalty : option f32;
  tr_presence_penalty : option f32;
  tr_seed : option Z;
  tr_echo : option bool;
  tr_logprobs : option Z;
  tr_user : option string;
}.

(** [#[serde(untagged)]]: the first variant that fits. *)
Definition de_content (v : Json) : option ContentSpec :=
  match de_string v with Some s => Some (Content_Text s) | None => Content_Parts <$> de_value v end.
Definition de_stop_spec (v : Json) : option StopSpec :=
  match de_string v with Some s => Some (Stop_Single s) | None => Stop_Multi <$> de_vec de_string v end.
Definition de_prompt_spec (v : Json) : option PromptSpec :=
  match de_string v with Some s => Some (Prompt_One s) | None => Prompt_Many <$> de_vec de_string v end.

Definition de_chat_message (v : Json) : option ChatMessage :=
  f ← struct_members ["role"; "content"; "name"; "tool_calls"; "tool_call_id"] v;
  r ← required de_string "role" f;
  c ← member de_content (Content_Text "") "content" f;
  n ← member (de_option de_string) None "name" f;
  t ← member (de_option de_value) None "tool_calls" f;
  i ← member (de_option de_string) None "tool_call_id" f;
  Some (mkChatMessage r c n t i).

Definition de_stream_options (v : Json) : option StreamOptions :=
  f ← struct_members ["include_usage"] v; mkStreamOptions <$> member de_bool false "include_usage" f.

(** An optional member. *)
Definition opt {A} (de : Json -> option A) (k : string) (f : list (string * Json)) : option (option A) := member (de_option de) None k f.

Definition chat_fields : list string :=
  ["model"; "messages"; "temperature"; "top_p"; "max_tokens"; "max_completion_tokens"; "n"; "stream"; "stream_options"; "logprobs";
   "top_logprobs"; "logit_bias"; "parallel_tool_calls"; "top_k"; "min_p"; "repetition_penalty"; "stop"; "frequency_penalty";
   "presence_penalty"; "user"; "seed"; "tools"; "tool_choice"; "response_format"].

Definition de_chat_request (v : Json) : option ChatRequest :=
  f ← struct_members chat_fields v;
  model ← required de_string "model" f;
  messages ← required (de_vec de_chat_message) "messages" f;
  temperature ← opt de_f32 "temperature" f;
  top_p ← opt de_f32 "top_p" f;
  max_tokens ← opt de_u32 "max_tokens" f;
  max_completion_tokens ← opt de_u32 "max_completion_tokens" f;
  n ← opt de_u32 "n" f;
  stream ← opt de_bool "stream" f;
  stream_options ← opt de_stream_options "stream_options" f;
  logprobs ← opt de_bool "logprobs" f;
  top_logprobs ← opt de_u32 "top_logprobs" f;
  logit_bias ← opt de_value "logit_bias" f;
  parallel_tool_calls ← opt de_bool "parallel_tool_calls" f;
  top_k ← opt de_u32 "top_k" f;
  min_p ← opt de_f32 "min_p" f;
  repetition_penalty ← opt de_f32 "repetition_penalty" f;
  stop ← opt de_stop_spec "stop" f;
  frequency_penalty ← opt de_f32 "frequency_penalty" f;
  presence_penalty ← opt de_f32 "presence_penalty" f;
  user ← opt de_string "user" f;
  seed ← opt de_u32 "seed" f;
  tools ← opt de_value "tools" f;
  tool_choice ← opt de_value "tool_choice" f;
  response_format ← opt de_value "response_format" f;
  Some (mkChatRequest model messages temperature top_p max_tokens max_completion_tokens n stream stream_options logprobs top_logprobs
    logit_bias parallel_tool_calls top_k min_p repetition_penalty stop frequency_penalty presence_penalty user seed tools tool_choice
    response_format).

Definition completion_fields : list string :=
  ["model"; "prompt"; "temperature"; "top_p"; "max_tokens"; "n"; "stream"; "stream_options"; "stop"; "frequency_penalty";
   "presence_penalty"; "seed"; "echo"; "logprobs"; "user"].

Definition de_completion_request (v : Json) : option CompletionRequest :=
  f ← struct_members completion_fields v;
  model ← required de_string "model" f;
  prompt ← required de_prompt_spec "prompt" f;
  temperature ← opt de_f32 "temperature" f;
  top_p ← opt de_f32 "top_p" f;
  max_tokens ← opt de_u32 "max_tokens" f;
  n ← opt de_u32 "n" f;
  stream ← opt de_bool "stream" f;
  stream_options ← opt de_stream_options "stream_options" f;
  stop ← opt de_stop_spec "stop" f;
  frequency_penalty ← opt de_f32 "frequency_penalty" f;
  presence_penalty ← opt de_f32 "presence_penalty" f;
  seed ← opt de_u32 "seed" f;
  echo ← opt de_bool "echo" f;
  logprobs ← opt de_u32 "logprobs" f;
  user ← opt de_string "user" f;
  Some (mkCompletionRequest model prompt temperature top_p max_tokens n stream stream_options stop frequency_penalty presence_penalty
    seed echo logprobs user).

(** ** The internal request *)

Section build.
Context `{SerdeJson} `{Blake3}.

(** Tools and guided decoding bind a request to its model. *)
Definition is_some {A} (o : option A) : bool := match o with Some _ => true | None => false end.
Definition pins_model (r : ChatRequest) : bool := is_some (cr_tools r) || is_some (cr_tool_choice r) || is_some (cr_response_format r).

(** [isolation_ext]; the extensions come in key order. *)
Definition tenant_of (caller : Caller) : string := to_string (caller_tenant caller).
Definition isolated (cfg : Config) (caller : Caller) : bool := negb (is_empty (tenant_of caller)) && rc_kv_tenant_isolation (cfg_router cfg).
Definition salted_ext (cfg : Config) (caller : Caller) (ext : list (string * Json)) : list (string * Json) :=
  if isolated cfg caller then obj_insert "cache_salt" (JString (blake3_hex (tenant_of caller))) ext else ext.
Definition isolation_ext (cfg : Config) (caller : Caller) (ext : list (string * Json)) : string :=
  match salted_ext cfg caller ext with [] => "" | ext => json_to_string (JObject ext) end.

Definition proto_message (m : ChatMessage) : Message :=
  let '(content, content_json) :=
    match cm_content m with Content_Text s => (s, "") | Content_Parts v => ("", json_to_string v) end in
  mkMessage (cm_role m) content (default "" (cm_name m)) content_json (default "" (json_to_string <$> cm_tool_calls m))
    (default "" (cm_tool_call_id m)).

(** The closure [put]. *)
Definition put_ext (k : string) (v : option Json) (ext : list (string * Json)) : list (string * Json) :=
  match v with Some v => obj_insert k v ext | None => ext end.

Definition chat_extensions (r : ChatRequest) : list (string * Json) :=
  let ext := put_ext "tools" (cr_tools r) [] in
  let ext := put_ext "tool_choice" (cr_tool_choice r) ext in
  let ext := put_ext "response_format" (cr_response_format r) ext in
  let ext := put_ext "logit_bias" (cr_logit_bias r) ext in
  let ext := put_ext "parallel_tool_calls" (JBool <$> cr_parallel_tool_calls r) ext in
  let ext := put_ext "top_logprobs" (JNumber <$> cr_top_logprobs r) ext in
  put_ext "min_p" (json_f32 <$> cr_min_p r) ext.

Definition chat_params (r : ChatRequest) : SamplingParams :=
  mkSampling (default f32_one (cr_temperature r)) (default f32_one (cr_top_p r)) (default 0%Z (cr_top_k r))
    (default 0%Z (match cr_max_completion_tokens r with Some n => Some n | None => cr_max_tokens r end))
    (default [] (StopSpec_into_vec <$> cr_stop r)) (default false (cr_logprobs r)) (cr_seed r)
    (default f32_zero (cr_frequency_penalty r)) (default f32_zero (cr_presence_penalty r)) (default f32_one (cr_repetition_penalty r)).

Definition build_proto_request (cfg : Config) (r : ChatRequest) (caller : Caller) : GenerateRequest :=
  mkGenerate (cr_model r) (map proto_message (cr_messages r)) (Some (chat_params r)) (to_string (caller_tenant caller))
    (default false (cr_stream r)) [] "" "" 0 (isolation_ext cfg caller (chat_extensions r)) "" (default "" (cr_user r)).

Definition text_params (r : CompletionRequest) : SamplingParams :=
  mkSampling (default f32_one (tr_temperature r)) (default f32_one (tr_top_p r)) 0 (default 0%Z (tr_max_tokens r))
    (default [] (StopSpec_into_vec <$> tr_stop r)) false (tr_seed r)
    (default f32_zero (tr_frequency_penalty r)) (default f32_zero (tr_presence_penalty r)) f32_one.

Definition text_proto (cfg : Config) (r : CompletionRequest) (prompt : string) (caller : Caller) : GenerateRequest :=
  mkGenerate (tr_model r) [] (Some (text_params r)) (to_string (caller_tenant caller))
    (default false (tr_stream r)) [] "" "" 0 (isolation_ext cfg caller []) prompt (default "" (tr_user r)).

(** [apply_headers]: [header] is the value of a header, if it is printable. *)
Definition apply_headers (header : string -> option string) (p : GenerateRequest) : GenerateRequest :=
  let deadline := match header "x-cgn-deadline-ms" with Some v => parse_u32 (chars v) | None => None end in
  mkGenerate (gq_model p) (gq_messages p) (gq_params p) (gq_tenant p) (gq_stream p) (gq_cascade p)
    (default "" (header "traceparent")) (default "" (header "tracestate")) (default (gq_deadline_ms p) deadline)
    (gq_extensions_json p) (gq_prompt p) (default (gq_session p) (header "x-session-id")).

(** The request of a cascade step: another model, with log-probabilities. *)
Definition step_request (p : GenerateRequest) (model : string) (logprobs : bool) : GenerateRequest :=
  let params := (fun q => mkSampling (sp_temperature q) (sp_top_p q) (sp_top_k q) (sp_max_tokens q) (sp_stop q)
      (logprobs || sp_logprobs q) (sp_seed q) (sp_frequency_penalty q) (sp_presence_penalty q) (sp_repetition_penalty q)) <$> gq_params p in
  mkGenerate model (gq_messages p) params (gq_tenant p) (gq_stream p) (gq_cascade p) (gq_traceparent p) (gq_tracestate p)
    (gq_deadline_ms p) (gq_extensions_json p) (gq_prompt p) (gq_session p).

(** The request [dispatch_once] and [run_prefill] send to an agent. *)
Definition agent_request (id : string) (prefill_only decode_only : bool) (blocks digests : list (list Z)) (p : GenerateRequest)
    : AgentGenerateRequest :=
  mkAgentGenerate id (gq_model p) (gq_messages p) (gq_params p) prefill_only decode_only blocks (gq_traceparent p) (gq_tracestate p)
    (gq_extensions_json p) digests (gq_prompt p).
End build.

(** ** Handlers *)

Inductive HttpReply :=
| Http_Refused (r : Refusal)
| Http_BadRequest (message : string)
| Http_Served (r : Reply).

Section handlers.
Context `{SerdeJson} `{Blake3} (ln_f32 : f32 -> f32).

(** [open] on a whole request, and the state it works on. *)
Context {St : Type} (open : GenerateRequest -> St -> St * result Flow Error).

(** Configuration, ledger and what the request came with. *)
Variables (cfg : Config) (sample : CarbonSample) (header : string -> option string) (principal : option Principal).
(** The random part of the response's id, its time stamp, and how much of a
    stream the client takes. *)
Variables (uuid : string) (created now : Z) (client : nat).

Definition response_ctx (prefix model : string) (surface : Surface) (usage : bool) (caller : Caller) : ResponseCtx :=
  mkCtx (prefix +:+ "-" +:+ uuid) created model surface usage caller.

Definition serve_proto (proto : GenerateRequest) (casc : option Cascade) (ctx : ResponseCtx) (stream : bool) (s : St) (l : Ledger)
    : option (St * Ledger * HttpReply) :=
  let p := apply_headers header proto in
  r ← serve ln_f32 (fun model logprobs => open (step_request p model logprobs)) (cfg_carbon cfg) sample (chars <$> header "x-cgn-priority")
    casc (gq_model p) false stream ctx now client s l;
  let '(s, l, reply) := r in Some (s, l, Http_Served reply).

(** [n.is_some_and(|n| n != 1)]. *)
Definition many_choices (n : option Z) : bool := match n with Some n => negb (n =? 1)%Z | None => false end.

Definition chat_completions (req : ChatRequest) (s : St) (l : Ledger) : option (St * Ledger * HttpReply) :=
  match authorize cfg l principal (lit "chat") (chars (cr_model req)) now with
  | Err r => Some (s, l, Http_Refused r)
  | Ok caller =>
      if many_choices (cr_n req) then Some (s, l, Http_BadRequest "only n=1 is supported")
      else
        let casc := if pins_model req then None else Cascade_from_config cfg (cr_model req) [] in
        let ctx := response_ctx "chatcmpl" (cr_model req) Surface_Chat (default false (include_usage <$> cr_stream_options req)) caller in
        serve_proto (build_proto_request cfg req caller) casc ctx (default false (cr_stream req)) s l
  end.

Definition text_completions (req : CompletionRequest) (s : St) (l : Ledger) : option (St * Ledger * HttpReply) :=
  match authorize cfg l principal (lit "chat") (chars (tr_model req)) now with
  | Err r => Some (s, l, Http_Refused r)
  | Ok caller =>
      if many_choices (tr_n req) then Some (s, l, Http_BadRequest "only n=1 is supported")
      else if bool_decide (tr_echo req = Some true) then Some (s, l, Http_BadRequest "echo is not supported")
      else if is_some (tr_logprobs req) then Some (s, l, Http_BadRequest "logprobs is not supported on /v1/completions")
      else
        match (match tr_prompt req with Prompt_One p => Some p | Prompt_Many [p] => Some p | Prompt_Many _ => None end) with
        | None => Some (s, l, Http_BadRequest "prompt arrays must hold exactly one string")
        | Some prompt =>
            if is_empty prompt then Some (s, l, Http_BadRequest "prompt must not be empty")
            else
              let ctx := response_ctx "cmpl" (tr_model req) Surface_Text (default false (include_usage <$> tr_stream_options req)) caller in
              serve_proto (text_proto cfg req prompt caller) None ctx (default false (tr_stream req)) s l
        end
  end.
End handlers.
