(* ===== verification/Carbon.v ===== *)
(** * Grid carbon intensity

    [cgn-router/src/carbon]: the providers of [provider.rs], the tracker and the
    poller of [mod.rs], and what they do to the requests of [Chat]. The answers of
    the providers' servers and the clock are arguments. *)

From S2P Require Import Prelude StringFacts Float32 Hash Config Proto Text Json Prompt Auth Usage OpenAi Stream Chat Metrics.

(** ** [provider.rs] *)

Inductive IntensityProvider :=
| StaticProvider (intensity : f64)
| ElectricityMapsProvider (zone token : string)
| WattTimeProvider (region token : string).

Definition provider_name (p : IntensityProvider) : string :=
  match p with StaticProvider _ => "static" | ElectricityMapsProvider _ _ => "electricitymaps" | WattTimeProvider _ _ => "watttime" end.

Definition build_provider (cfg : CarbonConfig) : result IntensityProvider Error :=
  match cb_provider cfg with
  | CarbonProviderKind_Static => Ok (StaticProvider (cb_static_intensity cfg))
  | CarbonProviderKind_ElectricityMaps =>
      if String.eqb (cb_api_token cfg) "" then Err (Error_Config "[carbon].api_token is required for provider electricitymaps")
      else Ok (ElectricityMapsProvider (cb_zone cfg) (cb_api_token cfg))
  | CarbonProviderKind_WattTime =>
      if String.eqb (cb_api_token cfg) "" then Err (Error_Config "[carbon].api_token is required for provider watttime")
      else Ok (WattTimeProvider (cb_zone cfg) (cb_api_token cfg))
  end.

(** A request: its address and the header that authenticates it. *)
Record Get := mkGet { get_url : string; get_header : string * string }.

(** What the requests of one poll are answered, the first, second and third. *)
Abbreviation Web := (nat -> Get -> OpenAi.Reply).

Definition bearer_auth (token : string) : string * string := ("authorization", "Bearer " +:+ token).

(** A struct of one number that has two names. *)
Definition de_one_f64 (name alias : string) (v : Json) : option f64 :=
  match v with
  | JObject f => match List.filter (fun e => String.eqb e.1 name || String.eqb e.1 alias) f with [(_, x)] => de_f64 x | _ => None end
  | JArray [x] => de_f64 x
  | _ => None
  end.

Definition de_electricity_maps : Json -> option f64 := de_one_f64 "carbon_intensity" "carbonIntensity".
Definition de_watttime_point : Json -> option f64 := de_one_f64 "value" "marginal".

Definition index_url (region : string) : string := "https://api.watttime.org/v3/signal-index?region=" +:+ region +:+ "&signal_type=co2_moer".

Section fetch.
Context `{SerdeJson} `{Reqwest}.

Definition sent (r : OpenAi.Reply) (what : string) : result HttpResponse Error :=
  match r with Ok resp => Ok resp | Err e => Err (Error_Internal (what +:+ ": " +:+ e)) end.

(** [resp.json().await]. *)
Definition decoded {A} (de : Json -> option A) (resp : HttpResponse) (what : string) : result A Error :=
  match body_bytes (rs_chunks resp) with
  | Err e => Err (Error_Internal (what +:+ ": " +:+ e))
  | Ok b => match json_tree (of_bytes b) ≫= de with Some x => Ok x | None => Err (Error_Internal (what +:+ ": " +:+ decode_error b)) end
  end.

Definition http_error (name : string) (resp : HttpResponse) : Error :=
  Error_Internal (name +:+ " HTTP " +:+ status_display (rs_status resp) +:+ ": " +:+ text_or_default resp).

Definition first_point (resp : HttpResponse) : result f64 Error :=
  let? points := decoded (de_vec de_watttime_point) resp "watttime decode" in
  match points with x :: _ => Ok x | [] => Err (Error_Internal "watttime returned empty index") end.

Definition fetch (p : IntensityProvider) (web : Web) : result f64 Error :=
  match p with
  | StaticProvider intensity => Ok intensity
  | ElectricityMapsProvider zone token =>
      let? resp := sent (web 0 (mkGet ("https://api.electricitymap.org/v3/carbon-intensity/latest?zone=" +:+ zone) ("auth-token", token)))
        "electricitymaps request" in
      if negb (is_success (rs_status resp)) then Err (http_error "electricitymaps" resp)
      else decoded de_electricity_maps resp "electricitymaps decode"
  | WattTimeProvider region token =>
      let? resp := sent (web 0 (mkGet (index_url region) (bearer_auth token))) "watttime request" in
      if negb (is_success (rs_status resp)) then
        let? fallback := sent (web 1 (mkGet ("https://api.watttime.org/v3/region-from-loc?region=" +:+ region) (bearer_auth token)))
          "watttime region lookup" in
        if negb (is_success (rs_status fallback)) then Err (http_error "watttime" resp)
        else
          let? answer := decoded de_value fallback "watttime region decode" in
          let region_code := default region (json_get "region" answer ≫= as_str) in
          let? resp := sent (web 2 (mkGet (index_url region_code) (bearer_auth token))) "watttime index" in
          if negb (is_success (rs_status resp)) then Err (http_error "watttime" resp) else first_point resp
      else first_point resp
  end.

(** ** [mod.rs] *)

(** The sample, with the zone, the provider and the time of its poll. *)
Record CarbonTracker := mkTracker { tr_sample : CarbonSample; tr_zone : string; tr_provider : string; tr_updated : Z }.

Definition CarbonTracker_new (now : Z) : CarbonTracker := mkTracker (mkSample f64_zero true) "" "" now.

(** The tracker and the gauge of each zone. *)
Record Poller := mkPoller { po_tracker : CarbonTracker; po_gauge : gmap string f64 }.

Definition CarbonTracker_store (x : f64) (zone provider : string) (now : Z) (po : Poller) : Poller :=
  mkPoller (mkTracker (mkSample x false) zone provider now) (<[zone := x]> (po_gauge po)).

Definition poll_once (cfg : CarbonConfig) (p : IntensityProvider) (now : Z) (web : Web) (po : Poller) : Poller * result unit Error :=
  match fetch p web with
  | Err e => (po, Err e)
  | Ok x =>
      let zone := if String.eqb (cb_zone cfg) "" then "static" else cb_zone cfg in
      (CarbonTracker_store x zone (provider_name p) now po, Ok tt)
  end.

(** [spawn]: each poll at its time with the answers it gets. *)
Definition carbon_spawn (cfg : CarbonConfig) (polls : list (Z * Web)) (po : Poller) : Poller :=
  if negb (cb_enabled cfg) then po
  else
    match build_provider cfg with
    | Err _ => po
    | Ok p => foldl (fun po poll => (poll_once cfg p poll.1 poll.2 po).1) po polls
    end.

(** * Properties *)

Definition reading (p : IntensityProvider) (poll : Z * Web) : option f64 := match fetch p poll.2 with Ok x => Some x | Err _ => None end.

(** The readings of a router that has made these polls. *)
Definition readings (cfg : CarbonConfig) (polls : list (Z * Web)) : list f64 :=
  if cb_enabled cfg then match build_provider cfg with Ok p => omap (reading p) polls | Err _ => [] end else [].

Lemma polls_last cfg p polls po :
  let po' := foldl (fun po poll => (poll_once cfg p poll.1 poll.2 po).1) po polls in
  tr_sample (po_tracker po') = match last (omap (reading p) polls) with Some x => mkSample x false | None => tr_sample (po_tracker po) end.
Proof.
  cbn zeta. induction polls as [|[now web] polls IH] using rev_ind; [done|]. rw foldl_snoc omap_app last_app. cbn [omap list_omap].
  rw /reading /poll_once /=. destruct (fetch p web) as [x|e]; [done|]. cbn. exact IH.
Qed.

Lemma spawn_sample cfg polls now : tr_sample (po_tracker (carbon_spawn cfg polls (mkPoller (CarbonTracker_new now) ∅)))
  = match last (readings cfg polls) with Some x => mkSample x false | None => mkSample f64_zero true end.
Proof.
  rw /carbon_spawn /readings. destruct (cb_enabled cfg); [|done]. destruct (build_provider cfg) as [p|e]; [|done]. cbn. by rw polls_last.
Qed.

(** A fixed intensity is read at every poll. *)
Lemma static_reading cfg polls : cb_enabled cfg = true -> cb_provider cfg = CarbonProviderKind_Static -> polls <> [] ->
  last (readings cfg polls) = Some (cb_static_intensity cfg).
Proof.
  intros He Hp Hne. rw /readings He /build_provider Hp. destruct polls as [|poll polls _] using rev_ind; [done|]. by rw omap_app last_app.
Qed.

(** Without a token there is never a reading: the gate stays open. *)
Lemma tokenless_open cfg polls : cb_provider cfg <> CarbonProviderKind_Static -> cb_api_token cfg = "" -> readings cfg polls = [].
Proof. intros Hp Ht. rw /readings /build_provider Ht. by destruct (cb_enabled cfg), (cb_provider cfg). Qed.

(** A reading is a number in an answer that succeeded, to a request that carries
    the token. *)
Definition sends_token (p : IntensityProvider) (g : Get) : Prop :=
  match p with
  | StaticProvider _ => False
  | ElectricityMapsProvider _ token => get_header g = ("auth-token", token)
  | WattTimeProvider _ token => get_header g = bearer_auth token
  end.
Definition answer_value (p : IntensityProvider) (resp : HttpResponse) : option f64 :=
  match body_bytes (rs_chunks resp) with
  | Err _ => None
  | Ok b => json_tree (of_bytes b) ≫= (fun v => match p with
      | WattTimeProvider _ _ => de_vec de_watttime_point v ≫= head
      | _ => de_electricity_maps v
      end)
  end.

Lemma decoded_ok {A} (de : Json -> option A) resp what x :
  decoded de resp what = Ok x <-> exists b, body_bytes (rs_chunks resp) = Ok b /\ json_tree (of_bytes b) ≫= de = Some x.
Proof.
  rw /decoded. destruct (body_bytes _) as [b|e]; [|split; [done|by intros (? & ? & _)]]. destruct (json_tree (of_bytes b) ≫= de) as [y|] eqn:E.
  - split; [intros [= <-]; by exists b|by intros (b' & [= <-] & E'); rw E in E'; injection E' as <-].
  - split; [done|]. intros (b' & [= <-] & E'). congruence.
Qed.

Lemma first_point_ok p resp x : (exists r t, p = WattTimeProvider r t) -> first_point resp = Ok x -> answer_value p resp = Some x.
Proof.
  intros (r & t & ->). rw /first_point. destruct (decoded _ _ _) as [points|e] eqn:Ed; [|done]. cbn. apply decoded_ok in Ed as (b & Eb & Ej).
  destruct points as [|y points]; [done|]. intros [= <-]. rw /answer_value Eb. destruct (json_tree _) as [v|]; [|done]. cbn in Ej |- *. by rw Ej.
Qed.

Lemma fetched_from p web x : fetch p web = Ok x ->
  p = StaticProvider x \/ exists n g resp, web n g = Ok resp /\ sends_token p g /\ is_success (rs_status resp) = true /\ answer_value p resp = Some x.
Proof.
  assert (Hs : forall r what resp, sent r what = Ok resp -> r = Ok resp) by (intros [?|?] ? ?; [by intros [= ->]|done]).
  destruct p as [y|zone token|region token]; cbn [fetch]; [intros [= ->]; by left|intros Hx; right; revert Hx ..].
  - destruct (sent _ _) as [resp|e] eqn:E1; [|done]. cbn. apply Hs in E1. destruct (is_success (rs_status resp)) eqn:Ec; cbn; [|done].
    intros (b & Eb & Ej)%decoded_ok. exists 0. eexists _, resp. split; [exact E1|]. split; [done|]. split; [done|]. by rw /answer_value Eb.
  - destruct (sent (web 0 _) _) as [resp|e] eqn:E1; [|done]. cbn. apply Hs in E1. destruct (is_success (rs_status resp)) eqn:Ec; cbn.
    { intros Hx%(first_point_ok (WattTimeProvider region token)); [|by eexists _, _]. exists 0. eexists _, resp. by split_and!; [exact E1| | |]. }
    destruct (sent (web 1 _) _) as [fb|e] eqn:E2; [|done]. cbn. destruct (is_success (rs_status fb)); cbn; [|done].
    destruct (decoded _ fb _) as [ans|e]; [|done]. cbn. destruct (sent (web 2 _) _) as [resp'|e] eqn:E3; [|done]. cbn. apply Hs in E3.
    destruct (is_success (rs_status resp')) eqn:Ec'; cbn; [|done]. intros Hx%(first_point_ok (WattTimeProvider region token)); [|by eexists _, _].
    exists 2. eexists _, resp'. by split_and!; [exact E3| | |].
Qed.

(** The last reading: polls that fail after it change nothing. *)
Lemma last_reading cfg polls x : last (readings cfg polls) = Some x ->
  exists p before poll after, build_provider cfg = Ok p /\ polls = before ++ poll :: after /\ Forall (fun q => reading p q = None) after /\
    (p = StaticProvider x \/ exists n g resp, poll.2 n g = Ok resp /\ sends_token p g /\ is_success (rs_status resp) = true /\ answer_value p resp = Some x).
Proof.
  rw /readings. destruct (cb_enabled _); [|done]. destruct (build_provider _) as [p|e]; [|done].
  induction polls as [|poll polls IH] using rev_ind; [done|]. rw omap_app last_app. cbn [omap list_omap]. destruct (reading p poll) as [y|] eqn:Er; cbn [last].
  - intros [= ->]. exists p, polls, poll, []. split; [done|]. split; [done|]. split; [constructor|]. rw /reading in Er.
    destruct (fetch p poll.2) as [z|e] eqn:Ef; [|done]. injection Er as ->. by apply fetched_from.
  - intros (p' & before & q & after & [= <-] & -> & Ha & Hq)%IH. exists p, before, q, (after ++ [poll]). split; [done|].
    split; [by rw -app_assoc|]. split; [by apply Forall_app; repeat constructor|done].
Qed.

End fetch.

(** ** The gate *)

Section gate.
Context `{SerdeJson} `{Reqwest} `{Blake3} (ln_f32 : f32 -> f32) {St : Type} (open : GenerateRequest -> St -> St * result Flow Error).
Variables (cfg : Config) (header : string -> option string) (principal : option Principal) (uuid : string) (created now : Z) (client : nat).

(** A reading above the threshold, and a client that can wait. *)
Definition deferrable : bool :=
  match header "x-cgn-priority" with Some v => bool_decide (RequestPriority_parse_header (chars v) = Priority_Low) | None => false end.
Definition defers (r : option f64) : bool :=
  match r with Some x => SFltb (cb_intensity_threshold (cfg_carbon cfg)) x && deferrable | None => false end.

(** What the gate makes of a handler's outcome: a request that would be worked on
    is refused with nothing done. *)
Definition deferred (r : option f64) (s : St) (l : Ledger) (ungated : option (St * Ledger * HttpReply)) : option (St * Ledger * HttpReply) :=
  if defers r then
    match ungated with
    | Some (_, _, Http_Refused _) | Some (_, _, Http_BadRequest _) => ungated
    | _ => Some (s, l, Http_Served (Reply_Error 429 false))
    end
  else ungated.

Definition unread : CarbonSample := mkSample f64_zero true.
Definition sampled (r : option f64) : CarbonSample := match r with Some x => mkSample x false | None => unread end.

Lemma serve_proto_deferred r proto casc ctx stream s l : (forall x, r = Some x -> cb_enabled (cfg_carbon cfg) = true) ->
  serve_proto ln_f32 open cfg (sampled r) header now client proto casc ctx stream s l
  = deferred r s l (serve_proto ln_f32 open cfg unread header now client proto casc ctx stream s l).
Proof.
  intros He. assert (Hu : forall p, check_admission (cfg_carbon cfg) unread p = Carbon_Admit) by (intros p; rw /check_admission /=; by case_match).
  rw /deferred /defers /deferrable /serve_proto /serve. destruct r as [x|]; [|done]. cbn [sampled]. rw Hu /check_admission (He x eq_refl) /=.
  destruct (header "x-cgn-priority") as [v|]; cbn [fmap option_fmap option_map]; [|by rw andb_false_r].
  destruct (bool_decide (RequestPriority_parse_header (chars v) = Priority_Low)); [|by rw andb_false_r]. rw andb_true_r. cbn [negb].
  destruct (SFltb (cb_intensity_threshold (cfg_carbon cfg)) x); [|done]. cbn [mbind option_bind]. by repeat case_match.
Qed.

Abbreviation chat sample := (chat_completions ln_f32 open cfg sample header principal uuid created now client).
Abbreviation text sample := (text_completions ln_f32 open cfg sample header principal uuid created now client).

(** C38. After any polls, with whatever their servers answered, the gate is a
    function of the last reading alone: both completion endpoints answer as if
    there were no gate, except that a request of low priority that would have been
    worked on is refused with 429, and nothing done or charged, while the last
    reading is above the threshold. A reading that counts is a number in a
    successful answer to a request with the provider's token, or the configured
    one; polls that fail after it change nothing. *)
Theorem carbon_gate_exact polls t0 :
  let r := last (readings (cfg_carbon cfg) polls) in
  let sample := tr_sample (po_tracker (carbon_spawn (cfg_carbon cfg) polls (mkPoller (CarbonTracker_new t0) ∅))) in
  (forall req s l, chat sample req s l = deferred r s l (chat unread req s l)) /\
  (forall req s l, text sample req s l = deferred r s l (text unread req s l)) /\
  (forall x, r = Some x -> exists p before poll after, build_provider (cfg_carbon cfg) = Ok p /\ polls = before ++ poll :: after /\
     Forall (fun q => reading p q = None) after /\
     (p = StaticProvider x \/ exists n g resp, poll.2 n g = Ok resp /\ sends_token p g /\ is_success (rs_status resp) = true /\ answer_value p resp = Some x)).
Proof.
  intros r sample. assert (Es : sample = sampled r) by apply spawn_sample.
  assert (He : forall x, r = Some x -> cb_enabled (cfg_carbon cfg) = true) by (intros x; rw /r /readings; by destruct (cb_enabled _)).
  assert (Hn : forall s l (o : option (St * Ledger * HttpReply)), (exists s l r, o = Some (s, l, Http_Refused r)) \/ (exists s l m, o = Some (s, l, Http_BadRequest m)) -> deferred r s l o = o).
  { intros s l o [(? & ? & ? & ->)|(? & ? & ? & ->)]; rw /deferred; by case_match. }
  rw Es. split; [|split].
  - intros req s l. rw /chat_completions. destruct (authorize _ _ _ _ _ _) as [caller|rf]; [|rw Hn //; left; by eexists _, _, _].
    destruct (many_choices _); [rw Hn //; right; by eexists _, _, _|]. by apply serve_proto_deferred.
  - intros req s l. rw /text_completions. destruct (authorize _ _ _ _ _ _) as [caller|rf]; [|rw Hn //; left; by eexists _, _, _].
    repeat (case_match; first [rw Hn //; right; by eexists _, _, _|idtac]); by apply serve_proto_deferred.
  - apply last_reading.
Qed.
End gate.

(** ** Examples *)

Module CarbonExamples.
Import ToyJson.

#[local] Instance toy_reqwest : Reqwest := {| status_display _ := ""; decode_text _ := ""; decode_error _ := "" |}.

Definition grid (provider : CarbonProviderKind) (token : string) : CarbonConfig :=
  mkCarbonConfig true provider "DE" token (f64_of_Z 500) (f64_of_Z 450) 0.

Definition json_web (body : string) : Web := fun _ _ => Ok (mkResponse 200 [Ok (as_bytes body)]).
Definition down : Web := fun _ _ => Err "timed out".

Definition electricity : string := json_to_string (JObject [("carbonIntensity", JNumber 612); ("zone", JString "DE")]).

(** An outage after a reading leaves the gate where it was. *)
Example outage_keeps_deferring :
  readings (grid CarbonProviderKind_ElectricityMaps "t") [(0%Z, json_web electricity); (300%Z, down); (600%Z, down)] = [f64_of_Z 612]
  /\ last (readings (grid CarbonProviderKind_ElectricityMaps "t") [(0%Z, down); (300%Z, down)]) = None.
Proof. by vm_compute. Qed.

(** The index answers to the name of the region that the lookup gave, the third
    request of the poll. *)
Definition lookup_web : Web := fun n g =>
  match n with
  | 0 => Ok (mkResponse 403 [])
  | 1 => Ok (mkResponse 200 [Ok (as_bytes (json_to_string (JObject [("region", JString "CAISO_NORTH")])))])
  | _ => if String.eqb (get_url g) (index_url "CAISO_NORTH")
         then Ok (mkResponse 200 [Ok (as_bytes (json_to_string (JArray [JObject [("value", JNumber 57)]])))]) else Err "not found"
  end.
Example watttime_lookup : readings (grid CarbonProviderKind_WattTime "t") [(0%Z, lookup_web)] = [f64_of_Z 57].
Proof. by vm_compute. Qed.
End CarbonExamples.
