(* ===== verification/RouterMain.v ===== *)
(** * The router process

    [cgn-router/src/main.rs], the start of the shared state in [state.rs], and the
    watcher of [cluster/watcher.rs] from one connection to the next. etcd is the
    map of [Scaling], its watch a queue of changes; what parsing an address,
    binding a port and the file system answer is given. *)

From S2P Require Import Prelude StringFacts Float32 Hash PrefixIndex Text BTree Json Cluster Config Routing Admission Spawn Usage Prompt AgentGrpc Health Scaling Stream Carbon.

(** ** [state.rs] *)

Record SharedState (Tokenizer : Type) := mkShared {
  ss_router : RouterState;
  ss_carbon : CarbonTracker;
  ss_admission : gmap (string * Z) System;
  ss_tokenizers : gmap string Tokenizer;
  ss_usage : Ledger;
  ss_channels : gset string;
}.
Arguments mkShared {_}.
Arguments ss_router {_}.
Arguments ss_carbon {_}.
Arguments ss_admission {_}.
Arguments ss_tokenizers {_}.
Arguments ss_usage {_}.
Arguments ss_channels {_}.

Definition initial_policy (w : ScoreWeights) : RoutingPolicy := mkPolicy (sw_kv w) (sw_load w) (sw_power w) (sw_capacity w) (sw_session w).

Definition SharedState_build {Tokenizer} (cfg : Config) (now : Z) : SharedState Tokenizer :=
  mkShared (mkRouterState cfg (cluster_init (secs 60) (initial_policy (rc_score_weights (cfg_router cfg)))) ∅ false)
    (CarbonTracker_new now) ∅ ∅ ∅ ∅.

(** What [bootstrap_cluster_watch] spawns. *)
Inductive Task := PrefixGc | GossipWatcher | EtcdWatcher (endpoints : list string).

Definition bootstrap_cluster_watch (cfg : Config) : list Task :=
  PrefixGc ::
  (if gossip_enabled (cfg_cluster cfg) then [GossipWatcher]
   else match cc_etcd_endpoints (cfg_cluster cfg) with [] => [] | endpoints => [EtcdWatcher endpoints] end).

(** The name the agent's certificate must have. *)
Definition extract_host (uri : string) : option string :=
  after_scheme ← split uri "://" !! 1;
  host ← head (split after_scheme "/") ≫= (fun s => head (split s ":"));
  if String.eqb host "" then None else Some host.

Definition tls_domain (uri : string) : string := default "localhost" (extract_host uri).

Section new.
Context `{UsageFormat} {Tokenizer : Type} (fetch : string -> option string) (from_file : string -> option Tokenizer) (iter : gmap string ModelConfig -> list (string * ModelConfig)).

Definition SharedState_new (cfg : Config) (fs : Fs) (readable : bool) (now : Z) : result (SharedState Tokenizer) Error :=
  match UsageLedger_open (chars <$> au_usage_file (cfg_auth cfg)) fs readable with
  | Err _ => Err (Error_Config "auth.usage_file")
  | Ok usage =>
      let s : SharedState Tokenizer := SharedState_build cfg now in
      Ok (mkShared (ss_router s) (ss_carbon s) (ss_admission s) (Tokenizers_load fetch from_file (iter (cfg_models cfg))) usage (ss_channels s))
  end.

(** ** [main.rs] *)

(** Which addresses parse and whether the HTTP port can be bound. *)
Variables (parses : string -> bool) (binds : bool).

Definition main_start (env : HostEnv) (file : ConfigFile) (fs : Fs) (readable : bool) (now : Z) : result (SharedState Tokenizer) Error :=
  let? cfg := Config_load env file in
  let? state := SharedState_new cfg fs readable now in
  if negb (parses (rc_listen_http (cfg_router cfg))) then Err (Error_Config "router.listen_http")
  else if negb (parses (rc_listen_admin (cfg_router cfg))) then Err (Error_Config "router.listen_admin")
  else if negb binds then Err (Error_Io false)
  else Ok state.

(** [serve_grpc] before it serves: whether with TLS. *)
Definition serve_grpc (cfg : Config) : result bool Error :=
  if negb (parses (rc_listen_grpc (cfg_router cfg))) then Err (Error_Config "router.listen_grpc") else serve_tls (cfg_security cfg).

(** What [select!] sees first; after the signal, whether the HTTP server ended
    within the budget. *)
Inductive Ended := Http_Ended | Admin_Ended | Grpc_Ended | Signalled (drained : bool).

Inductive Streams := Streams_Cut | Streams_Finished.

Definition main_end (ended : Ended) (s : SharedState Tokenizer) (f : FsFaults) (fs : Fs) : RouterState * Streams * Fs * result unit Error :=
  let r := ss_router s in
  let '(r, streams) :=
    match ended with
    | Signalled drained => (mkRouterState (rs_cfg r) (rs_cluster r) (rs_inflight r) true, if drained then Streams_Finished else Streams_Cut)
    | Http_Ended | Admin_Ended | Grpc_Ended => (r, Streams_Cut)
    end in
  (r, streams, (persist (chars <$> au_usage_file (cfg_auth (rs_cfg r))) f (ss_usage s) fs).1, Ok tt).

(** A tick of [spawn_usage_persist]; [None] where it is not spawned. *)
Definition usage_tick (s : SharedState Tokenizer) (f : FsFaults) (fs : Fs) : option Fs :=
  match au_usage_file (cfg_auth (rs_cfg (ss_router s))) with
  | None => None
  | Some p => Some (persist (Some (chars p)) f (ss_usage s) fs).1
  end.
End new.

(** ** [watcher.rs], from connection to connection *)

Inductive Change := Put (k v : string) | Delete (k : string).

Definition change_key (c : Change) : string := match c with Put k _ | Delete k => k end.
Definition apply_change (e : Etcd) (c : Change) : Etcd := match c with Put k v => <[k := v]> e | Delete k => delete k e end.

Definition key_str (k : string) : option string := if utf8_ok k then Some k else None.

Section watcher.
Context `{SerdeJson}.

(** An event of the watch on the nodes. *)
Definition node_event (now : Z) (c : Change) : cluster_event :=
  match c with Put _ v => NodePut now (read_node now v) | Delete k => NodeDelete (key_str k) end.

(** [run_etcd_watcher] up to its watch. *)
Definition watcher_snapshot (f : EtcdFaults) (now : Z) (e : Etcd) (st : ClusterState) : ClusterState * result unit Error :=
  if ef_connect f then (st, Err (Error_Etcd "connect"))
  else if ef_get f NODES_PREFIX then (st, Err (Error_Etcd "get nodes"))
  else
    let nodes := map (fun kv => read_node now kv.2) (get_prefix NODES_PREFIX e) in
    let policy := if ef_get f POLICY_KEY then None else e !! POLICY_KEY ≫= read_policy in
    let cordons := if ef_get f CORDON_PREFIX then [] else map (fun kv => key_str kv.1) (get_prefix CORDON_PREFIX e) in
    (run_etcd_snapshot now nodes policy cordons st, Ok tt).

(** Where the loop of [bootstrap_cluster_watch] is: waiting to connect, between
    the snapshot and the watch, or watching, with the changes on their way. *)
Inductive Phase := Waiting | Snapped | Watching (queue : list Change).

(** [wo_missed] is no part of the program: the nodes whose key changed when no
    watch was open, or was open and broke before it told. *)
Record World := mkWorld { wo_etcd : Etcd; wo_cluster : ClusterState; wo_phase : Phase; wo_missed : gset string }.

Inductive Step :=
| Changed (c : Change)
| Snapshot (f : EtcdFaults) (now : Z)
| Watch (opens : bool)
| Delivered (now : Z)
| StreamEnds
| Heard (ev : cluster_event).

(** Of the other watchers and the collection of old claims. *)
Definition elsewhere (ev : cluster_event) : bool := match ev with NodePut _ _ | NodeDelete _ => false | _ => true end.

Definition node_key (k : string) : option string := Cluster.strip_prefix NODES_PREFIX k.
Definition key_ids (k : string) : gset string := match node_key k with Some id => {[id]} | None => ∅ end.
Definition queue_ids (q : list Change) : gset string := ⋃ (map (fun c => key_ids (change_key c)) q).

(** What etcd says of a node. *)
Definition etcd_node (e : Etcd) (id : string) : option NodeEntry := e !! (NODES_PREFIX +:+ id) ≫= read_node 0.

(** A change that tells what the node is, or that it is gone. *)
Definition tells (c : Change) : bool := match c with Put _ v => bool_decide (is_Some (read_node 0 v)) | Delete _ => true end.

Definition world_step (w : World) (s : Step) : World :=
  let 'mkWorld e st ph missed := w in
  match s, ph with
  | Changed c, Watching q =>
      mkWorld (apply_change e c) st (Watching (if node_key (change_key c) is Some _ then q ++ [c] else q)) missed
  | Changed c, _ => mkWorld (apply_change e c) st ph (missed ∪ key_ids (change_key c))
  | Snapshot f now, Waiting =>
      match watcher_snapshot f now e st with
      | (st, Err _) => mkWorld e st Waiting missed
      | (st, Ok _) => mkWorld e st Snapped (filter (fun id => etcd_node e id = None) missed)
      end
  | Watch opens, Snapped => mkWorld e st (if opens then Watching [] else Waiting) missed
  | Delivered now, Watching (c :: q) =>
      mkWorld e (watch_event st (node_event now c)) (Watching q) (if tells c then missed ∖ key_ids (change_key c) else missed)
  | StreamEnds, Watching q => mkWorld e st Waiting (missed ∪ queue_ids q)
  | Heard ev, _ => mkWorld e (if elsewhere ev then watch_event st ev else st) ph missed
  | _, _ => w
  end.
End watcher.

(** * Properties *)

(** What a router knows of a node, but for the cordon and the time it heard. *)
Definition said (n : NodeEntry) : NodeEntry :=
  mkNode (node_id n) (address n) (role n) (gpu_index n) (model n) (queue_depth n) (node_free_blocks n)
    (node_total_blocks n) (power_watts n) (watt_limit n) (gpu_name n) (gpu_vendor n) (vram_total_mb n) false
    (kv_epoch n) (ready n) (draining n) (adapters n) 0.

Lemma said_cordon c n : said (with_cordon c n) = said n.
Proof. done. Qed.

Lemma said_set_cordon r id c i : said <$> NodeRegistry_set_cordon r id c !! i = said <$> r !! i.
Proof. rw set_cordon_lookup. case_decide; [|done]. by destruct (r !! i). Qed.

Lemma watched_elsewhere st ev i : elsewhere ev = true -> said <$> cl_nodes (watch_event st ev) !! i = said <$> cl_nodes st !! i.
Proof. destruct ev; try done; intros _; cbn [watch_event]; repeat case_match; rw //= said_set_cordon //. Qed.

Section reading.
Context `{SerdeJson}.

(** The time of reading is the only thing that is not in the text. *)
Lemma de_node_time now v : said <$> de_node_entry now v = said <$> de_node_entry 0 v.
Proof.
  rw /de_node_entry. destruct (struct_members node_fields v) as [f|]; cbn [mbind option_bind]; [|reflexivity].
  repeat match goal with |- context [mbind _ ?o] => destruct o; cbn [mbind option_bind]; [|reflexivity] end. reflexivity.
Qed.

Lemma read_node_time now v : said <$> read_node now v = said <$> read_node 0 v.
Proof. unfold read_node. destruct (json_tree v) as [j|]; cbn [mbind option_bind]; [apply de_node_time|reflexivity]. Qed.

Lemma read_node_id now v n : read_node now v = Some n -> exists n0, read_node 0 v = Some n0 /\ said n = said n0 /\ node_id n0 = node_id n.
Proof.
  intros Hn. pose proof (read_node_time now v) as Ht. rw Hn in Ht. destruct (read_node 0 v) as [n0|]; [|done].
  injection Ht as Ht. exists n0. split; [done|]. split; [by rw /said; f_equal|]. by symmetry.
Qed.
End reading.

(** ** The registry follows etcd *)

Section follows.
Context `{SerdeJson}.

(** What agents and leases do to the keys of the nodes: a record is put under the
    id it has, and a value that is no record is not put over one. *)
Definition change_ok (e : Etcd) (c : Change) : Prop :=
  forall id, node_key (change_key c) = Some id ->
  match c with
  | Put _ v => match read_node 0 v with Some n => node_id n = id | None => etcd_node e id = None end
  | Delete k => utf8_ok k = true
  end.
Definition etcd_wf (e : Etcd) : Prop := forall id n, etcd_node e id = Some n -> node_id n = id.

Fixpoint changes_ok (e : Etcd) (q : list Change) : Prop :=
  match q with [] => True | c :: q => change_ok e c /\ changes_ok (apply_change e c) q end.

Fixpoint steps_ok (w : World) (steps : list Step) : Prop :=
  match steps with
  | [] => True
  | s :: steps => (match s with Changed c => change_ok (wo_etcd w) c | _ => True end) /\ steps_ok (world_step w s) steps
  end.

Definition queue_of (w : World) : list Change := match wo_phase w with Watching q => q | _ => [] end.

(** The registry is what etcd said before the changes on their way, but for the
    nodes that were missed. *)
Definition agrees (e : Etcd) (st : ClusterState) (missed : gset string) : Prop :=
  forall id, id ∉ missed -> said <$> cl_nodes st !! id = said <$> etcd_node e id.
Record follows (w : World) : Prop := {
  follows_heard : exists heard, (forall id, etcd_node (foldl apply_change heard (queue_of w)) id = etcd_node (wo_etcd w) id) /\ changes_ok heard (queue_of w) /\ etcd_wf heard /\
    agrees heard (wo_cluster w) (wo_missed w);
  follows_queue : Forall (fun c => is_Some (node_key (change_key c))) (queue_of w);
}.

Lemma node_key_iff k id : node_key k = Some id <-> k = NODES_PREFIX +:+ id.
Proof. rw /node_key. split; [by apply strip_prefix_iff|intros ->; apply strip_prefix_app]. Qed.

Lemma elem_of_key_ids k id : id ∈ key_ids k <-> node_key k = Some id.
Proof. rw /key_ids. destruct (node_key k); [rw elem_of_singleton; naive_solver|set_solver]. Qed.

Lemma etcd_node_change e c id : etcd_node (apply_change e c) id =
  if decide (node_key (change_key c) = Some id) then match c with Put _ v => read_node 0 v | Delete _ => None end else etcd_node e id.
Proof.
  rw /etcd_node. destruct c as [k v|k]; cbn [apply_change change_key]; case_decide as Hk; rw node_key_iff in Hk;
    [subst k; by rw lookup_insert_eq|by rw lookup_insert_ne|subst k; by rw lookup_delete_eq|by rw lookup_delete_ne].
Qed.

Lemma etcd_wf_change e c : etcd_wf e -> change_ok e c -> etcd_wf (apply_change e c).
Proof.
  intros Hw Hc id n. rw etcd_node_change. case_decide as Hk; [|by apply Hw]. destruct c as [k v|k]; [|done]. intros Hn.
  specialize (Hc id Hk). cbn in Hc. by rw Hn in Hc.
Qed.

Lemma etcd_wf_changes e q : etcd_wf e -> changes_ok e q -> etcd_wf (foldl apply_change e q).
Proof. revert e. induction q as [|c q IH]; intros e Hw Hq; [done|]. destruct Hq as [Hc Hq]. apply IH; [by apply etcd_wf_change|done]. Qed.

Lemma changes_ok_snoc e q c : changes_ok e q -> change_ok (foldl apply_change e q) c -> changes_ok e (q ++ [c]).
Proof. revert e. induction q as [|d q IH]; intros e; [by split|]. intros [Hd Hq] Hc. split; [done|]. by apply IH. Qed.

Lemma elem_of_queue_ids q id : id ∈ queue_ids q <-> exists c, c ∈ q /\ node_key (change_key c) = Some id.
Proof.
  rw /queue_ids elem_of_union_list. split.
  - intros (X & (c & -> & Hc)%list_elem_of_fmap & Hid). exists c. split; [done|]. by apply elem_of_key_ids.
  - intros (c & Hc & Hid%elem_of_key_ids). exists (key_ids (change_key c)). split; [|done]. apply list_elem_of_fmap. by exists c.
Qed.

Lemma etcd_node_changes e q id : id ∉ queue_ids q -> etcd_node (foldl apply_change e q) id = etcd_node e id.
Proof.
  revert e. induction q as [|c q IH]; intros e Hq; [done|]. cbn [foldl]. rw IH.
  - intros Hin. apply Hq, elem_of_queue_ids. apply elem_of_queue_ids in Hin as (d & Hd & Hk). exists d. split; [by right|done].
  - rw etcd_node_change. rw decide_False //. intros Hk. apply Hq, elem_of_queue_ids. exists c. split; [by left|done].
Qed.

(** An event of the watch. *)
Lemma delivered e st missed now c id : change_ok e c -> node_key (change_key c) = Some id -> agrees e st missed ->
  agrees (apply_change e c) (watch_event st (node_event now c)) (if tells c then missed ∖ key_ids (change_key c) else missed).
Proof.
  intros Hc Hk Ha i Hi. rw etcd_node_change. specialize (Hc id Hk). destruct c as [k v|k]; cbn [change_key node_event] in *.
  - rw /tells in Hi. destruct (read_node 0 v) as [n0|] eqn:E0; cycle 1.
    + assert (En : read_node now v = None) by (destruct (read_node now v) as [n|] eqn:E; [apply read_node_id in E as (? & E & _); congruence|done]).
      rw bool_decide_eq_false_2 in Hi; [by intros []|]. rw En. cbn [watch_event]. rw Ha //. case_decide as Hd; [|done].
      rw Hk in Hd. injection Hd as <-. by rw Hc.
    + destruct (read_node now v) as [n|] eqn:E; [|by pose proof (read_node_time now v) as Ht; rw E E0 in Ht].
      apply read_node_id in E as (n0' & E0' & Hs & Hid). rw E0 in E0'. injection E0' as <-.
      cbn [watch_event]. rw /on_node_put. destruct (reconcile _ _ _ _) as [[t p] r]. cbn [cl_nodes]. rw upsert_insert Hk -Hid Hc.
      case_decide as Hd; [injection Hd as <-; rw lookup_insert_eq /= Hs //|]. rw lookup_insert_ne; [congruence|]. apply Ha.
      intros Hm. apply Hi. rw bool_decide_eq_true_2; [by eexists|]. apply elem_of_difference. split; [done|]. rw elem_of_key_ids. congruence.
  - apply node_key_iff in Hk as ->. rw /key_str Hc. cbn [watch_event mbind option_bind]. rw strip_prefix_app. cbn [forget_everywhere cl_nodes].
    rw /NodeRegistry_forget. rw (proj2 (node_key_iff _ id) eq_refl). case_decide as Hd; [injection Hd as ->; by rw lookup_delete_eq|].
    rw lookup_delete_ne; [congruence|]. apply Ha. intros Hm. apply Hi. rw /tells. apply elem_of_difference. split; [done|]. rw elem_of_key_ids (proj2 (node_key_iff _ id) eq_refl). congruence.
Qed.

(** The snapshot. *)
Lemma last_record_in i records n : last_record i records = Some n -> Some n ∈ records /\ node_id n = i.
Proof.
  intros [Hid Hin]%last_Some_elem_of%list_elem_of_filter. split; [|done]. apply list_elem_of_omap in Hin as (x & Hx & E). cbn in E. by subst x.
Qed.

Lemma snapshot_record now e i : etcd_wf e -> let records := map (fun kv => read_node now kv.2) (get_prefix NODES_PREFIX e) in
  said <$> last_record i records = said <$> etcd_node e i.
Proof.
  intros Hw records. assert (Hin : forall n, Some n ∈ records -> exists n0, etcd_node e (node_id n) = Some n0 /\ said n = said n0).
  { intros n ([k v] & E & [Hk [id ->]]%elem_of_get_prefix)%list_elem_of_fmap. symmetry in E. cbn in E. apply read_node_id in E as (n0 & E & Hs & Hid).
    assert (Hn : etcd_node e id = Some n0) by (rw /etcd_node Hk; exact E). exists n0. split; [|done]. by rw -Hid (Hw _ _ Hn). }
  destruct (last_record i records) as [n|] eqn:El.
  - apply last_record_in in El as [Hn <-]. destruct (Hin n Hn) as (n0 & -> & Hs). cbn. by rw Hs.
  - destruct (etcd_node e i) as [n0|] eqn:En; [|done]. exfalso. pose proof (Hw _ _ En) as Hid. rw /etcd_node in En.
    destruct (e !! _) as [v|] eqn:Ev; [|done]. cbn in En. destruct (read_node now v) as [n|] eqn:Er; [|by pose proof (read_node_time now v) as Ht; rw Er En in Ht].
    assert (Hl : i ∈ live_ids_of records); [|by apply last_record_Some in Hl as [? Hl]; rw El in Hl]. apply list_elem_of_fmap. exists n.
    apply read_node_id in Er as Er'. destruct Er' as (n1 & E1 & _ & Hid1). split; [congruence|]. apply list_elem_of_omap. exists (Some n). split; [|done].
    apply list_elem_of_fmap. exists (NODES_PREFIX +:+ i, v). split; [done|]. apply elem_of_get_prefix. split; [done|by exists i].
Qed.

Lemma cordons_said (cordons : list (option string)) : forall st i,
  said <$> cl_nodes (foldl (fun st k => watch_event st (CordonPut k)) st cordons) !! i = said <$> cl_nodes st !! i.
Proof. induction cordons as [|k cordons IH]; intros st i; [done|]. cbn [foldl]. by rw IH watched_elsewhere. Qed.

Lemma snapshot_nodes f now e st st' i : etcd_wf e -> watcher_snapshot f now e st = (st', Ok tt) ->
  said <$> cl_nodes st' !! i = match etcd_node e i with Some n => Some (said n) | None => said <$> cl_nodes st !! i end.
Proof.
  intros Hw. rw /watcher_snapshot. case_match; [done|]. case_match; [done|]. intros [= <-]. rw /run_etcd_snapshot cordons_said watched_elsewhere // put_fold_nodes.
  pose proof (snapshot_record now e i Hw) as Hr. cbn in Hr. cbn [cl_nodes]. destruct (last_record i _), (etcd_node e i); cbn in Hr |- *; congruence.
Qed.

Lemma change_ok_nodes e e' c : (forall id, etcd_node e id = etcd_node e' id) -> change_ok e' c -> change_ok e c.
Proof. intros He Hc id Hid. specialize (Hc id Hid). destruct c as [k v|k]; [|done]. by rw He. Qed.

Lemma change_nodes e e' c : (forall id, etcd_node e id = etcd_node e' id) -> forall id, etcd_node (apply_change e c) id = etcd_node (apply_change e' c) id.
Proof. intros He id. rw !etcd_node_change. by case_decide. Qed.

(** A router that is not watching is behind by nothing but what it missed. *)
Lemma follows_idle e st ph missed : queue_of (mkWorld e st ph missed) = [] -> etcd_wf e -> agrees e st missed -> follows (mkWorld e st ph missed).
Proof. intros Hq Hw Ha. split; rw Hq; [|constructor]. by exists e. Qed.

Lemma idle_follows e st ph missed : queue_of (mkWorld e st ph missed) = [] -> follows (mkWorld e st ph missed) -> etcd_wf e /\ agrees e st missed.
Proof.
  intros Hq [(h & He & _ & Hw & Ha) _]. rw Hq in He. cbn in He, Ha. split.
  - intros id n. rw -He. apply Hw.
  - intros id Hid. rw -He. by apply Ha.
Qed.

Lemma follows_changed e st ph missed c : change_ok e c -> follows (mkWorld e st ph missed) -> follows (world_step (mkWorld e st ph missed) (Changed c)).
Proof.
  intros Hc Hf. assert (Hidle : queue_of (mkWorld e st ph missed) = [] -> (forall q, ph <> Watching q) -> follows (mkWorld (apply_change e c) st ph (missed ∪ key_ids (change_key c)))).
  { intros Hq Hph. apply idle_follows in Hf as [Hw Ha]; [|done]. apply follows_idle; [done|by apply etcd_wf_change|]. intros id [Hm Hk]%not_elem_of_union.
    rw elem_of_key_ids in Hk. rw etcd_node_change decide_False //. by apply Ha. }
  destruct ph as [| |q]; [by apply Hidle|by apply Hidle|]. clear Hidle. cbn [world_step]. destruct Hf as [(h & He & Hq & Hw & Ha) Hk]. cbn in He, Hq, Ha, Hk.
  destruct (node_key (change_key c)) as [id|] eqn:En.
  - split; cbn [queue_of wo_phase wo_etcd wo_cluster wo_missed]; [|apply Forall_app; split; [done|repeat constructor; by rw En]]. exists h. rw foldl_snoc.
    split; [by apply change_nodes|]. split; [|done]. apply changes_ok_snoc; [done|]. by eapply change_ok_nodes.
  - split; [|done]. exists h. split; [|done]. intros id. cbn [queue_of wo_phase wo_etcd]. by rw He etcd_node_change En.
Qed.

Lemma follows_step w s : (match s with Changed c => change_ok (wo_etcd w) c | _ => True end) -> follows w -> follows (world_step w s).
Proof.
  destruct w as [e st ph missed]. intros Hs Hf. destruct s as [c|f now|opens|now| |ev]; [by apply follows_changed|..]; cbn [world_step].
  - destruct ph as [| |q]; try done. apply idle_follows in Hf as [Hw Ha]; [|done]. destruct (watcher_snapshot f now e st) as [st' [[]|x]] eqn:E.
    + apply follows_idle; [done|done|]. intros id Hid. rw (snapshot_nodes f now e st st' id Hw E). destruct (etcd_node e id) as [n|] eqn:En; [done|].
      rw Ha; [|by rw En]. intros Hm. apply Hid, elem_of_filter. by split.
    + apply follows_idle; [done|done|]. rw /watcher_snapshot in E. repeat case_match; try done; by injection E as <- _.
  - destruct ph as [| |q]; try done. apply idle_follows in Hf as [Hw Ha]; [|done]. by apply follows_idle; [destruct opens|..].
  - destruct ph as [| |[|c q]]; try done. destruct Hf as [(h & He & [Hc Hq] & Hw & Ha) Hk]. cbn in He, Ha, Hk. apply Forall_cons in Hk as [[id Hid] Hk].
    split; [|done]. exists (apply_change h c). split_and!; [done|done|by apply etcd_wf_change|by eapply delivered].
  - destruct ph as [| |q]; try done. destruct Hf as [(h & He & Hq & Hw & Ha) Hk]. cbn in He, Hq, Ha. apply follows_idle; [done| |].
    + intros id n. rw -He. by apply etcd_wf_changes.
    + intros id [Hm Hn]%not_elem_of_union. rw -He etcd_node_changes //. by apply Ha.
  - destruct Hf as [(h & He & Hq & Hw & Ha) Hk]. split; [|done]. exists h. split_and!; [done|done|done|]. intros id Hid. cbn [wo_cluster].
    destruct (elsewhere ev) eqn:Ee; [rw watched_elsewhere //|]; by apply Ha.
Qed.

Lemma follows_steps w steps : steps_ok w steps -> follows w -> follows (foldl world_step w steps).
Proof. revert w. induction steps as [|s steps IH]; intros w Hs Hf; [done|]. destruct Hs as [Hs Hr]. cbn [foldl]. apply IH; [done|]. by apply follows_step. Qed.
End follows.

Section process.
Context `{SerdeJson} `{DashIter}.

(** A router that has just been started, with nothing heard. *)
Definition started (e : Etcd) (policy : RoutingPolicy) : World :=
  mkWorld e (cluster_init (secs 60) policy) Waiting (queue_ids (map (fun kv => Put kv.1 kv.2) (map_to_list e))).

Lemma started_follows e policy : etcd_wf e -> follows (started e policy).
Proof.
  intros Hw. apply follows_idle; [done|done|]. intros id Hid. rw lookup_empty /etcd_node. destruct (e !! (NODES_PREFIX +:+ id)) as [v|] eqn:Ev; [|done].
  destruct Hid. apply elem_of_queue_ids. exists (Put (NODES_PREFIX +:+ id) v). split; [|by apply node_key_iff].
  apply list_elem_of_fmap. exists (NODES_PREFIX +:+ id, v). split; [done|]. by apply elem_of_map_to_list.
Qed.

Lemma world_step_wf w s : cluster_wf (wo_cluster w) -> cluster_wf (wo_cluster (world_step w s)).
Proof.
  destruct w as [e st ph missed]. cbn [wo_cluster]. intros Hw. destruct s as [c|f now|opens|now| |ev]; cbn [world_step].
  - by destruct ph.
  - destruct ph; try done. rw /watcher_snapshot. destruct (ef_connect f); [done|]. destruct (ef_get f NODES_PREFIX); [done|]. cbn [wo_cluster]. by eapply cluster_step_wf; [constructor|].
  - by destruct ph.
  - destruct ph as [| |[|c q]]; try done. by apply cluster_wf_event.
  - by destruct ph.
  - cbn [wo_cluster]. case_match; [by apply cluster_wf_event|done].
Qed.

Lemma world_steps_wf w steps : cluster_wf (wo_cluster w) -> cluster_wf (wo_cluster (foldl world_step w steps)).
Proof. revert w. induction steps as [|s steps IH]; intros w Hw; [done|]. by apply IH, world_step_wf. Qed.

Lemma snapshot_keeps f now e st id : is_Some (cl_nodes st !! id) -> is_Some (cl_nodes (watcher_snapshot f now e st).1 !! id).
Proof.
  intros Hi. rw /watcher_snapshot. case_match; [done|]. case_match; [done|]. cbn [fst].
  rw -(fmap_is_Some said) /run_etcd_snapshot cordons_said watched_elsewhere // put_fold_nodes fmap_is_Some. case_match; [by eexists|done].
Qed.

(** C13. A router against etcd, from its start, over any number of connections
    that fail or break anywhere: what it knows of a node is what etcd says, but for
    the changes on their way and the nodes whose key changed while no watch was
    open. It never routes to another node that etcd does not have. A reconnect
    that succeeds makes up for every node that etcd still has, and for no other: a
    snapshot takes no node away, so a node that left in between stays until a
    later event tells of it. *)
Theorem registry_follows_etcd e policy steps : etcd_wf e -> steps_ok (started e policy) steps ->
  let w := foldl world_step (started e policy) steps in
  (forall id, id ∉ wo_missed w ∪ queue_ids (queue_of w) -> said <$> cl_nodes (wo_cluster w) !! id = said <$> etcd_node (wo_etcd w) id) /\
  (forall want m n, n ∈ NodeRegistry_nodes_for (cl_nodes (wo_cluster w)) want m ->
     node_id n ∈ wo_missed w ∪ queue_ids (queue_of w) \/ exists n', etcd_node (wo_etcd w) (node_id n) = Some n' /\ said n = said n') /\
  (wo_phase w = Waiting -> forall now, let w' := foldl world_step w [Snapshot no_faults now; Watch true] in
     wo_phase w' = Watching [] /\
     (forall id, id ∈ wo_missed w' <-> id ∈ wo_missed w /\ etcd_node (wo_etcd w) id = None) /\
     (forall id, is_Some (cl_nodes (wo_cluster w) !! id) -> is_Some (cl_nodes (wo_cluster w') !! id))).
Proof.
  intros Hw Hs. cbn zeta. set (w := foldl world_step _ _). assert (Hf : follows w) by (apply follows_steps; [done|by apply started_follows]).
  assert (Hag : forall id, id ∉ wo_missed w ∪ queue_ids (queue_of w) -> said <$> cl_nodes (wo_cluster w) !! id = said <$> etcd_node (wo_etcd w) id).
  { intros id [Hm Hq]%not_elem_of_union. destruct Hf as [(h & He & _ & _ & Ha) _]. by rw -He etcd_node_changes // Ha. }
  split; [done|]. split.
  - intros want m n [[i Hi] _]%elem_of_nodes_for. cbn in Hi. assert (Hid : node_id n = i).
    { pose proof (world_steps_wf (started e policy) steps) as [Hr _]; [|by eapply Hr]. split; [apply map_Forall_empty|apply wf_new]. }
    destruct (decide (node_id n ∈ wo_missed w ∪ queue_ids (queue_of w))) as [|Hn]; [by left|right]. apply Hag in Hn. rw Hid Hi in Hn |- *.
    destruct (etcd_node (wo_etcd w) i) as [n'|]; [|done]. injection Hn as Hn. exists n'. split; [done|]. rw /said. by f_equal.
  - intros Hp now. destruct w as [e' st ph missed]. cbn in Hp. subst ph. cbn [foldl world_step watcher_snapshot ef_connect ef_get no_faults wo_phase wo_missed wo_etcd wo_cluster].
    split; [done|]. split; [intros id; rw elem_of_filter; naive_solver|]. intros id Hi. by apply (snapshot_keeps no_faults now e' st id).
Qed.
End process.

(** ** Starting and ending *)

Section ending.
Context `{UsageFormat} `{DashIter} {Tokenizer : Type} (s : SharedState Tokenizer).

(** On a signal readiness fails before anything else, whatever the nodes are. *)
Lemma signalled_unready drained f fs : let '(r, _, _, _) := main_end (Signalled drained) s f fs in readiness r = Err "draining".
Proof. done. Qed.

(** A server that ends by itself ends the process, without draining and with
    success: so does a bad address for gRPC, which is only read then. *)
Lemma server_failure_exits_well ended f fs : (forall drained, ended <> Signalled drained) ->
  let '(r, streams, _, code) := main_end ended s f fs in rs_draining r = rs_draining (ss_router s) /\ streams = Streams_Cut /\ code = Ok tt.
Proof. destruct ended as [| | |drained]; [done..|]. intros Hn. by destruct (Hn drained). Qed.
Lemma bad_grpc_starts fetch from_file iter parses env file fs readable now st : main_start (Tokenizer := Tokenizer) fetch from_file iter parses true env file fs readable now = Ok st ->
  parses (rc_listen_grpc (cfg_router (rs_cfg (ss_router st)))) = false -> serve_grpc parses (rs_cfg (ss_router st)) = Err (Error_Config "router.listen_grpc").
Proof. intros _ Hp. by rw /serve_grpc Hp. Qed.
End ending.

(** ** Examples *)

Module RouterExamples.
Import ToyJson Cluster.Examples.

#[local] Existing Instance list_order.

Definition record (id : string) : string := json_to_string (JObject (json_object
  [("node_id", JString id); ("address", JString "http://10.0.0.1:7070"); ("role", JNumber 3); ("model", JString "llama3"); ("queue_depth", JNumber 0);
   ("free_blocks", JNumber 0); ("total_blocks", JNumber 0); ("power_watts", JNumber 0)])).
Definition key (id : string) : string := NODES_PREFIX +:+ id.

(** A node joins while the router watches, and leaves while it does not. *)
Definition outage : list Step :=
  [Snapshot no_faults 0; Watch true; Changed (Put (key "n1") (record "n1")); Delivered 1; StreamEnds; Changed (Delete (key "n1")); Snapshot no_faults 9; Watch true].

Definition routed (w : World) : list string := map node_id (NodeRegistry_nodes_for (cl_nodes (wo_cluster w)) RoleBoth (Some "llama3")).

Lemma registry_follows_etcd_witness :
  let w := foldl world_step (started ∅ policy0) (take 4 outage) in
  said <$> cl_nodes (wo_cluster w) !! "n1" = said <$> etcd_node (wo_etcd w) "n1" /\ is_Some (etcd_node (wo_etcd w) "n1").
Proof.
  assert (Hw : etcd_wf ∅) by (intros id n Hn; rw /etcd_node lookup_empty in Hn; done).
  assert (Hs : steps_ok (started ∅ policy0) (take 4 outage)).
  { cbn [take outage steps_ok]. split; [done|]. split; [done|]. split; [|by split]. intros id Hid. apply node_key_iff in Hid. apply append_cancel in Hid as <-. by vm_compute. }
  destruct (registry_follows_etcd ∅ policy0 (take 4 outage) Hw Hs) as (Ha & _). split; [apply Ha|]; apply (bool_decide_unpack _); by vm_compute.
Defined.

(** It stays a node for requests after the reconnect, and so does one that leaves
    between the snapshot and the watch. *)
Example left_in_outage_routed :
  let w := foldl world_step (started ∅ policy0) outage in (routed w, bool_decide (etcd_node (wo_etcd w) "n1" = None)) = (["n1"], true).
Proof. by vm_compute. Qed.
Example left_in_gap_routed :
  let w := foldl world_step (started {[key "n1" := record "n1"]} policy0) [Snapshot no_faults 0; Changed (Delete (key "n1")); Watch true] in
  (routed w, bool_decide (etcd_node (wo_etcd w) "n1" = None)) = (["n1"], true).
Proof. by vm_compute. Qed.

(** The name in a certificate for an address of IPv6. *)
Example hosts : map extract_host ["https://node-a:7070"; "https://10.0.0.1:7070/x"; "node-a:7070"; "https://[fd00::7]:7070"] = [Some "node-a"; Some "10.0.0.1"; None; Some "[fd00"].
Proof. by vm_compute. Qed.
End RouterExamples.
