(* ===== verification/EndToEnd.v ===== *)
(** * From the client's request to the engine

    A chat request crosses three programs: the gateway turns it into a
    [GenerateRequest] ([Chat]), the agent into a request to its engine
    ([AgentGrpc], [OpenAi]), and the engine's server reads the body
    ([EngineServer]). Here the three are put together. *)

From S2P Require Import Prelude StringFacts Hash Float32 Config Scheduler Proto Text Json Prompt Usage Chat OpenAi EngineServer EngineLink.
From S2P Require Import KvTransport AgentGrpc.

(** ** The extensions on their way *)

Definition ext_names : list string :=
  ["tools"; "tool_choice"; "response_format"; "logit_bias"; "parallel_tool_calls"; "top_logprobs"; "min_p"; "cache_salt"].

Section extensions.
Context `{SerdeJson} `{Blake3}.

Lemma put_ext_sorted k v f : sorted_keys f -> sorted_keys (put_ext k v f).
Proof. intros Hf. destruct v; [by apply obj_insert_sorted|done]. Qed.

Lemma put_ext_keys k v f x : x ∈ map fst (put_ext k v f) -> x = k \/ x ∈ map fst f.
Proof. destruct v; [apply obj_insert_keys|by right]. Qed.

Lemma put_ext_field k v f k' : field k' (put_ext k v f) = match v with Some v => if String.eqb k k' then Some v else field k' f | None => field k' f end.
Proof. destruct v; [apply field_obj_insert|done]. Qed.

Lemma salted_sorted cfg caller r : sorted_keys (salted_ext cfg caller (chat_extensions r)).
Proof.
  assert (Hs : sorted_keys (chat_extensions r)) by (rw /chat_extensions; repeat apply put_ext_sorted; constructor).
  rw /salted_ext. destruct (isolated cfg caller); [by apply obj_insert_sorted|done].
Qed.

Lemma salted_keys cfg caller r x : x ∈ map fst (salted_ext cfg caller (chat_extensions r)) -> x ∈ ext_names.
Proof.
  assert (Hc : x ∈ map fst (chat_extensions r) -> x ∈ ext_names).
  { rw /chat_extensions. intros Hx. do 7 (apply put_ext_keys in Hx as [->|Hx]; [compute_dec|]). by apply elem_of_nil in Hx. }
  rw /salted_ext. destruct (isolated cfg caller); [|exact Hc]. intros [->|Hx]%obj_insert_keys; [compute_dec|by apply Hc].
Qed.

(** The salt is the tenant's. *)
Lemma salted_salt cfg caller r :
  field "cache_salt" (salted_ext cfg caller (chat_extensions r)) = if isolated cfg caller then Some (JString (blake3_hex (tenant_of caller))) else None.
Proof.
  rw /salted_ext. destruct (isolated cfg caller); [by rw field_obj_insert|]. rw /chat_extensions !put_ext_field.
  by repeat case_match.
Qed.
End extensions.

(** What the printed extensions are read back as. *)
Lemma printed_extensions `{SerdeJsonPrint} f : sorted_keys f -> json_ok (JObject f) = true ->
  exists g, json_from_str (json_to_string (JObject f)) = Some (JObject g) /\ sorted_keys g /\ (forall x, x ∈ map fst g -> x ∈ map fst f) /\
    forall k s, field k f = Some (JString s) -> field k g = Some (JString s).
Proof.
  intros Hs Hok. destruct (json_print_parse _ Hok) as (w & E & Hw). symmetry in Hw. apply same_object in Hw as (h & -> & Hh).
  exists (to_members h). rw /json_from_str E /= -/(to_value (JObject h)) to_value_object. split; [done|].
  assert (Hk : map fst f = map fst h) by (clear -Hh; induction Hh as [|a b f h [Hab _] _ IH]; [done|]; by rw /= Hab IH).
  split; [|split].
  - rw /to_members. apply (foldl_ind sorted_keys); [intros acc e _; apply obj_insert_sorted|constructor].
  - intros x Hx%to_members_keys. by rw Hk.
  - intros k s Hf. rw to_members_field; [rw -(same_occurs k f h Hh); by apply sorted_keys_occurs|].
    pose proof (same_field k f h Hh) as Hsame. rw Hf in Hsame. destruct (field k h) as [v|]; [|done]. destruct v; try done.
    injection Hsame as <-. done.
Qed.

(** ** The engine's view of a chat request *)

Section reaches.
Context `{SerdeJsonPrint} `{Blake3} (cfg : Config) (r : ChatRequest) (caller : Caller) (header : string -> option string) (e : OpenAiHttpEngine).
(** What the router and the agent choose: ids, phase hints, digests. *)
Variables (aid : string) (prefill_only decode_only : bool) (blocks digests resident : list (list Z)).

Definition forwarded : Proto.GenerateRequest := apply_headers header (build_proto_request cfg r caller).
Definition engine_req : GenerateReq := generate_req resident (agent_request aid prefill_only decode_only blocks digests forwarded).
Definition engine_body : Json := post_body (generate_post e engine_req).

(** Text only, as far as the engine's own server understands. *)
Definition text_message (m : Chat.ChatMessage) : Prop := exists s, cm_content m = Content_Text s.
Definition chat_turn (m : Chat.ChatMessage) : ChatTurn :=
  mkTurn (cm_role m) (match cm_content m with Content_Text s => s | Content_Parts _ => "" end).

(** The request's own parameters, with the defaults of the API. *)
Definition limit_of : Z := default 0%Z (match cr_max_completion_tokens r with Some n => Some n | None => cr_max_tokens r end).
Definition penalty_of : f32 := default f32_one (cr_repetition_penalty r).
Definition requested_knobs : Knobs :=
  mkKnobs (Some (cr_model r)) (if (0 <? limit_of)%Z then limit_of else 512%Z)
    (Some (default f32_one (cr_temperature r))) (Some (default f32_one (cr_top_p r)))
    (if (0 <? default 0 (cr_top_k r))%Z then cr_top_k r else None)
    (if nonzero penalty_of && negb (SFeqb penalty_of f32_one) then Some penalty_of else None)
    (cr_seed r) (Some (Stop_Many (default [] (StopSpec_into_vec <$> cr_stop r)))) true.

Definition request_ok : Prop :=
  Forall (fun x => f32_valid x /\ is_finite x = true)
    [default f32_one (cr_temperature r); default f32_one (cr_top_p r); penalty_of] /\
  is_u32 limit_of /\ is_u32 (default 0%Z (cr_top_k r)) /\ (forall s, cr_seed r = Some s -> is_u32 s) /\
  cr_messages r <> [] /\ Forall text_message (cr_messages r).

Lemma extensions_sent : extensions_json engine_req = isolation_ext cfg caller (chat_extensions r).
Proof. done. Qed.

(** The extensions, once read by the adapter. *)
Lemma extensions_read : json_ok (JObject (salted_ext cfg caller (chat_extensions r))) = true ->
  Forall (fun k => k ∉ knob_keys) (extension_keys engine_req) /\
  field "cache_salt" (post_fields e engine_req) =
    if isolated cfg caller && String.eqb (kind e) "vllm" then Some (JString (blake3_hex (tenant_of caller))) else None.
Proof.
  intros Hok. pose proof (salted_sorted cfg caller r) as Hs. pose proof (salted_keys cfg caller r) as Hkeys.
  pose proof (salted_salt cfg caller r) as Hsalt. destruct (printed_extensions _ Hs Hok) as (g & Eg & Hg & Hsub & Hstr).
  assert (Hbase : field "cache_salt" (apply_sampling engine_req (chat_mode engine_req) (base_body engine_req)) = None).
  { rw /apply_sampling. destruct (OpenAi.seed engine_req); repeat (rw !field_put_if || rw !field_obj_insert);
      rw /base_body; destruct (chat_mode engine_req); cbn; by rw ?andb_false_r. }
  assert (Hdisj : forall x, x ∈ ext_names -> x ∉ knob_keys).
  { intros x Hx. rw /ext_names in Hx. repeat (apply elem_of_cons in Hx as [->|Hx]; [compute_dec|]). by apply elem_of_nil in Hx. }
  assert (Hkv : forall f, field "cache_salt" (match kv_transfer_params_from_digests (prefix_digests engine_req) (OpenAi.resident_digests engine_req) with
      Some kv => obj_insert "kv_transfer_params" kv f | None => f end) = field "cache_salt" f).
  { intros f. destruct (kv_transfer_params_from_digests _ _); [by rw field_obj_insert|done]. }
  assert (Hne : is_empty (json_to_string (JObject (salted_ext cfg caller (chat_extensions r)))) = false).
  { destruct (json_print_line _ Hok) as (t & Et & _). destruct (json_to_string _); [by destruct t|done]. }
  rw /post_fields /extension_keys extensions_sent Hkv /isolation_ext. destruct (salted_ext cfg caller (chat_extensions r)) as [|x l] eqn:El.
  { split; [constructor|]. rw Hbase. by destruct (isolated cfg caller). }
  rw Hne Eg. cbn [negb]. split.
  { apply Forall_forall. intros k Hk. by apply Hdisj, Hkeys, Hsub. }
  rw field_merge // Hbase. cbn [String.eqb Ascii.eqb Bool.eqb andb]. destruct (isolated cfg caller).
  - rw (Hstr _ _ Hsalt). by destruct (String.eqb (kind e) "vllm").
  - assert (E : field "cache_salt" g = None); [|by rw E]. apply field_absent. intros Hin%Hsub. by apply field_absent in Hsalt.
Qed.

(** C5. What a client asks for is what the engine does: for a chat request of
    text messages the body that reaches the engine's server is read there as the
    request's own messages in order and its own sampling parameters, with the
    API's defaults where the client set none; and the salt of the engine's prefix
    cache is the tenant's hash when tenants are isolated and the engine knows
    salts, and absent otherwise, whatever else the client sent. *)
Theorem chat_request_reaches_engine :
  json_ok engine_body = true -> json_ok (JObject (salted_ext cfg caller (chat_extensions r))) = true -> request_ok ->
  json_tree (json_to_string engine_body) ≫= de_chat_completion_request = Some (mkChatCompletion (map chat_turn (cr_messages r)) requested_knobs) /\
  json_get "cache_salt" engine_body =
    if isolated cfg caller && String.eqb (kind e) "vllm" then Some (JString (blake3_hex (tenant_of caller))) else None.
Proof.
  intros Hok Hext (Hf & Hl & Hk & Hs & Hne & Htext). destruct (extensions_read Hext) as [Hkeys Hsalt]. split; [|exact Hsalt].
  rw /engine_body in Hok |- *. rw chat_body_read //.
  - cbn. rw map_map. clear -Htext. induction Htext as [|m l [s Em] _ IH]; [constructor|]. cbn. constructor; [|exact IH]. by rw /plain /proto_message Em.
  - cbn. rw /chat_mode /=. by destruct (cr_messages r).
  - f_equal. f_equal.
    + cbn. rw !map_map. clear -Htext. induction Htext as [|m l [s Em] _ IH]; [done|]. cbn in *. by rw IH /turn_of /proto_message /chat_turn Em.
    + rw /posted_knobs /requested_knobs. f_equal. cbn. by destruct (cr_top_k r); cbn; repeat case_match.
Qed.
End reaches.

Module EndToEndExamples.
Import ToyJson.

(** A hash whose digests are bytes. *)
#[local] Instance blake : Blake3.
Proof. refine {| blake3 m := foldl (fun h b => (h * 31 + b + 1) mod 256)%Z 0%Z m :: replicate 31 1%Z |}. done. Defined.
#[local] Instance toy_reqwest : Reqwest := {| status_display _ := ""; decode_text _ := ""; decode_error _ := "" |}.
#[local] Instance toy_sse : AxumSse := {| sse_event s := as_bytes ("data: " +:+ s) ++ [10; 10]%Z; sse_keep_alive := [58; 10; 10]%Z |}.

Definition engine : OpenAiHttpEngine := OpenAiHttpEngine_new "vllm" "http://127.0.0.1:8000/".
Definition config : Config := Config_default (mkHostEnv (Some "h") None "0").
Definition caller : Caller := mkCaller (lit "key-1") (lit "acme").
Definition no_header : string -> option string := fun _ => None.
Definition request : ChatRequest :=
  mkChatRequest "m" [mkChatMessage "user" (Content_Text "hi") None None None] (Some f32_zero) None (Some 5%Z) (Some 9%Z) None (Some true) None
    None None (Some (JObject [("1", JNumber 2)])) None None None None (Some (Stop_Single "END")) None None (Some "s1") (Some 0%Z) None None None.

Lemma chat_request_reaches_engine_witness :
  json_tree (json_to_string (engine_body config request caller no_header engine "r1" false false [] [] [])) ≫= de_chat_completion_request
  = Some (mkChatCompletion [mkTurn "user" "hi"]
      (mkKnobs (Some "m") 9 (Some f32_zero) (Some f32_one) None None (Some 0%Z) (Some (Stop_Many ["END"])) true)) /\
  is_Some (json_get "cache_salt" (engine_body config request caller no_header engine "r1" false false [] [] [])).
Proof.
  destruct (chat_request_reaches_engine config request caller no_header engine "r1" false false [] [] []) as [E1 E2].
  - by vm_compute.
  - by vm_compute.
  - split; [by repeat constructor|]. cbn. rw /is_u32 /u32_max. split; [lia|]. split; [lia|]. split; [by intros s [= <-]; lia|].
    split; [done|]. constructor; [by exists "hi"|constructor].
  - split; [exact E1|]. rw E2. by eexists.
Defined.

(** The newer name of the token limit wins, and an unset one is left to the
    engine. *)
Example limits : map (fun r => sp_max_tokens (chat_params r)) [request] = [9%Z].
Proof. done. Qed.

(** A generation that failed inside the engine counts as confirmed: the engine's
    server ends its stream with the finish reason [error], the adapter takes it
    for an answer, and the agent queues the digests of a prompt whose KV cache
    nobody holds. *)
Example failed_generation_confirmed :
  let body := wire (Some <$> surface_stream "chatcmpl-1" 0 "m" true (start_generation (Err (Error_Internal "tokenize")))) in
  let post := fun _ => Ok (mkResponse 200 [Ok body]) in
  let no_kv := mkKvClient (fun _ => Err "refused") (fun _ => Ok []) (fun _ => Ok load_model) (fun _ => Ok load_model) in
  let first := agent_request "r1" false false [] [replicate 32 7%Z] (build_proto_request config request caller) in
  ag_confirmed (agent_generate (fun _ => "") engine post no_kv "" Config.KvOffload_None 9 0 (Some (Ok first)) (mkAgent 0 [])).1
  = [replicate 32 7%Z].
Proof. by vm_compute. Qed.

End EndToEndExamples.
